(* ===== verification/_CoqProject ===== *)
-Q . S2P
Prelude.v
CppString.v
Utility.v
Kinetic.v
Simulator.v
Callbacks.v
ClusterOperation.v
Isa.v
Redundancy.v
Murmur.v
Crc32c.v
StripeOperation.v
Cluster.v
ClusterInterface.v
ClusterDrives.v
ClusterReads.v
ClusterRefinement.v
DataBlock.v
PrefetchOracle.v
BackgroundOperationHandler.v
PoolThreads.v
Destruction.v
Double.v
KineticIo.v
DataCache.v
FileIo.v
FileSpec.v
FileKeys.v
LastBlock.v
FileRead.v
Library.v
AdminCluster.v
AdminListing.v
Connection.v
Listener.v
AdminStatus.v
ClusterMap.v
Configuration.v
Factory.v
AdminTool.v
AdminMain.v
