(* ===== verification/Prelude.v ===== *)
(** * kineticio: a verification development

    kineticio stores the files of a storage system on ethernet attached drives that offer nothing but a
    key-value interface.  A file is cut into blocks, a block is a key of a cluster of drives, a value of a
    cluster is a stripe of data and parity chunks on some of its drives.  The source is C++ under src/; this
    library translates it into functions on explicit states and proves what the parts promise each other.

    ** How the program is modelled

    A member function that can change its object, the drives or anything shared is a function of the monad
    [M S] of the prelude: it takes the state [S] and gives back a new state with an [outcome], which is a value
    ([Ret]), an exception ([Throw]), undefined behaviour ([UB]: a null pointer, an index out of bounds, an invalid
    iterator, a division by zero) or the end of the fuel of a loop ([OutOfFuel]).  An exception keeps the changes made
    before it, as in C++.  [try_catch], [when], [zoom] (an operation of a member) and [with_local] (a pointer held by a
    local variable) are the remaining constructs.  Integers are [Z] and wrap where the code can reach the width:
    [u32], [u64], [i32], [i64].  Strings and buffers are lists of bytes.  Pointers that can be null are options; objects
    that are shared between threads or between owners have addresses and live in a finite map of the state.  Locks are
    modelled by the granularity of steps: a critical section is one step of a relation, and where a theorem is about the
    locks themselves (the thread pool, the destruction of a cluster) the mutex and its condition variables are part of
    the state.

    ** The parts and their files

    - CppString, Utility: the string library, and the keys, urls and versions of src/Utility.cc.
    - Kinetic, Simulator: what the client library, the clock and the uuid generator offer, as the class [Env];
      drives that implement it, for the witnesses.
    - Callbacks (src/KineticCallbacks.cc): the callbacks of asynchronous requests and their shared counter, as a
      transition system of the two threads.
    - ClusterOperation (src/KineticClusterOperation.cc): vectors of operations, their execution, and the flush, log and
      range operations on all drives with their quorums.
    - Isa, Redundancy (src/RedundancyProvider.cc): erasure coding and replication; the arithmetic of isa-l is the class
      [IsaL] with its documented laws, met by a field of 256 elements.
    - Murmur, Crc32c (src/outside/): the key hash and the checksums.
    - StripeOperation (src/KineticClusterStripeOperation.cc): placement, writing, deleting, reading and
      reconstruction of one stripe, with handoff and indicator keys and the resolution of partial writes.
    - Cluster (src/KineticCluster.cc): the cluster object on top of them.  ClusterInterface is the abstract class
      the rest is written against, [ClusterInterface] its operations and [ClusterStore] its promises to a client
      that is alone: a map from keys to versioned values.  Clients prove their theorems against the classes; the
      cluster of Cluster.v is an instance of the first, a plain map of both.  ClusterRefinement shows that the cluster
      answers its clients as a map does, apart from values that fit into no stripe; it builds on
      ClusterDrives, where the drives and what they hold are described, and on ClusterReads, which follows a read
      while drives are down.  Of a range whose ends are exchanged [ClusterStore] promises only what the cluster
      keeps: some keys of the range, in ascending order, not the greatest ones.  Destruction (include/DestructionMutex.hh)
      is the lock that keeps updates in the background away from a cluster that is destroyed, together with the calls that
      schedule updates, the pool that runs them and the mutex they share.
    - DataBlock (src/DataBlock.cc): a block in memory with the regions changed since it was read.
    - PrefetchOracle, Double: predictions for read-ahead; binary64 arithmetic for the thresholds of the cache.
    - BackgroundOperationHandler, PoolThreads (src/BackgroundOperationHandler.cc): the thread pool, first with its
      member functions as atomic steps, then with mutex, condition variables and destructor; the second refines
      the first.
    - KineticIo, DataCache (src/DataCache.cc): the state all files share, and the block cache in it.
    - FileIo (src/FileIo.cc): the operations of a file object, on cache, pool and cluster.  FileSpec, FileKeys and
      FileRead prove what they promise: the bytes of a file, its keys, and reading back what was written; LastBlock
      follows the search for the end of a file down to the drives of its cluster.
    - Library: all requests, background tasks and critical sections of the library as one transition system, and the
      invariant of the shared state.
    - AdminCluster, AdminStatus (src/KineticAdminCluster.cc): counting, scanning, repairing and removing all keys of a
      cluster; its status, with the benchmarks of single drives.  AdminListing follows the page loop and its tasks on a
      cluster of drives that hold a map.
    - Connection (src/KineticAutoConnection.cc): connections that reconnect, with their threads, and the set of sockets
      they are registered in.
    - Listener (src/SocketListener.cc): the thread that waits for events on these sockets, and its end.
    - ClusterMap (src/ClusterMap.cc): creation and sharing of clusters and redundancy providers.
    - Configuration (src/KineticIoSingleton.cc): reading and installing the configuration; json-c is the class
      [Json] with its documented laws [JsonLaws].
    - Factory (src/KineticIoFactory.cc, include/Logging.hh): what users of the library call first, and the logger.
    - AdminTool, AdminMain (tools/admin.cc): the arguments of the command line program; what it does and prints, on top
      of the interface of AdminCluster and AdminStatus, and its variant for EOS.

    A file calls the cache for its blocks, the cache calls blocks to flush and the pool to flush later, a block calls its
    cluster, the cluster runs stripe operations, these build operation vectors, whose requests go through
    connections to drives and come back through callbacks.  The definitions are composed in the same way, from
    [FileIo.Write] down to [DataBlock.flush] against [ClusterInterface], and from [Cluster.put] down to [Env].

    ** What is proved

    - A cluster is a store: any sequence of calls is answered as a map from keys to versioned values answers it, from the
      interface down to the requests of every drive ([cluster_is_a_store]).
    - Data survives: a stripe is read back with up to [nParity] chunks lost ([stripe_roundtrip],
      [erasure_roundtrip]), reads go on while drives are down ([reads_survive_losses], and with damaged chunks
      [get_serves_value]), a put reports only what a quorum
      confirmed ([put_reports_quorum]), checksums are the ones of the standard ([crc32c_is_reference]).
    - Files are arrays of bytes: a write changes exactly its region ([file_write]), a read returns what is remembered
      ([file_read]) and so what was written ([read_your_writes]), over any number of blocks and whatever the cache
      evicts; attributes are a map ([file_attributes]), opening and the reporting of errors do what is documented.
      Three operations do what is documented under conditions that the theorems state, and something else otherwise:
      attributes are listed once if they fit into a reply ([file_attribute_list]); removal then removes the keys of the
      file, with a range of blocks that can hold those of another file ([file_remove]); the search for the end finds the
      last block if stripes are as wide as the cluster ([file_last_block], [last_block_missed]).
    - Blocks merge concurrent changes region by region and publish them in at most two attempts when nobody
      interferes ([block_flush], [block_read], [block_write]).
    - Shared structures stay consistent: the tables of the cache ([cache_lookup], [cache_drop], [cache_flush],
      [library_wellformed]), the counter of outstanding requests, the connection objects, the cluster map, the
      configuration.
    - Things end: operation vectors, the polling loops of put and delete, attribute listings, the page
      loop of administrative operations on healthy drives ([admin_listing]), the threads of the pool, which run every task
      that was queued ([pool_liveness]), the thread of the listener when it is told to ([listener_shutdown]), and the
      destruction of a cluster, which no update outlives ([cluster_outlives_updates]).  Not so a call of [stats] that
      runs its update itself, or waits for the thread that waits for it ([stats_waits_for_itself_happens],
      [stats_waits_for_worker_happens]).
    - Administration reports what happened: the status of every connection, without leaving a trace ([cluster_status]),
      and sums that are read back from the line printed for them ([tool_report]).
    - Decisions are those the answers allow: quorums, merged ranges, scan verdicts, counts of repaired keys.
    - Names are unambiguous and ordered: data keys, key spaces, versions, placement, command lines.

    Lemmas that show behaviour the code probably does not intend stand next to the definitions they are about,
    under headings such as "What the cache does not guarantee".

    ** Loops and fuel

    Loops over data are structural.  Loops that the data does not bound take fuel, and theorems say how much is
    enough: [fuel] of [FileIo.Read] and [Write] is the number of rounds, one more than the blocks of the region
    (reading needs another one, for the round that is repeated when the end of the file has moved); [restarts] of
    [DataBlock.flush] is how often other clients may come in between, two attempts are enough without them;
    listings need a round per page, so at most one more than there are keys; the polling loops of stripe operations
    end when the clock has advanced by their timeout, which is the law [ClockLaws].  The theorems about them state
    that the code returns, not only what it returns if it does.

    ** Not modelled

    - Messages: what is logged, what exceptions say, and the running count that tools/admin.cc prints while an
      operation lasts.  Its variant for EOS is modelled up to the commands it sends; EOS and XRootD are parameters, and so
      is the decoding of their answers, [resultToString].
    - What a system call does inside: [epoll_wait], [epoll_ctl], [pipe] and the like are single steps that may fail.
    - Accesses to plain variables from two threads, which the code has in a few places, are steps, not races.
    - Wake-ups of condition variables without a notification.
    - The client library of the drives, isa-l, json-c and system calls are parameters with named laws. *)

From Stdlib Require Export Ascii ZArith Lia Sorted.
From stdpp Require Export base numbers list list_numbers option gmap strings countable relations sorting.
Export stdpp.list_basics.list stdpp.list_relations.list.

Declare Scope kio_scope.
Delimit Scope kio_scope with kio.
Open Scope Z_scope.

(** ** Byte strings *)

(** [std::string] and raw buffers are sequences of 8-bit characters. *)
Abbreviation bytes := (list ascii).

(** String literals of the source. *)
Definition str (s : string) : bytes := String.list_ascii_of_string s.
Arguments str : simpl never.

(** [size()] / [length()] of a string, as a machine integer. *)
Definition slen {A} (s : list A) : Z := Z.of_nat (length s).

(** The NUL character, the one [std::string::resize] pads with. *)
Definition NUL : ascii := Ascii.zero.

(** ** Machine integers *)

(** C++ integers are [Z]; the wrap-around of a width is written where the source can reach it. *)
Definition u64 (x : Z) : Z := x mod 2 ^ 64.
Definition u32 (x : Z) : Z := x mod 2 ^ 32.

(** Conversion to a signed 32-bit [int] (two's complement, as on every platform the build supports). *)
Definition i32 (x : Z) : Z := (x + 2 ^ 31) mod 2 ^ 32 - 2 ^ 31.
Definition INT_MAX : Z := 2 ^ 31 - 1.
Definition INT_MIN : Z := - 2 ^ 31.

Lemma u64_small x : 0 <= x < 2 ^ 64 -> u64 x = x.
Proof. intros. by apply Z.mod_small. Qed.

Lemma u64_sub_l a b : u64 (u64 a - b) = u64 (a - b).
Proof. apply Zminus_mod_idemp_l. Qed.

Lemma u64_add_l a b : u64 (u64 a + b) = u64 (a + b).
Proof. apply Zplus_mod_idemp_l. Qed.

Lemma u64_range x : 0 <= u64 x < 2 ^ 64.
Proof. apply Z.mod_pos_bound. lia. Qed.

Lemma u32_small x : 0 <= x < 2 ^ 32 -> u32 x = x.
Proof. intros. by apply Z.mod_small. Qed.

Lemma u32_range x : 0 <= u32 x < 2 ^ 32.
Proof. apply Z.mod_pos_bound. lia. Qed.

Lemma i32_small x : INT_MIN <= x <= INT_MAX -> i32 x = x.
Proof. unfold i32, INT_MIN, INT_MAX. intros. rewrite Z.mod_small; lia. Qed.

(** Bit operations stay within 32 bits. *)
Lemma u32_land x : u32 x = Z.land x (Z.ones 32).
Proof. unfold u32. by rewrite Z.land_ones by lia. Qed.

Lemma lxor_u32 a b : 0 <= a < 2 ^ 32 -> 0 <= b < 2 ^ 32 -> 0 <= Z.lxor a b < 2 ^ 32.
Proof.
  intros Ha Hb. rewrite <- (u32_small a), <- (u32_small b), !u32_land by done.
  assert (Z.lxor (Z.land a (Z.ones 32)) (Z.land b (Z.ones 32)) = Z.land (Z.lxor a b) (Z.ones 32)) as ->.
  { apply Z.bits_inj'. intros n Hn. rewrite Z.land_spec, !Z.lxor_spec, !Z.land_spec.
    by destruct (Z.testbit a n), (Z.testbit b n), (Z.testbit (Z.ones 32) n). }
  rewrite <- u32_land. apply u32_range.
Qed.

Lemma shiftr_u32 x r : 0 <= x < 2 ^ 32 -> 0 <= r -> 0 <= Z.shiftr x r < 2 ^ 32.
Proof.
  intros Hx Hr. rewrite Z.shiftr_div_pow2 by done. assert (0 < 2 ^ r) by (by apply Z.pow_pos_nonneg).
  split; [apply Z.div_pos; lia|]. apply Z.div_lt_upper_bound; [done|]. nia.
Qed.

(** ** Outcomes *)

(** The error conditions the library throws through [std::system_error]. *)
Inductive errc :=
  | io_error
  | invalid_argument
  | file_exists
  | no_such_file_or_directory
  | operation_not_permitted
  | no_such_device
  | not_connected
  | executable_format_error.

(** C++ exceptions, by class; messages are only logged and are left out. *)
Inductive exn :=
  | system_error (e : errc)
  | std_invalid_argument
  | std_runtime_error
  | std_logic_error
  | std_out_of_range
  | std_bad_function_call.

#[export] Instance errc_eq_dec : EqDecision errc.
Proof. solve_decision. Defined.

#[export] Instance exn_eq_dec : EqDecision exn.
Proof. solve_decision. Defined.

(** How a call ends: it returns, it throws, it has undefined behaviour (a null pointer is
    dereferenced, a vector is indexed out of range), or the bound put on a loop of the model is
    used up. *)
Inductive outcome (A : Type) :=
  | Ret (a : A)
  | Throw (e : exn)
  | UB
  | OutOfFuel.
Arguments Ret {A} a.
Arguments Throw {A} e.
Arguments UB {A}.
Arguments OutOfFuel {A}.

#[export] Instance outcome_ret : MRet outcome := @Ret.
#[export] Instance outcome_bind : MBind outcome := fun A B f o =>
  match o with
  | Ret a => f a
  | Throw e => Throw e
  | UB => UB
  | OutOfFuel => OutOfFuel
  end.

(** [int] addition, which has no behaviour beyond the range of [int]. *)
Definition add_int (a b : Z) : outcome Z :=
  if (INT_MIN <=? a + b) && (a + b <=? INT_MAX) then Ret (a + b) else UB.

(** Dereferencing a [shared_ptr] that may be null. *)
Definition deref {A} (p : option A) : outcome A :=
  match p with
  | Some a => Ret a
  | None => UB
  end.

(** ** Stateful code *)

(** A member function runs on the state it can change and keeps its changes when it throws. *)
Definition M (W A : Type) : Type := W -> outcome A * W.

#[export] Instance M_ret W : MRet (M W) := fun A a w => (Ret a, w).
#[export] Instance M_bind W : MBind (M W) := fun A B f m w =>
  match m w with
  | (Ret a, w') => f a w'
  | (Throw e, w') => (Throw e, w')
  | (UB, w') => (UB, w')
  | (OutOfFuel, w') => (OutOfFuel, w')
  end.

Definition get {W} : M W W := fun w => (Ret w, w).
Definition gets {W A} (f : W -> A) : M W A := fun w => (Ret (f w), w).
Definition modify {W} (f : W -> W) : M W unit := fun w => (Ret tt, f w).
Definition throw {W A} (e : exn) : M W A := fun w => (Throw e, w).
Definition lift {W A} (o : outcome A) : M W A := fun w => (o, w).
Definition out_of_fuel {W A} : M W A := fun w => (OutOfFuel, w).
Definition when {W} (b : bool) (m : M W unit) : M W unit := if b then m else mret tt.

(** [try { m } catch (const std::exception& e) { h(e) }] *)
Definition try_catch {W A} (m : M W A) (h : exn -> M W A) : M W A := fun w =>
  match m w with
  | (Throw e, w') => h e w'
  | r => r
  end.

(** Running code on a component of a larger state. *)
Definition zoom {W V A} (view : W -> V) (set : V -> W -> W) (m : M V A) : M W A := fun w =>
  let '(o, v) := m (view w) in (o, set v w).

Lemma bind_unfold {W A B} (m : M W A) (f : A -> M W B) w :
  (m ≫= f) w = match m w with
               | (Ret a, w') => f a w'
               | (Throw e, w') => (Throw e, w')
               | (UB, w') => (UB, w')
               | (OutOfFuel, w') => (OutOfFuel, w')
               end.
Proof. done. Qed.

Lemma bind_ret {W A B} (m : M W A) (f : A -> M W B) w a w' :
  m w = (Ret a, w') -> (m ≫= f) w = f a w'.
Proof. intros H. unfold mbind, M_bind. by rewrite H. Qed.

Lemma bind_throw {W A B} (m : M W A) (f : A -> M W B) w e w' :
  m w = (Throw e, w') -> (m ≫= f) w = (Throw e, w').
Proof. intros H. unfold mbind, M_bind. by rewrite H. Qed.

Lemma bind_inv_ret {W A B} (m : M W A) (f : A -> M W B) w b w'' :
  (m ≫= f) w = (Ret b, w'') -> exists a w', m w = (Ret a, w') /\ f a w' = (Ret b, w'').
Proof. unfold mbind, M_bind. destruct (m w) as [[a|e| |] w'] eqn:E; intros; simplify_eq. eauto. Qed.

Section MonadEquations.
Context {W A B : Type}.
Implicit Types (f : A -> M W B) (w : W).

Lemma bind_get (f : W -> M W B) w : (get ≫= f) w = f w w.
Proof. done. Qed.

Lemma bind_gets (g : W -> A) f w : (gets g ≫= f) w = f (g w) w.
Proof. done. Qed.

Lemma bind_modify (g : W -> W) (f : unit -> M W B) w : (modify g ≫= f) w = f tt (g w).
Proof. done. Qed.

Lemma bind_mret (a : A) f w : (mret a ≫= f) w = f a w.
Proof. done. Qed.

Lemma bind_lift (a : A) f w : (lift (Ret a) ≫= f) w = f a w.
Proof. done. Qed.

Lemma bind_lift_throw e f w : (lift (@Throw A e) ≫= f) w = (Throw e, w).
Proof. done. Qed.

Lemma bind_throw' e f w : (throw e ≫= f) w = (Throw e, w).
Proof. done. Qed.

Lemma bind_when_true (n : M W unit) (f : unit -> M W B) w : (when true n ≫= f) w = (n ≫= f) w.
Proof. done. Qed.

Lemma bind_when_false (n : M W unit) (f : unit -> M W B) w : (when false n ≫= f) w = f tt w.
Proof. done. Qed.

Lemma bind_assoc {C} (n : M W A) f (g : B -> M W C) w : ((n ≫= f) ≫= g) w = (n ≫= (fun a => f a ≫= g)) w.
Proof. unfold mbind, M_bind. by destruct (n w) as [[]]. Qed.

End MonadEquations.

(** ** Automation *)

Create HintDb kio.
Create HintDb tame.

(** Steps of the monad: the combinators are run, the source-level definitions stay folded. *)
Ltac mstep := repeat first
  [ rewrite bind_get | rewrite bind_gets | rewrite bind_modify | rewrite bind_mret | rewrite bind_lift
  | rewrite bind_lift_throw | rewrite bind_throw' | rewrite bind_when_true | rewrite bind_when_false
  | rewrite bind_assoc ]; cbv beta.

(** Case analysis on the booleans of the code's conditions, in arithmetic form. *)
Ltac bool_to_prop := repeat match goal with
  | H : (_ && _)%bool = true |- _ => apply andb_true_iff in H as [? ?]
  | H : (_ || _)%bool = false |- _ => apply orb_false_iff in H as [? ?]
  | H : negb _ = true |- _ => apply negb_true_iff in H
  | H : negb _ = false |- _ => apply negb_false_iff in H
  | H : (_ <? _) = true |- _ => apply Z.ltb_lt in H
  | H : (_ <? _) = false |- _ => apply Z.ltb_ge in H
  | H : (_ <=? _) = true |- _ => apply Z.leb_le in H
  | H : (_ <=? _) = false |- _ => apply Z.leb_gt in H
  | H : (_ =? _) = true |- _ => apply Z.eqb_eq in H
  | H : (_ =? _) = false |- _ => apply Z.eqb_neq in H
  | H : bool_decide _ = true |- _ => apply bool_decide_eq_true in H
  | H : bool_decide _ = false |- _ => apply bool_decide_eq_false in H
  end.

Ltac case_bool := match goal with
  | |- context [if ?b then _ else _] => destruct b eqn:?
  | H : context [if ?b then _ else _] |- _ => destruct b eqn:?
  end; bool_to_prop.

(** Solves side conditions about lengths of pieces of byte strings. *)
Ltac len_simpl := unfold slen in *; repeat first
  [ rewrite length_app | rewrite length_take | rewrite length_drop | rewrite length_replicate
  | rewrite length_map | rewrite length_insert ]; try lia.

(** ** Generic lemmas *)

Lemma slen_nonneg {A} (s : list A) : 0 <= slen s.
Proof. unfold slen. lia. Qed.

Lemma slen_app {A} (s t : list A) : slen (s ++ t) = slen s + slen t.
Proof. unfold slen. rewrite length_app. lia. Qed.

Lemma to_nat_slen {A} (s : list A) : Z.to_nat (slen s) = length s.
Proof. unfold slen. lia. Qed.

#[export] Hint Resolve slen_nonneg : kio.
#[export] Hint Rewrite @slen_app @to_nat_slen : kio.

(** ** Code that cannot run out of fuel *)

(** [tame R m]: [m] ends, and the states before and after are related by the preorder [R]. *)
Definition tame {W A} (R : W -> W -> Prop) (m : M W A) : Prop := forall w, R w (m w).2 /\ (m w).1 <> OutOfFuel.

Section Tame.
Context {W : Type} (R : W -> W -> Prop) `{!PreOrder R}.

Lemma tame_mret {A} (a : A) : tame R (mret a).
Proof. intros w. split; [done|]. done. Qed.

Lemma tame_bind {A B} (m : M W A) (f : A -> M W B) : tame R m -> (forall a, tame R (f a)) -> tame R (m ≫= f).
Proof.
  intros Hm Hf w. rewrite bind_unfold. specialize (Hm w). destruct (m w) as [[a|e| |] w']; simpl in *; try naive_solver.
  destruct (Hf a w') as [HR Hn]. split; [|done]. etrans; [apply Hm|done].
Qed.

Lemma tame_get : tame R get.
Proof. intros w. split; [done|]. done. Qed.

Lemma tame_gets {A} (f : W -> A) : tame R (gets f).
Proof. intros w. split; [done|]. done. Qed.

Lemma tame_modify (f : W -> W) : (forall w, R w (f w)) -> tame R (modify f).
Proof. intros Hf w. split; [apply Hf|]. done. Qed.

Lemma tame_throw {A} e : tame R (throw (A:=A) e).
Proof. intros w. split; [done|]. done. Qed.

Lemma tame_lift {A} (o : outcome A) : o <> OutOfFuel -> tame R (lift o).
Proof. intros Ho w. split; [done|]. done. Qed.

Lemma tame_when b (m : M W unit) : tame R m -> tame R (when b m).
Proof. intros Hm. destruct b; [done|]. apply tame_mret. Qed.

Lemma tame_mapM {A B} (f : A -> M W B) l : (forall a, tame R (f a)) -> tame R (mapM f l).
Proof.
  intros Hf. induction l as [|a l IH]; [apply tame_mret|]. cbn [mapM].
  apply tame_bind; [done|]. intros b. apply tame_bind; [done|]. intros k. apply tame_mret.
Qed.

Lemma tame_try_catch {A} (m : M W A) h : tame R m -> (forall e, tame R (h e)) -> tame R (try_catch m h).
Proof.
  intros Hm Hh w. unfold try_catch. specialize (Hm w). destruct (m w) as [[a|e| |] w']; simpl in *; try done.
  destruct (Hh e w') as [HR Hn]. split; [|done]. etrans; [apply Hm|done].
Qed.
End Tame.

(** One step of a termination argument. *)
Lemma bind_not_fuel {W A B} (R : W -> W -> Prop) (m : M W A) (f : A -> M W B) w :
  tame R m -> (forall a w', R w w' -> m w = (Ret a, w') -> (f a w').1 <> OutOfFuel) -> ((m ≫= f) w).1 <> OutOfFuel.
Proof.
  intros Hm Hf. rewrite bind_unfold. specialize (Hm w). destruct (m w) as [[a|e| |] w'] eqn:E; simpl in *; try naive_solver.
Qed.

(** Outcomes of code without a fuel parameter. *)
Lemma outcome_bind_fuel {A B} (o : outcome A) (f : A -> outcome B) :
  o <> OutOfFuel -> (forall a, f a <> OutOfFuel) -> (o ≫= f) <> OutOfFuel.
Proof. intros Ho Hf. destruct o; cbn; solve [done | apply Hf]. Qed.

Lemma deref_fuel {A} (p : option A) : deref p <> OutOfFuel.
Proof. by destruct p. Qed.

Lemma outcome_mapM_fuel {A B} (f : A -> outcome B) l : (forall a, f a <> OutOfFuel) -> mapM f l <> OutOfFuel.
Proof.
  intros Hf. induction l as [|a l IH]; [done|]. cbn. apply (outcome_bind_fuel (f a)); [done|].
  intros b. apply (outcome_bind_fuel (mapM f l)); [done|]. done.
Qed.

#[export] Hint Resolve outcome_bind_fuel deref_fuel outcome_mapM_fuel : kio.
(** Splits a program into its parts. *)
Ltac tame_step := match goal with
  | |- tame _ (mbind _ _) => apply tame_bind; [try apply _|..]
  | |- tame _ (mret _) => apply tame_mret; try apply _
  | |- tame _ get => apply tame_get; try apply _
  | |- tame _ (gets _) => apply tame_gets; try apply _
  | |- tame _ (throw _) => apply tame_throw; try apply _
  | |- tame _ (lift _) => apply tame_lift; [try apply _|]
  | |- tame _ (when _ _) => apply tame_when; [try apply _|]
  | |- tame _ (mapM _ _) => apply tame_mapM; [try apply _|]
  | |- tame _ (try_catch _ _) => apply tame_try_catch; [try apply _|..]
  | |- tame _ (if ?b then _ else _) => destruct b
  | |- tame _ (match ?x with _ => _ end) => destruct x
  | |- forall _, tame _ _ => intro
  end.

#[export] Hint Resolve tame_mret tame_get tame_gets tame_throw tame_when tame_mapM : tame.

(** ** Code that keeps a relation *)

(** [keeps R m]: however [m] ends, the states before and after are related by the preorder [R]. *)
Definition keeps {W A} (R : W -> W -> Prop) (m : M W A) : Prop := forall w, R w (m w).2.

Section Keeps.
Context {W : Type} (R : W -> W -> Prop) `{!PreOrder R}.

Lemma keeps_bind {A B} (m : M W A) (f : A -> M W B) : keeps R m -> (forall a, keeps R (f a)) -> keeps R (m ≫= f).
Proof.
  intros Hm Hf w. rewrite bind_unfold. specialize (Hm w). destruct (m w) as [[a|e| |] w']; simpl in *; try done.
  etrans; [exact Hm|apply Hf].
Qed.

Lemma keeps_same {A} (m : M W A) : (forall w, (m w).2 = w) -> keeps R m.
Proof. intros Hm w. by rewrite Hm. Qed.

Lemma keeps_modify (f : W -> W) : (forall w, R w (f w)) -> keeps R (modify f).
Proof. intros Hf w. apply Hf. Qed.

Lemma keeps_when b (m : M W unit) : keeps R m -> keeps R (when b m).
Proof. intros Hm. destruct b; [done|]. by apply keeps_same. Qed.

Lemma keeps_try_catch {A} (m : M W A) h : keeps R m -> (forall e, keeps R (h e)) -> keeps R (try_catch m h).
Proof.
  intros Hm Hh w. unfold try_catch. specialize (Hm w). destruct (m w) as [[a|e| |] w']; simpl in *; try done.
  etrans; [exact Hm|apply Hh].
Qed.
End Keeps.

(** Splits a program into its parts. *)
Ltac keeps_step := match goal with
  | |- keeps _ (mbind _ _) => apply keeps_bind; [try apply _|..]
  | |- keeps _ (mret _) => apply keeps_same; [try apply _|done]
  | |- keeps _ get => apply keeps_same; [try apply _|done]
  | |- keeps _ (gets _) => apply keeps_same; [try apply _|done]
  | |- keeps _ (throw _) => apply keeps_same; [try apply _|done]
  | |- keeps _ out_of_fuel => apply keeps_same; [try apply _|done]
  | |- keeps _ (lift _) => apply keeps_same; [try apply _|done]
  | |- keeps _ (when _ _) => apply keeps_when; [try apply _|]
  | |- keeps _ (try_catch _ _) => apply keeps_try_catch; [try apply _|..]
  | |- keeps _ (if ?b then _ else _) => destruct b
  | |- keeps _ (match ?x with _ => _ end) => destruct x
  | |- forall _, keeps _ _ => intro
  end.
