(* ===== verification/CppString.v ===== *)
(** * The parts of the C++ string library the source uses

    [std::string] searching, slicing, padding and comparison, and the number formatting and
    parsing of string streams, as total functions on byte strings.  Positions and lengths are
    [size_t] values in [Z]; [substr] and friends throw [std::out_of_range] exactly where the
    library does.  The second half relates printing and parsing of decimal numbers and the order
    of fixed-width decimal numbers to the order of strings. *)

From S2P Require Import Prelude.

(** ** Slicing and searching *)

Definition npos : Z := 2 ^ 64 - 1.

(** [s.substr(pos, n)] *)
Definition substr (s : bytes) (pos n : Z) : outcome bytes :=
  if slen s <? pos then Throw std_out_of_range
  else Ret (take (Z.to_nat (Z.min n (slen s - pos))) (drop (Z.to_nat pos) s)).

Fixpoint find_char (c : ascii) (s : bytes) (i : Z) : Z :=
  match s with
  | [] => npos
  | x :: s' => if bool_decide (x = c) then i else find_char c s' (i + 1)
  end.

(** [s.find_first_of(c, pos)] *)
Definition find_first_of (c : ascii) (s : bytes) (pos : Z) : Z :=
  if slen s <=? pos then npos else find_char c (drop (Z.to_nat pos) s) pos.

Fixpoint find_last_char (c : ascii) (s : bytes) (i : Z) (best : Z) : Z :=
  match s with
  | [] => best
  | x :: s' => find_last_char c s' (i + 1) (if bool_decide (x = c) then i else best)
  end.

(** [s.find_last_of(c)] *)
Definition find_last_of (c : ascii) (s : bytes) : Z := find_last_char c s 0 npos.

Fixpoint is_prefix (p s : bytes) : bool :=
  match p, s with
  | [], _ => true
  | _ :: _, [] => false
  | x :: p', y :: s' => if bool_decide (x = y) then is_prefix p' s' else false
  end.

(** [s.find(p) != npos] *)
Fixpoint contains (p s : bytes) : bool :=
  if is_prefix p s then true
  else match s with
       | [] => false
       | _ :: s' => contains p s'
       end.

(** [s.resize(n, fill)] *)
Definition resize (s : bytes) (n : Z) (fill : ascii) : bytes :=
  take (Z.to_nat n) s ++ replicate (Z.to_nat n - length s) fill.

(** [s.replace(pos, len, t)]: the [len] characters of [s] from [pos] on make way for [t]. *)
Definition replace (s : bytes) (pos len : Z) (t : bytes) : outcome bytes :=
  if slen s <? pos then Throw std_out_of_range
  else Ret (take (Z.to_nat pos) s ++ t ++ drop (Z.to_nat (pos + Z.min len (slen s - pos))) s).

(** [s1 < s2]: lexicographic, characters compared as [unsigned char]. *)
Fixpoint str_ltb (a b : bytes) : bool :=
  match a, b with
  | _, [] => false
  | [], _ :: _ => true
  | x :: a', y :: b' =>
      if (N_of_ascii x <? N_of_ascii y)%N then true
      else if (N_of_ascii y <? N_of_ascii x)%N then false
      else str_ltb a' b'
  end.

Definition str_leb (a b : bytes) : bool := negb (str_ltb b a).

(** ** Decimal numbers *)

Definition digit (d : Z) : ascii := ascii_of_N (48 + Z.to_N d).

Fixpoint dec_go (fuel : nat) (n : Z) (acc : bytes) : bytes :=
  match fuel with
  | O => acc
  | S fuel' =>
      let acc' := digit (n mod 10) :: acc in
      if n <? 10 then acc' else dec_go fuel' (n / 10) acc'
  end.

(** [os << n] for a non-negative number; a number has at most as many decimal as binary digits. *)
Definition dec (n : Z) : bytes := dec_go (S (Z.to_nat (Z.log2 n))) n [].

(** [os << n] for any integer. *)
Definition to_string (n : Z) : bytes := if n <? 0 then str "-" ++ dec (- n) else dec n.

(** [os << std::setw(w) << std::setfill('0') << s] *)
Definition pad0 (w : nat) (s : bytes) : bytes := replicate (w - length s) "0"%char ++ s.

Definition char_digit (c : ascii) : option Z :=
  let v := Z.of_N (N_of_ascii c) - 48 in
  if (0 <=? v) && (v <=? 9) then Some v else None.

(** The longest prefix of decimal digits. *)
Fixpoint digits (s : bytes) : list Z :=
  match s with
  | [] => []
  | c :: s' => match char_digit c with Some d => d :: digits s' | None => [] end
  end.

Definition dval (ds : list Z) (a : Z) : Z := fold_left (fun a d => a * 10 + d) ds a.

Definition is_space (c : ascii) : bool :=
  let v := Z.of_N (N_of_ascii c) in (v =? 32) || ((9 <=? v) && (v <=? 13)).

Fixpoint skip_ws (s : bytes) : bytes :=
  match s with
  | c :: s' => if is_space c then skip_ws s' else s
  | [] => []
  end.

(** An optional sign followed by digits: the digits and whether the number is negative. *)
Definition signed_digits (s : bytes) : bool * list Z :=
  match skip_ws s with
  | c :: s' =>
      if bool_decide (c = "-"%char) then (true, digits s')
      else if bool_decide (c = "+"%char) then (false, digits s')
      else (false, digits (c :: s'))
  | [] => (false, [])
  end.

(** [int x = 0; s >> x;]: zero when there is no number, the nearest [int] when it does not fit. *)
Definition stream_to_int (s : bytes) : Z :=
  let '(neg, ds) := signed_digits s in
  let v := dval ds 0 in
  Z.max INT_MIN (Z.min INT_MAX (if neg then - v else v)).

(** [std::stoi(s)] *)
Definition stoi (s : bytes) : outcome Z :=
  let '(neg, ds) := signed_digits s in
  match ds with
  | [] => Throw std_invalid_argument
  | _ => let v := if neg then - dval ds 0 else dval ds 0 in
         if (v <? INT_MIN) || (INT_MAX <? v) then Throw std_out_of_range else Ret v
  end.

(** ** Lemmas: slicing and searching *)

Lemma find_char_hit c s t i : c ∉ s -> find_char c (s ++ c :: t) i = i + slen s.
Proof.
  revert i. induction s as [|x s IH]; intros i Hn; simpl.
  - rewrite bool_decide_true by done. unfold slen. simpl. lia.
  - rewrite not_elem_of_cons in Hn. destruct Hn.
    rewrite bool_decide_false by congruence. rewrite IH by done. unfold slen. simpl. lia.
Qed.

Lemma find_char_miss c s i : c ∉ s -> find_char c s i = npos.
Proof.
  revert i. induction s as [|x s IH]; intros i Hn; simpl; [done|].
  rewrite not_elem_of_cons in Hn. destruct Hn.
  rewrite bool_decide_false by congruence. by apply IH.
Qed.

(** Searching from the end of a known prefix. *)
Lemma find_first_of_hit c p s t :
  c ∉ s -> find_first_of c (p ++ s ++ c :: t) (slen p) = slen p + slen s.
Proof.
  intros Hn. unfold find_first_of.
  assert ((slen (p ++ s ++ c :: t) <=? slen p) = false) as ->.
  { apply Z.leb_gt. unfold slen. rewrite !length_app. simpl. lia. }
  rewrite to_nat_slen, drop_app_length, find_char_hit by done. done.
Qed.

(** The same with the text and the position given by equations. *)
Lemma find_first_of_at c p s t u n :
  u = p ++ s ++ c :: t -> n = slen p -> c ∉ s -> find_first_of c u n = slen p + slen s.
Proof. intros -> -> ?. by apply find_first_of_hit. Qed.

Lemma substr_suffix s t n : slen t <= n -> substr (s ++ t) (slen s) n = Ret t.
Proof.
  intros Hn. unfold substr.
  assert ((slen (s ++ t) <? slen s) = false) as ->.
  { apply Z.ltb_ge. rewrite slen_app. pose proof (slen_nonneg t). lia. }
  rewrite to_nat_slen, drop_app_length, take_ge; [done|].
  rewrite slen_app. unfold slen in *. lia.
Qed.

Lemma substr_from s t u pos n : u = s ++ t -> pos = slen s -> slen t <= n -> substr u pos n = Ret t.
Proof. intros -> -> ?. by apply substr_suffix. Qed.

Lemma substr_prefix s t : substr (s ++ t) 0 (slen s) = Ret s.
Proof.
  unfold substr. pose proof (slen_nonneg s). pose proof (slen_nonneg t).
  rewrite slen_app. assert ((slen s + slen t <? 0) = false) as -> by lia.
  rewrite drop_0. f_equal.
  rewrite Z.min_l by lia. rewrite to_nat_slen. by rewrite take_app_length.
Qed.

Lemma substr_mid p s t : substr (p ++ s ++ t) (slen p) (slen s) = Ret s.
Proof.
  unfold substr. pose proof (slen_nonneg s). pose proof (slen_nonneg t).
  pose proof (slen_nonneg p).
  rewrite !slen_app. assert ((slen p + (slen s + slen t) <? slen p) = false) as -> by lia.
  rewrite to_nat_slen, drop_app_length. f_equal.
  rewrite Z.min_l by lia. rewrite to_nat_slen. by rewrite take_app_length.
Qed.

Lemma find_last_char_hit c s t i b :
  c ∉ t -> find_last_char c (s ++ c :: t) i b = i + slen s.
Proof.
  assert (forall t i b, c ∉ t -> find_last_char c t i b = b) as Hmiss.
  { clear. induction t as [|x t IH]; intros i b Hn; simpl; [done|].
    rewrite not_elem_of_cons in Hn. destruct Hn. rewrite IH by done.
    by rewrite bool_decide_false by congruence. }
  intros Ht. revert i b. induction s as [|x s IH]; intros i b; simpl.
  - rewrite bool_decide_true by done. rewrite Hmiss by done. unfold slen. simpl. lia.
  - rewrite IH. unfold slen. simpl. lia.
Qed.

Lemma length_resize s n f : 0 <= n -> slen (resize s n f) = n.
Proof. intros. unfold resize, slen. rewrite length_app, length_take, length_replicate. lia. Qed.

(** ** Lemmas: order of strings *)

Lemma str_ltb_irrefl s : str_ltb s s = false.
Proof. induction s as [|x s IH]; simpl; [done|]. rewrite N.ltb_irrefl. done. Qed.

Lemma str_ltb_app p s t : str_ltb (p ++ s) (p ++ t) = str_ltb s t.
Proof. induction p as [|x p IH]; simpl; [done|]. rewrite N.ltb_irrefl. done. Qed.

Lemma str_ltb_trans a b c : str_ltb a b = true -> str_ltb b c = true -> str_ltb a c = true.
Proof.
  revert b c. induction a as [|x a IH]; intros [|y b] [|z c]; simpl; try done.
  destruct (N.ltb_spec (N_of_ascii x) (N_of_ascii y)), (N.ltb_spec (N_of_ascii y) (N_of_ascii x)),
    (N.ltb_spec (N_of_ascii y) (N_of_ascii z)), (N.ltb_spec (N_of_ascii z) (N_of_ascii y)),
    (N.ltb_spec (N_of_ascii x) (N_of_ascii z)), (N.ltb_spec (N_of_ascii z) (N_of_ascii x));
    try done; try lia. apply IH.
Qed.

Lemma N_of_ascii_inj x y : N_of_ascii x = N_of_ascii y -> x = y.
Proof. intros H. rewrite <- (ascii_N_embedding x), H. apply ascii_N_embedding. Qed.

Lemma str_ltb_total a b : str_ltb a b = false -> str_ltb b a = false -> a = b.
Proof.
  revert b. induction a as [|x a IH]; intros [|y b]; simpl; try done.
  destruct (N.ltb_spec (N_of_ascii x) (N_of_ascii y)), (N.ltb_spec (N_of_ascii y) (N_of_ascii x));
    try done; try lia.
  intros. f_equal; [apply N_of_ascii_inj; lia | by apply IH].
Qed.

(** ** Lemmas: decimal numbers *)

Lemma char_digit_digit d : 0 <= d <= 9 -> char_digit (digit d) = Some d.
Proof.
  intros. unfold char_digit, digit. rewrite N_ascii_embedding by lia.
  assert (Z.of_N (48 + Z.to_N d) - 48 = d) as -> by lia.
  assert ((0 <=? d) && (d <=? 9) = true) as ->; [|done].
  apply andb_true_iff. split; lia.
Qed.

(** A string of decimal digits only. *)
Definition all_digits (s : bytes) : Prop := Forall (fun c => is_Some (char_digit c)) s.

Lemma digits_cons c s d : char_digit c = Some d -> digits (c :: s) = d :: digits s.
Proof. intros H. simpl. by rewrite H. Qed.

Lemma digits_app s t : all_digits s -> digits (s ++ t) = digits s ++ digits t.
Proof.
  induction 1 as [|c s [d Hd] _ IH]; [done|]. simpl. rewrite Hd, IH. done.
Qed.

Lemma dec_go_spec fuel n acc :
  0 <= n < 2 ^ Z.of_nat fuel -> fuel <> O ->
  exists p, dec_go fuel n acc = p ++ acc /\ all_digits p /\ dval (digits p) 0 = n /\
    (forall k, (0 < k)%nat -> n < 10 ^ Z.of_nat k -> (length p <= k)%nat) /\ p <> [].
Proof.
  revert n acc. induction fuel as [|fuel IH]; intros n acc Hn Hf; [done|]. simpl.
  assert (0 <= n mod 10 < 10) as Hm by (apply Z.mod_pos_bound; lia).
  destruct (Z.ltb_spec n 10).
  - exists [digit (n mod 10)]. split_and!; try done.
    + constructor; [|constructor]. rewrite char_digit_digit by lia. eauto.
    + rewrite (digits_cons _ _ (n mod 10)) by (apply char_digit_digit; lia).
      unfold dval. simpl. rewrite Z.mod_small by lia. done.
  - assert (0 <= n / 10) by (apply Z.div_pos; lia).
    assert (n / 10 < 2 ^ Z.of_nat fuel).
    { apply Z.div_lt_upper_bound; [lia|]. rewrite Nat2Z.inj_succ, Z.pow_succ_r in Hn by lia. lia. }
    destruct (decide (fuel = O)) as [->|].
    { change (2 ^ Z.of_nat 0) with 1 in *. assert (1 <= n / 10) by (apply Z.div_le_lower_bound; lia). lia. }
    destruct (IH (n / 10) (digit (n mod 10) :: acc)) as (p & -> & Hp & Hv & Hk & Hne); [lia|done|].
    exists (p ++ [digit (n mod 10)]). split_and!.
    + by rewrite <- app_assoc.
    + apply Forall_app. split; [done|]. constructor; [|constructor].
      rewrite char_digit_digit by lia. eauto.
    + rewrite digits_app by done. rewrite (digits_cons _ _ (n mod 10)) by (apply char_digit_digit; lia).
      unfold dval in *. rewrite fold_left_app, Hv. simpl.
      pose proof (Z.div_mod n 10). lia.
    + intros k Hk0 Hnk. rewrite length_app. simpl. destruct k as [|k]; [lia|].
      assert (k <> O). { intros ->. simpl in *. lia. }
      specialize (Hk k ltac:(lia)). rewrite Nat2Z.inj_succ, Z.pow_succ_r in Hnk by lia.
      assert (n / 10 < 10 ^ Z.of_nat k) by (apply Z.div_lt_upper_bound; lia). lia.
    + by destruct p.
Qed.

Lemma dec_spec n :
  0 <= n ->
  all_digits (dec n) /\ dval (digits (dec n)) 0 = n /\
  (forall k, (0 < k)%nat -> n < 10 ^ Z.of_nat k -> (length (dec n) <= k)%nat) /\ dec n <> [].
Proof.
  intros Hn. unfold dec.
  destruct (dec_go_spec (S (Z.to_nat (Z.log2 n))) n []) as (p & -> & Hp); [|done|].
  - split; [done|]. rewrite Nat2Z.inj_succ, Z2Nat.id by apply Z.log2_nonneg.
    destruct (decide (n = 0)) as [->|]; [done|]. apply Z.log2_spec. lia.
  - by rewrite app_nil_r.
Qed.

Lemma all_digits_pad0 w s : all_digits s -> all_digits (pad0 w s).
Proof. intros. apply Forall_app. split; [|done]. apply Forall_replicate. by exists 0. Qed.

Lemma dval_pad0 w s a : a = 0 -> dval (digits (pad0 w s)) a = dval (digits s) 0.
Proof.
  intros ->. unfold pad0. induction (w - length s)%nat as [|k IH]; [done|]. exact IH.
Qed.

Lemma length_pad0 w s : (length s <= w)%nat -> length (pad0 w s) = w.
Proof. intros. unfold pad0. rewrite length_app, length_replicate. lia. Qed.

Lemma char_digit_range c d : char_digit c = Some d -> 0 <= d <= 9.
Proof. unfold char_digit. case_bool; intros; simplify_eq; lia. Qed.

Lemma length_digits s : all_digits s -> length (digits s) = length s.
Proof. induction 1 as [|c s [d Hd] _ IH]; [done|]. simpl. rewrite Hd. simpl. by rewrite IH. Qed.

(** The value of a digit string read with an accumulator. *)
Lemma dval_acc ds a : dval ds a = a * 10 ^ Z.of_nat (length ds) + dval ds 0.
Proof.
  revert a. induction ds as [|d ds IH]; intros a; unfold dval in *; [simpl; lia|].
  cbn [fold_left length]. rewrite IH, (IH (0 * 10 + d)).
  rewrite Nat2Z.inj_succ, Z.pow_succ_r by lia. lia.
Qed.

Lemma dval_bound s : all_digits s -> 0 <= dval (digits s) 0 < 10 ^ Z.of_nat (length s).
Proof.
  induction 1 as [|c s [d Hd] Hs IH]; [done|]. simpl digits. rewrite Hd.
  pose proof (char_digit_range _ _ Hd).
  unfold dval in *. cbn [fold_left]. fold (dval (digits s) (0 * 10 + d)).
  rewrite dval_acc, length_digits by done. unfold dval.
  cbn [length]. rewrite Nat2Z.inj_succ, Z.pow_succ_r by lia. nia.
Qed.

Lemma char_digit_code c d : char_digit c = Some d -> Z.of_N (N_of_ascii c) = d + 48.
Proof. unfold char_digit. case_bool; intros; simplify_eq; lia. Qed.

(** On digit strings of one length the order of strings is the order of the numbers. *)
Lemma str_ltb_digits s t :
  all_digits s -> all_digits t -> length s = length t ->
  str_ltb s t = (dval (digits s) 0 <? dval (digits t) 0).
Proof.
  intros Hs. revert t. induction Hs as [|c s [d Hd] Hs IH]; intros [|c' t] Ht Hl; try done.
  inversion Ht as [|?? [d' Hd'] Ht']; subst; clear Ht; rename Ht' into Ht. simpl in Hl.
  specialize (IH t Ht ltac:(lia)). cbn [digits str_ltb]. rewrite Hd, Hd', IH.
  pose proof (char_digit_code _ _ Hd). pose proof (char_digit_code _ _ Hd').
  pose proof (dval_bound s Hs). pose proof (dval_bound t Ht).
  assert (length s = length t) as Hlen by lia.
  assert (forall e r, all_digits r -> dval (e :: digits r) 0 = e * 10 ^ Z.of_nat (length r) + dval (digits r) 0) as Hc.
  { intros e r Hr. change (dval (e :: digits r) 0) with (dval (digits r) (0 * 10 + e)).
    rewrite dval_acc, length_digits by done. lia. }
  rewrite !Hc by done. rewrite Hlen in *.
  destruct (N.ltb_spec (N_of_ascii c) (N_of_ascii c')), (N.ltb_spec (N_of_ascii c') (N_of_ascii c)); try lia.
  - symmetry. apply Z.ltb_lt. nia.
  - symmetry. apply Z.ltb_ge. nia.
  - assert (d = d') as -> by lia. apply eq_true_iff_eq. rewrite !Z.ltb_lt. lia.
Qed.

(** Reading back a printed number. *)
Lemma signed_digits_pad0 w n : 0 <= n -> signed_digits (pad0 w (dec n)) = (false, digits (pad0 w (dec n))).
Proof.
  intros Hn. destruct (dec_spec n Hn) as (Hd & _ & _ & Hne).
  pose proof (all_digits_pad0 w _ Hd) as Hp.
  destruct (pad0 w (dec n)) as [|c s] eqn:E.
  { exfalso. unfold pad0 in E. by apply app_eq_nil in E as [_ ?]. }
  inversion Hp as [|?? [d Hc] _]; subst; clear Hp.
  pose proof (char_digit_range _ _ Hc). pose proof (char_digit_code _ _ Hc) as Hcode.
  unfold signed_digits. cbn [skip_ws]. unfold is_space. rewrite Hcode.
  assert ((d + 48 =? 32) || (9 <=? d + 48) && (d + 48 <=? 13) = false) as ->.
  { apply orb_false_iff. split; [lia|]. apply andb_false_iff. right. lia. }
  rewrite !bool_decide_false; [done| |]; intros ->; vm_compute in Hc; done.
Qed.

Lemma stoi_pad0 w n : 0 <= n <= INT_MAX -> stoi (pad0 w (dec n)) = Ret n.
Proof.
  intros Hn. unfold stoi. rewrite signed_digits_pad0 by lia.
  destruct (dec_spec n ltac:(lia)) as (Hd & Hv & _ & Hne).
  rewrite dval_pad0, Hv by done.
  destruct (digits (pad0 w (dec n))) as [|e es] eqn:E.
  - apply (f_equal length) in E. rewrite length_digits in E by by apply all_digits_pad0.
    unfold pad0 in E. rewrite length_app in E. destruct (dec n); simpl in *; [done|lia].
  - assert ((n <? INT_MIN) || (INT_MAX <? n) = false) as ->; [|done].
    unfold INT_MIN, INT_MAX in *. apply orb_false_iff. lia.
Qed.

Lemma stream_to_int_pad0 w n : 0 <= n <= INT_MAX -> stream_to_int (pad0 w (dec n)) = n.
Proof.
  intros Hn. unfold stream_to_int. rewrite signed_digits_pad0 by lia.
  destruct (dec_spec n ltac:(lia)) as (Hd & Hv & _ & Hne).
  rewrite dval_pad0, Hv by done. unfold INT_MIN, INT_MAX in *. lia.
Qed.

Lemma pad0_inj w m n : 0 <= m -> 0 <= n -> pad0 w (dec m) = pad0 w (dec n) -> m = n.
Proof.
  intros Hm Hn E. destruct (dec_spec m Hm) as (_ & Hvm & _). destruct (dec_spec n Hn) as (_ & Hvn & _).
  apply (f_equal (fun s => dval (digits s) 0)) in E.
  rewrite !dval_pad0 in E by done. congruence.
Qed.

Lemma str_ltb_pad0 w m n :
  (0 < w)%nat -> 0 <= m < 10 ^ Z.of_nat w -> 0 <= n < 10 ^ Z.of_nat w ->
  str_ltb (pad0 w (dec m)) (pad0 w (dec n)) = (m <? n).
Proof.
  intros Hw Hm Hn.
  destruct (dec_spec m ltac:(lia)) as (Hdm & Hvm & Hlm & _).
  destruct (dec_spec n ltac:(lia)) as (Hdn & Hvn & Hln & _).
  rewrite str_ltb_digits.
  - by rewrite !dval_pad0, Hvm, Hvn by done.
  - by apply all_digits_pad0.
  - by apply all_digits_pad0.
  - rewrite !length_pad0; [done|apply Hln; lia|apply Hlm; lia].
Qed.
