(* ===== verification/Utility.v ===== *)
(** * Keys, urls and versions (src/Utility.cc)

    Every object of the system is named by a string: files by urls, blocks, attributes and files
    by keys with a fixed layout, stored values by version strings that carry the size of the value.
    The operations are those of the namespace [kio::utility]; the lemmas show which layouts can be
    taken apart again and how the order of keys, which key-range requests rely on, relates to block
    numbers. *)

From S2P Require Import Prelude CppString.

(** ** Status codes *)

(** [kinetic::StatusCode], by the names the source uses; [OTHER] is any further code of the
    client library. *)
Inductive StatusCode :=
  | OK
  | CLIENT_IO_ERROR
  | CLIENT_SHUTDOWN
  | CLIENT_INTERNAL_ERROR
  | CLIENT_RESPONSE_HMAC_VERIFICATION_ERROR
  | REMOTE_HMAC_ERROR
  | REMOTE_NOT_AUTHORIZED
  | REMOTE_CLUSTER_VERSION_MISMATCH
  | REMOTE_NOT_FOUND
  | REMOTE_VERSION_MISMATCH
  | OTHER (code : Z).

#[export] Instance StatusCode_eq_dec : EqDecision StatusCode.
Proof. solve_decision. Defined.

(** The numeric value of a code belongs to the client library. *)
Class StatusInt := status_int : StatusCode -> Z.

(** What the source relies on: the codes are distinct and not negative, and the regular results are
    among the first hundred. *)
Class StatusIntLaws `{StatusInt} : Prop := {
  status_int_inj : forall c c', status_int c = status_int c' -> c = c';
  status_int_nonneg : forall c, 0 <= status_int c;
  status_int_regular : status_int OK < 100 /\ status_int REMOTE_NOT_FOUND < 100 /\
    status_int REMOTE_VERSION_MISMATCH < 100;
}.

Module utility.

Section ToString.
Context `{StatusInt}.

Definition toString (c : StatusCode) : bytes :=
  match c with
  | OK => str "OK"
  | CLIENT_IO_ERROR => str "CLIENT_IO_ERROR"
  | CLIENT_SHUTDOWN => str "CLIENT_SHUTDOWN"
  | CLIENT_INTERNAL_ERROR => str "CLIENT_INTERNAL_ERROR"
  | CLIENT_RESPONSE_HMAC_VERIFICATION_ERROR => str "CLIENT_RESPONSE_HMAC_VERIFICATION_ERROR"
  | REMOTE_HMAC_ERROR => str "REMOTE_HMAC_ERROR"
  | REMOTE_NOT_AUTHORIZED => str "REMOTE_NOT_AUTHORIZED"
  | REMOTE_CLUSTER_VERSION_MISMATCH => str "REMOTE_CLUSTER_VERSION_MISMATCH"
  | REMOTE_NOT_FOUND => str "REMOTE_NOT_FOUND"
  | REMOTE_VERSION_MISMATCH => str "REMOTE_VERSION_MISMATCH"
  | OTHER _ => str "OTHER_ERROR (code == " ++ to_string (status_int c) ++ str ")"
  end.
End ToString.

(** ** Urls *)

Definition scheme : bytes := str "kinetic://".

Definition urlToClusterId (url : bytes) : outcome bytes :=
  let id_start := slen scheme in
  let id_end := find_first_of "/" url id_start in
  substr url id_start (u64 (id_end - id_start)).

Definition urlToPath (url : bytes) : outcome bytes :=
  substr url (u64 (find_first_of "/" url (slen scheme + 1) + 1)) npos.

Definition metadataToUrl (mdkey : bytes) : outcome bytes :=
  let pos1 := find_first_of ":" mdkey 0 in
  let pos2 := find_first_of ":" mdkey (u64 (pos1 + 1)) in
  cid ← substr mdkey 0 pos1;
  path ← substr mdkey (u64 (pos2 + 1)) npos;
  mret (scheme ++ cid ++ str "/" ++ path).

(** ** Versions *)

(** [uuid] is the string the uuid library generated. *)
Definition uuidGenerateEncodeSize (size : Z) (uuid : bytes) : bytes := pad0 10 (dec size) ++ uuid.

Definition uuidDecodeSize (uuid : option bytes) : outcome Z :=
  match uuid with
  | Some v =>
      if (slen v =? 46) || (slen v =? 26) then
        size ← substr v 0 10;
        mret (u64 (stream_to_int size))
      else Throw std_invalid_argument
  | None => Throw std_invalid_argument
  end.

(** ** Keys *)

Definition makeDataKey (clusterId base : bytes) (block_number : Z) : bytes :=
  clusterId ++ str ":data:" ++ base ++ str "_" ++ pad0 10 (to_string block_number).

Definition makeMetadataKey (clusterId base : bytes) : bytes :=
  clusterId ++ str ":metadata:" ++ base.

Definition makeAttributeKey (clusterId path attribute_name : bytes) : bytes :=
  clusterId ++ str ":attribute:" ++ path ++ str ":" ++ attribute_name.

Definition extractAttributeName (clusterId path attrkey : bytes) : outcome bytes :=
  let start := slen clusterId + slen (str ":attribute:") + slen path + 1 in
  substr attrkey start npos.

Definition makeIndicatorKey (key : bytes) : bytes := str "indicator:" ++ key.

Definition indicatorToKey (indicator_key : bytes) : outcome bytes :=
  substr indicator_key (slen (str "indicator:")) npos.

End utility.
Export utility.

(** ** Lemmas *)

(** Memory is finite: no string reaches [npos] characters. *)
Definition fits (s : bytes) : Prop := slen s < npos.

Lemma fits_app s t : fits (s ++ t) -> fits s /\ fits t.
Proof.
  unfold fits. rewrite slen_app. pose proof (slen_nonneg s). pose proof (slen_nonneg t). lia.
Qed.

Lemma urlToClusterId_spec cid path :
  "/"%char ∉ cid -> fits (scheme ++ cid ++ str "/" ++ path) ->
  urlToClusterId (scheme ++ cid ++ str "/" ++ path) = Ret cid.
Proof.
  intros Hc Hf. unfold urlToClusterId. change (str "/" ++ path) with ("/"%char :: path).
  rewrite find_first_of_hit by done. unfold fits in Hf. rewrite !slen_app in Hf.
  pose proof (slen_nonneg cid). pose proof (slen_nonneg (str "/" ++ path)). unfold npos in Hf.
  replace (slen scheme + slen cid - slen scheme) with (slen cid) by lia.
  change (slen scheme) with 10 in *. rewrite u64_small; [|rewrite slen_app in *; change (slen (str "/")) with 1 in *; pose proof (slen_nonneg path); lia].
  change 10 with (slen scheme). apply substr_mid.
Qed.

Lemma urlToPath_spec cid path :
  "/"%char ∉ cid -> cid <> [] -> fits (scheme ++ cid ++ str "/" ++ path) ->
  urlToPath (scheme ++ cid ++ str "/" ++ path) = Ret path.
Proof.
  intros Hc Hne Hf. destruct cid as [|x cid]; [done|]. unfold urlToPath.
  apply not_elem_of_cons in Hc as [_ Hc]. unfold fits in Hf. rewrite !slen_app in Hf.
  change (slen scheme) with 10 in *. change (slen (x :: cid)) with (slen ([x] ++ cid)) in Hf.
  change (slen (str "/")) with 1 in Hf.
  rewrite slen_app in Hf. change (slen [x]) with 1 in Hf.
  pose proof (slen_nonneg cid). pose proof (slen_nonneg path).
  rewrite (find_first_of_at "/" (scheme ++ [x]) cid path) by (rewrite <- ?app_assoc; done).
  rewrite slen_app. change (slen scheme) with 10. change (slen [x]) with 1.
  rewrite u64_small by (unfold npos in Hf; lia).
  apply (substr_from (scheme ++ (x :: cid) ++ str "/")); [by rewrite <- !app_assoc| |lia].
  rewrite !slen_app. change (slen scheme) with 10. change (slen (str "/")) with 1.
  change (slen (x :: cid)) with (slen ([x] ++ cid)). rewrite slen_app. change (slen [x]) with 1. lia.
Qed.

Lemma metadataToUrl_spec cid path :
  ":"%char ∉ cid -> fits (makeMetadataKey cid path) ->
  metadataToUrl (makeMetadataKey cid path) = Ret (scheme ++ cid ++ str "/" ++ path).
Proof.
  intros Hc Hf. unfold metadataToUrl, makeMetadataKey in *.
  unfold fits in Hf. rewrite !slen_app in Hf. change (slen (str ":metadata:")) with 10 in Hf.
  pose proof (slen_nonneg cid). pose proof (slen_nonneg path). unfold npos in Hf.
  rewrite (find_first_of_at ":" [] cid (str "metadata:" ++ path) _ 0) by first [assumption | reflexivity].
  change (slen (@nil ascii)) with 0. rewrite Z.add_0_l, (u64_small (slen cid + 1)) by lia.
  rewrite (find_first_of_at ":" (cid ++ str ":") (str "metadata") path).
  2: { by rewrite <- app_assoc. }
  2: { by rewrite slen_app. }
  2: { apply (bool_decide_unpack _). by vm_compute. }
  rewrite substr_prefix. cbn [mbind outcome_bind].
  rewrite slen_app. change (slen (str ":")) with 1. change (slen (str "metadata")) with 8.
  rewrite u64_small by lia.
  rewrite (substr_from (cid ++ str ":metadata:") path).
  - done.
  - by rewrite <- app_assoc.
  - rewrite slen_app. change (slen (str ":metadata:")) with 10. lia.
  - unfold npos. lia.
Qed.

Lemma extractAttributeName_spec cid path name :
  fits name -> extractAttributeName cid path (makeAttributeKey cid path name) = Ret name.
Proof.
  intros Hf. unfold extractAttributeName, makeAttributeKey.
  apply (substr_from (cid ++ str ":attribute:" ++ path ++ str ":")).
  - by rewrite <- !app_assoc.
  - rewrite !slen_app. change (slen (str ":")) with 1. lia.
  - unfold fits in Hf. lia.
Qed.

Lemma to_string_nonneg n : 0 <= n -> to_string n = dec n.
Proof. intros. unfold to_string. assert ((n <? 0) = false) as -> by lia. done. Qed.

(** Data keys of one file are ordered like their block numbers. *)
Lemma makeDataKey_ltb cid base m n :
  0 <= m <= INT_MAX -> 0 <= n <= INT_MAX ->
  str_ltb (makeDataKey cid base m) (makeDataKey cid base n) = (m <? n).
Proof.
  intros Hm Hn. unfold makeDataKey, INT_MAX in *. rewrite !str_ltb_app, !to_string_nonneg by lia.
  apply str_ltb_pad0; lia.
Qed.

Lemma length_block_suffix n : 0 <= n <= INT_MAX -> length (pad0 10 (to_string n)) = 10%nat.
Proof.
  intros. unfold INT_MAX in *. rewrite to_string_nonneg by lia. apply length_pad0.
  destruct (dec_spec n ltac:(lia)) as (_ & _ & Hl & _). apply Hl; lia.
Qed.

(** Splitting at the first separator: cluster ids hold no colon. *)
Lemma split_at_sep {A} (c : A) s s' t t' :
  c ∉ s -> c ∉ s' -> s ++ c :: t = s' ++ c :: t' -> s = s' /\ t = t'.
Proof.
  revert s'. induction s as [|x s IH]; intros [|y s'] Hs Hs' E; cbn [app] in E.
  - by simplify_eq.
  - injection E as -> _. by destruct Hs'; constructor.
  - injection E as -> _. by destruct Hs; constructor.
  - injection E as -> E. apply not_elem_of_cons in Hs as [_ Hs], Hs' as [_ Hs'].
    by destruct (IH s' Hs Hs' E) as [-> ->].
Qed.

Lemma makeDataKey_inj cid cid' base base' m n :
  ":"%char ∉ cid -> ":"%char ∉ cid' -> 0 <= m <= INT_MAX -> 0 <= n <= INT_MAX ->
  makeDataKey cid base m = makeDataKey cid' base' n -> cid = cid' /\ base = base' /\ m = n.
Proof.
  intros Hc Hc' Hm Hn E. unfold makeDataKey in E.
  change (str ":data:") with (":"%char :: str "data:") in E. cbn [app] in E.
  apply split_at_sep in E as [-> E]; [|done..]. apply app_inv_head in E.
  rewrite !app_assoc in E. apply app_inj_2 in E as [E1 E2].
  2: { by rewrite !length_block_suffix by done. }
  apply app_inv_tail in E1 as ->. split_and!; try done.
  unfold INT_MAX in *. rewrite !to_string_nonneg in E2 by lia. eapply pad0_inj; [..|exact E2]; lia.
Qed.

(** A cluster id as the README requires it. *)
Definition valid_id (cid : bytes) : Prop :=
  cid <> [] /\ ":"%char ∉ cid /\ "/"%char ∉ cid.

#[export] Instance valid_id_dec cid : Decision (valid_id cid).
Proof. unfold valid_id. apply _. Defined.

Lemma uuidDecodeSize_encode size uuid :
  0 <= size < 10 ^ 10 -> slen uuid = 36 \/ slen uuid = 16 ->
  uuidDecodeSize (Some (uuidGenerateEncodeSize size uuid)) = Ret (Z.min size INT_MAX).
Proof.
  intros Hs Hu. unfold uuidDecodeSize, uuidGenerateEncodeSize.
  destruct (dec_spec size ltac:(lia)) as (Hd & Hv & Hl & Hne).
  specialize (Hl 10%nat ltac:(lia) ltac:(lia)).
  assert (slen (pad0 10 (dec size)) = 10) as Hp. { unfold slen. by rewrite length_pad0. }
  rewrite slen_app, Hp.
  assert ((10 + slen uuid =? 46) || (10 + slen uuid =? 26) = true) as ->.
  { apply orb_true_iff. destruct Hu; [left|right]; lia. }
  rewrite <- Hp at 1. rewrite substr_prefix. cbn [mbind outcome_bind mret outcome_ret].
  unfold stream_to_int. rewrite signed_digits_pad0, dval_pad0, Hv by lia.
  unfold INT_MAX, INT_MIN. rewrite u64_small by lia. f_equal. lia.
Qed.

(** ** Properties *)

(** The cluster id and the path of a kinetic url are recovered by [urlToClusterId] and
    [urlToPath], for every cluster id the documentation allows. *)
Theorem url_roundtrip cid path :
  valid_id cid -> fits (scheme ++ cid ++ str "/" ++ path) ->
  urlToClusterId (scheme ++ cid ++ str "/" ++ path) = Ret cid /\
  urlToPath (scheme ++ cid ++ str "/" ++ path) = Ret path.
Proof. intros (? & ? & ?) ?. split; [by apply urlToClusterId_spec | by apply urlToPath_spec]. Qed.

Lemma url_roundtrip_witness :
  urlToClusterId (scheme ++ str "Cluster1" ++ str "/" ++ str "eos/file") = Ret (str "Cluster1") /\
  urlToPath (scheme ++ str "Cluster1" ++ str "/" ++ str "eos/file") = Ret (str "eos/file").
Proof.
  apply (url_roundtrip (str "Cluster1") (str "eos/file")).
  - apply (bool_decide_unpack _). by vm_compute.
  - by vm_compute.
Defined.

(** A file listing turns metadata keys back into urls: the url built from the metadata key of
    a file names the cluster and the path the key was made from. *)
Theorem metadata_key_url_path cid path :
  valid_id cid -> fits (scheme ++ cid ++ str "/" ++ path) ->
  (url ← metadataToUrl (makeMetadataKey cid path); urlToPath url) = Ret path /\
  (url ← metadataToUrl (makeMetadataKey cid path); urlToClusterId url) = Ret cid.
Proof.
  intros (Hne & Hc & Hs) Hf.
  assert (fits (makeMetadataKey cid path)).
  { unfold fits, makeMetadataKey in *. rewrite !slen_app in *.
    change (slen (str ":metadata:")) with 10 in *. change (slen scheme) with 10 in *.
    change (slen (str "/")) with 1 in *. lia. }
  rewrite metadataToUrl_spec by done. cbn [mbind outcome_bind].
  split; [by apply urlToPath_spec | by apply urlToClusterId_spec].
Qed.

Lemma metadata_key_url_path_witness :
  (url ← metadataToUrl (makeMetadataKey (str "C1") (str "a:b/c")); urlToPath url) = Ret (str "a:b/c") /\
  (url ← metadataToUrl (makeMetadataKey (str "C1") (str "a:b/c")); urlToClusterId url) = Ret (str "C1").
Proof.
  apply (metadata_key_url_path (str "C1") (str "a:b/c")).
  - apply (bool_decide_unpack _). by vm_compute.
  - by vm_compute.
Defined.

(** The key spaces of blocks, files and attributes of a cluster are disjoint, also across
    clusters, so that removing blocks can never touch metadata or attributes. *)
Lemma key_spaces_disjoint cid cid' cid'' base n path path' name :
  valid_id cid -> valid_id cid' -> valid_id cid'' ->
  makeDataKey cid base n <> makeMetadataKey cid' path /\
  makeDataKey cid base n <> makeAttributeKey cid'' path' name /\
  makeMetadataKey cid' path <> makeAttributeKey cid'' path' name.
Proof.
  intros (_ & ? & _) (_ & ? & _) (_ & ? & _).
  unfold makeDataKey, makeMetadataKey, makeAttributeKey.
  change (str ":data:") with (":"%char :: str "data:").
  change (str ":metadata:") with (":"%char :: str "metadata:").
  change (str ":attribute:") with (":"%char :: str "attribute:"). cbn [app].
  split_and!; intros E; apply split_at_sep in E as [_ E]; done.
Qed.

(** C36: Keys identify what they are for and sort like it: two data keys of valid clusters are equal
    only for the same cluster, file and block; the keys of one file are ordered as the block
    numbers, which is what the key-range requests of truncate and of the end-of-file search use; and no key of a
    block is the key of a file or of an attribute, nor one of a file that of an attribute, also across clusters, so
    that removing blocks can never touch metadata or attributes. *)
Theorem data_key_order_and_identity cid cid' cid'' base base' m n path path' name :
  valid_id cid -> valid_id cid' -> valid_id cid'' -> 0 <= m <= INT_MAX -> 0 <= n <= INT_MAX ->
  (makeDataKey cid base m = makeDataKey cid' base' n <-> cid = cid' /\ base = base' /\ m = n) /\
  str_ltb (makeDataKey cid base m) (makeDataKey cid base n) = (m <? n) /\
  makeDataKey cid base m <> makeMetadataKey cid' path /\
  makeDataKey cid base m <> makeAttributeKey cid'' path' name /\
  makeMetadataKey cid' path <> makeAttributeKey cid'' path' name.
Proof.
  intros Hc Hc' Hc'' ? ?. split_and!; [split| |by eapply key_spaces_disjoint..].
  - destruct Hc as (_ & ? & _), Hc' as (_ & ? & _). by apply makeDataKey_inj.
  - by intros (-> & -> & ->).
  - by apply makeDataKey_ltb.
Qed.

Lemma data_key_order_and_identity_witness :
  str_ltb (makeDataKey (str "C1") (str "f") 9) (makeDataKey (str "C1") (str "f") 10) = true /\
  makeDataKey (str "C1") (str "f") 9 <> makeMetadataKey (str "C1") (str "f").
Proof.
  assert (valid_id (str "C1")) as V by (apply (bool_decide_unpack _); by vm_compute).
  destruct (data_key_order_and_identity (str "C1") (str "C1") (str "C1") (str "f") (str "f") 9 10 (str "f") (str "f") (str "x") V V V)
    as (_ & Ho & Hm & _); [by vm_compute..|]. split; [exact Ho|exact Hm].
Defined.

(** The size encoded in a version string is read back exactly as long as it fits an [int]; a
    larger size (of up to ten digits) decodes to the largest [int]. *)
Theorem uuid_size_roundtrip size uuid :
  0 <= size < 10 ^ 10 -> slen uuid = 36 \/ slen uuid = 16 ->
  uuidDecodeSize (Some (uuidGenerateEncodeSize size uuid)) = Ret (Z.min size INT_MAX).
Proof. apply uuidDecodeSize_encode. Qed.

Lemma uuid_size_roundtrip_witness :
  uuidDecodeSize (Some (uuidGenerateEncodeSize 1048576 (replicate 36 "a"%char))) = Ret 1048576.
Proof. apply (uuid_size_roundtrip 1048576 (replicate 36 "a"%char)); [lia | by left]. Defined.

(** Indicator keys and attribute keys give back what they were made from. *)
Theorem indicator_attribute_roundtrip key cid path name :
  fits key -> fits name ->
  indicatorToKey (makeIndicatorKey key) = Ret key /\
  extractAttributeName cid path (makeAttributeKey cid path name) = Ret name.
Proof.
  intros Hk Hn. split; [|by apply extractAttributeName_spec].
  apply substr_suffix. unfold fits in Hk. lia.
Qed.

Lemma indicator_attribute_roundtrip_witness :
  indicatorToKey (makeIndicatorKey (str "C1:data:f_0000000000")) = Ret (str "C1:data:f_0000000000") /\
  extractAttributeName (str "C1") (str "f") (makeAttributeKey (str "C1") (str "f") (str "sys.x")) = Ret (str "sys.x").
Proof. apply indicator_attribute_roundtrip; by vm_compute. Defined.

(** ** What the layouts do not guarantee *)

(** The block range of a file, as truncate requests it, contains blocks of other files: the range
    of file [a] contains the first block of the file called [a_0000000000]. *)
Lemma block_range_contains_other_file :
  let lo := makeDataKey (str "C1") (str "a") 0 in
  let hi := makeDataKey (str "C1") (str "a") INT_MAX in
  let other := makeDataKey (str "C1") (str "a_0000000000") 0 in
  str_leb lo other = true /\ str_leb other hi = true.
Proof. by vm_compute. Qed.

(** Attribute keys are ambiguous for paths that hold a colon. *)
Lemma attribute_key_ambiguous :
  makeAttributeKey (str "C1") (str "f") (str "x:y") = makeAttributeKey (str "C1") (str "f:x") (str "y").
Proof. by vm_compute. Qed.
