(* ===== verification/Kinetic.v ===== *)
(** * The environment: drives, clock and uuids

    The kinetic client library, the drives behind it, the system clock and the uuid generator are
    not part of the source.  What the library calls of them is the interface [Env] over an abstract
    state of the environment, which also holds whatever other clients do to the drives; every
    theorem that needs more than the interface names the documented behaviour it relies on. *)

From S2P Require Import Prelude CppString Utility.

(** ** Data exchanged with a drive *)

Inductive WriteMode := IGNORE_VERSION | REQUIRE_SAME_VERSION.
(** [UNSPECIFIED] stands for the overloads of [Put] and [Delete] without this argument. *)
Inductive PersistMode := WRITE_BACK | UNSPECIFIED.
Inductive Algorithm := CRC32 | INVALID_ALGORITHM.

Record KineticRecord := mkRecord {
  rec_value : option bytes;
  rec_version : bytes;
  rec_tag : bytes;
  rec_algorithm : Algorithm;
}.

Inductive Command_GetLog_Type := LOG_LIMITS | LOG_CAPACITIES | LOG_STATISTICS.

Record OperationStatistic := mkOperationStatistic {
  stat_name : bytes;
  stat_count : Z;
  stat_bytes : Z;
}.

Record DriveLog := mkDriveLog {
  log_max_key_size : Z;
  log_max_version_size : Z;
  log_max_value_size : Z;
  log_nominal_capacity_in_bytes : Z;
  (* nominal_capacity_in_bytes * portion_full, a product of the floating-point unit *)
  log_bytes_used : Z;
  log_operation_statistics : list OperationStatistic;
}.

(** The asynchronous calls the source makes on a connection. *)
Inductive request :=
  | Put (key version : bytes) (mode : WriteMode) (record : KineticRecord) (persist : PersistMode)
  | Delete (key version : bytes) (mode : WriteMode) (persist : PersistMode)
  | Get (key : bytes)
  | GetVersion (key : bytes)
  | GetKeyRange (start_key : bytes) (start_inclusive : bool) (end_key : bytes) (end_inclusive : bool)
      (reverse : bool) (max_results : Z)
  | GetLog (types : list Command_GetLog_Type)
  | Flush.

(** The callback the client library makes when a request completes. *)
Inductive reply :=
  | Failure (error : StatusCode)
  | Success
  | SuccessRecord (r : KineticRecord)
  | SuccessVersion (v : bytes)
  | SuccessKeys (ks : list bytes)
  | SuccessLog (l : DriveLog).

(** What becomes of a request handed to a connection before its timeout: there is no connection,
    [Run] reports an error (possibly after a reply was delivered), a reply arrives, or none does. *)
Inductive submission :=
  | NotConnected
  | RunFalse (early : option reply)
  | Answered (r : reply)
  | Unanswered.

(** ** The interface *)

Class Env (D : Type) := {
  env_submit : nat -> request -> D -> submission * D;
  env_now : D -> Z * D;
  env_usleep : Z -> D -> D;
  env_uuid : D -> bytes * D;
}.

(** The checksum function; src/outside/crc32c.c implements it. *)
Class Checksum := crc32c : Z -> bytes -> Z.

(** Units of [system_clock] time points. *)
Definition ns_per_s : Z := 1000000000.
Definition ns_per_ms : Z := 1000000.

(** [duration_cast<seconds>] and [duration_cast<milliseconds>] truncate towards zero. *)
Definition to_seconds (d : Z) : Z := Z.quot d ns_per_s.
Definition to_millis (d : Z) : Z := Z.quot d ns_per_ms.

(** What termination arguments rely on: the clock does not run backwards, a reading lies between the
    clock before and after it, and sleeping lets at least that much time pass. *)
Class ClockLaws (D : Type) `{Env D} := {
  clock : D -> Z;
  clock_submit : forall i r d, clock d <= clock (env_submit i r d).2;
  clock_now : forall d, clock d <= (env_now d).1 <= clock (env_now d).2;
  clock_usleep : forall us d, 0 <= us -> clock d + us * 1000 <= clock (env_usleep us d);
  clock_uuid : forall d, clock d <= clock (env_uuid d).2;
}.
