(* ===== verification/Simulator.v ===== *)
(** * A concrete environment

    Drives as maps from keys to records with the documented semantics of the kinetic protocol, some
    of them possibly unreachable; a clock that only [usleep] moves; numbered uuids.  The theorems do
    not depend on it: their witnesses run on it, which shows that what they assume of the
    environment can hold. *)

From S2P Require Import Prelude CppString Utility Kinetic.

Module Simulator.

Record sim := mkSim {
  sim_drives : list (option (gmap bytes KineticRecord));
  sim_clock : Z;
  sim_uuids : Z;
}.

Fixpoint insert_key (k : bytes) (l : list bytes) : list bytes :=
  match l with
  | [] => [k]
  | k' :: l' => if str_ltb k k' then k :: l else k' :: insert_key k l'
  end.

Definition keys_in_range (store : gmap bytes KineticRecord) (lo hi : bytes) : list bytes :=
  let ks := filter (fun k => str_leb lo k && str_leb k hi = true) (map fst (map_to_list store)) in
  foldr insert_key [] ks.

Definition version_of (store : gmap bytes KineticRecord) (key : bytes) : bytes :=
  default [] (rec_version <$> store !! key).

Definition mode_ok (store : gmap bytes KineticRecord) (key version : bytes) (mode : WriteMode) : bool :=
  match mode with
  | IGNORE_VERSION => true
  | REQUIRE_SAME_VERSION => bool_decide (version_of store key = version)
  end.

Definition sim_log : DriveLog := mkDriveLog 4096 2048 1048576 1000 250
  [mkOperationStatistic (str "GET_RESPONSE") 3 30; mkOperationStatistic (str "PUT") 4 40].

Definition sim_reply (req : request) (store : gmap bytes KineticRecord) : reply * gmap bytes KineticRecord :=
  match req with
  | Put key version mode record _ =>
      if mode_ok store key version mode then (Success, <[key:=record]> store)
      else (Failure REMOTE_VERSION_MISMATCH, store)
  | Delete key version mode _ =>
      match store !! key with
      | None => (Failure REMOTE_NOT_FOUND, store)
      | Some _ => if mode_ok store key version mode then (Success, delete key store)
                  else (Failure REMOTE_VERSION_MISMATCH, store)
      end
  | Get key =>
      match store !! key with
      | Some r => (SuccessRecord r, store)
      | None => (Failure REMOTE_NOT_FOUND, store)
      end
  | GetVersion key =>
      match store !! key with
      | Some r => (SuccessVersion (rec_version r), store)
      | None => (Failure REMOTE_NOT_FOUND, store)
      end
  | GetKeyRange lo _ hi _ rev_ max =>
      let ks := keys_in_range store lo hi in
      (SuccessKeys (take (Z.to_nat max) (if rev_ then reverse ks else ks)), store)
  | GetLog _ => (SuccessLog sim_log, store)
  | Flush => (Success, store)
  end.

Definition sim_submit (i : nat) (req : request) (d : sim) : submission * sim :=
  match sim_drives d !! i with
  | Some (Some store) =>
      let '(r, store') := sim_reply req store in
      (Answered r, mkSim (<[i := Some store']> (sim_drives d)) (sim_clock d) (sim_uuids d))
  | _ => (NotConnected, d)
  end.

#[export] Instance sim_env : Env sim := {
  env_submit := sim_submit;
  env_now := fun d => (sim_clock d, d);
  env_usleep := fun us d => mkSim (sim_drives d) (sim_clock d + us * 1000) (sim_uuids d);
  env_uuid := fun d => (pad0 36 (dec (sim_uuids d mod 10 ^ 36)), mkSim (sim_drives d) (sim_clock d) (sim_uuids d + 1));
}.

(** The declaration order of the client library's enumeration, further codes behind it. *)
#[export] Instance sim_status_int : StatusInt := fun c =>
  match c with
  | OK => 0
  | CLIENT_IO_ERROR => 1
  | CLIENT_SHUTDOWN => 2
  | CLIENT_INTERNAL_ERROR => 3
  | CLIENT_RESPONSE_HMAC_VERIFICATION_ERROR => 4
  | REMOTE_HMAC_ERROR => 5
  | REMOTE_NOT_AUTHORIZED => 6
  | REMOTE_CLUSTER_VERSION_MISMATCH => 7
  | REMOTE_NOT_FOUND => 8
  | REMOTE_VERSION_MISMATCH => 9
  | OTHER n => if n <? 0 then 9 - 2 * n else 10 + 2 * n
  end.

#[export] Instance sim_status_int_laws : StatusIntLaws.
Proof.
  split.
  - intros [] []; unfold status_int, sim_status_int; intros E;
      repeat match type of E with context [?n <? 0] => destruct (Z.ltb_spec n 0) end;
      try done; try lia; f_equal; lia.
  - intros []; unfold status_int, sim_status_int; repeat case_bool; lia.
  - unfold status_int, sim_status_int. lia.
Qed.

(** A cluster of [n] empty, reachable drives. *)
Definition fresh (n : nat) : sim := mkSim (replicate n (Some ∅)) 0 1.

#[export] Program Instance sim_clock_laws : ClockLaws sim := { clock := sim_clock }.
Next Obligation.
  intros i r d. simpl. unfold sim_submit. destruct (sim_drives d !! i) as [[store|]|]; simpl; try lia.
  destruct (sim_reply r store). simpl. lia.
Qed.
Next Obligation. intros d. simpl. lia. Qed.
Next Obligation. intros us d ?. simpl. lia. Qed.
Next Obligation. intros d. simpl. lia. Qed.

End Simulator.
