(* ===== verification/Callbacks.v ===== *)
(** * Completion callbacks (src/KineticCallbacks.cc)

    Every asynchronous request owns a callback; the callbacks of one operation share a
    [CallbackSynchronization] that counts the outstanding ones.  A thread of the socket listener
    completes callbacks, the issuing thread completes those it gives up on: all of it happens under
    the mutex of the synchronization object, so that the system is a state machine whose steps are
    the member functions below, in any order. *)

From S2P Require Import Prelude CppString Utility Kinetic.

Module Callbacks.

(** The classes derived from [KineticCallback] differ in the result they keep. *)
Inductive callback_class :=
  | GetCallback | GetVersionCallback | GetLogCallback | PutCallback | BasicCallback | RangeCallback.

#[export] Instance callback_class_eq_dec : EqDecision callback_class.
Proof. solve_decision. Defined.

(** [KineticCallback] with the members of its derived classes. *)
Record callback := mkCallback {
  cb_class : callback_class;
  cb_status : StatusCode;
  cb_done : bool;
  cb_record : option KineticRecord;
  cb_version : bytes;
  cb_log : option DriveLog;
  cb_keys : option (list bytes);
}.

(** [CallbackSynchronization::outstanding], an [int]. *)
Abbreviation sync := Z (only parsing).

(** [KineticCallback::KineticCallback] *)
Definition new_callback (c : callback_class) (outstanding : sync) : callback * sync :=
  (mkCallback c CLIENT_INTERNAL_ERROR false None [] None None, outstanding + 1).

Definition set_result (cb : callback) (status : StatusCode) (done : bool) : callback :=
  mkCallback (cb_class cb) status done (cb_record cb) (cb_version cb) (cb_log cb) (cb_keys cb).

Definition OnResult (result : StatusCode) (cb : callback) (outstanding : sync) : callback * sync :=
  if cb_done cb then (cb, outstanding)
  else (set_result cb result true, outstanding - 1).

Definition getResult (cb : callback) : StatusCode := cb_status cb.

Definition finished (cb : callback) : bool := cb_done cb.

Definition reset (cb : callback) (outstanding : sync) : callback * sync :=
  (set_result cb CLIENT_INTERNAL_ERROR false, outstanding + 1).

(** The condition under which [CallbackSynchronization::wait_until] returns. *)
Definition wait_until_returns (outstanding : sync) (now timeout_time : Z) : bool :=
  negb (negb (outstanding =? 0) && (now <? timeout_time)).

(** The [Success] and [Failure] members: each derived class stores its result before it completes
    the callback. *)
Definition store_reply (r : reply) (cb : callback) : callback :=
  match r with
  | SuccessRecord rec =>
      mkCallback (cb_class cb) (cb_status cb) (cb_done cb) (Some rec) (cb_version cb) (cb_log cb) (cb_keys cb)
  | SuccessVersion v =>
      mkCallback (cb_class cb) (cb_status cb) (cb_done cb) (cb_record cb) v (cb_log cb) (cb_keys cb)
  | SuccessLog l =>
      mkCallback (cb_class cb) (cb_status cb) (cb_done cb) (cb_record cb) (cb_version cb) (Some l) (cb_keys cb)
  | SuccessKeys ks =>
      mkCallback (cb_class cb) (cb_status cb) (cb_done cb) (cb_record cb) (cb_version cb) (cb_log cb) (Some ks)
  | Success | Failure _ => cb
  end.

Definition reply_status (r : reply) : StatusCode :=
  match r with
  | Failure e => e
  | _ => OK
  end.

Definition deliver (r : reply) (cb : callback) (outstanding : sync) : callback * sync :=
  OnResult (reply_status r) (store_reply r cb) outstanding.

(** The replies the client library makes to a callback of a class. *)
Definition reply_fits (c : callback_class) (r : reply) : bool :=
  match c, r with
  | _, Failure e => negb (bool_decide (e = OK))
  | GetCallback, SuccessRecord _ => true
  | GetVersionCallback, SuccessVersion _ => true
  | GetLogCallback, SuccessLog _ => true
  | (PutCallback | BasicCallback), Success => true
  | RangeCallback, SuccessKeys _ => true
  | _, _ => false
  end.

(** ** The system of callbacks of one operation *)

Record system := mkSystem { callbacks : list callback; outstanding : sync }.

Inductive step : system -> system -> Prop :=
  | step_create s c cb n :
      new_callback c (outstanding s) = (cb, n) ->
      step s (mkSystem (callbacks s ++ [cb]) n)
  | step_result s i cb cb' r n :
      callbacks s !! i = Some cb ->
      OnResult r cb (outstanding s) = (cb', n) ->
      step s (mkSystem (<[i:=cb']> (callbacks s)) n)
  | step_deliver s i cb cb' r n :
      callbacks s !! i = Some cb ->
      deliver r cb (outstanding s) = (cb', n) ->
      step s (mkSystem (<[i:=cb']> (callbacks s)) n)
  | step_reset s i cb cb' n :
      callbacks s !! i = Some cb ->
      finished cb = true ->
      reset cb (outstanding s) = (cb', n) ->
      step s (mkSystem (<[i:=cb']> (callbacks s)) n).

Definition initial : system := mkSystem [] 0.

Definition reachable (s : system) : Prop := rtc step initial s.

(** Callbacks that still wait for their result. *)
Definition pending (cbs : list callback) : Z :=
  Z.of_nat (length (filter (fun cb => cb_done cb = false) cbs)).

Lemma pending_app l l' : pending (l ++ l') = pending l + pending l'.
Proof. unfold pending. rewrite filter_app, length_app. lia. Qed.

Lemma pending_cons cb l : pending (cb :: l) = (if cb_done cb then 0 else 1) + pending l.
Proof. unfold pending. rewrite filter_cons. case_decide as H; destruct (cb_done cb); try done; simpl; lia. Qed.

Lemma pending_nonneg l : 0 <= pending l.
Proof. unfold pending. lia. Qed.

Lemma pending_insert l i cb cb' :
  l !! i = Some cb ->
  pending (<[i:=cb']> l) = pending l - (if cb_done cb then 0 else 1) + (if cb_done cb' then 0 else 1).
Proof.
  intros Hi. rewrite (insert_take_drop _ _ _ (lookup_lt_Some _ _ _ Hi)).
  rewrite <- (take_drop_middle l i cb Hi) at 3. rewrite !pending_app, !pending_cons. lia.
Qed.

Lemma OnResult_spec r cb n cb' n' :
  OnResult r cb n = (cb', n') ->
  cb_done cb' = true /\ n' = n - (if cb_done cb then 0 else 1) /\
  cb_status cb' = (if cb_done cb then cb_status cb else r) /\ cb_class cb' = cb_class cb.
Proof. unfold OnResult. destruct (cb_done cb) eqn:E; intros; simplify_eq/=; split_and!; auto; lia. Qed.

Lemma deliver_spec r cb n cb' n' :
  deliver r cb n = (cb', n') ->
  cb_done cb' = true /\ n' = n - (if cb_done cb then 0 else 1) /\
  cb_status cb' = (if cb_done cb then cb_status cb else reply_status r) /\ cb_class cb' = cb_class cb.
Proof. intros H%OnResult_spec. by destruct r. Qed.

Lemma pending_zero_done l : pending l = 0 -> Forall (fun cb => cb_done cb = true) l.
Proof.
  induction l as [|cb l IH]; [done|]. rewrite pending_cons. pose proof (pending_nonneg l).
  destruct (cb_done cb) eqn:E; [|lia]. intros. constructor; [done|apply IH; lia].
Qed.

Lemma step_invariant s s' :
  step s s' -> outstanding s = pending (callbacks s) -> outstanding s' = pending (callbacks s').
Proof.
  intros Hs Hinv. destruct Hs as [s c cb n H|s i cb cb' r n Hi H|s i cb cb' r n Hi H|s i cb cb' n Hi Hf H]; simpl.
  - unfold new_callback in H. simplify_eq. rewrite pending_app. unfold pending at 2. simpl. lia.
  - apply OnResult_spec in H as (Hd & -> & _). rewrite (pending_insert _ _ _ _ Hi), Hd. lia.
  - apply deliver_spec in H as (Hd & -> & _). rewrite (pending_insert _ _ _ _ Hi), Hd. lia.
  - unfold reset in H. simplify_eq. unfold finished in Hf.
    rewrite (pending_insert _ _ _ _ Hi), Hf. simpl. lia.
Qed.

Lemma reachable_invariant s : reachable s -> outstanding s = pending (callbacks s).
Proof.
  assert (forall a b, rtc step a b -> outstanding a = pending (callbacks a) ->
    outstanding b = pending (callbacks b)) as H.
  { induction 1; eauto using step_invariant. }
  intros Hr. by eapply H.
Qed.

End Callbacks.
Export Callbacks.

(** ** Properties *)

(** C21: In every reachable state the outstanding counter is the number of unfinished callbacks:
    no result is counted twice however deliveries, timeouts and re-use of callbacks interleave.
    Hence a waiting operation that returns before its timeout has all its results. *)
Theorem outstanding_counts_unfinished s now timeout_time :
  reachable s ->
  outstanding s = pending (callbacks s) /\
  (wait_until_returns (outstanding s) now timeout_time = true -> now < timeout_time ->
   Forall (fun cb => finished cb = true) (callbacks s)).
Proof.
  intros Hr. pose proof (reachable_invariant s Hr) as Hi. split; [done|].
  unfold wait_until_returns. intros Hw Hlt. apply pending_zero_done. rewrite <- Hi.
  apply negb_true_iff, andb_false_iff in Hw as [Hw|Hw]; bool_to_prop; lia.
Qed.

Lemma outstanding_counts_unfinished_witness :
  let s := mkSystem [fst (OnResult OK (fst (new_callback PutCallback 0)) 1)] 0 in
  outstanding s = pending (callbacks s) /\
  (wait_until_returns (outstanding s) 0 5 = true -> 0 < 5 ->
   Forall (fun cb => finished cb = true) (callbacks s)).
Proof.
  apply outstanding_counts_unfinished.
  eapply rtc_l; [eapply (step_create initial PutCallback); reflexivity|].
  eapply rtc_l; [eapply (step_result _ 0 _ _ OK); reflexivity|]. apply rtc_refl.
Defined.

(** The first result of a callback wins: whatever completes it later (a late reply after the
    timeout was recorded, or the timeout after the reply) leaves the recorded status as it is. *)
Theorem first_result_wins s s' i cb :
  step s s' -> callbacks s !! i = Some cb -> finished cb = true ->
  exists cb', callbacks s' !! i = Some cb' /\
    (finished cb' = true -> getResult cb' = getResult cb).
Proof.
  intros Hs Hi Hf. unfold finished, getResult in *.
  assert (forall j x y, callbacks s !! j = Some x -> (j = i -> cb_done y = true -> cb_status y = cb_status cb) ->
    exists cb', <[j:=y]> (callbacks s) !! i = Some cb' /\ (cb_done cb' = true -> cb_status cb' = cb_status cb)) as Hins.
  { intros j x y Hj Hy. destruct (decide (j = i)) as [->|Hne].
    - exists y. split; [|by apply Hy]. apply list_lookup_insert_eq. by eapply lookup_lt_Some.
    - exists cb. by rewrite list_lookup_insert_ne. }
  destruct Hs as [s c cb0 n H|s j cb0 cb1 r n Hj H|s j cb0 cb1 r n Hj H|s j cb0 cb1 n Hj Hfj H]; simpl.
  - exists cb. split; [|done]. by apply lookup_app_l_Some.
  - eapply Hins; [done|]. intros -> _. simplify_eq.
    apply OnResult_spec in H as (_ & _ & -> & _). by rewrite Hf.
  - eapply Hins; [done|]. intros -> _. simplify_eq.
    apply deliver_spec in H as (_ & _ & -> & _). by rewrite Hf.
  - eapply Hins; [done|]. intros -> Hd. unfold reset in H. by simplify_eq.
Qed.

Lemma first_result_wins_witness :
  let cb := fst (OnResult CLIENT_IO_ERROR (fst (new_callback PutCallback 0)) 1) in
  exists cb', callbacks (mkSystem [fst (deliver Success cb 0)] 0) !! 0%nat = Some cb' /\
    (finished cb' = true -> getResult cb' = getResult cb).
Proof.
  intros cb. apply (first_result_wins (mkSystem [cb] 0) (mkSystem [fst (deliver Success cb 0)] 0) 0 cb);
    [|reflexivity..].
  apply (step_deliver (mkSystem [cb] 0) 0 cb _ Success); reflexivity.
Defined.
