(* ===== verification/ClusterOperation.v ===== *)
(** * Operations on all drives of a cluster (src/KineticClusterOperation.cc)

    A cluster operation owns a vector of asynchronous operations, each a request bound to a
    connection with the callback that receives its result.  [executeOperationVector] hands every
    unfinished operation to its connection, waits, gives up on what did not return in time and
    counts the results; the quorum decisions of all operations read that count. *)

From S2P Require Import Prelude CppString Utility Kinetic Simulator Callbacks.

Module ClusterOperation.

(** ** Counting results *)

(** [std::map<StatusCode, size_t, CompareStatusCode>] in iteration order. *)
Abbreviation rmap := (list (StatusCode * Z)) (only parsing).

Section Results.
Context `{StatusInt}.

Definition regular_code (c : StatusCode) : bool :=
  bool_decide (c = OK) || bool_decide (c = REMOTE_NOT_FOUND) || bool_decide (c = REMOTE_VERSION_MISMATCH).

Definition CompareStatusCode_toInt (code : StatusCode) : Z :=
  if regular_code code then status_int code else status_int code + 100.

Definition CompareStatusCode (lhs rhs : StatusCode) : bool :=
  CompareStatusCode_toInt lhs <? CompareStatusCode_toInt rhs.

(** [rmap[c] = f(rmap[c])]: a missing entry starts as zero. *)
Fixpoint rmap_alter (f : Z -> Z) (c : StatusCode) (m : rmap) : rmap :=
  match m with
  | [] => [(c, f 0)]
  | (c', n) :: m' =>
      if CompareStatusCode c c' then (c, f 0) :: m
      else if CompareStatusCode c' c then (c', n) :: rmap_alter f c m'
      else (c', f n) :: m'
  end.

(** The value of [rmap[c]]. *)
Fixpoint rmap_at (c : StatusCode) (m : rmap) : Z :=
  match m with
  | [] => 0
  | (c', n) :: m' => if CompareStatusCode c c' || CompareStatusCode c' c then rmap_at c m' else n
  end.

(** Reading with [operator[]] creates the entry. *)
Definition rmap_touch (c : StatusCode) (m : rmap) : rmap := rmap_alter id c m.

(** [for (it : operations) rmap[it->callback->getResult().statusCode()]++] *)
Definition count_results (codes : list StatusCode) : rmap :=
  foldl (fun m c => rmap_alter (Z.add 1) c m) [] codes.

(** [for (it : rmap) if (it->second >= quorum) return it->first] *)
Definition find_quorum (quorum : Z) (m : rmap) : option StatusCode :=
  match list_find (fun p => quorum <= snd p) m with
  | Some (_, (c, _)) => Some c
  | None => None
  end.
End Results.

(** ** The operation vector *)

Record KineticAsyncOperation := mkOp {
  op_function : option request;
  op_callback : option callback;
  op_connection : nat;
}.

(** [KineticClusterOperation], with the environment the connections lead to. *)
Record KineticClusterOperation {D : Type} := mkOperation {
  operations : list KineticAsyncOperation;
  op_sync : sync;
  op_env : D;
}.
Arguments KineticClusterOperation : clear implicits.
Arguments mkOperation {D} _ _ _.

Section Execute.
Context `{Env D} `{StatusInt}.

(** The number of connections of the cluster. *)
Variable nconn : nat.

Definition new_operation (d : D) : KineticClusterOperation D := mkOperation [] 0 d.

Definition expandOperationVector (size offset : nat) : M (KineticClusterOperation D) unit := fun w =>
  if bool_decide (nconn = 0%nat) && bool_decide (size <> 0%nat) then (UB, w)
  else (Ret tt, mkOperation
    (operations w ++ ((fun i => mkOp None None ((i + offset) mod nconn)) <$> seq 0 size)) (op_sync w) (op_env w)).

(** The first loop of [executeOperationVector], for one operation. *)
Definition call_function (op : KineticAsyncOperation) : M (sync * D) KineticAsyncOperation := fun '(s, d) =>
  match op_callback op with
  | None => (UB, (s, d))
  | Some cb =>
      if finished cb then (Ret op, (s, d)) else
      match op_function op with
      | None => (Throw std_bad_function_call, (s, d))
      | Some req =>
          let '(sub, d') := env_submit (op_connection op) req d in
          let '(cb', s') :=
            match sub with
            | NotConnected => OnResult CLIENT_IO_ERROR cb s
            | RunFalse None => OnResult CLIENT_IO_ERROR cb s
            | RunFalse (Some r) => let '(cb1, s1) := deliver r cb s in OnResult CLIENT_IO_ERROR cb1 s1
            | Answered r => deliver r cb s
            | Unanswered => (cb, s)
            end in
          (Ret (mkOp (op_function op) (Some cb') (op_connection op)), (s', d'))
      end
  end.

(** The second loop: an operation without a result by now has timed out. *)
Definition time_out (op : KineticAsyncOperation) : M sync KineticAsyncOperation := fun s =>
  match op_callback op with
  | None => (UB, s)
  | Some cb =>
      if finished cb then (Ret op, s)
      else let '(cb', s') := OnResult CLIENT_IO_ERROR cb s in
           (Ret (mkOp (op_function op) (Some cb') (op_connection op)), s')
  end.

(** The status codes of an operation vector. *)
Definition results (ops : list KineticAsyncOperation) : list StatusCode :=
  omap (fun op => getResult <$> op_callback op) ops.

Definition executeOperationVector : M (KineticClusterOperation D) rmap := fun w =>
  match mapM call_function (operations w) (op_sync w, op_env w) with
  | (Ret ops, (s, d)) =>
      match mapM time_out ops s with
      | (Ret ops', s') => (Ret (count_results (results ops')), mkOperation ops' s' d)
      | (Throw e, s') => (Throw e, mkOperation ops s' d)
      | (UB, s') => (UB, mkOperation ops s' d)
      | (OutOfFuel, s') => (OutOfFuel, mkOperation ops s' d)
      end
  | (Throw e, (s, d)) => (Throw e, mkOperation (operations w) s d)
  | (UB, (s, d)) => (UB, mkOperation (operations w) s d)
  | (OutOfFuel, (s, d)) => (OutOfFuel, mkOperation (operations w) s d)
  end.

(** Binding a request and a fresh callback to one operation of the vector. *)
Definition fill (c : callback_class) (req : request) (op : KineticAsyncOperation) (s : sync) :
    KineticAsyncOperation * sync :=
  let '(cb, s') := new_callback c s in (mkOp (Some req) (Some cb) (op_connection op), s').

(** [for (o : operations)] of the constructors below. *)
Definition fill_all (c : callback_class) (req : request) : M (KineticClusterOperation D) unit := fun w =>
  let '(ops, s) := foldl (fun '(ops, s) op => let '(op', s') := fill c req op s in (ops ++ [op'], s'))
    ([], op_sync w) (operations w) in
  (Ret tt, mkOperation ops s (op_env w)).

(** ** Flush *)

Definition ClusterFlushOp : M (KineticClusterOperation D) unit :=
  expandOperationVector nconn 0;; fill_all BasicCallback Flush.

Definition ClusterFlushOp_execute (quorum_size : Z) : M (KineticClusterOperation D) StatusCode :=
  rmap ← executeOperationVector;
  mret (default CLIENT_IO_ERROR (find_quorum quorum_size rmap)).

(** ** Log *)

Definition ClusterLogOp (types : list Command_GetLog_Type) (size offset : nat) :
    M (KineticClusterOperation D) unit :=
  expandOperationVector size offset;; fill_all GetLogCallback (GetLog types).

Definition ClusterLogOp_execute : M (KineticClusterOperation D) (list callback) :=
  executeOperationVector;;
  gets (fun w => omap op_callback (operations w)).

(** ** Range *)

Definition ClusterRangeOp (start_key end_key : bytes) (maxRequestedPerDrive : Z) :
    M (KineticClusterOperation D) unit :=
  let reverse := str_ltb end_key start_key in
  expandOperationVector nconn 0;;
  fill_all RangeCallback
    (GetKeyRange (if reverse then end_key else start_key) true
                 (if reverse then start_key else end_key) true reverse (i32 maxRequestedPerDrive)).

Definition ClusterRangeOp_execute (quorum_size : Z) : M (KineticClusterOperation D) StatusCode :=
  rmap ← executeOperationVector;
  mret (default CLIENT_IO_ERROR (find_quorum quorum_size rmap)).

(** [std::set<string>::insert] *)
Fixpoint set_insert (k : bytes) (s : list bytes) : list bytes :=
  match s with
  | [] => [k]
  | k' :: s' => if str_ltb k k' then k :: s else if str_ltb k' k then k' :: set_insert k s' else s
  end.

Definition ClusterRangeOp_getKeys (maxRequested : Z) (ops : list KineticAsyncOperation) : list bytes :=
  let opkeys := omap (fun op => op_callback op ≫= cb_keys) ops in
  let set := foldl (fun s ks => foldl (fun s k => set_insert k s) s ks) [] opkeys in
  if maxRequested <? slen set then take (Z.to_nat maxRequested) set else set.

End Execute.
End ClusterOperation.
Export ClusterOperation.

(** ** Lemmas: the result map *)

Section ResultLemmas.
Context {SI : StatusInt} {SIL : StatusIntLaws}.

Lemma regular_small c : regular_code c = true -> status_int c < 100.
Proof.
  unfold regular_code. destruct status_int_regular as (? & ? & ?).
  intros [[Hc|Hc]%orb_true_iff|Hc]%orb_true_iff; bool_to_prop; by subst.
Qed.

Lemma CompareStatusCode_toInt_inj c c' : CompareStatusCode_toInt c = CompareStatusCode_toInt c' -> c = c'.
Proof.
  unfold CompareStatusCode_toInt. pose proof (status_int_nonneg c). pose proof (status_int_nonneg c').
  pose proof (regular_small c). pose proof (regular_small c').
  destruct (regular_code c), (regular_code c'); intros; try lia; apply status_int_inj; lia.
Qed.

(** Regular results come before errors in iteration order. *)
Lemma regular_before_errors c c' :
  regular_code c = true -> regular_code c' = false -> CompareStatusCode c c' = true.
Proof.
  intros Hc Hc'. unfold CompareStatusCode, CompareStatusCode_toInt. rewrite Hc, Hc'.
  pose proof (regular_small c Hc). pose proof (status_int_nonneg c'). lia.
Qed.

(** The three ways a map compares two keys. *)
Lemma compare_cases c c' :
  CompareStatusCode c c' = true /\ c <> c' \/
  CompareStatusCode c c' = false /\ CompareStatusCode c' c = true /\ c <> c' \/
  CompareStatusCode c c' = false /\ CompareStatusCode c' c = false /\ c = c'.
Proof.
  unfold CompareStatusCode.
  destruct (Z.ltb_spec (CompareStatusCode_toInt c) (CompareStatusCode_toInt c')),
    (Z.ltb_spec (CompareStatusCode_toInt c') (CompareStatusCode_toInt c)); try lia.
  - left. split; [done|]. intros ->. lia.
  - right; left. split_and!; [done..|]. intros ->. lia.
  - right; right. split_and!; [done..|]. apply CompareStatusCode_toInt_inj. lia.
Qed.

(** The map in iteration order. *)
Definition rmap_sorted (m : rmap) : Prop := StronglySorted (fun p q => CompareStatusCode (fst p) (fst q) = true) m.

Lemma CompareStatusCode_trans a b c :
  CompareStatusCode a b = true -> CompareStatusCode b c = true -> CompareStatusCode a c = true.
Proof. unfold CompareStatusCode. lia. Qed.

Lemma rmap_alter_Forall (P : StatusCode -> Prop) f c m :
  P c -> Forall (fun p => P (fst p)) m -> Forall (fun p => P (fst p)) (rmap_alter f c m).
Proof.
  intros Hc. induction 1 as [|[c' n] m Hp Hm IH]; simpl; [by repeat constructor|].
  destruct (CompareStatusCode c c'); [by repeat constructor|].
  destruct (CompareStatusCode c' c); by constructor.
Qed.

Lemma rmap_alter_sorted f c m : rmap_sorted m -> rmap_sorted (rmap_alter f c m).
Proof.
  induction 1 as [|[c' n] m Hm IH Hf]; simpl; [by repeat constructor|].
  destruct (compare_cases c c') as [[E _]|[(E & E' & _)|(E & E' & ->)]]; rewrite ?E, ?E'.
  - constructor; [by constructor|]. constructor; [done|]. eapply Forall_impl; [exact Hf|].
    intros p. simpl. by apply CompareStatusCode_trans.
  - constructor; [done|]. by apply (rmap_alter_Forall (fun x => CompareStatusCode c' x = true)).
  - by constructor.
Qed.

Lemma rmap_at_alter f c c' m :
  rmap_sorted m ->
  rmap_at c (rmap_alter f c' m) = if decide (c = c') then f (rmap_at c m) else rmap_at c m.
Proof.
  intros Hs. induction Hs as [|[c0 n] m Hm IH Hf]; simpl.
  - destruct (compare_cases c c') as [[E Hn]|[(E & E' & Hn)|(E & E' & ->)]]; rewrite ?E, ?E'; simpl;
      case_decide; try done.
  - assert (c = c0 -> rmap_at c m = 0) as Habs.
    { intros ->. clear -Hf SIL. induction Hf as [|[c1 n1] m E Hf IH]; simpl in *; [done|]. by rewrite E. }
    destruct (compare_cases c' c0) as [[E Hn]|[(E & E' & Hn)|(E & E' & ->)]]; rewrite ?E, ?E'; simpl.
    + destruct (compare_cases c c') as [[F Hn']|[(F & F' & Hn')|(F & F' & ->)]]; rewrite ?F, ?F'; simpl;
        case_decide; try done.
      rewrite E. simpl.
      assert (rmap_at c' m = 0) as ->; [|done].
      clear -Hf E SIL. induction Hf as [|[c1 n1] m E' Hf IH]; simpl in *; [done|].
      rewrite (CompareStatusCode_trans _ _ _ E E'). done.
    + destruct (compare_cases c c0) as [[F Hn']|[(F & F' & Hn')|(F & F' & ->)]]; rewrite ?F, ?F'; simpl; try apply IH.
      by rewrite decide_False.
    + destruct (compare_cases c c0) as [[F Hn']|[(F & F' & Hn')|(F & F' & ->)]]; rewrite ?F, ?F'; simpl;
        case_decide; done.
Qed.

(** Number of occurrences of a code. *)
Definition count_code (c : StatusCode) (l : list StatusCode) : Z :=
  Z.of_nat (length (filter (fun x => x = c) l)).

Lemma count_code_snoc c x l : count_code c (l ++ [x]) = count_code c l + (if decide (c = x) then 1 else 0).
Proof.
  unfold count_code. rewrite filter_app, length_app, filter_cons.
  destruct (decide (x = c)), (decide (c = x)); subst; try done; simpl; lia.
Qed.

Lemma count_results_spec l :
  rmap_sorted (count_results l) /\ forall c, rmap_at c (count_results l) = count_code c l.
Proof.
  unfold count_results. induction l as [|x l IH] using rev_ind; [by split; [constructor|]|].
  rewrite foldl_snoc. destruct IH as [Hs Hc]. split; [by apply rmap_alter_sorted|].
  intros c. rewrite rmap_at_alter, Hc, count_code_snoc by done. case_decide; lia.
Qed.

Lemma rmap_at_sorted c n m : rmap_sorted m -> (c, n) ∈ m -> rmap_at c m = n.
Proof.
  induction 1 as [|[c' n'] m Hm IH Hf]; intros Hin; [by apply not_elem_of_nil in Hin|].
  apply elem_of_cons in Hin as [?|Hin]; simplify_eq/=.
  - assert (CompareStatusCode c' c' = false) as -> by (unfold CompareStatusCode; lia). done.
  - rewrite Forall_forall in Hf. specialize (Hf (c, n) Hin). simpl in Hf. rewrite Hf, orb_true_r. by apply IH.
Qed.

Lemma rmap_at_absent c m : (forall n, (c, n) ∉ m) -> rmap_at c m = 0.
Proof.
  induction m as [|[c' n'] m IH]; intros Hn; simpl; [done|].
  destruct (compare_cases c c') as [[E _]|[(E & E' & _)|(E & E' & ->)]]; rewrite ?E, ?E'; simpl.
  - apply IH. intros n Hin. apply (Hn n). by right.
  - apply IH. intros n Hin. apply (Hn n). by right.
  - destruct (Hn n'). by left.
Qed.

Lemma rmap_entry (c : StatusCode) (m : rmap) : (exists n, (c, n) ∈ m) \/ (forall n, (c, n) ∉ m).
Proof.
  induction m as [|[c' n'] m [[n Hn]|Hn]].
  - right. intros n. apply not_elem_of_nil.
  - left. exists n. by right.
  - destruct (decide (c = c')) as [->|]; [left; exists n'; by left|].
    right. intros n0. apply not_elem_of_cons. split; [congruence|done].
Qed.

(** The quorum search returns a code that reached the quorum, and the first one in iteration order. *)
Lemma find_quorum_spec q m c :
  0 < q -> rmap_sorted m -> find_quorum q m = Some c ->
  q <= rmap_at c m /\ forall c', q <= rmap_at c' m -> c' = c \/ CompareStatusCode c c' = true.
Proof.
  intros Hq Hs. unfold find_quorum. destruct (list_find _ m) as [[i [c0 n]]|] eqn:E; [|done].
  intros. simplify_eq. apply list_find_Some in E as (Hi & Hn & Hmin). simpl in Hn.
  split.
  - rewrite (rmap_at_sorted c n m Hs); [done|]. by eapply list_elem_of_lookup_2.
  - intros c' Hc'. destruct (rmap_entry c' m) as [[n' Hin]|Hno].
    2: { rewrite rmap_at_absent in Hc' by done. lia. }
    rewrite (rmap_at_sorted c' n' m Hs Hin) in Hc'.
    apply list_elem_of_lookup in Hin as [j Hj].
    destruct (decide (j = i)) as [->|Hne]; [left; congruence|].
    destruct (decide (j < i)%nat) as [Hlt|Hge].
    + specialize (Hmin j (c', n') Hj Hlt). simpl in Hmin. lia.
    + right. assert (i < j)%nat as Hij by lia. clear -Hs Hi Hj Hij.
      revert i j Hi Hj Hij. induction Hs as [|p m Hm IH Hf]; intros [|i] [|j] Hi Hj Hij; simpl in *; try done; try lia.
      * simplify_eq. rewrite Forall_lookup in Hf. apply (Hf j (c', n') Hj).
      * eapply IH; eauto. lia.
Qed.

Lemma find_quorum_none q m c : 0 < q -> rmap_sorted m -> find_quorum q m = None -> rmap_at c m < q.
Proof.
  intros Hq Hs. unfold find_quorum. destruct (list_find _ m) as [[i [c0 n]]|] eqn:E; [done|]. intros _.
  apply list_find_None in E.
  destruct (rmap_entry c m) as [[n' Hin]|Hno].
  - rewrite (rmap_at_sorted c n' m Hs Hin). rewrite Forall_forall in E. specialize (E _ Hin). simpl in E. lia.
  - rewrite rmap_at_absent by done. lia.
Qed.

(** Reading an entry changes no count. *)
Lemma rmap_at_touch c c' m : rmap_sorted m -> rmap_at c (rmap_touch c' m) = rmap_at c m.
Proof. intros. unfold rmap_touch. rewrite rmap_at_alter by done. by case_decide. Qed.

Lemma rmap_touch_sorted c m : rmap_sorted m -> rmap_sorted (rmap_touch c m).
Proof. apply rmap_alter_sorted. Qed.

End ResultLemmas.

(** ** Lemmas: execution *)

Section ExecuteLemmas.
Context `{Env D} {SI : StatusInt}.

(** An operation that can be executed: it has a callback, and a function if it is to be called. *)
Definition op_ready (op : KineticAsyncOperation) : Prop :=
  exists cb, op_callback op = Some cb /\ (cb_done cb = false -> is_Some (op_function op)).

(** What execution makes of one operation: it is finished, and unchanged if it was finished before. *)
Definition executed (op op' : KineticAsyncOperation) : Prop :=
  op_connection op' = op_connection op /\ op_function op' = op_function op /\
  exists cb cb', op_callback op = Some cb /\ op_callback op' = Some cb' /\ cb_class cb' = cb_class cb /\
    cb_done cb' = true /\ (cb_done cb = true -> cb' = cb).

Definition op_callbacks (ops : list KineticAsyncOperation) : list callback := omap op_callback ops.
Arguments op_callbacks : simpl never.

Lemma op_callbacks_cons op cb ops : op_callback op = Some cb -> op_callbacks (op :: ops) = cb :: op_callbacks ops.
Proof. intros E. unfold op_callbacks. cbn. by rewrite E. Qed.

(** The same without the claim that the operation is finished: what the first loop achieves. *)
Definition called (op op' : KineticAsyncOperation) : Prop :=
  op_connection op' = op_connection op /\ op_function op' = op_function op /\
  exists cb cb', op_callback op = Some cb /\ op_callback op' = Some cb' /\ cb_class cb' = cb_class cb /\
    (cb_done cb = true -> cb' = cb).

Lemma call_function_spec op s d :
  op_ready op ->
  exists op' s' d', call_function op (s, d) = (Ret op', (s', d')) /\ called op op' /\
    s' - pending (op_callbacks [op']) = s - pending (op_callbacks [op]).
Proof.
  intros (cb & Hcb & Hf). unfold call_function. rewrite Hcb. unfold finished.
  destruct (cb_done cb) eqn:Hd.
  { exists op, s, d. split_and!; try done. unfold called. eauto 10. }
  destruct (Hf eq_refl) as [req Hreq]. rewrite Hreq.
  destruct (env_submit (op_connection op) req d) as [sub d'].
  set (x := match sub with NotConnected => _ | _ => _ end).
  assert (cb_class (fst x) = cb_class cb /\ snd x - (if cb_done (fst x) then 0 else 1) = s - 1) as [Hc Hs].
  { subst x. assert (forall r, let y := deliver r cb s in
      cb_class (fst y) = cb_class cb /\ snd y - (if cb_done (fst y) then 0 else 1) = s - 1) as Hdel.
    { intros r. destruct (deliver r cb s) as [cb' s'] eqn:E. cbn [fst snd].
      apply deliver_spec in E as (-> & -> & _ & ->). rewrite Hd. split; [done|lia]. }
    destruct sub as [|[r|]|r|]; simpl.
    - unfold OnResult. rewrite Hd. simpl. split; [done|lia].
    - specialize (Hdel r). simpl in Hdel. destruct (deliver r cb s) as [cb1 s1] eqn:E. simpl in *.
      unfold OnResult. destruct Hdel as [Hk Hn].
      destruct (cb_done cb1) eqn:Hd1; simpl; rewrite ?Hd1; split; (done || lia).
    - unfold OnResult. rewrite Hd. simpl. split; [done|lia].
    - apply (Hdel r).
    - rewrite Hd. split; [done|lia]. }
  destruct x as [cb' s']. simpl in *. eexists _, _, _. split; [done|]. split.
  - split_and!; try done. exists cb, cb'. split_and!; try done. congruence.
  - rewrite (op_callbacks_cons op cb) by done.
    rewrite (op_callbacks_cons (mkOp _ (Some cb') _) cb') by done. rewrite !pending_cons, Hd.
    change (op_callbacks []) with (@nil callback). unfold pending. simpl. lia.
Qed.

Lemma mapM_call_function ops s d :
  Forall op_ready ops ->
  exists ops' s' d', mapM call_function ops (s, d) = (Ret ops', (s', d')) /\ Forall2 called ops ops' /\
    s' - pending (op_callbacks ops') = s - pending (op_callbacks ops).
Proof.
  intros Hr. revert s d. induction Hr as [|op ops Hop Hr IH]; intros s d.
  { exists [], s, d. split_and!; [done|constructor|done]. }
  destruct (call_function_spec op s d Hop) as (op' & s1 & d1 & E & Hc & Hp).
  destruct (IH s1 d1) as (ops' & s2 & d2 & E' & Hc' & Hp').
  exists (op' :: ops'), s2, d2. split_and!.
  - cbn [mapM]. rewrite (bind_ret _ _ _ _ _ E). by rewrite (bind_ret _ _ _ _ _ E').
  - by constructor.
  - destruct Hc as (_ & _ & cb & cb' & Hcb & Hcb' & _).
    rewrite (op_callbacks_cons _ _ _ Hcb), (op_callbacks_cons _ _ _ Hcb'), !pending_cons in Hp.
    rewrite (op_callbacks_cons _ _ _ Hcb), (op_callbacks_cons _ _ _ Hcb'), !pending_cons.
    change (pending (op_callbacks [])) with 0 in *. lia.
Qed.

Lemma mapM_time_out ops ops' s :
  Forall2 called ops ops' ->
  exists ops'' s', mapM time_out ops' s = (Ret ops'', s') /\ Forall2 executed ops ops'' /\
    s' = s - pending (op_callbacks ops').
Proof.
  intros Hc. revert s. induction Hc as [|op op' ops ops' Hop Hc IH]; intros s.
  { exists [], s. split_and!; [done|constructor|]. unfold pending. simpl. lia. }
  destruct Hop as (Hconn & Hfun & cb & cb' & Hcb & Hcb' & Hcl & Hsame).
  rewrite (op_callbacks_cons _ _ _ Hcb'), pending_cons.
  assert (exists op'', time_out op' s = (Ret op'', s - (if cb_done cb' then 0 else 1)) /\ executed op op'') as (op'' & E & Hex).
  { unfold time_out. rewrite Hcb'. unfold finished. destruct (cb_done cb') eqn:Hd.
    - exists op'. rewrite Z.sub_0_r. split; [done|]. unfold executed. eauto 12.
    - unfold OnResult. rewrite Hd. eexists. split; [done|]. split_and!; try done.
      exists cb, (set_result cb' CLIENT_IO_ERROR true). split_and!; try done.
      intros Hdone. rewrite (Hsame Hdone) in Hd. congruence. }
  destruct (IH (s - (if cb_done cb' then 0 else 1))) as (ops'' & s'' & E' & Hex' & ->).
  exists (op'' :: ops''), (s - (if cb_done cb' then 0 else 1) - pending (op_callbacks ops')). split_and!.
  - cbn [mapM]. rewrite (bind_ret _ _ _ _ _ E). by rewrite (bind_ret _ _ _ _ _ E').
  - by constructor.
  - lia.
Qed.

(** Execution always returns, finishes every operation, leaves finished ones alone, and the map it
    returns counts the results. *)
Lemma executeOperationVector_spec (w : KineticClusterOperation D) :
  Forall op_ready (operations w) ->
  exists ops d, executeOperationVector w =
      (Ret (count_results (results ops)), mkOperation ops (op_sync w - pending (op_callbacks (operations w))) d) /\
    Forall2 executed (operations w) ops.
Proof.
  intros Hr. unfold executeOperationVector.
  destruct (mapM_call_function (operations w) (op_sync w) (op_env w) Hr) as (ops & s & d & -> & Hc & Hp).
  destruct (mapM_time_out _ _ s Hc) as (ops' & s' & -> & Hex & ->).
  exists ops', d. split; [|done]. do 2 f_equal. lia.
Qed.

Lemma results_length ops : Forall (fun op => is_Some (op_callback op)) ops -> length (results ops) = length ops.
Proof.
  induction 1 as [|op ops [cb Hcb] _ IH]; [done|]. unfold results in *. simpl. rewrite Hcb. simpl. f_equal. exact IH.
Qed.

Lemma executed_results ops ops' : Forall2 executed ops ops' -> length (results ops') = length ops.
Proof.
  intros Hx. rewrite results_length.
  - symmetry. by eapply Forall2_length.
  - induction Hx as [|?? ?? (_ & _ & cb & cb' & _ & Hcb' & _)]; constructor; eauto.
Qed.

(** Freshly filled operations can be executed. *)
Lemma fill_all_spec c req (w : KineticClusterOperation D) :
  exists ops, fill_all c req w =
    (Ret tt, mkOperation ops (op_sync w + Z.of_nat (length (operations w))) (op_env w)) /\
    ops = (fun op => mkOp (Some req) (Some (fst (new_callback c 0))) (op_connection op)) <$> operations w.
Proof.
  unfold fill_all.
  assert (forall l acc s, foldl (fun '(ops, s) op => let '(op', s') := fill c req op s in (ops ++ [op'], s')) (acc, s) l =
    (acc ++ ((fun op => mkOp (Some req) (Some (fst (new_callback c 0))) (op_connection op)) <$> l), s + Z.of_nat (length l))) as Hf.
  { induction l as [|op l IH]; intros acc s; simpl; [by rewrite app_nil_r, Z.add_0_r|].
    rewrite IH. rewrite <- app_assoc. simpl. f_equal. lia. }
  rewrite Hf. by eexists.
Qed.

Lemma fill_all_ready c req (w : KineticClusterOperation D) ops :
  ops = (fun op => mkOp (Some req) (Some (fst (new_callback c 0))) (op_connection op)) <$> operations w ->
  Forall op_ready ops.
Proof.
  intros ->. apply Forall_fmap, Forall_true. intros op. eexists. split; [done|]. intros _. by eexists.
Qed.

End ExecuteLemmas.

#[export] Hint Resolve fill_all_ready : kio.

(** ** Lemmas: merging key ranges *)

Lemma set_insert_elem k k' s : k' ∈ set_insert k s <-> k' = k \/ k' ∈ s.
Proof.
  induction s as [|x s IH]; simpl; [set_solver|].
  destruct (str_ltb k x) eqn:E1; [set_solver|]. destruct (str_ltb x k) eqn:E2; [set_solver|].
  rewrite (str_ltb_total _ _ E1 E2). set_solver.
Qed.

Definition key_sorted (s : list bytes) : Prop := StronglySorted (fun a b => str_ltb a b = true) s.

Lemma set_insert_sorted k s : key_sorted s -> key_sorted (set_insert k s).
Proof.
  induction 1 as [|x s Hs IH Hf]; simpl; [by repeat constructor|].
  destruct (str_ltb k x) eqn:E1.
  - constructor; [by constructor|]. constructor; [done|]. eapply Forall_impl; [exact Hf|].
    intros y. by apply str_ltb_trans.
  - destruct (str_ltb x k) eqn:E2; [|by constructor].
    constructor; [done|]. apply Forall_forall. intros y [->|Hy]%set_insert_elem; [done|].
    rewrite Forall_forall in Hf. by apply Hf.
Qed.

(** The keys of all drives merged by [ClusterRangeOp_getKeys], before the cut. *)
Definition merged_keys (ops : list KineticAsyncOperation) : list bytes :=
  foldl (fun s ks => foldl (fun s k => set_insert k s) s ks) [] (omap (fun op => op_callback op ≫= cb_keys) ops).

Lemma insert_all_spec ks s :
  key_sorted s -> key_sorted (foldl (fun s k => set_insert k s) s ks) /\
  forall k, k ∈ foldl (fun s k => set_insert k s) s ks <-> k ∈ ks \/ k ∈ s.
Proof.
  revert s. induction ks as [|x ks IH]; intros s Hs; simpl; [set_solver|].
  destruct (IH (set_insert x s) (set_insert_sorted x s Hs)) as [Hs' Hk]. split; [done|].
  intros k. rewrite Hk, set_insert_elem. set_solver.
Qed.

Lemma merged_keys_spec ops :
  key_sorted (merged_keys ops) /\
  forall k, k ∈ merged_keys ops <-> exists op cb ks, op ∈ ops /\ op_callback op = Some cb /\ cb_keys cb = Some ks /\ k ∈ ks.
Proof.
  unfold merged_keys.
  assert (forall l s, key_sorted s -> key_sorted (foldl (fun s ks => foldl (fun s k => set_insert k s) s ks) s l) /\
    forall k, k ∈ foldl (fun s ks => foldl (fun s k => set_insert k s) s ks) s l <-> (exists ks, ks ∈ l /\ k ∈ ks) \/ k ∈ s) as Hl.
  { induction l as [|ks l IH]; intros s Hs; simpl; [set_solver|].
    destruct (insert_all_spec ks s Hs) as [Hs1 Hk1]. destruct (IH _ Hs1) as [Hs2 Hk2].
    split; [done|]. intros k. rewrite Hk2, Hk1. set_solver. }
  destruct (Hl (omap (fun op => op_callback op ≫= cb_keys) ops) []) as [Hs Hk]; [constructor|].
  split; [done|]. intros k. rewrite Hk. split.
  - intros [(ks & Hks & Hin)|Hin]; [|by apply not_elem_of_nil in Hin].
    apply list_elem_of_omap in Hks as (op & Hop & E).
    destruct (op_callback op) as [cb|] eqn:Ecb; [|done]. simpl in E. eauto 10.
  - intros (op & cb & ks & Hop & Hcb & Hks & Hin). left. exists ks. split; [|done].
    apply list_elem_of_omap. exists op. rewrite Hcb. done.
Qed.

(** ** Properties *)

(** C22: Executing an operation vector always returns: every operation is finished afterwards, the
    ones that were finished before keep their result (the two-phase get relies on it), the
    outstanding counter drops by the number of unfinished ones, and the returned map holds, for
    every status code, the number of operations with that result. *)
Theorem execute_finishes_and_counts `{Env D} {SI : StatusInt} {SIL : StatusIntLaws}
    (w : KineticClusterOperation D) :
  Forall op_ready (operations w) ->
  exists m ops d, executeOperationVector w =
      (Ret m, mkOperation ops (op_sync w - pending (op_callbacks (operations w))) d) /\
    Forall2 executed (operations w) ops /\
    (forall c, rmap_at c m = count_code c (results ops)) /\ length (results ops) = length (operations w).
Proof.
  intros Hr. destruct (executeOperationVector_spec w Hr) as (ops & d & E & Hx).
  exists (count_results (results ops)), ops, d. split_and!; try done.
  - apply count_results_spec.
  - by apply executed_results.
Qed.

Import Simulator.

(** Two drives, one of them unreachable, each asked to flush. *)
Definition flush_example : KineticClusterOperation Simulator.sim :=
  let op i := mkOp (Some Flush) (Some (fst (new_callback BasicCallback 0))) i in
  mkOperation [op 0%nat; op 1%nat] 2 (Simulator.mkSim [Some ∅; None] 0 0).

Lemma execute_finishes_and_counts_witness :
  exists m ops d, executeOperationVector flush_example =
      (Ret m, mkOperation ops (op_sync flush_example - pending (op_callbacks (operations flush_example))) d) /\
    Forall2 executed (operations flush_example) ops /\
    (forall c, rmap_at c m = count_code c (results ops)) /\
    length (results ops) = length (operations flush_example).
Proof.
  apply (execute_finishes_and_counts flush_example).
  repeat constructor; eexists; (split; [reflexivity|eauto]).
Defined.



(** A key range merged over the drives is in ascending order without duplicates, holds only
    keys some drive returned, at most as many as requested, and all of them unless it was cut. *)
Theorem range_keys_merged maxRequested ops :
  0 <= maxRequested ->
  let ks := ClusterRangeOp_getKeys maxRequested ops in
  let returned k := exists op cb l, op ∈ ops /\ op_callback op = Some cb /\ cb_keys cb = Some l /\ k ∈ l in
  key_sorted ks /\ slen ks <= maxRequested /\ (forall k, k ∈ ks -> returned k) /\
  (slen ks < maxRequested -> forall k, returned k -> k ∈ ks).
Proof.
  intros Hm ks returned. subst ks returned. unfold ClusterRangeOp_getKeys. fold (merged_keys ops).
  destruct (merged_keys_spec ops) as [Hs Hk]. case_bool.
  - assert (slen (take (Z.to_nat maxRequested) (merged_keys ops)) = maxRequested) as El.
    { unfold slen in *. rewrite length_take. lia. }
    rewrite El. split_and!; try lia.
    + unfold key_sorted in *. rewrite <- (take_drop (Z.to_nat maxRequested) (merged_keys ops)) in Hs.
      by apply StronglySorted_app in Hs as (_ & ? & _).
    + intros k Hin. apply Hk. eapply list_elem_of_lookup in Hin as [i Hi].
      apply lookup_take_Some in Hi as [Hi _]. by eapply list_elem_of_lookup_2.
  - split_and!; try done. + intros k. apply Hk. + intros _ k. apply Hk.
Qed.

Lemma range_keys_merged_witness :
  let cb ks := mkCallback RangeCallback OK true None [] None (Some ks) in
  key_sorted (ClusterRangeOp_getKeys 5 [mkOp None (Some (cb [str "b"; str "d"])) 0; mkOp None (Some (cb [str "a"; str "b"])) 1]).
Proof.
  intros cb.
  apply (range_keys_merged 5 [mkOp None (Some (cb [str "b"; str "d"])) 0; mkOp None (Some (cb [str "a"; str "b"])) 1]). lia.
Defined.

(** A reverse range with a limit returns the smallest of the keys the drives returned, where the
    largest is asked for: with one drive ending at block 7 and another at block 9, the request for
    the last block answers 7. *)
Lemma reverse_range_returns_smallest :
  let key n := makeDataKey (str "C1") (str "f") n in
  let cb ks := mkCallback RangeCallback OK true None [] None (Some ks) in
  ClusterRangeOp_getKeys 1 [mkOp None (Some (cb [key 7])) 0; mkOp None (Some (cb [key 9])) 1] = [key 7].
Proof. by vm_compute. Qed.
