(* ===== verification/Isa.v ===== *)
(** * The isa-l library, as the erasure coding uses it

    The arithmetic over GF(2^8) is not part of the repository: the class [IsaL] lists the functions
    of isa-l that are called, [IsaLaws] what its documentation says of them for a stripe geometry
    of [k] data chunks in [m] chunks.  The laws are used as hypotheses only; the last part shows that
    they can be met, with the field of isa-l (polynomial 0x11d) and its Cauchy matrix. *)

From S2P Require Import Prelude.

(** ** The isa-l library *)

(** Matrices are row-major vectors of bytes. *)
Definition at_ (m : list Z) (i : nat) : Z := default 0 (m !! i).

Class IsaL := {
  gf_mul : Z -> Z -> Z;
  (** [gf_gen_cauchy1_matrix(a, m, k)]: an [m * k] matrix *)
  gf_gen_cauchy1_matrix : nat -> nat -> list Z;
  (** [gf_invert_matrix(in, out, n)]: the inverse, or none if the matrix is singular *)
  gf_invert_matrix : list Z -> nat -> option (list Z);
  (** [ec_init_tables(k, rows, a, gftbls)] *)
  ec_init_tables : nat -> nat -> list Z -> list Z;
  (** [ec_encode_data(len, k, rows, gftbls, data, coding)] *)
  ec_encode_data : nat -> nat -> nat -> list Z -> list bytes -> list bytes;
}.

Definition byte_val (c : ascii) : Z := Z.of_N (N_of_ascii c).
Definition is_byte (x : Z) : Prop := 0 <= x < 256.

(** Sum over GF(2^8): exclusive or. *)
Fixpoint xsum (n : nat) (f : nat -> Z) : Z :=
  match n with
  | O => 0
  | S n' => Z.lxor (xsum n' f) (f n')
  end.

(** [sorted rows]: strictly increasing row numbers below [m]. *)
Definition row_choice (m : nat) (idx : list nat) : Prop := StronglySorted lt idx /\ Forall (fun r => (r < m)%nat) idx.

(** The rows [idx] of a matrix with [k] columns. *)
Definition rows_of (k : nat) (a : list Z) (idx : list nat) : list Z :=
  r ← idx; (fun j => at_ a (k * r + j)) <$> seq 0 k.

Class IsaLaws `{IsaL} (k m : nat) : Prop := {
  gf_mul_byte : forall a b, is_byte a -> is_byte b -> is_byte (gf_mul a b);
  gf_mul_comm : forall a b, is_byte a -> is_byte b -> gf_mul a b = gf_mul b a;
  gf_mul_assoc : forall a b c, is_byte a -> is_byte b -> is_byte c ->
    gf_mul a (gf_mul b c) = gf_mul (gf_mul a b) c;
  gf_mul_lxor_r : forall a b c, is_byte a -> is_byte b -> is_byte c ->
    gf_mul a (Z.lxor b c) = Z.lxor (gf_mul a b) (gf_mul a c);
  gf_mul_1_l : forall a, is_byte a -> gf_mul 1 a = a;
  gf_mul_0_l : forall a, is_byte a -> gf_mul 0 a = 0;
  cauchy_bytes : forall i, is_byte (at_ (gf_gen_cauchy1_matrix m k) i);
  (** the top of the generated matrix is the identity ... *)
  cauchy_identity : forall i j, (i < k)%nat -> (j < k)%nat ->
    at_ (gf_gen_cauchy1_matrix m k) (k * i + j) = if decide (i = j) then 1 else 0;
  (** ... and any [k] of its rows can be inverted *)
  cauchy_invertible : forall idx, row_choice m idx -> length idx = k ->
    is_Some (gf_invert_matrix (rows_of k (gf_gen_cauchy1_matrix m k) idx) k);
  invert_bytes : forall b inv i, gf_invert_matrix b k = Some inv -> is_byte (at_ inv i);
  invert_correct : forall b inv i j, gf_invert_matrix b k = Some inv -> (i < k)%nat -> (j < k)%nat ->
    xsum k (fun l => gf_mul (at_ inv (k * i + l)) (at_ b (k * l + j))) = if decide (i = j) then 1 else 0;
  (** coding with the tables of a matrix multiplies it with the data, byte position by byte position *)
  encode_correct : forall len rows a data,
    (forall i, is_byte (at_ a i)) -> length data = k -> Forall (fun d => length d = len) data ->
    let out := ec_encode_data len k rows (ec_init_tables k rows a) data in
    length out = rows /\
    forall i o, out !! i = Some o -> length o = len /\
      forall p c, o !! p = Some c ->
        byte_val c = xsum k (fun j => gf_mul (at_ a (k * i + j)) (byte_val (default NUL (default [] (data !! j) !! p))));
}.

(** ** Lemmas: sums over GF(2^8) *)

Lemma is_byte_land x : is_byte x <-> Z.land x (Z.ones 8) = x.
Proof.
  rewrite Z.land_ones by lia. unfold is_byte. change (2 ^ 8) with 256.
  split; intros Hx; [by apply Z.mod_small|]. rewrite <- Hx. apply Z.mod_pos_bound. lia.
Qed.

Lemma lxor_byte a b : is_byte a -> is_byte b -> is_byte (Z.lxor a b).
Proof.
  rewrite !is_byte_land. intros Ha Hb. rewrite <- Ha at 2. rewrite <- Hb at 2.
  apply Z.bits_inj'. intros n Hn. rewrite Z.land_spec, !Z.lxor_spec, !Z.land_spec.
  by destruct (Z.testbit a n), (Z.testbit b n), (Z.testbit (Z.ones 8) n).
Qed.

Lemma byte_val_byte c : is_byte (byte_val c).
Proof. unfold byte_val, is_byte. pose proof (N_ascii_bounded c). lia. Qed.

Lemma byte_val_inj c c' : byte_val c = byte_val c' -> c = c'.
Proof. unfold byte_val. intros E%N2Z.inj. rewrite <- (ascii_N_embedding c), E. apply ascii_N_embedding. Qed.

Lemma xsum_ext n f g : (forall i, (i < n)%nat -> f i = g i) -> xsum n f = xsum n g.
Proof.
  induction n as [|n IH]; intros Hfg; simpl; [done|].
  rewrite IH, Hfg by auto with lia. done.
Qed.

Lemma xsum_byte n f : (forall i, (i < n)%nat -> is_byte (f i)) -> is_byte (xsum n f).
Proof.
  induction n as [|n IH]; intros Hf; simpl; [unfold is_byte; lia|].
  apply lxor_byte; auto with lia.
Qed.

Lemma xsum_lxor n f g : xsum n (fun i => Z.lxor (f i) (g i)) = Z.lxor (xsum n f) (xsum n g).
Proof.
  induction n as [|n IH]; simpl; [done|]. rewrite IH, !Z.lxor_assoc. f_equal.
  rewrite <- !Z.lxor_assoc, (Z.lxor_comm (f n)). done.
Qed.

Lemma xsum_zero n : xsum n (fun _ => 0) = 0.
Proof. induction n as [|n IH]; simpl; [done|]. by rewrite IH. Qed.

Lemma xsum_swap n m f : xsum n (fun i => xsum m (fun j => f i j)) = xsum m (fun j => xsum n (fun i => f i j)).
Proof. induction n as [|n IH]; simpl; [by rewrite xsum_zero|]. by rewrite IH, xsum_lxor. Qed.

(** A sum with a single non-zero term. *)
Lemma xsum_single n e x : (e < n)%nat -> xsum n (fun j => if decide (e = j) then x else 0) = x.
Proof.
  induction n as [|n IH]; intros He; [lia|]. simpl. destruct (decide (e = n)) as [->|Hne].
  - rewrite (xsum_ext _ _ (fun _ => 0)); [by rewrite xsum_zero, Z.lxor_0_l|].
    intros i Hi. rewrite decide_False by lia. done.
  - rewrite IH by lia. by rewrite Z.lxor_0_r.
Qed.

Section Field.
Context `{IsaLaws k m}.
Implicit Types a b : Z.

Lemma gf_mul_0_r a : is_byte a -> gf_mul a 0 = 0.
Proof. intros. rewrite gf_mul_comm, gf_mul_0_l; unfold is_byte in *; (done || lia). Qed.

Lemma gf_mul_xsum_r a n f :
  is_byte a -> (forall i, (i < n)%nat -> is_byte (f i)) -> gf_mul a (xsum n f) = xsum n (fun i => gf_mul a (f i)).
Proof.
  intros Ha. induction n as [|n IH]; intros Hf; simpl; [by apply gf_mul_0_r|].
  rewrite gf_mul_lxor_r, IH; auto with lia. apply xsum_byte. auto with lia.
Qed.

Lemma gf_mul_xsum_l a n f :
  is_byte a -> (forall i, (i < n)%nat -> is_byte (f i)) -> gf_mul (xsum n f) a = xsum n (fun i => gf_mul (f i) a).
Proof.
  intros Ha Hf. rewrite gf_mul_comm, gf_mul_xsum_r by (done || by apply xsum_byte).
  apply xsum_ext. intros. apply gf_mul_comm; auto.
Qed.

Lemma gf_mul_delta e v : (e < k)%nat -> (forall i, is_byte (v i)) ->
  xsum k (fun j => gf_mul (if decide (e = j) then 1 else 0) (v j)) = v e.
Proof.
  intros He Hv. rewrite (xsum_ext _ _ (fun j => if decide (e = j) then v e else 0)).
  - by apply xsum_single.
  - intros j _. case_decide; subst; [by apply gf_mul_1_l | by apply gf_mul_0_l].
Qed.

(** Solving for a data byte: [inv] inverts the rows [B] whose products with the data are known. *)
Lemma solve_data (inv B : nat -> nat -> Z) (v c : nat -> Z) e :
  (e < k)%nat -> (forall i j, is_byte (inv i j)) -> (forall i j, is_byte (B i j)) -> (forall i, is_byte (v i)) ->
  (forall i j, (i < k)%nat -> (j < k)%nat -> xsum k (fun l => gf_mul (inv i l) (B l j)) = if decide (i = j) then 1 else 0) ->
  (forall i, (i < k)%nat -> c i = xsum k (fun j => gf_mul (B i j) (v j))) ->
  xsum k (fun i => gf_mul (inv e i) (c i)) = v e.
Proof.
  intros He Hinv HB Hv HI Hc.
  rewrite (xsum_ext _ _ (fun i => xsum k (fun j => gf_mul (gf_mul (inv e i) (B i j)) (v j)))).
  2: { intros i Hi. rewrite Hc, gf_mul_xsum_r by (done || intros; apply gf_mul_byte; auto).
       apply xsum_ext. intros j _. by apply gf_mul_assoc. }
  rewrite xsum_swap, (xsum_ext _ _ (fun j => gf_mul (if decide (e = j) then 1 else 0) (v j))).
  2: { intros j Hj. rewrite <- HI, gf_mul_xsum_l; auto. intros. by apply gf_mul_byte. }
  by apply gf_mul_delta.
Qed.

(** Recomputing a parity byte from the solved data. *)
Lemma solve_parity (inv B : nat -> nat -> Z) (E v c : nat -> Z) :
  (forall i j, is_byte (inv i j)) -> (forall i j, is_byte (B i j)) -> (forall i, is_byte (E i)) -> (forall i, is_byte (v i)) ->
  (forall i j, (i < k)%nat -> (j < k)%nat -> xsum k (fun l => gf_mul (inv i l) (B l j)) = if decide (i = j) then 1 else 0) ->
  (forall i, is_byte (c i)) ->
  (forall i, (i < k)%nat -> c i = xsum k (fun j => gf_mul (B i j) (v j))) ->
  xsum k (fun i => gf_mul (xsum k (fun j => gf_mul (inv j i) (E j))) (c i)) = xsum k (fun j => gf_mul (E j) (v j)).
Proof.
  intros Hinv HB HE Hv HI Hcb Hc.
  rewrite (xsum_ext _ _ (fun i => xsum k (fun j => gf_mul (E j) (gf_mul (inv j i) (c i))))).
  2: { intros i Hi. rewrite gf_mul_xsum_l by (done || intros; apply gf_mul_byte; auto).
       apply xsum_ext. intros j _. rewrite (gf_mul_comm (inv j i) (E j)), <- gf_mul_assoc by done. done. }
  rewrite xsum_swap. apply xsum_ext. intros j Hj.
  rewrite <- (solve_data inv B v c j) by done. rewrite gf_mul_xsum_r; auto. intros. by apply gf_mul_byte.
Qed.

End Field.

(** ** Lemmas: row-major matrices *)

Lemma bind_lookup {A} (f : nat -> list A) k idx l j :
  (forall r, length (f r) = k) -> (j < k)%nat ->
  (idx ≫= f) !! (k * l + j)%nat = (r ← idx !! l; f r !! j).
Proof.
  intros Hf Hj. revert l. induction idx as [|r idx IH]; intros l; [done|].
  cbn [mbind list_bind]. destruct l as [|l].
  - rewrite Nat.mul_0_r. simpl. by rewrite lookup_app_l by (rewrite Hf; done).
  - rewrite lookup_app_r by (rewrite Hf; nia). rewrite Hf.
    replace (k * S l + j - k)%nat with (k * l + j)%nat by nia. apply IH.
Qed.

Lemma at_rows_of k a idx l j r : idx !! l = Some r -> (j < k)%nat -> at_ (rows_of k a idx) (k * l + j) = at_ a (k * r + j).
Proof.
  intros Hl Hj. unfold at_ at 1, rows_of. rewrite bind_lookup by (intros; by rewrite ?length_fmap, ?length_seq).
  rewrite Hl. simpl. rewrite list_lookup_fmap, lookup_seq_lt by done. done.
Qed.

(** ** An instance: GF(2^8) with the polynomial 0x11d *)

Module IsaSim.

Definition xtime (a : Z) : Z := let s := 2 * a in if 256 <=? s then Z.lxor s 0x11d else s.

Definition mul (a b : Z) : Z :=
  xsum 8 (fun i => if Z.testbit b (Z.of_nat i) then Nat.iter i xtime a else 0).

Definition all_bytes : list Z := seqZ 0 256.

Definition inv (a : Z) : Z := default 0 (head (filter (fun b => mul a b = 1) all_bytes)).

Definition cauchy (m k : nat) : list Z :=
  i ← seq 0 m; (fun j => if decide (i < k)%nat then (if decide (i = j) then 1 else 0)
                         else inv (Z.lxor (Z.of_nat i) (Z.of_nat j))) <$> seq 0 k.

Definition mat_mul (n : nat) (a b : list Z) : list Z :=
  i ← seq 0 n; (fun j => xsum n (fun l => mul (at_ a (n * i + l)) (at_ b (n * l + j)))) <$> seq 0 n.

Definition identity (n : nat) : list Z :=
  i ← seq 0 n; (fun j => if decide (i = j) then 1 else 0) <$> seq 0 n.

(** The inverse by cofactors, for the order two the witnesses use. *)
Definition adjugate (b : list Z) : list Z :=
  let d := inv (Z.lxor (mul (at_ b 0) (at_ b 3)) (mul (at_ b 1) (at_ b 2))) in
  [mul d (at_ b 3); mul d (at_ b 1); mul d (at_ b 2); mul d (at_ b 0)].

Definition is_byteb (x : Z) : bool := (0 <=? x) && (x <? 256).

Definition invert (b : list Z) (n : nat) : option (list Z) :=
  let r := adjugate b in
  if forallb is_byteb r && bool_decide (mat_mul n r b = identity n) then Some r else None.

Definition encode (len k rows : nat) (a : list Z) (data : list bytes) : list bytes :=
  (fun i => (fun p => ascii_of_N (Z.to_N (xsum k (fun j => mul (at_ a (k * i + j))
     (byte_val (default NUL (default [] (data !! j) !! p))))))) <$> seq 0 len) <$> seq 0 rows.

#[export] Instance isa : IsaL := {|
  gf_mul := mul;
  gf_gen_cauchy1_matrix := cauchy;
  gf_invert_matrix := invert;
  ec_init_tables := fun _ _ a => a;
  ec_encode_data := encode;
|}.

Lemma forall_bytes (f : Z -> bool) : forallb f all_bytes = true -> forall a, is_byte a -> f a = true.
Proof.
  intros Hf a Ha. rewrite forallb_forall in Hf. apply Hf. apply list_elem_of_In.
  apply elem_of_seqZ. unfold is_byte in Ha. lia.
Qed.

Lemma byte_bits a : is_byte a -> xsum 8 (fun i => if Z.testbit a (Z.of_nat i) then 2 ^ Z.of_nat i else 0) = a.
Proof.
  intros Ha. apply Z.eqb_eq. revert a Ha.
  apply (forall_bytes (fun a => xsum 8 (fun i => if Z.testbit a (Z.of_nat i) then 2 ^ Z.of_nat i else 0) =? a)).
  by vm_compute.
Qed.

(** Properties of bytes that pass to sums hold of every byte when they hold of the powers of two. *)
Lemma byte_ind (P : Z -> Prop) :
  P 0 -> (forall i, (i < 8)%nat -> P (2 ^ Z.of_nat i)) ->
  (forall a b, is_byte a -> is_byte b -> P a -> P b -> P (Z.lxor a b)) -> forall a, is_byte a -> P a.
Proof.
  intros HP0 HP2 HPx a Ha. rewrite <- byte_bits by done.
  set (f := fun i => if Z.testbit a (Z.of_nat i) then 2 ^ Z.of_nat i else 0).
  assert (forall i, (i < 8)%nat -> is_byte (f i) /\ P (f i)) as Hf.
  { intros i Hi. unfold f. case_match; split; auto; unfold is_byte; [|lia].
    assert (2 ^ Z.of_nat i <= 2 ^ 7) by (apply Z.pow_le_mono_r; lia). lia. }
  clearbody f. clear Ha a.
  assert (forall n, (n <= 8)%nat -> is_byte (xsum n f) /\ P (xsum n f)) as Hn; [|by apply Hn].
  induction n as [|n IH]; intros Hle; simpl; [done|].
  destruct (IH ltac:(lia)), (Hf n ltac:(lia)). split; [by apply lxor_byte|by apply HPx].
Qed.

Lemma xtime_byte a : is_byte a -> is_byte (xtime a).
Proof.
  intros Ha. assert (is_byteb (xtime a) = true) as Hx; [|unfold is_byteb, is_byte in *; lia].
  revert a Ha. apply (forall_bytes (fun a => is_byteb (xtime a))). by vm_compute.
Qed.

Lemma xtime_lxor a b : is_byte a -> is_byte b -> xtime (Z.lxor a b) = Z.lxor (xtime a) (xtime b).
Proof.
  intros Ha Hb. apply Z.eqb_eq. revert b Hb.
  apply (forall_bytes (fun b => xtime (Z.lxor a b) =? Z.lxor (xtime a) (xtime b))). revert a Ha.
  apply (forall_bytes (fun a => forallb (fun b => xtime (Z.lxor a b) =? Z.lxor (xtime a) (xtime b)) all_bytes)).
  by vm_compute.
Qed.

Lemma iter_xtime_byte n a : is_byte a -> is_byte (Nat.iter n xtime a).
Proof. intros Ha. induction n as [|n IH]; simpl; [done|]. by apply xtime_byte. Qed.

Lemma iter_xtime_lxor n a b : is_byte a -> is_byte b ->
  Nat.iter n xtime (Z.lxor a b) = Z.lxor (Nat.iter n xtime a) (Nat.iter n xtime b).
Proof. intros Ha Hb. induction n as [|n IH]; simpl; [done|]. rewrite IH. apply xtime_lxor; by apply iter_xtime_byte. Qed.

Lemma mul_byte a b : is_byte a -> is_byte (mul a b).
Proof. intros Ha. apply xsum_byte. intros i _. case_match; [by apply iter_xtime_byte|done]. Qed.

Lemma mul_lxor_l a b c : is_byte a -> is_byte b -> mul (Z.lxor a b) c = Z.lxor (mul a c) (mul b c).
Proof.
  intros Ha Hb. unfold mul. rewrite <- xsum_lxor. apply xsum_ext. intros i _.
  case_match; [by apply iter_xtime_lxor|done].
Qed.

Lemma mul_lxor_r a b c : mul a (Z.lxor b c) = Z.lxor (mul a b) (mul a c).
Proof.
  unfold mul. rewrite <- xsum_lxor. apply xsum_ext. intros i _. rewrite Z.lxor_spec.
  destruct (Z.testbit b _), (Z.testbit c _); simpl; by rewrite ?Z.lxor_nilpotent, ?Z.lxor_0_r, ?Z.lxor_0_l.
Qed.

Lemma mul_0_l a : is_byte a -> mul 0 a = 0.
Proof. intros Ha. apply Z.eqb_eq. revert a Ha. apply (forall_bytes (fun a => mul 0 a =? 0)). by vm_compute. Qed.

Lemma mul_0_r a : mul a 0 = 0.
Proof. unfold mul. rewrite (xsum_ext _ _ (fun _ => 0)); [done|]. intros. by rewrite Z.testbit_0_l. Qed.

Lemma mul_comm a b : is_byte a -> is_byte b -> mul a b = mul b a.
Proof.
  intros Ha Hb. apply Z.eqb_eq. revert b Hb. apply (forall_bytes (fun b => mul a b =? mul b a)). revert a Ha.
  apply (forall_bytes (fun a => forallb (fun b => mul a b =? mul b a) all_bytes)). by vm_compute.
Qed.

Lemma mul_1_l a : is_byte a -> mul 1 a = a.
Proof. intros Ha. apply Z.eqb_eq. revert a Ha. apply (forall_bytes (fun a => mul 1 a =? a)). by vm_compute. Qed.

Lemma mul_assoc_basis i j l : (i < 8)%nat -> (j < 8)%nat -> (l < 8)%nat ->
  let p n := 2 ^ Z.of_nat n in mul (p i) (mul (p j) (p l)) = mul (mul (p i) (p j)) (p l).
Proof.
  intros Hi Hj Hl p.
  assert (Forall (fun i => Forall (fun j => Forall (fun l => mul (p i) (mul (p j) (p l)) = mul (mul (p i) (p j)) (p l))
    (seq 0 8)) (seq 0 8)) (seq 0 8)) as Hall by (by repeat constructor).
  rewrite Forall_seq in Hall. specialize (Hall i ltac:(lia)). cbv beta in Hall.
  rewrite Forall_seq in Hall. specialize (Hall j ltac:(lia)). cbv beta in Hall.
  rewrite Forall_seq in Hall. apply Hall. lia.
Qed.

(** Associativity: it is enough to look at powers of two. *)
Lemma mul_assoc a b c : is_byte a -> is_byte b -> is_byte c -> mul a (mul b c) = mul (mul a b) c.
Proof.
  intros Ha Hb Hc. revert a Ha. apply byte_ind.
  - by rewrite !mul_0_l by (done || by apply mul_byte).
  - intros i Hi. revert b Hb. apply byte_ind.
    + by rewrite mul_0_l, mul_0_r, mul_0_l by done.
    + intros j Hj. revert c Hc. apply byte_ind.
      * by rewrite !mul_0_r.
      * intros l Hl. by apply mul_assoc_basis.
      * intros x y Hx Hy E1 E2. by rewrite !mul_lxor_r, E1, E2.
    + intros x y Hx Hy E1 E2. rewrite mul_lxor_l, !mul_lxor_r, E1, E2, mul_lxor_l; try done; apply mul_byte.
      all: unfold is_byte; assert (2 ^ Z.of_nat i <= 2 ^ 7) by (apply Z.pow_le_mono_r; lia); lia.
  - intros x y Hx Hy E1 E2. rewrite !mul_lxor_l, E1, E2 by (done || by apply mul_byte). done.
Qed.

Lemma at_bytes l i : forallb is_byteb l = true -> is_byte (at_ l i).
Proof.
  intros Hl. unfold at_. destruct (l !! i) as [x|] eqn:E; [|done]. rewrite forallb_forall in Hl.
  assert (is_byteb x = true) as Hx by (apply Hl, list_elem_of_In; by eapply list_elem_of_lookup_2).
  unfold is_byteb in Hx. unfold is_byte. simpl. lia.
Qed.

Lemma row_choice_3 idx : row_choice 3 idx -> length idx = 2%nat -> idx = [0; 1]%nat \/ idx = [0; 2]%nat \/ idx = [1; 2]%nat.
Proof.
  intros [Hs Hf] Hl. destruct idx as [|a [|b []]]; try done. inversion Hs as [|?? _ Hlt]; subst.
  repeat match goal with H : Forall _ (_ :: _) |- _ => inversion H; clear H; subst end.
  destruct a as [|[|a]], b as [|[|[|b]]]; try lia; auto.
Qed.

Lemma cauchy_32 : cauchy 3 2 = [1; 0; 0; 1; 142; 244].
Proof. by vm_compute. Qed.

Lemma encode_lookup len k rows a data i o :
  encode len k rows a data !! i = Some o -> (i < rows)%nat /\
  o = (fun p => ascii_of_N (Z.to_N (xsum k (fun j => mul (at_ a (k * i + j))
     (byte_val (default NUL (default [] (data !! j) !! p))))))) <$> seq 0 len.
Proof.
  unfold encode. rewrite list_lookup_fmap. intros (x & Hx & ->)%fmap_Some.
  by apply lookup_seq in Hx as [-> Hi].
Qed.

Lemma byte_val_of_byte x : is_byte x -> byte_val (ascii_of_N (Z.to_N x)) = x.
Proof. unfold is_byte, byte_val. intros. rewrite N_ascii_embedding; lia. Qed.

#[export] Instance isa_laws : IsaLaws 2 3.
Proof.
  split.
  - intros. by apply mul_byte.
  - apply mul_comm.
  - apply mul_assoc.
  - intros. apply mul_lxor_r.
  - apply mul_1_l.
  - apply mul_0_l.
  - intros. apply at_bytes. change (forallb is_byteb (cauchy 3 2) = true). by rewrite cauchy_32.
  - intros i j Hi Hj. change (gf_gen_cauchy1_matrix 3 2) with (cauchy 3 2). rewrite cauchy_32.
    by destruct i as [|[|]], j as [|[|]]; try lia.
  - intros idx Hidx Hl. change (gf_gen_cauchy1_matrix 3 2) with (cauchy 3 2). rewrite cauchy_32.
    apply row_choice_3 in Hidx; [|exact Hl]. destruct Hidx as [->|[->| ->]]; vm_compute; eauto.
  - intros b r i Hr. simpl in Hr. unfold invert in Hr.
    destruct (forallb is_byteb (adjugate b)) eqn:Hb; [|done]. simpl in Hr. case_match; [|done].
    injection Hr as <-. by apply at_bytes.
  - intros b r i j Hr Hi Hj. simpl in Hr. unfold invert in Hr.
    destruct (forallb is_byteb (adjugate b)); [|done].
    destruct (bool_decide (mat_mul 2 (adjugate b) b = identity 2)) eqn:Hb; [|done]. injection Hr as <-.
    apply bool_decide_eq_true in Hb as E.
    apply (f_equal (fun l => at_ l (2 * i + j))) in E. 
    destruct i as [|[|]], j as [|[|]]; try lia; exact E.
  - intros len rows a data Ha Hl Hd. split; [simpl; unfold encode; by rewrite length_fmap, length_seq|].
    intros i o [Hi ->]%encode_lookup. split; [by rewrite length_fmap, length_seq|].
    intros p c. rewrite list_lookup_fmap. intros (q & Hq & ->)%fmap_Some. apply lookup_seq in Hq as [-> Hp].
    apply byte_val_of_byte, xsum_byte. intros j _. by apply mul_byte.
Qed.

End IsaSim.
