(* ===== verification/Redundancy.v ===== *)
(** * Erasure coding (src/RedundancyProvider.cc)

    A stripe is a vector of [nData] data chunks and [nParity] parity chunks of one size; a missing
    chunk is a null pointer or an empty string.  [compute] fills in the missing chunks, which serves
    for encoding (all parity chunks are missing) as well as for recovery. *)

From S2P Require Import Prelude Isa.

Module Redundancy.

(** ** The provider *)

Record CodingTable := mkCodingTable {
  table : list Z;
  blockIndices : list nat;
  nErrors : nat;
}.

Record RedundancyProvider := mkProvider {
  nData : nat;
  nParity : nat;
  encode_matrix : list Z;
  cache : gmap (list bool) CodingTable;
}.

Definition numData (rp : RedundancyProvider) : nat := nData rp.
Definition numParity (rp : RedundancyProvider) : nat := nParity rp.
Definition size (rp : RedundancyProvider) : nat := (nData rp + nParity rp)%nat.

(** A chunk: [std::shared_ptr<const std::string>]. *)
Abbreviation chunk := (option bytes) (only parsing).

Section Provider.
Context `{IsaL}.

Definition new_provider (data parity : nat) : RedundancyProvider :=
  mkProvider data parity (gf_gen_cauchy1_matrix (data + parity) data) ∅.

(** Skipping rows in error: [while (src_in_err[r]) r++]; the string ends with a zero. *)
Fixpoint skip_errors (src_in_err : list bool) (r : nat) : nat :=
  match src_in_err with
  | true :: l => skip_errors l (S r)
  | _ => r
  end.

(** The first loop of [gf_gen_decode_matrix]: the rows that are kept. *)
Fixpoint select_rows (src_in_err : list bool) (k r : nat) : list nat :=
  match k with
  | O => []
  | S k' => let r' := skip_errors (drop r src_in_err) r in r' :: select_rows src_in_err k' (S r')
  end.

(** The skip loop over erased parity lines; [incr] grows by one for each match. *)
Definition skip_erased (src_err_list : list nat) (nerrs nsrcerrs last incr : nat) : nat :=
  foldl (fun incr i => if bool_decide (default O (src_err_list !! i) = (last + incr)%nat) then S incr else incr)
    incr (seq nsrcerrs (nerrs - nsrcerrs - nsrcerrs)).

(** The inversion loop: while the chosen rows are singular, the last one is replaced.  The row
    number grows in every round and is below [m], so [m] rounds are enough. *)
Fixpoint invert_loop (fuel : nat) (encode_matrix backup b : list Z) (decode_index src_err_list : list nat)
    (nerrs nsrcerrs k m incr : nat) : outcome (option (list Z * list nat)) :=
  match gf_invert_matrix b k with
  | Some invert_matrix => Ret (Some (invert_matrix, decode_index))
  | None =>
      match fuel with
      | O => OutOfFuel
      | S fuel' =>
          if bool_decide (nerrs = m - k)%nat then Ret None else
          let last := default O (decode_index !! (k - 1)%nat) in
          let incr' := skip_erased src_err_list nerrs nsrcerrs last (S incr) in
          if bool_decide (m <= last + incr')%nat then Ret None else
          let decode_index' := <[(k - 1)%nat := (last + incr')%nat]> decode_index in
          let b' := take (k * (k - 1)) backup ++ rows_of k encode_matrix [(last + incr')%nat] in
          invert_loop fuel' encode_matrix backup b' decode_index' src_err_list nerrs nsrcerrs k m incr'
      end
  end.

(** [gf_gen_decode_matrix]: none for the return value -1. *)
Definition gf_gen_decode_matrix (encode_matrix : list Z) (src_err_list : list nat) (src_in_err : list bool)
    (nerrs nsrcerrs k m : nat) : outcome (option (list Z * list nat)) :=
  let decode_index := select_rows src_in_err k 0 in
  let b := rows_of k encode_matrix decode_index in
  r ← invert_loop m encode_matrix b b decode_index src_err_list nerrs nsrcerrs k m 0;
  match r with
  | None => Ret None
  | Some (invert_matrix, decode_index) =>
      let err i := default O (src_err_list !! i) in
      let data_rows := i ← seq 0 nsrcerrs; (fun j => at_ invert_matrix (k * err i + j)) <$> seq 0 k in
      let parity_rows := p ← seq nsrcerrs (nerrs - nsrcerrs);
        (fun i => xsum k (fun j => gf_mul (at_ invert_matrix (j * k + i)) (at_ encode_matrix (k * err p + j))))
        <$> seq 0 k in
      Ret (Some (data_rows ++ parity_rows, decode_index))
  end.

(** The loop of [getErrorPattern]: the pattern, the number of errors and the block size. *)
Fixpoint scan_chunks (stripe : list chunk) (blockSize : Z) : outcome (list bool) :=
  match stripe with
  | [] => Ret []
  | c :: stripe' =>
      match c with
      | None | Some [] => rest ← scan_chunks stripe' blockSize; Ret (true :: rest)
      | Some d =>
          let blockSize' := if blockSize =? 0 then slen d else blockSize in
          if blockSize' =? slen d then rest ← scan_chunks stripe' blockSize'; Ret (false :: rest)
          else Throw std_invalid_argument
      end
  end.

Fixpoint count_true (l : list bool) : nat :=
  match l with
  | [] => O
  | b :: l' => ((if b then 1 else 0) + count_true l')%nat
  end.

Definition getErrorPattern (rp : RedundancyProvider) (stripe : list chunk) : outcome (list bool) :=
  if bool_decide (length stripe <> size rp) then Throw std_invalid_argument else
  pattern ← scan_chunks stripe 0;
  if bool_decide (nParity rp < count_true pattern)%nat then Throw std_invalid_argument else Ret pattern.

(** The indices of the errors. *)
Fixpoint err_indices (pattern : list bool) (i : nat) : list nat :=
  match pattern with
  | [] => []
  | true :: l => i :: err_indices l (S i)
  | false :: l => err_indices l (S i)
  end.

(** Building a table that is not cached.  The index of the loop over the pattern is a [uint8_t]: a
    pattern of more than 255 chunks never ends the loop. *)
Definition build_table (rp : RedundancyProvider) (pattern : list bool) : outcome CodingTable :=
  if bool_decide (255 < length pattern)%nat then UB else
  let err_indx_list := err_indices pattern 0 in
  let nerrs := length err_indx_list in
  let nsrcerrs := length (filter (fun i => (i < nData rp)%nat) err_indx_list) in
  r ← gf_gen_decode_matrix (encode_matrix rp) err_indx_list pattern nerrs nsrcerrs (nData rp) (nParity rp + nData rp);
  match r with
  | None => Throw std_runtime_error
  | Some (decode_matrix, blockIndices) =>
      Ret (mkCodingTable (ec_init_tables (nData rp) nerrs decode_matrix) blockIndices nerrs)
  end.

Definition getCodingTable (pattern : list bool) : M RedundancyProvider CodingTable := fun rp =>
  match cache rp !! pattern with
  | Some dd => (Ret dd, rp)
  | None =>
      match build_table rp pattern with
      | Ret dd => (Ret dd, mkProvider (nData rp) (nParity rp) (encode_matrix rp) (<[pattern:=dd]> (cache rp)))
      | Throw e => (Throw e, rp)
      | UB => (UB, rp)
      | OutOfFuel => (OutOfFuel, rp)
      end
  end.

(** [replication]: every missing chunk becomes a reference to the first valid one. *)
Definition replication (stripe : list chunk) (pattern : list bool) : outcome (list chunk) :=
  let valid := skip_errors pattern 0 in
  match stripe !! valid with
  | Some v => Ret (zip_with (fun (e : bool) c => if e then v else c) pattern stripe)
  | None => if bool_decide (true ∈ pattern) then UB else Ret stripe
  end.

(** The last loop of [compute]: outputs go to the chunks in error, in order. *)
Fixpoint fill_errors (pattern : list bool) (stripe : list chunk) (out : list bytes) : list chunk :=
  match pattern, stripe with
  | true :: pattern', _ :: stripe' =>
      match out with
      | o :: out' => Some o :: fill_errors pattern' stripe' out'
      | [] => None :: fill_errors pattern' stripe' []
      end
  | false :: pattern', c :: stripe' => c :: fill_errors pattern' stripe' out
  | _, _ => stripe
  end.

Definition compute (stripe : list chunk) : M RedundancyProvider (list chunk) :=
  rp ← get;
  pattern ← lift (getErrorPattern rp stripe);
  if bool_decide (nParity rp = 0%nat) then mret stripe
  else if bool_decide (nData rp = 1%nat) then lift (replication stripe pattern)
  else
    dd ← getCodingTable pattern;
    inbuf ← lift (mapM (fun i => c ← deref (stripe !! i); deref c) (blockIndices dd));
    first ← lift (deref (head inbuf));
    let blockSize := length first in
    let outbuf := ec_encode_data blockSize (nData rp) (nErrors dd) (table dd) inbuf in
    mret (fill_errors pattern stripe outbuf).

End Provider.
End Redundancy.
Export Redundancy.

(** ** Lemmas: error patterns *)

Fixpoint count_false (l : list bool) : nat :=
  match l with
  | [] => O
  | b :: l' => ((if b then 0 else 1) + count_false l')%nat
  end.

Lemma count_false_true l : (count_false l + count_true l = length l)%nat.
Proof. induction l as [|[] l IH]; simpl; lia. Qed.

Lemma skip_errors_spec l r :
  (0 < count_false l)%nat ->
  exists n, skip_errors l r = (r + n)%nat /\ l !! n = Some false /\ S (count_false (drop (S n) l)) = count_false l.
Proof.
  revert r. induction l as [|[] l IH]; intros r Hc; [by apply Nat.lt_irrefl in Hc| |].
  - destruct (IH (S r)) as (n & E & Hn & Hf); [done|]. exists (S n). simpl. split_and!; [lia|done|done].
  - exists O. by split_and!; [simpl; lia|..].
Qed.

Lemma select_rows_spec pattern k r :
  (k <= count_false (drop r pattern))%nat ->
  let idx := select_rows pattern k r in
  length idx = k /\ StronglySorted lt idx /\ Forall (fun x => (r <= x)%nat /\ pattern !! x = Some false) idx.
Proof.
  revert r. induction k as [|k IH]; intros r Hk; simpl; [by repeat constructor|].
  destruct (skip_errors_spec (drop r pattern) r) as (n & E & Hn & Hf); [lia|]. rewrite E.
  rewrite lookup_drop in Hn. rewrite drop_drop in Hf.
  replace (r + S n)%nat with (S (r + n)) in Hf by lia.
  destruct (IH (S (r + n))) as (Hl & Hs & Ha); [lia|]. split_and!.
  - by rewrite Hl.
  - constructor; [done|]. eapply Forall_impl; [exact Ha|]. intros x [Hx _]. simpl. lia.
  - constructor; [split; [lia|done]|]. eapply Forall_impl; [exact Ha|]. intros x [Hx ?]. split; [lia|done].
Qed.

Lemma err_indices_length l i : length (err_indices l i) = count_true l.
Proof. revert i. induction l as [|[] l IH]; intros i; simpl; by rewrite ?IH. Qed.

Lemma err_indices_spec l i x : x ∈ err_indices l i <-> (i <= x)%nat /\ l !! (x - i)%nat = Some true.
Proof.
  revert i. induction l as [|b l IH]; intros i; simpl.
  - rewrite elem_of_nil, lookup_nil. naive_solver.
  - destruct b; rewrite ?elem_of_cons, IH.
    + destruct (decide (x = i)) as [->|]; [rewrite Nat.sub_diag; simpl; naive_solver lia|].
      split; intros Hx; [|right].
      * destruct Hx as [|[? Hx]]; [done|]. split; [lia|]. replace (x - i)%nat with (S (x - S i)) by lia. done.
      * destruct Hx as [? Hx]. split; [lia|]. replace (x - i)%nat with (S (x - S i)) in Hx by lia. done.
    + split; intros [? Hx].
      * split; [lia|]. replace (x - i)%nat with (S (x - S i)) by lia. done.
      * destruct (decide (x = i)) as [->|]; [by rewrite Nat.sub_diag in Hx|].
        split; [lia|]. replace (x - i)%nat with (S (x - S i)) in Hx by lia. done.
Qed.

Lemma err_indices_sorted l i : StronglySorted lt (err_indices l i).
Proof.
  revert i. induction l as [|[] l IH]; intros i; simpl; [constructor| |apply IH].
  constructor; [apply IH|]. apply Forall_forall. intros x [? _]%err_indices_spec. lia.
Qed.

(** In a sorted list the elements below a bound are a prefix. *)
Lemma sorted_filter_prefix (l : list nat) n i x :
  StronglySorted lt l -> l !! i = Some x -> (i < length (filter (fun y => (y < n)%nat) l))%nat <-> (x < n)%nat.
Proof.
  intros Hs. revert i. induction Hs as [|y l Hs IH Hf]; intros i Hi; [done|].
  rewrite filter_cons. destruct i as [|i]; simpl in Hi.
  - simplify_eq. case_decide; simpl; [lia|]. split; [|done]. intros Hlen. exfalso.
    destruct (filter (fun y => (y < n)%nat) l) as [|z l'] eqn:E; [simpl in Hlen; lia|].
    assert (z ∈ filter (fun y => (y < n)%nat) l) as Hz by (rewrite E; by left).
    apply list_elem_of_filter in Hz as [? Hz]. rewrite Forall_forall in Hf. specialize (Hf z Hz). lia.
  - rewrite Forall_forall in Hf. pose proof (Hf x ltac:(by eapply list_elem_of_lookup_2)).
    case_decide; simpl; rewrite <- (IH i Hi); [lia|].
    split; [lia|]. intros Hlen. apply (IH i Hi) in Hlen. lia.
Qed.

(** ** Lemmas: recovery *)

Section Recovery.
Context `{IsaLaws k m}.

(** Byte [p] of chunk [r]. *)
Definition byte_at (c : list bytes) (r p : nat) : Z := byte_val (default NUL (default [] (c !! r) !! p)).

(** The stripes the encoding produces: [m] chunks of [len] bytes, chunk [r] the product of row [r] of
    the coding matrix with the data chunks. *)
Definition codeword (len : nat) (c : list bytes) : Prop :=
  length c = m /\ Forall (fun d => length d = len) c /\
  forall r p, (r < m)%nat -> (p < len)%nat ->
    byte_at c r p = xsum k (fun j => gf_mul (at_ (gf_gen_cauchy1_matrix m k) (k * r + j)) (byte_at c j p)).

(** [stripe] is [c] with the chunks marked in [pattern] missing. *)
Definition damaged (pattern : list bool) (c : list bytes) (stripe : list (option bytes)) : Prop :=
  Forall2 (fun (e : bool) (dc : bytes * option bytes) =>
    if e then snd dc = None \/ snd dc = Some [] else snd dc = Some (fst dc)) pattern (zip c stripe) /\
  length c = length stripe.

Definition missing (c : option bytes) : bool := match c with None | Some [] => true | Some _ => false end.

Lemma scan_chunks_damaged len pattern c stripe bs :
  (0 < len)%nat -> Forall (fun d : bytes => length d = len) c -> damaged pattern c stripe -> bs = 0 \/ bs = Z.of_nat len ->
  scan_chunks stripe bs = Ret pattern.
Proof.
  intros Hlen Hc [Hd Hl]. revert c stripe Hc Hd Hl bs.
  induction pattern as [|e pattern IH]; intros c stripe Hc Hd Hl bs Hbs.
  { inversion Hd as [E|]. destruct c, stripe; simpl in *; try done. }
  destruct c as [|d c], stripe as [|s stripe]; simpl in *; try done; [by inversion Hd|].
  apply Forall2_cons in Hd as [Hs Hd]. apply Forall_cons in Hc as [Hdl Hc]. simpl in Hs.
  destruct e.
  - assert (scan_chunks stripe bs = Ret pattern) as Hrec by (apply (IH c); auto with lia).
    destruct Hs as [->| ->]; rewrite Hrec; done.
  - subst s. destruct d as [|x d]; [simpl in Hdl; lia|].
    assert ((if bs =? 0 then slen (x :: d) else bs) = Z.of_nat len) as ->.
    { unfold slen. rewrite Hdl. destruct Hbs as [->| ->]; [done|]. by destruct (Z.eqb_spec (Z.of_nat len) 0). }
    assert ((Z.of_nat len =? slen (x :: d)) = true) as ->. { unfold slen. rewrite Hdl. lia. }
    rewrite (IH c stripe Hc Hd ltac:(lia) (Z.of_nat len)) by auto. done.
Qed.

(** Writing the missing chunks back gives the codeword. *)
Lemma fill_errors_codeword pattern c stripe (out : list bytes) i :
  damaged pattern c stripe ->
  length out = count_true pattern ->
  (forall j x, err_indices pattern i !! j = Some x -> out !! j = c !! (x - i)%nat) ->
  fill_errors pattern stripe out = Some <$> c.
Proof.
  intros [Hd Hl]. revert c stripe Hd Hl out i.
  induction pattern as [|e pattern IH]; intros c stripe Hd Hl out i Ho He.
  { inversion Hd as [E|]. destruct c, stripe; simpl in *; try done. }
  destruct c as [|d c], stripe as [|s stripe]; simpl in *; try done; [by inversion Hd|].
  apply Forall2_cons in Hd as [Hs Hd]. simpl in Hs.
  destruct e.
  - destruct out as [|o out]; [done|]. simpl in Ho.
    pose proof (He 0%nat i eq_refl) as Hfst. rewrite Nat.sub_diag in Hfst. simpl in Hfst. simplify_eq.
    f_equal. apply (IH c stripe Hd ltac:(lia) out (S i)); [lia|].
    intros j x Hj. pose proof (He (S j) x Hj) as Hx. simpl in Hx. rewrite Hx.
    assert (S i <= x)%nat. { apply (err_indices_spec pattern (S i) x). by eapply list_elem_of_lookup_2. }
    replace (x - i)%nat with (S (x - S i)) by lia. done.
  - subst s. f_equal. apply (IH c stripe Hd ltac:(lia) out (S i)).
    + done.
    + intros j x Hj. rewrite (He j x Hj).
      assert (S i <= x)%nat. { apply (err_indices_spec pattern (S i) x). by eapply list_elem_of_lookup_2. }
      replace (x - i)%nat with (S (x - S i)) by lia. done.
Qed.

Lemma damaged_ok pattern c stripe i d :
  damaged pattern c stripe -> pattern !! i = Some false -> c !! i = Some d -> stripe !! i = Some (Some d).
Proof.
  intros [Hd Hl] Hp Hc. destruct (stripe !! i) as [s|] eqn:Hs.
  - eapply Forall2_lookup_lr in Hd; [|exact Hp|apply lookup_zip_Some; eauto]. simpl in Hd. by f_equal.
  - apply lookup_ge_None in Hs. apply lookup_lt_Some in Hc. lia.
Qed.

Lemma damaged_length pattern c stripe : damaged pattern c stripe -> length pattern = length c.
Proof. intros [Hd%Forall2_length Hl]. rewrite Hd, length_zip_with. lia. Qed.

Lemma length_bind_rows {A} (f : nat -> list A) idx : (forall r, length (f r) = k) -> length (idx ≫= f) = (k * length idx)%nat.
Proof. intros Hf. induction idx as [|r idx IH]; cbn; [lia|]. rewrite length_app, Hf. fold (idx ≫= f). rewrite IH. lia. Qed.

(** Entries of the decode matrix, which is put together from the data rows and the parity rows. *)
Lemma at_decode_rows (f g : nat -> nat -> Z) ns n i j :
  (ns <= n)%nat -> (i < n)%nat -> (j < k)%nat ->
  at_ ((a ← seq 0 ns; f a <$> seq 0 k) ++ (a ← seq ns (n - ns); g a <$> seq 0 k)) (k * i + j) =
  if decide (i < ns)%nat then f i j else g i j.
Proof.
  intros Hns Hi Hj. unfold at_.
  assert (forall (h : nat -> nat -> Z) r, length (h r <$> seq 0 k) = k) as Hlen by (intros; by rewrite length_fmap, length_seq).
  case_decide.
  - rewrite lookup_app_l by (rewrite length_bind_rows, length_seq by apply Hlen; nia).
    rewrite bind_lookup, lookup_seq_lt by (done || apply Hlen). simpl.
    by rewrite list_lookup_fmap, lookup_seq_lt by done.
  - rewrite lookup_app_r by (rewrite length_bind_rows, length_seq by apply Hlen; nia).
    rewrite length_bind_rows, length_seq by apply Hlen.
    replace (k * i + j - k * ns)%nat with (k * (i - ns) + j)%nat by nia.
    rewrite bind_lookup, lookup_seq_lt by (lia || apply Hlen). simpl.
    rewrite list_lookup_fmap, lookup_seq_lt by done. simpl. by replace (ns + (i - ns))%nat with i by lia.
Qed.

Lemma select_rows_choice pattern :
  length pattern = m -> (count_true pattern <= m - k)%nat -> (k <= m)%nat ->
  let idx := select_rows pattern k 0 in
  length idx = k /\ row_choice m idx /\ Forall (fun x => pattern !! x = Some false) idx.
Proof.
  intros Hl Hc Hk. pose proof (count_false_true pattern).
  destruct (select_rows_spec pattern k 0) as (Hlen & Hs & Ha); [rewrite drop_0; lia|].
  split_and!; [done| |eapply Forall_impl; [exact Ha|]; naive_solver].
  split; [done|]. eapply Forall_impl; [exact Ha|]. intros x [_ Hx]. apply lookup_lt_Some in Hx. lia.
Qed.

Lemma at_Forall (l : list Z) : Forall is_byte l -> forall i, is_byte (at_ l i).
Proof. intros Hl i. unfold at_. destruct (l !! i) eqn:E; [by eapply Forall_lookup_1 in E|done]. Qed.

Lemma invert_loop_hit fuel a backup b inv idx err nerrs nsrcerrs n incr :
  gf_invert_matrix b k = Some inv -> invert_loop fuel a backup b idx err nerrs nsrcerrs k n incr = Ret (Some (inv, idx)).
Proof. intros Hinv. by destruct fuel; simpl; rewrite Hinv. Qed.

(** What a decode matrix is for: applied to the chunks [idx] it gives the chunks in error. *)
Definition decodes (pattern : list bool) (D : list Z) (idx : list nat) : Prop :=
  (forall i, is_byte (at_ D i)) /\ forall len c, codeword len c -> forall i e p, err_indices pattern 0 !! i = Some e -> (p < len)%nat ->
    xsum k (fun j => gf_mul (at_ D (k * i + j)) (byte_at c (default O (idx !! j)) p)) = byte_at c e p.

Lemma gf_gen_decode_matrix_decodes pattern :
  length pattern = m -> (count_true pattern <= m - k)%nat -> (k <= m)%nat ->
  let err := err_indices pattern 0 in
  exists D, gf_gen_decode_matrix (gf_gen_cauchy1_matrix m k) err pattern (length err)
      (length (filter (fun i => (i < k)%nat) err)) k m = Ret (Some (D, select_rows pattern k 0)) /\
    decodes pattern D (select_rows pattern k 0).
Proof.
  intros Hl Hc Hk err. destruct (select_rows_choice pattern) as (Hlen & Hch & Hok); try done.
  destruct (cauchy_invertible _ Hch Hlen) as [inv Hinv].
  unfold gf_gen_decode_matrix. rewrite (invert_loop_hit _ _ _ _ inv) by done. simpl. eexists; split; [done|].
  split.
  { apply at_Forall, Forall_app; split; apply Forall_forall; intros x (a & Hx & _)%list_elem_of_bind;
      apply list_elem_of_fmap in Hx as (b & -> & _); [by eapply invert_bytes|].
    apply xsum_byte. intros. apply gf_mul_byte; [by eapply invert_bytes|apply cauchy_bytes]. }
  intros len c (Hcl & Hcf & Hcw) i e p He Hp. fold err in He.
  assert (e ∈ err) as [_ Hem]%err_indices_spec by (by eapply list_elem_of_lookup_2).
  apply lookup_lt_Some in Hem. rewrite Nat.sub_0_r, Hl in Hem.
  pose proof (sorted_filter_prefix err k i e (err_indices_sorted pattern 0) He) as Hpre.
  assert (length (filter (fun i => (i < k)%nat) err) <= length err)%nat by apply length_filter.
  apply lookup_lt_Some in He as Hi.
  rewrite (xsum_ext _ _ (fun j => gf_mul (if decide (e < k)%nat then at_ inv (k * e + j) else
     xsum k (fun l => gf_mul (at_ inv (l * k + j)) (at_ (gf_gen_cauchy1_matrix m k) (k * e + l))))
     (byte_at c (default O (select_rows pattern k 0 !! j)) p))).
  2: { intros j Hj. f_equal. etrans; [by apply at_decode_rows|]. cbv beta. rewrite He. simpl.
       by destruct (decide (e < k)%nat), (decide (i < length (filter (λ i0 : nat, (i0 < k)%nat) err))%nat); try lia. }
  set (B := fun i j => at_ (gf_gen_cauchy1_matrix m k) (k * default O (select_rows pattern k 0 !! i) + j)).
  assert (forall l j, (l < k)%nat -> (j < k)%nat ->
    at_ (rows_of k (gf_gen_cauchy1_matrix m k) (select_rows pattern k 0)) (k * l + j) = B l j) as HB.
  { intros l j Hlk Hj. destruct (lookup_lt_is_Some_2 (select_rows pattern k 0) l) as [r Hr]; [lia|].
    rewrite (at_rows_of _ _ _ _ _ r) by done. unfold B. by rewrite Hr. }
  assert (forall i j, (i < k)%nat -> (j < k)%nat ->
    xsum k (fun l => gf_mul (at_ inv (k * i + l)) (B l j)) = if decide (i = j) then 1 else 0) as HI.
  { intros i' j' Hi' Hj'. rewrite <- (invert_correct _ inv i' j' Hinv Hi' Hj').
    apply xsum_ext. intros l Hlk. by rewrite HB. }
  assert (forall i, (i < k)%nat -> byte_at c (default O (select_rows pattern k 0 !! i)) p =
    xsum k (fun j => gf_mul (B i j) (byte_at c j p))) as HC.
  { intros i' Hi'. apply Hcw; [|done]. destruct (lookup_lt_is_Some_2 (select_rows pattern k 0) i') as [r Hr]; [lia|].
    rewrite Hr. simpl. destruct Hch as [_ Hf]. by eapply Forall_lookup_1 in Hf. }
  assert (forall i j, is_byte (B i j)) by (intros; apply cauchy_bytes).
  assert (forall i j, is_byte (at_ inv (k * i + j))) by (intros; by eapply invert_bytes).
  case_decide.
  - apply (solve_data (fun i j => at_ inv (k * i + j)) B (fun j => byte_at c j p)
      (fun j => byte_at c (default O (select_rows pattern k 0 !! j)) p) e); auto using byte_val_byte.
    intros; apply byte_val_byte.
  - rewrite Hcw by lia.
    rewrite <- (solve_parity (fun i j => at_ inv (k * i + j)) B (fun j => at_ (gf_gen_cauchy1_matrix m k) (k * e + j))
      (fun j => byte_at c j p) (fun j => byte_at c (default O (select_rows pattern k 0 !! j)) p));
      auto using byte_val_byte, cauchy_bytes; try (intros; apply byte_val_byte || apply cauchy_bytes).
    apply xsum_ext. intros j Hj. f_equal. apply xsum_ext. intros l Hlk. by rewrite Nat.mul_comm.
Qed.

(** The provider of the geometry [k], [m]: its tables are those it would build afresh. *)
Definition provider_ok (rp : RedundancyProvider) : Prop :=
  nData rp = k /\ (nParity rp + k)%nat = m /\ encode_matrix rp = gf_gen_cauchy1_matrix m k /\
  forall pattern t, cache rp !! pattern = Some t -> build_table rp pattern = Ret t.

Lemma build_table_decodes rp pattern :
  provider_ok rp -> length pattern = m -> (count_true pattern <= nParity rp)%nat -> (m <= 255)%nat ->
  exists t D, build_table rp pattern = Ret t /\ blockIndices t = select_rows pattern k 0 /\
    nErrors t = count_true pattern /\ table t = ec_init_tables k (count_true pattern) D /\
    decodes pattern D (select_rows pattern k 0).
Proof.
  intros (Hk & Hm & HE & _) Hl Hc Hm255.
  destruct (gf_gen_decode_matrix_decodes pattern) as (D & HD & Hdec); [lia..|].
  unfold build_table. rewrite bool_decide_eq_false_2 by lia.
  rewrite HE, Hk, Hm, HD. cbn. eexists _, D. split; [done|]. by rewrite err_indices_length.
Qed.

Lemma getCodingTable_ok rp pattern t :
  provider_ok rp -> build_table rp pattern = Ret t ->
  exists rp', getCodingTable pattern rp = (Ret t, rp') /\ provider_ok rp'.
Proof.
  intros Hrp Ht. unfold getCodingTable. destruct Hrp as (Hk & Hm & HE & Hca).
  destruct (cache rp !! pattern) as [t'|] eqn:Ec.
  - apply Hca in Ec as Ec'. rewrite Ht in Ec'. injection Ec' as <-. exists rp. by split.
  - rewrite Ht. eexists; split; [done|]. split_and!; try done. simpl.
    intros p t'. rewrite lookup_insert_Some. intros [[<- <-]|[_ Hp]]; [done|]. by apply Hca in Hp.
Qed.

Lemma mapM_chunks pattern c stripe idx :
  damaged pattern c stripe -> Forall (fun x => pattern !! x = Some false) idx ->
  mapM (fun i => c ← deref (stripe !! i); deref c) idx = Ret ((fun i => default [] (c !! i)) <$> idx).
Proof.
  intros Hd Hidx. induction Hidx as [|x idx Hx Hidx IH]; [done|].
  assert (is_Some (c !! x)) as [d Hc].
  { apply lookup_lt_is_Some. rewrite <- (damaged_length pattern c stripe) by done. by eapply lookup_lt_Some. }
  cbn. rewrite (damaged_ok pattern c stripe x d) by done. cbn in *. rewrite IH. cbn. by rewrite Hc.
Qed.

Lemma getErrorPattern_damaged rp len pattern c stripe :
  provider_ok rp -> (0 < len)%nat -> length c = m -> Forall (fun d : bytes => length d = len) c ->
  damaged pattern c stripe -> (count_true pattern <= nParity rp)%nat -> getErrorPattern rp stripe = Ret pattern.
Proof.
  intros (Hk & Hm & _) Hlen Hcl Hc Hd Hp. unfold getErrorPattern, size.
  rewrite bool_decide_eq_false_2 by (destruct Hd as [_ Hl]; lia).
  rewrite (scan_chunks_damaged len pattern c) by auto. cbn. by rewrite bool_decide_eq_false_2 by lia.
Qed.

Lemma picked_lengths len c idx :
  codeword len c -> Forall (fun x => (x < m)%nat) idx ->
  Forall (fun d : bytes => length d = len) ((fun i => default [] (c !! i)) <$> idx).
Proof.
  intros (Hcl & Hcf & _) Hf. apply Forall_fmap. eapply Forall_impl; [exact Hf|]. intros x Hx. simpl in *.
  destruct (lookup_lt_is_Some_2 c x) as [d Hd]; [lia|]. rewrite Hd. exact (Forall_lookup_1 _ _ _ _ Hcf Hd).
Qed.

(** The decoded chunks are the missing ones. *)
Lemma decode_chunks len c pattern D idx j e :
  (0 < k)%nat -> codeword len c -> decodes pattern D idx -> length idx = k -> Forall (fun x => (x < m)%nat) idx ->
  err_indices pattern 0 !! j = Some e -> (e < m)%nat ->
  ec_encode_data len k (count_true pattern) (ec_init_tables k (count_true pattern) D)
    ((fun i => default [] (c !! i)) <$> idx) !! j = c !! e.
Proof.
  intros Hk Hcw [HD Hdec] Hidx Hf He Hem. pose proof Hcw as (Hcl & Hcf & _).
  destruct (encode_correct len (count_true pattern) D ((fun i => default [] (c !! i)) <$> idx)) as [Hlo Hout].
  { done. }
  { by rewrite length_fmap. }
  { by apply picked_lengths. }
  destruct (lookup_lt_is_Some_2 c e) as [d Hd]; [lia|]. apply lookup_lt_Some in He as Hj. rewrite err_indices_length in Hj.
  destruct (lookup_lt_is_Some_2 (ec_encode_data len k (count_true pattern)
    (ec_init_tables k (count_true pattern) D) ((fun i => default [] (c !! i)) <$> idx)) j) as [o Ho]; [lia|].
  rewrite Ho, Hd. f_equal. destruct (Hout _ _ Ho) as [Hol Hob].
  assert (length d = len) as Hdl by exact (Forall_lookup_1 _ _ _ _ Hcf Hd).
  apply (list_eq_same_length o d len); [done..|]. intros p a b Hp Ha Hb.
  apply byte_val_inj. rewrite (Hob p a Ha).
  rewrite (xsum_ext _ _ (fun l => gf_mul (at_ D (k * j + l)) (byte_at c (default O (idx !! l)) p))).
  - rewrite (Hdec len c Hcw j e p) by done. unfold byte_at. by rewrite Hd; simpl; rewrite Hb.
  - intros l Hl. f_equal. unfold byte_at. rewrite list_lookup_fmap.
    destruct (lookup_lt_is_Some_2 idx l) as [r Hr]; [lia|]. by rewrite Hr.
Qed.

Lemma compute_linear rp len pattern c stripe :
  provider_ok rp -> (1 < k)%nat -> (m <= 255)%nat -> (0 < len)%nat -> (0 < nParity rp)%nat ->
  codeword len c -> damaged pattern c stripe -> (count_true pattern <= nParity rp)%nat ->
  exists rp', compute stripe rp = (Ret (Some <$> c), rp') /\ provider_ok rp'.
Proof.
  intros Hrp Hk Hm255 Hlen Hpar Hcw Hd Hp. pose proof Hcw as (Hcl & Hcf & _).
  pose proof (damaged_length _ _ _ Hd) as Hpl. pose proof Hrp as (Hnd & Hm & _).
  destruct (build_table_decodes rp pattern) as (t & D & Ht & Hbi & Hne & Htab & Hdec); try lia; try done.
  destruct (getCodingTable_ok rp pattern t Hrp Ht) as (rp' & Hget & Hrp').
  exists rp'. split; [|done].
  destruct (select_rows_choice pattern) as (Hil & [Hs Hf] & Hok); [lia..|].
  unfold compute. mstep. rewrite (getErrorPattern_damaged rp len pattern c) by done. mstep.
  rewrite !bool_decide_eq_false_2 by lia.
  rewrite (bind_ret _ _ _ _ _ Hget), Hbi, (mapM_chunks pattern c) by done. mstep.
  destruct (lookup_lt_is_Some_2 (select_rows pattern k 0) 0) as [r Hr]; [lia|].
  destruct (lookup_lt_is_Some_2 c r) as [d Hdr]; [rewrite Hcl; exact (Forall_lookup_1 _ _ _ _ Hf Hr)|].
  assert (head ((fun i => default [] (c !! i)) <$> select_rows pattern k 0) = Some d) as ->.
  { rewrite head_lookup, list_lookup_fmap, Hr. simpl. by rewrite Hdr. }
  cbn [deref]. mstep. rewrite (Forall_lookup_1 _ _ _ _ Hcf Hdr), Hne, Htab, Hnd.
  unfold mret, M_ret. do 2 f_equal. apply (fill_errors_codeword pattern c stripe _ 0); [done| |].
  - apply encode_correct; [apply Hdec|by rewrite length_fmap|by apply picked_lengths].
  - intros j e He. rewrite Nat.sub_0_r. apply decode_chunks; try done; [lia|].
    assert (e ∈ err_indices pattern 0) as [_ Hx]%err_indices_spec by (by eapply list_elem_of_lookup_2).
    apply lookup_lt_Some in Hx. lia.
Qed.

(** The stripes the provider works with: one data chunk is replicated, more are coded. *)
Definition valid_stripe (len : nat) (c : list bytes) : Prop :=
  if decide (k = 1%nat) then exists d, length d = len /\ c = replicate m d else codeword len c.

Lemma valid_stripe_lengths len c : valid_stripe len c -> length c = m /\ Forall (fun d : bytes => length d = len) c.
Proof.
  unfold valid_stripe. case_decide; [|by intros (? & ? & _)].
  intros (d & Hd & ->). rewrite length_replicate. split; [done|]. by apply Forall_replicate.
Qed.

Lemma undamaged pattern c stripe : count_true pattern = 0%nat -> damaged pattern c stripe -> stripe = Some <$> c.
Proof.
  intros Hp [Hd Hl]. revert c stripe Hd Hl. induction pattern as [|[] pattern IH]; intros c stripe Hd Hl; [|done|].
  - inversion Hd. by destruct c, stripe.
  - destruct c as [|d c], stripe as [|x stripe]; try done. cbn [zip zip_with] in Hd.
    apply Forall2_cons in Hd as [Hs Hd]. simpl in *. subst. f_equal. apply IH; auto.
Qed.

Lemma replication_damaged pattern d stripe :
  damaged pattern (replicate (length pattern) d) stripe -> (count_true pattern < length pattern)%nat ->
  replication stripe pattern = Ret (Some <$> replicate (length pattern) d).
Proof.
  intros Hd Hc. unfold replication.
  destruct (skip_errors_spec pattern 0) as (n & -> & Hn & _); [pose proof (count_false_true pattern); lia|].
  rewrite (damaged_ok pattern _ stripe (0 + n) d Hd Hn) by (apply lookup_replicate_2; by eapply lookup_lt_Some).
  f_equal. clear Hc Hn n. destruct Hd as [Hd Hl]. revert stripe Hd Hl.
  induction pattern as [|e pattern IH]; intros [|x stripe] Hd Hl; try done.
  cbn [length replicate zip zip_with] in *. apply Forall2_cons in Hd as [Hs Hd]. simpl in Hs, Hl. cbn. f_equal.
  - destruct e; [done|by subst].
  - apply IH; auto.
Qed.

Lemma compute_damaged rp len pattern c stripe :
  provider_ok rp -> (0 < k)%nat -> (m <= 255)%nat -> (0 < len)%nat ->
  valid_stripe len c -> damaged pattern c stripe -> (count_true pattern <= nParity rp)%nat ->
  exists rp', compute stripe rp = (Ret (Some <$> c), rp') /\ provider_ok rp'.
Proof.
  intros Hrp Hk Hm255 Hlen Hcw Hd Hp. pose proof (valid_stripe_lengths _ _ Hcw) as [Hcl Hcf].
  pose proof (damaged_length _ _ _ Hd) as Hpl. pose proof Hrp as (Hnd & Hm & _).
  destruct (decide (nParity rp = 0%nat)) as [Hn0|Hn0]; [|unfold valid_stripe in Hcw; destruct (decide (k = 1%nat)) as [Hk1|Hk1]].
  - exists rp. split; [|done]. unfold compute. mstep. rewrite (getErrorPattern_damaged rp len pattern c) by done. mstep.
    rewrite bool_decide_eq_true_2 by done. by rewrite (undamaged pattern c stripe) by (done || lia).
  - exists rp. split; [|done]. unfold compute. mstep. rewrite (getErrorPattern_damaged rp len pattern c) by done. mstep.
    rewrite bool_decide_eq_false_2, bool_decide_eq_true_2 by lia. destruct Hcw as (d & _ & ->).
    rewrite length_replicate in Hpl. rewrite <- Hpl in Hd |- *. by rewrite (replication_damaged pattern d) by (done || lia).
  - apply (compute_linear rp len pattern); auto with lia.
Qed.

Lemma new_provider_ok : (k <= m)%nat -> provider_ok (new_provider k (m - k)).
Proof. intros Hk. unfold provider_ok, new_provider. simpl. by replace (k + (m - k))%nat with m by lia; split_and!; [|lia|..]. Qed.

(** Every choice of data chunks extends to a codeword. *)
Lemma codeword_exists len data :
  (k <= m)%nat -> length data = k -> Forall (fun d : bytes => length d = len) data ->
  exists parity, length parity = (m - k)%nat /\ codeword len (data ++ parity).
Proof.
  intros Hk Hl Hf. set (E := gf_gen_cauchy1_matrix m k).
  assert (forall i, at_ (drop (k * k) E) i = at_ E (k * k + i)) as HE by (intros; unfold at_; by rewrite lookup_drop).
  destruct (encode_correct len (m - k) (drop (k * k) E) data) as [Hlo Hout]; [intros; rewrite HE; apply cauchy_bytes|done..|].
  set (parity := ec_encode_data _ _ _ _ _) in *. exists parity. split; [done|]. split_and!.
  - rewrite length_app. lia.
  - apply Forall_app. split; [done|]. apply Forall_lookup_2. intros i o Ho. apply (Hout i o Ho).
  - assert (forall j p, (j < k)%nat -> byte_at (data ++ parity) j p = byte_at data j p) as Hdata.
    { intros j p Hj. unfold byte_at. by rewrite lookup_app_l by lia. }
    intros r p Hr Hp. rewrite (xsum_ext _ _ (fun j => gf_mul (at_ E (k * r + j)) (byte_at data j p))) by (intros; by rewrite Hdata).
    destruct (decide (r < k)%nat) as [Hrk|Hrk].
    + rewrite Hdata by done. rewrite (xsum_ext _ _ (fun j => gf_mul (if decide (r = j) then 1 else 0) (byte_at data j p))).
      * symmetry. apply (gf_mul_delta r (fun j => byte_at data j p)); [done|]. intros. apply byte_val_byte.
      * intros j Hj. unfold E. by rewrite cauchy_identity.
    + unfold byte_at at 1. rewrite lookup_app_r, Hl by lia.
      destruct (lookup_lt_is_Some_2 parity (r - k)) as [o Ho]; [lia|]. destruct (Hout _ _ Ho) as [Hol Hob].
      destruct (lookup_lt_is_Some_2 o p) as [x Hx]; [lia|]. rewrite Ho. simpl. rewrite Hx. simpl.
      rewrite (Hob p x Hx). apply xsum_ext. intros j Hj. rewrite HE.
      by replace (k * k + (k * (r - k) + j))%nat with (k * r + j)%nat by nia.
Qed.

Lemma valid_stripe_exists len data :
  (k <= m)%nat -> (0 < k)%nat -> length data = k -> Forall (fun d : bytes => length d = len) data ->
  exists parity, length parity = (m - k)%nat /\ valid_stripe len (data ++ parity).
Proof.
  intros Hk Hk0 Hl Hf. unfold valid_stripe. case_decide as Hk1; [|by apply codeword_exists].
  destruct data as [|d []]; simpl in Hl; try lia. apply Forall_cons in Hf as [Hd _].
  exists (replicate (m - k) d). rewrite length_replicate. split; [done|]. exists d. split; [done|].
  destruct m as [|m']; [lia|]. simpl. by replace (S m' - k)%nat with m' by lia.
Qed.

Lemma encode_damaged data parity x :
  missing x = true ->
  damaged (replicate (length data) false ++ replicate (length parity) true) (data ++ parity)
    ((Some <$> data) ++ replicate (length parity) x).
Proof.
  intros Hm. split; [|by rewrite !length_app, length_fmap, length_replicate].
  rewrite zip_with_app by (by rewrite length_fmap). apply Forall2_app; apply Forall2_same_length_lookup; split.
  1, 3: by rewrite length_replicate, length_zip_with, ?length_fmap, ?length_replicate; lia.
  - intros i e [d y] [-> _]%lookup_replicate [Hd Hx]%lookup_zip_Some. rewrite list_lookup_fmap, Hd in Hx. by simplify_eq/=.
  - intros i e [d y] [-> _]%lookup_replicate [Hd Hx]%lookup_zip_Some. apply lookup_replicate in Hx as [-> _].
    destruct x as [[|]|]; [by right|done|by left].
Qed.

Lemma count_true_app l l' : count_true (l ++ l') = (count_true l + count_true l')%nat.
Proof. induction l as [|b l IH]; simpl; [done|]. lia. Qed.

Lemma count_true_replicate n b : count_true (replicate n b) = if b then n else 0%nat.
Proof. induction n as [|n IH]; simpl; [by destruct b|]. rewrite IH. by destruct b. Qed.

Lemma compute_encode rp len data x :
  provider_ok rp -> missing x = true -> (0 < k)%nat -> (m <= 255)%nat -> (0 < len)%nat ->
  length data = k -> Forall (fun d : bytes => length d = len) data ->
  exists parity rp', compute ((Some <$> data) ++ replicate (nParity rp) x) rp = (Ret (Some <$> (data ++ parity)), rp') /\
    valid_stripe len (data ++ parity) /\ provider_ok rp'.
Proof.
  intros Hrp Hx Hk Hm Hlen Hl Hf. pose proof Hrp as (_ & Hpar & _).
  destruct (valid_stripe_exists len data) as (parity & Hp & Hv); try done; [lia|].
  replace (nParity rp) with (length parity) by lia.
  destruct (compute_damaged rp len _ _ _ Hrp Hk Hm Hlen Hv (encode_damaged data parity x Hx)) as (rp' & Hc & Hrp').
  { rewrite count_true_app, !count_true_replicate. lia. }
  exists parity, rp'. done.
Qed.

End Recovery.

(** ** Lemmas: rejected stripes *)

Definition sizes_agree (stripe : list (option bytes)) : Prop :=
  forall a b, Some a ∈ stripe -> Some b ∈ stripe -> a <> [] -> b <> [] -> length a = length b.

Lemma scan_chunks_spec stripe bs :
  0 <= bs ->
  (scan_chunks stripe bs = Ret (missing <$> stripe) /\ sizes_agree stripe /\
    (bs <> 0 -> forall a, Some a ∈ stripe -> a <> [] -> slen a = bs)) \/
  (scan_chunks stripe bs = Throw std_invalid_argument /\
    ~ (sizes_agree stripe /\ (bs <> 0 -> forall a, Some a ∈ stripe -> a <> [] -> slen a = bs))).
Proof.
  revert bs. induction stripe as [|c stripe IH]; intros bs Hbs.
  { left. split_and!; [done|intros ???%not_elem_of_nil; done|intros ???%not_elem_of_nil; done]. }
  destruct (decide (missing c = true)) as [Hm|Hm].
  - assert (forall a, Some a ∈ c :: stripe -> a <> [] -> Some a ∈ stripe) as Hin.
    { intros a [<-|?]%elem_of_cons Ha; [by destruct a|done]. }
    destruct (IH bs Hbs) as [(E & Ha & Hb)|(E & Hn)]; [left|right]; split.
    + destruct c as [[|]|]; try done; simpl; rewrite E; done.
    + split; [intros a b ????; apply Ha; auto|]. intros ? a ??. apply Hb; auto.
    + destruct c as [[|]|]; try done; simpl; rewrite E; done.
    + intros [Ha Hb]. apply Hn. split; [intros a b ????; apply Ha; auto; by right|]. intros ? a ??. apply Hb; auto. by right.
  - destruct c as [[|x d]|]; try done. cbn [scan_chunks]. set (d' := x :: d) in *.
    assert (0 < slen d') as Hpos by (unfold d', slen; simpl; lia).
    set (bs' := if bs =? 0 then slen d' else bs). destruct (Z.eqb_spec bs' (slen d')) as [Hbs'|Hbs'].
    + destruct (IH bs' ltac:(lia)) as [(E & Ha & Hb)|(E & Hn)]; rewrite E; [left|right]; split; try done.
      * assert (forall a, Some a ∈ Some d' :: stripe -> a <> [] -> slen a = slen d') as Hall.
        { intros a [[= <-]|?]%elem_of_cons ?; [done|]. rewrite Hb; auto. lia. }
        split; [intros a b Ha' Hb' ??; apply Hall in Ha', Hb'; auto; unfold slen in *; lia|].
        intros Hne a Ha' ?. rewrite (Hall a) by done. unfold bs' in Hbs'. by destruct (Z.eqb_spec bs 0).
      * intros [Ha Hb]. apply Hn. split; [intros a b ????; apply Ha; auto; by right|].
        intros _ a ??. rewrite Hbs'. unfold slen. f_equal. apply Ha; auto; [by right|by left].
    + right. split; [done|]. intros [Ha Hb]. apply Hbs'. unfold bs'. destruct (Z.eqb_spec bs 0) as [|Hne]; [done|].
      symmetry. apply Hb; auto. by left.
Qed.

(** ** Properties *)

(** C7: Erasure coding survives the loss of any [nParity] chunks.  For data chunks of one positive size,
    [compute] on the data with null parity chunks fills in the parity and keeps the data; on every stripe
    that results from losing (as a null pointer or an empty string) at most [nParity] arbitrary chunks of
    it, [compute] restores the complete stripe, with whatever decode tables are cached at that time. *)
Theorem erasure_roundtrip `{IsaLaws k m} rp len data :
  provider_ok (k:=k) (m:=m) rp -> (0 < k)%nat -> (m <= 255)%nat -> (0 < len)%nat ->
  length data = k -> Forall (fun d : bytes => length d = len) data ->
  exists parity rp', compute ((Some <$> data) ++ replicate (nParity rp) None) rp = (Ret (Some <$> (data ++ parity)), rp') /\
    length (data ++ parity) = m /\
    forall rp2 pattern stripe, provider_ok (k:=k) (m:=m) rp2 -> damaged pattern (data ++ parity) stripe ->
      (count_true pattern <= nParity rp2)%nat ->
      exists rp3, compute stripe rp2 = (Ret (Some <$> (data ++ parity)), rp3) /\ provider_ok (k:=k) (m:=m) rp3.
Proof.
  intros Hrp Hk Hm Hlen Hl Hf. destruct (compute_encode rp len data None) as (parity & rp' & Hc & Hv & Hrp'); try done.
  exists parity, rp'. split_and!; [done|apply (valid_stripe_lengths _ _ Hv)|].
  intros rp2 pattern stripe Hrp2 Hd Hp. by apply (compute_damaged rp2 len pattern).
Qed.

Lemma erasure_roundtrip_witness :
  let rp := @new_provider IsaSim.isa 2 1 in
  exists parity rp', @compute IsaSim.isa [Some (str "ab"); Some (str "cd"); None] rp = (Ret (Some <$> ([str "ab"; str "cd"] ++ parity)), rp') /\
    exists rp3, @compute IsaSim.isa (None :: Some (str "cd") :: (Some <$> parity)) (@new_provider IsaSim.isa 2 1) =
      (Ret (Some <$> ([str "ab"; str "cd"] ++ parity)), rp3).
Proof.
  intros rp.
  destruct (@erasure_roundtrip IsaSim.isa 2 3 IsaSim.isa_laws rp 2 [str "ab"; str "cd"]) as (parity & rp' & E & Hl & Hrec);
    [apply (@new_provider_ok IsaSim.isa 2 3); lia|lia|lia|lia|reflexivity|repeat constructor|].
  exists parity, rp'. split; [exact E|].
  destruct parity as [|p []]; try discriminate Hl.
  destruct (Hrec rp [true; false; false] [None; Some (str "cd"); Some p]) as (rp3 & E3 & _).
  - apply (@new_provider_ok IsaSim.isa 2 3); lia.
  - split; [|reflexivity]. repeat constructor.
  - simpl; lia.
  - exists rp3. exact E3.
Defined.

(** [compute] refuses what it cannot recover.  A stripe with the wrong number of chunks, with two
    non-empty chunks of different sizes, or with more than [nParity] missing chunks makes [compute]
    throw [std::invalid_argument] and leaves the provider as it was. *)
Theorem compute_rejects `{IsaL} rp stripe :
  length stripe <> size rp \/ ~ sizes_agree stripe \/ (nParity rp < count_true (missing <$> stripe))%nat ->
  compute stripe rp = (Throw std_invalid_argument, rp).
Proof.
  intros Hbad. assert (getErrorPattern rp stripe = Throw std_invalid_argument) as E.
  { unfold getErrorPattern. case_bool_decide; [done|].
    destruct (scan_chunks_spec stripe 0) as [(E & Ha & _)|(E & _)]; [done| |]; rewrite E; [cbn|done].
    rewrite bool_decide_eq_true_2; [done|]. destruct Hbad as [|[|]]; done. }
  unfold compute. mstep. rewrite E. by mstep.
Qed.

Lemma compute_rejects_witness :
  @compute IsaSim.isa [Some (str "ab"); None; Some []] (@new_provider IsaSim.isa 2 1) =
    (Throw std_invalid_argument, @new_provider IsaSim.isa 2 1).
Proof. apply (@compute_rejects IsaSim.isa). right; right. simpl. lia. Defined.
