(* ===== verification/Murmur.v ===== *)
(** * The key hash (src/outside/MurmurHash3.cpp)

    The 32-bit x86 variant, the one the placement of stripes uses, and the two 128-bit variants, which
    nothing calls.  Integers are kept at their width; the block reads are those of a little-endian machine. *)

From S2P Require Import Prelude.

Module Murmur.

Definition byte (c : ascii) : Z := Z.of_N (N_of_ascii c).

(** [ROTL32] *)
Definition rotl32 (x r : Z) : Z := Z.lor (u32 (Z.shiftl x r)) (Z.shiftr x (32 - r)).

Definition getblock32 (a b c d : ascii) : Z :=
  byte a + Z.shiftl (byte b) 8 + Z.shiftl (byte c) 16 + Z.shiftl (byte d) 24.

Definition fmix32 (h : Z) : Z :=
  let h := Z.lxor h (Z.shiftr h 16) in
  let h := u32 (h * 0x85ebca6b) in
  let h := Z.lxor h (Z.shiftr h 13) in
  let h := u32 (h * 0xc2b2ae35) in
  Z.lxor h (Z.shiftr h 16).

Definition c1 : Z := 0xcc9e2d51.
Definition c2 : Z := 0x1b873593.

Definition mix_k1 (k1 : Z) : Z := u32 (rotl32 (u32 (k1 * c1)) 15 * c2).

(** The body consumes blocks of four bytes, the tail the up to three bytes left. *)
Fixpoint body (data : bytes) (h1 : Z) {struct data} : Z :=
  match data with
  | a :: b :: c :: d :: data' =>
      let h1 := Z.lxor h1 (mix_k1 (getblock32 a b c d)) in
      body data' (u32 (rotl32 h1 13 * 5 + 0xe6546b64))
  | [a; b; c] => Z.lxor h1 (mix_k1 (Z.lxor (Z.lxor (Z.shiftl (byte c) 16) (Z.shiftl (byte b) 8)) (byte a)))
  | [a; b] => Z.lxor h1 (mix_k1 (Z.lxor (Z.shiftl (byte b) 8) (byte a)))
  | [a] => Z.lxor h1 (mix_k1 (byte a))
  | [] => h1
  end.

Definition MurmurHash3_x86_32 (key : bytes) (seed : Z) : Z :=
  fmix32 (Z.lxor (body key seed) (u32 (slen key))).

(** ** The 128-bit variants *)

Definition rotl64 (x r : Z) : Z := Z.lor (u64 (Z.shiftl x r)) (Z.shiftr x (64 - r)).

Definition fmix64 (k : Z) : Z :=
  let k := Z.lxor k (Z.shiftr k 33) in
  let k := u64 (k * 0xff51afd7ed558ccd) in
  let k := Z.lxor k (Z.shiftr k 33) in
  let k := u64 (k * 0xc4ceb9fe1a85ec53) in
  Z.lxor k (Z.shiftr k 33).

(** Word [i] of [n] bytes in a block: [getblock32] and [getblock64]. *)
Definition block_word (n i : nat) (block : bytes) : Z :=
  foldr (fun c acc => byte c + 256 * acc) 0 (take n (drop (n * i) block)).

(** The bytes of a tail that fall into word [i], each shifted to its place; none if there are no such bytes. *)
Fixpoint xor_bytes (bs : bytes) (shift : Z) : Z :=
  match bs with
  | [] => 0
  | b :: bs' => Z.lxor (xor_bytes bs' (shift + 8)) (Z.shiftl (byte b) shift)
  end.

Definition tail_word (n i : nat) (tail : bytes) : option Z :=
  match take n (drop (n * i) tail) with
  | [] => None
  | bs => Some (xor_bytes bs 0)
  end.

(** [h ^= mix(k)] if there is a [k]. *)
Definition xor_mixed (mix : Z -> Z) (h : Z) (k : option Z) : Z :=
  match k with Some k => Z.lxor h (mix k) | None => h end.

(** The blocks of sixteen bytes in turn, and what is left of the data. *)
Fixpoint over_blocks {A} (round : A -> bytes -> A) (nblocks : nat) (data : bytes) (h : A) : A * bytes :=
  match nblocks with
  | O => (h, data)
  | S n => over_blocks round n (drop 16 data) (round h (take 16 data))
  end.

(** *** The x86 variant *)

Definition x86_c1 : Z := 0x239b961b.
Definition x86_c2 : Z := 0xab0e9789.
Definition x86_c3 : Z := 0x38b34ae5.
Definition x86_c4 : Z := 0xa1e38b93.

Definition mix32 (c r c' k : Z) : Z := u32 (rotl32 (u32 (k * c)) r * c').

Definition x86_round (h : Z * Z * Z * Z) (block : bytes) : Z * Z * Z * Z :=
  let '(h1, h2, h3, h4) := h in
  let k i := block_word 4 i block in
  let h1 := Z.lxor h1 (mix32 x86_c1 15 x86_c2 (k 0%nat)) in
  let h1 := u32 (u32 (rotl32 h1 19 + h2) * 5 + 0x561ccd1b) in
  let h2 := Z.lxor h2 (mix32 x86_c2 16 x86_c3 (k 1%nat)) in
  let h2 := u32 (u32 (rotl32 h2 17 + h3) * 5 + 0x0bcaa747) in
  let h3 := Z.lxor h3 (mix32 x86_c3 17 x86_c4 (k 2%nat)) in
  let h3 := u32 (u32 (rotl32 h3 15 + h4) * 5 + 0x96cd1c35) in
  let h4 := Z.lxor h4 (mix32 x86_c4 18 x86_c1 (k 3%nat)) in
  let h4 := u32 (u32 (rotl32 h4 13 + h1) * 5 + 0x32ac3b17) in
  (h1, h2, h3, h4).

Definition x86_tail (h : Z * Z * Z * Z) (tail : bytes) : Z * Z * Z * Z :=
  let '(h1, h2, h3, h4) := h in
  let k i := tail_word 4 i tail in
  let h4 := xor_mixed (mix32 x86_c4 18 x86_c1) h4 (k 3%nat) in
  let h3 := xor_mixed (mix32 x86_c3 17 x86_c4) h3 (k 2%nat) in
  let h2 := xor_mixed (mix32 x86_c2 16 x86_c3) h2 (k 1%nat) in
  let h1 := xor_mixed (mix32 x86_c1 15 x86_c2) h1 (k 0%nat) in
  (h1, h2, h3, h4).

(** [h1 += h2; h1 += h3; h1 += h4; h2 += h1; h3 += h1; h4 += h1] *)
Definition x86_add (h : Z * Z * Z * Z) : Z * Z * Z * Z :=
  let '(h1, h2, h3, h4) := h in
  let h1 := u32 (u32 (u32 (h1 + h2) + h3) + h4) in
  (h1, u32 (h2 + h1), u32 (h3 + h1), u32 (h4 + h1)).

Definition MurmurHash3_x86_128 (key : bytes) (seed : Z) : list Z :=
  let '(h, tail) := over_blocks x86_round (length key / 16) key (seed, seed, seed, seed) in
  let '(h1, h2, h3, h4) := x86_tail h tail in
  let len := u32 (slen key) in
  let '(h1, h2, h3, h4) := x86_add (Z.lxor h1 len, Z.lxor h2 len, Z.lxor h3 len, Z.lxor h4 len) in
  let '(h1, h2, h3, h4) := x86_add (fmix32 h1, fmix32 h2, fmix32 h3, fmix32 h4) in
  [h1; h2; h3; h4].

(** *** The x64 variant *)

Definition x64_c1 : Z := 0x87c37b91114253d5.
Definition x64_c2 : Z := 0x4cf5ad432745937f.

Definition mix64 (c r c' k : Z) : Z := u64 (rotl64 (u64 (k * c)) r * c').

Definition x64_round (h : Z * Z) (block : bytes) : Z * Z :=
  let '(h1, h2) := h in
  let k i := block_word 8 i block in
  let h1 := Z.lxor h1 (mix64 x64_c1 31 x64_c2 (k 0%nat)) in
  let h1 := u64 (u64 (rotl64 h1 27 + h2) * 5 + 0x52dce729) in
  let h2 := Z.lxor h2 (mix64 x64_c2 33 x64_c1 (k 1%nat)) in
  let h2 := u64 (u64 (rotl64 h2 31 + h1) * 5 + 0x38495ab5) in
  (h1, h2).

Definition x64_tail (h : Z * Z) (tail : bytes) : Z * Z :=
  let '(h1, h2) := h in
  let k i := tail_word 8 i tail in
  let h2 := xor_mixed (mix64 x64_c2 33 x64_c1) h2 (k 1%nat) in
  let h1 := xor_mixed (mix64 x64_c1 31 x64_c2) h1 (k 0%nat) in
  (h1, h2).

(** [h1 += h2; h2 += h1] *)
Definition x64_add (h : Z * Z) : Z * Z :=
  let '(h1, h2) := h in
  let h1 := u64 (h1 + h2) in (h1, u64 (h2 + h1)).

Definition MurmurHash3_x64_128 (key : bytes) (seed : Z) : list Z :=
  let '(h, tail) := over_blocks x64_round (length key / 16) key (seed, seed) in
  let '(h1, h2) := x64_tail h tail in
  let len := u64 (slen key) in
  let '(h1, h2) := x64_add (Z.lxor h1 len, Z.lxor h2 len) in
  let '(h1, h2) := x64_add (fmix64 h1, fmix64 h2) in
  [h1; h2].

End Murmur.

(** ** Lemmas *)

(** The hash is a 32-bit value whatever the key. *)
Lemma fmix32_range h : 0 <= h < 2 ^ 32 -> 0 <= Murmur.fmix32 h < 2 ^ 32.
Proof.
  intros Hh. unfold Murmur.fmix32.
  repeat (apply lxor_u32 || apply shiftr_u32 || apply u32_range || done || lia).
Qed.

Lemma mix_k1_range k : 0 <= Murmur.mix_k1 k < 2 ^ 32.
Proof. apply u32_range. Qed.

Lemma body_range data : forall h, 0 <= h < 2 ^ 32 -> 0 <= Murmur.body data h < 2 ^ 32.
Proof.
  assert (forall n data h, (length data <= n)%nat -> 0 <= h < 2 ^ 32 -> 0 <= Murmur.body data h < 2 ^ 32) as Hn; [|intros; by eapply Hn].
  clear data. induction n as [|n IH]; intros data h Hl Hh.
  { destruct data; simpl in *; [done|lia]. }
  destruct data as [|a [|b [|c [|d data]]]]; simpl in *; try (apply lxor_u32; auto using mix_k1_range); [done|].
  apply IH; [lia|apply u32_range].
Qed.

Lemma MurmurHash3_range key : 0 <= Murmur.MurmurHash3_x86_32 key 0 < 2 ^ 32.
Proof. apply fmix32_range, lxor_u32; [apply body_range; lia|apply u32_range]. Qed.

(** ** No byte of the key is ignored *)

(** Each step of the hash is injective on 32-bit values. *)
Lemma lxor_inj_l a b c : Z.lxor a b = Z.lxor a c -> b = c.
Proof. intros E. apply (f_equal (Z.lxor a)) in E. by rewrite <- !Z.lxor_assoc, Z.lxor_nilpotent, !Z.lxor_0_l in E. Qed.

Lemma lxor_inj_r a b c : Z.lxor b a = Z.lxor c a -> b = c.
Proof. rewrite !(Z.lxor_comm _ a). apply lxor_inj_l. Qed.

Lemma xorshift_inj s g h : 0 < s -> 0 <= g < 2 ^ 32 -> 0 <= h < 2 ^ 32 ->
  Z.lxor g (Z.shiftr g s) = Z.lxor h (Z.shiftr h s) -> g = h.
Proof.
  intros Hs Hg Hh E. apply Z.lxor_eq. set (d := Z.lxor g h).
  assert (Z.shiftr d s = d) as Hd.
  { unfold d. rewrite Z.shiftr_lxor. apply (lxor_inj_l (Z.lxor g (Z.shiftr h s))).
    transitivity (Z.lxor (Z.lxor g (Z.shiftr g s)) (Z.lxor (Z.shiftr h s) (Z.shiftr h s))); apply Z.bits_inj'; intros n Hn.
    - rewrite !Z.lxor_spec. by destruct (Z.testbit g n), (Z.testbit (Z.shiftr g s) n), (Z.testbit (Z.shiftr h s) n).
    - rewrite E, !Z.lxor_spec. apply (f_equal (fun z => Z.testbit z n)) in E. rewrite !Z.lxor_spec in E.
      by destruct (Z.testbit g n), (Z.testbit (Z.shiftr g s) n), (Z.testbit (Z.shiftr h s) n), (Z.testbit h n). }
  assert (0 <= d) as Hpos by (unfold d; apply lxor_u32; done).
  rewrite Z.shiftr_div_pow2 in Hd by lia. assert (1 < 2 ^ s) by (apply Z.pow_gt_1; lia).
  destruct (Z.eq_dec d 0) as [|Hne]; [done|]. pose proof (Z.div_lt d (2 ^ s)). lia.
Qed.

Lemma mul_inj c c' g h : u32 (c * c') = 1 -> 0 <= g < 2 ^ 32 -> 0 <= h < 2 ^ 32 -> u32 (g * c) = u32 (h * c) -> g = h.
Proof.
  intros Hc Hg Hh E.
  assert (forall x, 0 <= x < 2 ^ 32 -> u32 (u32 (x * c) * c') = x) as Hinv; [|by rewrite <- (Hinv g), <- (Hinv h), E].
  intros x Hx. unfold u32 in *. rewrite Zmult_mod_idemp_l, <- Z.mul_assoc, <- Zmult_mod_idemp_r, Hc, Z.mul_1_r. by apply Z.mod_small.
Qed.

Lemma land_low p q r : 0 <= r -> 0 <= q < 2 ^ r -> Z.land (p * 2 ^ r) q = 0.
Proof.
  intros Hr Hq. apply Z.bits_inj'. intros n Hn. rewrite Z.land_spec, Z.bits_0. destruct (Z.lt_ge_cases n r).
  - by rewrite Z.mul_pow2_bits_low.
  - destruct (Z.eq_dec q 0) as [->|]; [by rewrite Z.bits_0, andb_false_r|].
    rewrite (Z.bits_above_log2 q n), andb_false_r; [done|lia|]. apply Z.log2_lt_pow2; [lia|]. eapply Z.lt_le_trans; [apply Hq|]. apply Z.pow_le_mono_r; lia.
Qed.

Lemma rotl32_sum x r : 0 < r < 32 -> 0 <= x < 2 ^ 32 ->
  Murmur.rotl32 x r = (x mod 2 ^ (32 - r)) * 2 ^ r + x / 2 ^ (32 - r).
Proof.
  intros Hr Hx. unfold Murmur.rotl32. rewrite Z.shiftr_div_pow2, Z.shiftl_mul_pow2 by lia.
  assert (2 ^ 32 = 2 ^ (32 - r) * 2 ^ r) as E32 by (rewrite <- Z.pow_add_r by lia; f_equal; lia).
  assert (0 < 2 ^ r) by lia. assert (0 < 2 ^ (32 - r)) by lia.
  unfold u32. rewrite E32, Z.mul_mod_distr_r by lia. set (p := x mod _). set (q := x / _).
  assert (0 <= q < 2 ^ r) as Hq.
  { unfold q. split; [apply Z.div_pos; lia|]. apply Z.div_lt_upper_bound; [lia|]. rewrite <- E32. lia. }
  pose proof (Z.add_lor_land (p * 2 ^ r) q) as Hadd. rewrite land_low in Hadd by (done || lia). lia.
Qed.

Lemma rotl32_range x r : 0 <= x < 2 ^ 32 -> 0 < r < 32 -> 0 <= Murmur.rotl32 x r < 2 ^ 32.
Proof.
  intros Hx Hr. rewrite rotl32_sum by done.
  assert (2 ^ 32 = 2 ^ (32 - r) * 2 ^ r) as E32 by (rewrite <- Z.pow_add_r by lia; f_equal; lia).
  assert (0 < 2 ^ r) by lia. assert (0 < 2 ^ (32 - r)) by lia. pose proof (Z.mod_pos_bound x (2 ^ (32 - r)) ltac:(lia)).
  assert (0 <= x / 2 ^ (32 - r) < 2 ^ r) by (split; [apply Z.div_pos; lia|apply Z.div_lt_upper_bound; [lia|rewrite <- E32; lia]]). nia.
Qed.

Lemma rotl32_inj r g h : 0 < r < 32 -> 0 <= g < 2 ^ 32 -> 0 <= h < 2 ^ 32 -> Murmur.rotl32 g r = Murmur.rotl32 h r -> g = h.
Proof.
  intros Hr Hg Hh. rewrite !rotl32_sum by done. set (n := 2 ^ (32 - r)). set (m := 2 ^ r). intros E.
  assert (2 ^ 32 = n * m) as E32 by (unfold n, m; rewrite <- Z.pow_add_r by lia; f_equal; lia).
  assert (0 < n) by (unfold n; lia). assert (0 < m) by (unfold m; lia).
  assert (forall x, 0 <= x < 2 ^ 32 -> 0 <= x / n < m) as Hq by (intros x Hx; split; [apply Z.div_pos; lia|apply Z.div_lt_upper_bound; [lia|rewrite <- E32; lia]]).
  destruct (Z.div_mod_unique m (g mod n) (h mod n) (g / n) (h / n)) as [E1 E2]; [left; by apply Hq|left; by apply Hq|lia|].
  rewrite (Z.div_mod g n), (Z.div_mod h n) by lia. by rewrite E1, E2.
Qed.

Lemma mix_k1_inj g h : 0 <= g < 2 ^ 32 -> 0 <= h < 2 ^ 32 -> Murmur.mix_k1 g = Murmur.mix_k1 h -> g = h.
Proof.
  intros Hg Hh E. unfold Murmur.mix_k1 in E. pose proof (u32_range (g * Murmur.c1)). pose proof (u32_range (h * Murmur.c1)).
  apply (mul_inj Murmur.c2 0x56ed309b) in E; [|by vm_compute|apply rotl32_range; (done || lia)..].
  apply rotl32_inj in E; [|lia|done..]. by apply (mul_inj Murmur.c1 0xdee13bb1) in E; [|by vm_compute|..].
Qed.

Lemma fmix32_inj g h : 0 <= g < 2 ^ 32 -> 0 <= h < 2 ^ 32 -> Murmur.fmix32 g = Murmur.fmix32 h -> g = h.
Proof.
  intros Hg Hh E. unfold Murmur.fmix32 in E.
  apply xorshift_inj in E; [|lia|apply u32_range..].
  apply (mul_inj 0xc2b2ae35 0x7ed1b41d) in E; [|by vm_compute|repeat (apply lxor_u32 || apply shiftr_u32 || apply u32_range || lia)..].
  apply xorshift_inj in E; [|lia|apply u32_range..].
  apply (mul_inj 0x85ebca6b 0xa5cb9243) in E; [|by vm_compute|repeat (apply lxor_u32 || apply shiftr_u32 || done || lia)..].
  apply xorshift_inj in E; [done|lia|done..].
Qed.

Lemma char_range c : 0 <= Murmur.byte c < 256.
Proof. unfold Murmur.byte. pose proof (N_ascii_bounded c). lia. Qed.

Lemma byte_inj a b : Murmur.byte a = Murmur.byte b -> a = b.
Proof. intros E%N2Z.inj. by rewrite <- (ascii_N_embedding a), E, ascii_N_embedding. Qed.

(** The word of a group of up to four bytes. *)
Definition group_word (blk : bytes) : Z := foldr (fun c acc => Murmur.byte c + 256 * acc) 0 blk.

Lemma group_word_range blk : 0 <= group_word blk < 256 ^ slen blk.
Proof.
  induction blk as [|c blk IH]; [done|]. unfold slen in *. cbn [group_word foldr length]. fold (group_word blk).
  rewrite Nat2Z.inj_succ, Z.pow_succ_r by lia. pose proof (char_range c). lia.
Qed.

Lemma group_word_inj blk : forall blk', length blk = length blk' -> group_word blk = group_word blk' -> blk = blk'.
Proof.
  induction blk as [|c blk IH]; intros [|c' blk'] Hl E; try done. cbn [group_word foldr] in E. fold (group_word blk) (group_word blk') in E.
  injection Hl as Hl. pose proof (char_range c). pose proof (char_range c').
  rewrite (byte_inj c c'), (IH blk' Hl) by lia. done.
Qed.

Lemma lxor_shiftl_add p q r : 0 <= r -> 0 <= q < 2 ^ r -> Z.lxor (Z.shiftl p r) q = p * 2 ^ r + q.
Proof. intros Hr Hq. rewrite Z.shiftl_mul_pow2 by done. symmetry. by apply Z.add_nocarry_lxor, land_low. Qed.

(** What the body does with a group: whole in front of others, or at the end. *)
Lemma body_group blk q h : length blk = 4%nat \/ (0 < length blk < 4)%nat /\ q = [] ->
  Murmur.body (blk ++ q) h =
    if decide (length blk = 4%nat) then Murmur.body q (u32 (Murmur.rotl32 (Z.lxor h (Murmur.mix_k1 (group_word blk))) 13 * 5 + 0xe6546b64))
    else Z.lxor h (Murmur.mix_k1 (group_word blk)).
Proof.
  intros Hl. destruct blk as [|a [|b [|c [|d [|]]]]]; cbn [length] in Hl; try lia; cbn [app length].
  - destruct Hl as [?|[_ ->]]; [done|]. rewrite decide_False by done. cbn. do 2 f_equal. lia.
  - destruct Hl as [?|[_ ->]]; [done|]. rewrite decide_False by done. cbn [Murmur.body group_word foldr].
    pose proof (char_range a). rewrite lxor_shiftl_add by lia. do 2 f_equal. lia.
  - destruct Hl as [?|[_ ->]]; [done|]. rewrite decide_False by done. cbn [Murmur.body group_word foldr].
    pose proof (char_range a). pose proof (char_range b).
    rewrite (Z.lxor_comm (Z.lxor _ _)), <- Z.lxor_assoc, (Z.lxor_comm (Murmur.byte a)), Z.lxor_assoc, (Z.lxor_comm (Murmur.byte a)).
    rewrite (lxor_shiftl_add (Murmur.byte b)), lxor_shiftl_add by lia. do 2 f_equal. lia.
  - rewrite decide_True by done. cbn [Murmur.body group_word foldr]. do 4 f_equal. unfold Murmur.getblock32.
    rewrite !Z.shiftl_mul_pow2 by lia. do 3 f_equal. lia.
Qed.

Lemma group_mixed_inj blk blk' h : length blk = length blk' -> (length blk <= 4)%nat -> 
  Z.lxor h (Murmur.mix_k1 (group_word blk)) = Z.lxor h (Murmur.mix_k1 (group_word blk')) -> blk = blk'.
Proof.
  intros Hl Hle E%lxor_inj_l. pose proof (group_word_range blk). pose proof (group_word_range blk').
  assert (256 ^ slen blk <= 2 ^ 32) by (change (2 ^ 32) with (256 ^ 4); apply Z.pow_le_mono_r; unfold slen; lia).
  assert (256 ^ slen blk' <= 2 ^ 32) by (change (2 ^ 32) with (256 ^ 4); apply Z.pow_le_mono_r; unfold slen; lia).
  apply mix_k1_inj in E; [by apply group_word_inj|lia..].
Qed.

Lemma round_inj g h : 0 <= g < 2 ^ 32 -> 0 <= h < 2 ^ 32 ->
  u32 (Murmur.rotl32 g 13 * 5 + 0xe6546b64) = u32 (Murmur.rotl32 h 13 * 5 + 0xe6546b64) -> g = h.
Proof.
  intros Hg Hh E. apply (rotl32_inj 13); [lia|done..|].
  apply (mul_inj 5 0xcccccccd); [by vm_compute|apply rotl32_range; (done || lia)..|]. unfold u32 in *.
  apply (f_equal (fun z => (z - 0xe6546b64) mod 2 ^ 32)) in E. rewrite !Zminus_mod_idemp_l in E.
  by rewrite !Z.add_simpl_r in E.
Qed.

Lemma round_range h k : 0 <= h < 2 ^ 32 -> 0 <= Z.lxor h (Murmur.mix_k1 k) < 2 ^ 32.
Proof. intros Hh. apply lxor_u32; [done|apply mix_k1_range]. Qed.

(** Whatever comes behind keeps different hashes apart. *)
Lemma body_inj n : forall data g h, (length data <= n)%nat -> 0 <= g < 2 ^ 32 -> 0 <= h < 2 ^ 32 ->
  Murmur.body data g = Murmur.body data h -> g = h.
Proof.
  induction n as [|n IH]; intros data g h Hn Hg Hh E; [by destruct data; [|cbn in Hn; lia]|].
  destruct data as [|a [|b [|c [|d data]]]]; [done|by apply lxor_inj_r in E..|].
  cbn [Murmur.body] in E. apply IH in E; [|cbn in Hn; lia|apply u32_range..].
  apply round_inj in E; [|by apply round_range..]. by apply lxor_inj_r in E.
Qed.

Lemma body_prefix n : forall p h, length p = (4 * n)%nat -> 0 <= h < 2 ^ 32 ->
  exists h', 0 <= h' < 2 ^ 32 /\ forall x, Murmur.body (p ++ x) h = Murmur.body x h'.
Proof.
  induction n as [|n IH]; intros p h Hp Hh; [destruct p; [|done]; by exists h|].
  destruct p as [|a [|b [|c [|d p]]]]; cbn [length] in Hp; try lia. cbn [app Murmur.body].
  apply IH; [lia|apply u32_range].
Qed.

(** Keys that differ within one group of four bytes, counted from the front, have different hashes. *)
Lemma murmur_sensitive p blk blk' rest : (length p mod 4 = 0)%nat -> length blk = length blk' -> blk <> blk' ->
  length blk = 4%nat \/ (length blk < 4)%nat /\ rest = [] ->
  Murmur.MurmurHash3_x86_32 (p ++ blk ++ rest) 0 <> Murmur.MurmurHash3_x86_32 (p ++ blk' ++ rest) 0.
Proof.
  intros Hp Hl Hne Hend E. unfold Murmur.MurmurHash3_x86_32 in E.
  assert (slen (p ++ blk ++ rest) = slen (p ++ blk' ++ rest)) as Es by (rewrite !slen_app; unfold slen; lia).
  apply fmix32_inj in E; [|apply lxor_u32; [apply body_range; lia|apply u32_range]..]. rewrite <- Es in E.
  rewrite !(Z.lxor_comm _ (u32 _)) in E. apply lxor_inj_l in E.
  destruct (body_prefix (length p / 4) p 0) as (h & Hh & Hx); [pose proof (Nat.div_mod_eq (length p) 4); lia|lia|].
  rewrite !Hx in E. assert (0 < length blk)%nat as Hpos by (destruct blk, blk'; try done; cbn; lia).
  rewrite (body_group blk), (body_group blk') in E by (rewrite <- ?Hl; destruct Hend as [?|[? ->]]; [by left|right; split; [lia|done]]).
  rewrite <- Hl in E. destruct (decide (length blk = 4%nat)).
  - apply (body_inj (length rest)) in E; [|lia|apply u32_range..]. apply round_inj in E; [|by apply round_range..].
    apply Hne, (group_mixed_inj blk blk' h); [done|lia|done].
  - apply Hne, (group_mixed_inj blk blk' h); [done|lia|done].
Qed.

(** Published test vectors of the algorithm (seed 0). *)
Example murmur_vectors :
  Murmur.MurmurHash3_x86_32 (str "test") 0 = 0xba6bd213 /\
  Murmur.MurmurHash3_x86_32 (str "Hello, world!") 0 = 0xc0363e43 /\
  Murmur.MurmurHash3_x86_32 [] 0 = 0.
Proof. by vm_compute. Qed.

Example murmur_128_vectors :
  Murmur.MurmurHash3_x86_128 (str "I will not buy this tobacconist's, it is scratched.") 0 = [0x9b5b7ba2; 0xef3f7866; 0x889adeaf; 0x00f3f98e] /\
  Murmur.MurmurHash3_x64_128 (str "I will not buy this tobacconist's, it is scratched.") 0 = [0xd30654abbd8227e3; 0x67d73523f0079673] /\
  Murmur.MurmurHash3_x64_128 (str "hello") 0 = [0xcbd8a7b341bd9b02; 0x5b1e906a48ae1d19] /\
  Murmur.MurmurHash3_x64_128 [] 0 = [0; 0].
Proof. by vm_compute. Qed.

(** The words of the 128-bit hashes are of their width. *)
Lemma MurmurHash3_x86_128_range key seed : Forall (fun h => 0 <= h < 2 ^ 32) (Murmur.MurmurHash3_x86_128 key seed).
Proof.
  unfold Murmur.MurmurHash3_x86_128, Murmur.x86_add. destruct (Murmur.over_blocks _ _ _ _) as [h t].
  destruct (Murmur.x86_tail h t) as [[[h1 h2] h3] h4]. repeat constructor; apply u32_range.
Qed.

Lemma MurmurHash3_x64_128_range key seed : Forall (fun h => 0 <= h < 2 ^ 64) (Murmur.MurmurHash3_x64_128 key seed).
Proof.
  unfold Murmur.MurmurHash3_x64_128, Murmur.x64_add. destruct (Murmur.over_blocks _ _ _ _) as [h t].
  destruct (Murmur.x64_tail h t) as [h1 h2]. repeat constructor; apply u64_range.
Qed.
