(* ===== verification/Crc32c.v ===== *)
(** * Checksums (src/outside/crc32c.c)

    The CRC-32C of a stripe's chunks, computed in three ways: bit by bit (the definition of the code),
    eight bytes at a time from tables, and by the processor's instruction on three parts of the data at
    once, whose results are combined by tables that stand for appending zeros.  Integers are 32 or 64
    bits wide; a buffer is its bytes and its address, which the code looks at for alignment. *)

From S2P Require Import Prelude.

(** The instructions [crc32b] and [crc32q]. *)
Class CrcInstructions := {
  crc32b : Z -> Z -> Z;
  crc32q : Z -> Z -> Z;
}.

Module Crc32c.

Definition POLY : Z := 0x82f63b78.

Definition byte (c : ascii) : Z := Z.of_N (N_of_ascii c).

(** The eight bytes at [next] as a [uint64_t]. *)
Fixpoint little_endian (l : bytes) : Z :=
  match l with [] => 0 | c :: l' => byte c + Z.shiftl (little_endian l') 8 end.
Definition load64 (next : bytes) : Z := little_endian (take 8 next).

(** ** In software *)

(** [crc & 1 ? (crc >> 1) ^ POLY : crc >> 1] *)
Definition shift_bit (crc : Z) : Z := if Z.testbit crc 0 then Z.lxor (Z.shiftr crc 1) POLY else Z.shiftr crc 1.

(** A table is indexed with eight bits. *)
Definition entry (row : list Z) (i : Z) : Z := nth (Z.to_nat i) row 0.

Definition first_row : list Z := map (fun n => Nat.iter 8 shift_bit (Z.of_nat n)) (seq 0 256).
Definition next_row (row : list Z) : list Z :=
  map (fun crc => Z.lxor (entry first_row (Z.land crc 0xff)) (Z.shiftr crc 8)) row.
Fixpoint rows (k : nat) (row : list Z) : list (list Z) :=
  match k with O => [] | S k' => row :: rows k' (next_row row) end.
Definition crc32c_init_sw : list (list Z) := rows 8 first_row.

Definition sw_byte (table : list (list Z)) (crc : Z) (c : ascii) : Z :=
  Z.lxor (entry (nth 0 table []) (Z.land (Z.lxor crc (byte c)) 0xff)) (Z.shiftr crc 8).

(** The bytes up to an eight-byte boundary. *)
Fixpoint align (step : Z -> ascii -> Z) (addr : Z) (crc : Z) (next : bytes) : Z * Z * bytes :=
  match next with
  | c :: next' => if negb (Z.land addr 7 =? 0) then align step (addr + 1) (step crc c) next' else (addr, crc, next)
  | [] => (addr, crc, next)
  end.

Definition sw_word (table : list (list Z)) (crc word : Z) : Z :=
  let crc := Z.lxor crc word in
  Z.lxor (Z.lxor (Z.lxor (Z.lxor (Z.lxor (Z.lxor (Z.lxor
    (entry (nth 7 table []) (Z.land crc 0xff))
    (entry (nth 6 table []) (Z.land (Z.shiftr crc 8) 0xff)))
    (entry (nth 5 table []) (Z.land (Z.shiftr crc 16) 0xff)))
    (entry (nth 4 table []) (Z.land (Z.shiftr crc 24) 0xff)))
    (entry (nth 3 table []) (Z.land (Z.shiftr crc 32) 0xff)))
    (entry (nth 2 table []) (Z.land (Z.shiftr crc 40) 0xff)))
    (entry (nth 1 table []) (Z.land (Z.shiftr crc 48) 0xff)))
    (entry (nth 0 table []) (Z.shiftr crc 56)).

(** Whole words; [n] bounds their number. *)
Fixpoint words (step : Z -> Z -> Z) (n : nat) (crc : Z) (next : bytes) : Z * bytes :=
  match n with
  | S n' => if bool_decide (8 <= length next)%nat then words step n' (step crc (load64 next)) (drop 8 next) else (crc, next)
  | O => (crc, next)
  end.

Definition crc32c_sw (crci addr : Z) (buf : bytes) : Z :=
  let table := crc32c_init_sw in
  let crc := Z.lxor crci 0xffffffff in
  let '(_, crc, next) := align (sw_byte table) addr crc buf in
  let '(crc, next) := words (sw_word table) (length next) crc next in
  let crc := fold_left (sw_byte table) next crc in
  Z.lxor (u32 crc) 0xffffffff.

(** ** Appending zeros *)

(** A matrix is the list of its columns; reading past its end is undefined. *)
Fixpoint times_loop (mat : list Z) (vec sum : Z) : outcome Z :=
  if vec =? 0 then Ret sum else
  match mat with
  | [] => UB
  | row :: mat' => times_loop mat' (Z.shiftr vec 1) (if Z.testbit vec 0 then Z.lxor sum row else sum)
  end.
Definition gf2_matrix_times (mat : list Z) (vec : Z) : outcome Z := times_loop mat vec 0.
Definition gf2_matrix_square (mat : list Z) : outcome (list Z) := mapM (gf2_matrix_times mat) mat.

(** The operator for one zero bit. *)
Definition one_bit : list Z := POLY :: map (fun n => Z.shiftl 1 (Z.of_nat n)) (seq 0 31).

(** The doubling loop; [len] has at most 64 bits. *)
Fixpoint zeros_loop (n : nat) (odd : list Z) (len : Z) : outcome (list Z) :=
  match n with
  | O => OutOfFuel
  | S n' =>
      even ← gf2_matrix_square odd;
      let len := Z.shiftr len 1 in
      if len =? 0 then Ret even else
      odd ← gf2_matrix_square even;
      let len := Z.shiftr len 1 in
      if len =? 0 then Ret odd else zeros_loop n' odd len
  end.
Definition crc32c_zeros_op (len : Z) : outcome (list Z) :=
  even ← gf2_matrix_square one_bit;
  odd ← gf2_matrix_square even;
  zeros_loop 32 odd len.

Definition crc32c_zeros (len : Z) : outcome (list (list Z)) :=
  op ← crc32c_zeros_op len;
  mapM (fun shift => mapM (fun n => gf2_matrix_times op (Z.shiftl (Z.of_nat n) shift)) (seq 0 256)) [0; 8; 16; 24].

Definition crc32c_shift (zeros : list (list Z)) (crc : Z) : Z :=
  Z.lxor (Z.lxor (Z.lxor
    (entry (nth 0 zeros []) (Z.land crc 0xff))
    (entry (nth 1 zeros []) (Z.land (Z.shiftr crc 8) 0xff)))
    (entry (nth 2 zeros []) (Z.land (Z.shiftr crc 16) 0xff)))
    (entry (nth 3 zeros []) (Z.shiftr crc 24)).

(** ** By the processor *)

Definition LONG : nat := Z.to_nat 8192.
Definition SHORT : nat := Z.to_nat 256.

Section Hardware.
Context `{CrcInstructions}.

Definition hw_byte (crc : Z) (c : ascii) : Z := crc32b crc (byte c).

(** Three parts of the data, [size] bytes apart. *)
Fixpoint three_words (n : nat) (size : nat) (next : bytes) (crc0 crc1 crc2 : Z) : Z * Z * Z :=
  match n with
  | O => (crc0, crc1, crc2)
  | S n' => three_words n' size (drop 8 next) (crc32q crc0 (load64 next)) (crc32q crc1 (load64 (drop size next)))
              (crc32q crc2 (load64 (drop (2 * size) next)))
  end.

Fixpoint three_parts (n : nat) (size : nat) (zeros : list (list Z)) (crc0 : Z) (next : bytes) : Z * bytes :=
  match n with
  | O => (crc0, next)
  | S n' =>
      if bool_decide (size * 3 <= length next)%nat then
        let '(crc0, crc1, crc2) := three_words (size / 8) size next crc0 0 0 in
        let crc0 := Z.lxor (crc32c_shift zeros crc0) crc1 in
        let crc0 := Z.lxor (crc32c_shift zeros crc0) crc2 in
        three_parts n' size zeros crc0 (drop (size * 3) next)
      else (crc0, next)
  end.

Definition crc32c_hw (crc addr : Z) (buf : bytes) : outcome Z :=
  crc32c_long ← crc32c_zeros (Z.of_nat LONG);
  crc32c_short ← crc32c_zeros (Z.of_nat SHORT);
  let crc0 := Z.lxor crc 0xffffffff in
  let '(_, crc0, next) := align hw_byte addr crc0 buf in
  let '(crc0, next) := three_parts (length next) LONG crc32c_long crc0 next in
  let '(crc0, next) := three_parts (length next) SHORT crc32c_short crc0 next in
  let '(crc0, next) := words crc32q (length next) crc0 next in
  let crc0 := fold_left hw_byte next crc0 in
  Ret (Z.lxor (u32 crc0) 0xffffffff).

(** [SSE42(sse42)] tells whether the processor has the instructions. *)
Definition crc32c (sse42 : bool) (crc addr : Z) (buf : bytes) : outcome Z :=
  if sse42 then crc32c_hw crc addr buf else Ret (crc32c_sw crc addr buf).

End Hardware.
End Crc32c.

(** ** Lemmas *)

Import Crc32c.

(** *** The shift register is linear *)

Lemma shift_bit_alt x : shift_bit x = Z.lxor (Z.shiftr x 1) (if Z.testbit x 0 then POLY else 0).
Proof. unfold shift_bit. destruct (Z.testbit x 0); [done|]. by rewrite Z.lxor_0_r. Qed.

Lemma shift_bit_lxor x y : shift_bit (Z.lxor x y) = Z.lxor (shift_bit x) (shift_bit y).
Proof.
  rewrite !shift_bit_alt, Z.shiftr_lxor, Z.lxor_spec.
  assert (forall a b c d, Z.lxor (Z.lxor a b) (Z.lxor c d) = Z.lxor (Z.lxor a c) (Z.lxor b d)) as Hswap.
  { intros. rewrite !Z.lxor_assoc. f_equal. rewrite <- !Z.lxor_assoc. f_equal. apply Z.lxor_comm. }
  rewrite Hswap. f_equal. by destruct (Z.testbit x 0), (Z.testbit y 0).
Qed.

Lemma shift_bit_range x : 0 <= x < 2 ^ 32 -> 0 <= shift_bit x < 2 ^ 32.
Proof.
  intros Hx. rewrite shift_bit_alt. apply lxor_u32; [by apply shiftr_u32|]. by destruct (Z.testbit x 0).
Qed.

(** Shifting [n] bits. *)
Abbreviation shift n := (Nat.iter n shift_bit) (only parsing).

Lemma shift_lxor n x y : shift n (Z.lxor x y) = Z.lxor (shift n x) (shift n y).
Proof. induction n as [|n IH]; [done|]. rewrite !Nat.iter_succ. by rewrite IH, shift_bit_lxor. Qed.

Lemma shift_range n x : 0 <= x < 2 ^ 32 -> 0 <= shift n x < 2 ^ 32.
Proof. intros Hx. induction n as [|n IH]; [done|]. by apply shift_bit_range. Qed.

Lemma shift_0 n : shift n 0 = 0.
Proof. induction n as [|n IH]; [done|]. rewrite Nat.iter_succ. by rewrite IH. Qed.

Lemma shift_add n m x : shift (n + m) x = shift n (shift m x).
Proof. apply Nat.iter_add. Qed.

Lemma shift_up n y : shift n (Z.shiftl y (Z.of_nat n)) = y.
Proof.
  induction n as [|n IH]; [by rewrite Z.shiftl_0_r|]. rewrite Nat.iter_succ_r.
  assert (shift_bit (Z.shiftl y (Z.of_nat (S n))) = Z.shiftl y (Z.of_nat n)) as ->; [|done].
  rewrite shift_bit_alt, Z.shiftl_spec_low, Z.lxor_0_r by lia. rewrite Z.shiftr_shiftl_l by lia. f_equal. lia.
Qed.

(** The low byte of a word. *)
Lemma low_byte x : x = Z.lxor (Z.land x 255) (Z.shiftl (Z.shiftr x 8) 8).
Proof.
  apply Z.bits_inj'. intros n Hn. rewrite Z.lxor_spec, Z.land_spec. change 255 with (Z.ones 8).
  destruct (Z.lt_ge_cases n 8).
  - rewrite Z.ones_spec_low, Z.shiftl_spec_low by lia. by rewrite andb_true_r, xorb_false_r.
  - rewrite Z.ones_spec_high, Z.shiftl_spec, Z.shiftr_spec by lia. rewrite andb_false_r. cbn. f_equal. lia.
Qed.

Lemma shift_byte k x : shift (8 * S k) x = Z.lxor (shift (8 * S k) (Z.land x 255)) (shift (8 * k) (Z.shiftr x 8)).
Proof.
  rewrite (low_byte x) at 1. rewrite shift_lxor. f_equal.
  replace (8 * S k)%nat with (8 * k + 8)%nat by lia. rewrite shift_add. f_equal. apply (shift_up 8).
Qed.

Lemma land_byte x : 0 <= Z.land x 255 < 256.
Proof. change 255 with (Z.ones 8). rewrite Z.land_ones by lia. apply Z.mod_pos_bound. lia. Qed.

(** *** The tables *)

Lemma entry_map (f : nat -> Z) i : 0 <= i < 256 -> entry (map f (seq 0 256)) i = f (Z.to_nat i).
Proof.
  intros Hi. unfold entry. rewrite (nth_indep _ 0 (f 0%nat)) by (rewrite length_map, length_seq; lia).
  rewrite map_nth, seq_nth by lia. done.
Qed.

Definition row_of (n : nat) : list Z := map (fun i => shift n (Z.of_nat i)) (seq 0 256).

Lemma entry_row n i : 0 <= i < 256 -> entry (row_of n) i = shift n i.
Proof. intros Hi. unfold row_of. rewrite entry_map, Z2Nat.id by lia. done. Qed.

Lemma next_row_of k : next_row (row_of (8 * k)) = row_of (8 * S k).
Proof.
  unfold next_row, row_of at 1. rewrite map_map. unfold row_of. apply map_ext. intros i. set (x := shift (8 * k) (Z.of_nat i)).
  assert (first_row = row_of 8) as -> by done. rewrite entry_row by apply land_byte.
  replace (8 * S k)%nat with (8 * 1 + 8 * k)%nat by lia. rewrite shift_add. fold x. by rewrite (shift_byte 0 x).
Qed.

Lemma table_row j : (j < 8)%nat -> nth j crc32c_init_sw [] = row_of (8 * S j).
Proof.
  intros Hj. unfold crc32c_init_sw.
  assert (forall n k j, (j < n)%nat -> nth j (rows n (row_of (8 * k))) [] = row_of (8 * (j + k))) as Hrows.
  { clear. induction n as [|n IH]; intros k j Hj; [lia|]. cbn [rows]. destruct j as [|j]; [done|]. cbn [nth].
    rewrite next_row_of, IH by lia. do 2 f_equal. lia. }
  change first_row with (row_of (8 * 1)). rewrite Hrows by done. do 2 f_equal. lia.
Qed.

(** *** The definition of the code: bit by bit *)

Definition crc_byte (crc : Z) (c : ascii) : Z := shift 8 (Z.lxor crc (byte c)).
Definition crc_bytes (crc : Z) (l : bytes) : Z := fold_left crc_byte l crc.
Definition crc_reference (crc : Z) (buf : bytes) : Z := Z.lxor (crc_bytes (Z.lxor crc 0xffffffff) buf) 0xffffffff.

Lemma byte_range c : 0 <= byte c < 256.
Proof. unfold byte. pose proof (N_ascii_bounded c). lia. Qed.

Lemma byte_range32 c : 0 <= byte c < 2 ^ 32.
Proof. pose proof (byte_range c). lia. Qed.

Lemma crc_byte_range crc c : 0 <= crc < 2 ^ 32 -> 0 <= crc_byte crc c < 2 ^ 32.
Proof. intros Hc. apply shift_range, lxor_u32; [done|apply byte_range32]. Qed.

Lemma crc_bytes_range l : forall crc, 0 <= crc < 2 ^ 32 -> 0 <= crc_bytes crc l < 2 ^ 32.
Proof. induction l as [|c l IH]; intros crc Hc; [done|]. by apply IH, crc_byte_range. Qed.

Lemma crc_bytes_app crc l l' : crc_bytes crc (l ++ l') = crc_bytes (crc_bytes crc l) l'.
Proof. apply fold_left_app. Qed.

Lemma crc_bytes_lxor l : forall c d, crc_bytes (Z.lxor c d) l = Z.lxor (shift (8 * length l) c) (crc_bytes d l).
Proof.
  induction l as [|x l IH]; intros c d; [done|]. cbn [length]. replace (8 * S (length l))%nat with (8 * length l + 8)%nat by lia.
  unfold crc_bytes in *. cbn [fold_left]. rewrite shift_add. unfold crc_byte at 2 4. rewrite Z.lxor_assoc, shift_lxor. apply IH.
Qed.

Lemma little_endian_cons c l : little_endian (c :: l) = Z.lxor (byte c) (Z.shiftl (little_endian l) 8).
Proof.
  cbn [little_endian]. apply Z.add_nocarry_lxor. apply Z.bits_inj'. intros n Hn. rewrite Z.land_spec, Z.bits_0.
  destruct (Z.lt_ge_cases n 8); [rewrite Z.shiftl_spec_low by lia; apply andb_false_r|].
  pose proof (byte_range c) as Hb. apply andb_false_iff. left. rewrite <- (Z.mod_small (byte c) (2 ^ 8)) by lia.
  by apply Z.mod_pow2_bits_high.
Qed.

Lemma little_endian_range l : 0 <= little_endian l < 2 ^ (8 * slen l).
Proof.
  induction l as [|c l IH]; [done|]. cbn [little_endian]. rewrite Z.shiftl_mul_pow2 by lia. pose proof (byte_range c).
  unfold slen in *. cbn [length]. replace (8 * Z.of_nat (S (length l))) with (8 + 8 * Z.of_nat (length l)) by lia.
  rewrite Z.pow_add_r by lia. lia.
Qed.

(** Whole words are the bytes one after the other. *)
Lemma crc_word l : forall crc, crc_bytes crc l = shift (8 * length l) (Z.lxor crc (little_endian l)).
Proof.
  induction l as [|c l IH]; intros crc; [by cbn; rewrite Z.lxor_0_r|]. rewrite little_endian_cons. cbn [length].
  replace (8 * S (length l))%nat with (8 * length l + 8)%nat by lia. rewrite shift_add, <- Z.lxor_assoc, (shift_lxor 8).
  change (Z.shiftl (little_endian l) 8) with (Z.shiftl (little_endian l) (Z.of_nat 8)). rewrite (shift_up 8). apply IH.
Qed.

(** *** The loops over the data *)

Definition step_ok (step : Z -> ascii -> Z) : Prop := forall crc c, 0 <= crc < 2 ^ 32 -> step crc c = crc_byte crc c.
Definition word_ok (step : Z -> Z -> Z) : Prop :=
  forall crc l, 0 <= crc < 2 ^ 32 -> length l = 8%nat -> step crc (little_endian l) = crc_bytes crc l.

Lemma fold_step step l : step_ok step -> forall crc, 0 <= crc < 2 ^ 32 -> fold_left step l crc = crc_bytes crc l.
Proof.
  intros Hs. induction l as [|c l IH]; intros crc Hc; [done|]. unfold crc_bytes. cbn [fold_left]. rewrite Hs by done.
  by apply IH, crc_byte_range.
Qed.

Lemma align_spec step next : step_ok step -> forall addr crc, 0 <= crc < 2 ^ 32 ->
  exists addr' pre rest, next = pre ++ rest /\ align step addr crc next = (addr', crc_bytes crc pre, rest).
Proof.
  intros Hs. induction next as [|c next IH]; intros addr crc Hc; cbn [align].
  - by exists addr, [], [].
  - destruct (negb _); [|by exists addr, [], (c :: next)]. rewrite Hs by done.
    destruct (IH (addr + 1) (crc_byte crc c)) as (addr' & pre & rest & -> & ->); [by apply crc_byte_range|].
    by exists addr', (c :: pre), rest.
Qed.

Lemma words_spec step n : word_ok step -> forall crc next, 0 <= crc < 2 ^ 32 ->
  exists pre rest, next = pre ++ rest /\ words step n crc next = (crc_bytes crc pre, rest).
Proof.
  intros Hs. induction n as [|n IH]; intros crc next Hc; cbn [words]; [by exists [], next|].
  case_bool_decide as Hlen; [|by exists [], next]. unfold load64.
  rewrite Hs by (done || (rewrite length_take; lia)).
  destruct (IH (crc_bytes crc (take 8 next)) (drop 8 next)) as (pre & rest & E & ->); [by apply crc_bytes_range|].
  exists (take 8 next ++ pre), rest. rewrite <- app_assoc, <- E, take_drop. by rewrite crc_bytes_app.
Qed.

(** *** In software *)

Lemma sw_byte_ok : step_ok (sw_byte crc32c_init_sw).
Proof.
  intros crc c Hc. unfold sw_byte, crc_byte. rewrite table_row by lia. change 0xff with 255.
  rewrite entry_row by apply land_byte. transitivity (shift (8 * 1) (Z.lxor crc (byte c))); [|done].
  rewrite (shift_byte 0 (Z.lxor crc (byte c))). f_equal. change (shift (8 * 0) ?x) with x.
  rewrite Z.shiftr_lxor. assert (Z.shiftr (byte c) 8 = 0) as ->; [|by rewrite Z.lxor_0_r].
  rewrite Z.shiftr_div_pow2 by lia. apply Z.div_small, byte_range.
Qed.

Lemma sw_word_ok : word_ok (sw_word crc32c_init_sw).
Proof.
  intros crc l Hc Hl. rewrite crc_word, Hl. unfold sw_word. set (x := Z.lxor crc (little_endian l)).
  assert (0 <= Z.shiftr x 56 < 256) as Hx.
  { unfold x. rewrite Z.shiftr_lxor. assert (Z.shiftr crc 56 = 0) as ->.
    { rewrite Z.shiftr_div_pow2 by lia. apply Z.div_small. lia. }
    rewrite Z.lxor_0_l, Z.shiftr_div_pow2 by lia. pose proof (little_endian_range l) as Hr. unfold slen in Hr. rewrite Hl in Hr.
    change (8 * Z.of_nat 8) with 64 in Hr. split; [apply Z.div_pos; lia|]. apply Z.div_lt_upper_bound; lia. }
  change 0xff with 255. rewrite !table_row by lia. rewrite !entry_row by (apply land_byte || done).
  rewrite (shift_byte 7 x), (shift_byte 6 (Z.shiftr x 8)). rewrite Z.shiftr_shiftr by lia.
  rewrite (shift_byte 5 (Z.shiftr x (8 + 8))), (Z.shiftr_shiftr x) by lia.
  rewrite (shift_byte 4 (Z.shiftr x (8 + 8 + 8))), (Z.shiftr_shiftr x) by lia.
  rewrite (shift_byte 3 (Z.shiftr x (8 + 8 + 8 + 8))), (Z.shiftr_shiftr x) by lia.
  rewrite (shift_byte 2 (Z.shiftr x (8 + 8 + 8 + 8 + 8))), (Z.shiftr_shiftr x) by lia.
  rewrite (shift_byte 1 (Z.shiftr x (8 + 8 + 8 + 8 + 8 + 8))), (Z.shiftr_shiftr x) by lia.
  rewrite !Z.lxor_assoc. done.
Qed.

(** *** Matrices that stand for shifting *)

Definition matrix_of (n : nat) : list Z := map (fun i => shift n (Z.shiftl 1 (Z.of_nat i))) (seq 0 32).

Lemma times_loop_spec n m : forall j v sum, 0 <= v < 2 ^ Z.of_nat m ->
  times_loop (map (fun i => shift n (Z.shiftl 1 (Z.of_nat i))) (seq j m)) v sum = Ret (Z.lxor sum (shift n (Z.shiftl v (Z.of_nat j)))).
Proof.
  induction m as [|m IH]; intros j v sum Hv; cbn [seq map times_loop].
  { assert (v = 0) as -> by (cbn in Hv; lia). by rewrite Z.shiftl_0_l, shift_0, Z.lxor_0_r. }
  destruct (Z.eqb_spec v 0) as [->|Hne]; [by rewrite Z.shiftl_0_l, shift_0, Z.lxor_0_r|].
  rewrite IH.
  2: { rewrite Z.shiftr_div_pow2 by lia. rewrite Nat2Z.inj_succ, Z.pow_succ_r in Hv by lia. split; [apply Z.div_pos; lia|].
       apply Z.div_lt_upper_bound; lia. }
  f_equal. assert (Z.shiftl v (Z.of_nat j) =
    Z.lxor (if Z.testbit v 0 then Z.shiftl 1 (Z.of_nat j) else 0) (Z.shiftl (Z.shiftr v 1) (Z.of_nat (S j)))) as ->.
  { apply Z.bits_inj'. intros i Hi. rewrite Z.lxor_spec. destruct (Z.lt_ge_cases i (Z.of_nat j)).
    - rewrite !Z.shiftl_spec_low by lia. destruct (Z.testbit v 0); [by rewrite Z.shiftl_spec_low by lia|by rewrite Z.bits_0].
    - rewrite (Z.shiftl_spec v) by lia. destruct (decide (i = Z.of_nat j)) as [->|Hij].
      + rewrite (Z.shiftl_spec_low _ (Z.of_nat (S j))) by lia. rewrite Z.sub_diag, xorb_false_r.
        destruct (Z.testbit v 0); [by rewrite Z.shiftl_spec, Z.sub_diag by lia|by rewrite Z.bits_0].
      + rewrite Z.shiftl_spec, Z.shiftr_spec by lia. replace (i - Z.of_nat (S j) + 1) with (i - Z.of_nat j) by lia.
        assert (Z.testbit (if Z.testbit v 0 then Z.shiftl 1 (Z.of_nat j) else 0) i = false) as ->; [|by destruct (Z.testbit v (i - _))].
        destruct (Z.testbit v 0); [|by rewrite Z.bits_0]. rewrite Z.shiftl_spec by lia.
        apply (Z.bits_above_log2 1); cbn; lia. }
  rewrite shift_lxor. destruct (Z.testbit v 0); [by rewrite Z.lxor_assoc|by rewrite shift_0, Z.lxor_0_l].
Qed.

Lemma times_spec n v : 0 <= v < 2 ^ 32 -> gf2_matrix_times (matrix_of n) v = Ret (shift n v).
Proof. intros Hv. unfold gf2_matrix_times, matrix_of. rewrite times_loop_spec by done. by rewrite Z.shiftl_0_r. Qed.

Lemma mapM_ret {A B C} (f : A -> outcome B) (g : C -> A) (h : C -> B) l :
  (forall x, x ∈ l -> f (g x) = Ret (h x)) -> mapM f (map g l) = Ret (map h l).
Proof.
  induction l as [|x l IH]; intros Hf; [done|]. cbn [map mapM]. rewrite Hf by constructor. cbn [mbind outcome_bind].
  rewrite IH; [done|]. intros y Hy. apply Hf. by constructor.
Qed.

Lemma power_range i s : (i < 256)%nat -> 0 <= s <= 24 -> 0 <= Z.shiftl (Z.of_nat i) s < 2 ^ 32.
Proof.
  intros Hi Hs. rewrite Z.shiftl_mul_pow2 by lia. assert (0 < 2 ^ s <= 2 ^ 24) by (split; [apply Z.pow_pos_nonneg; lia|apply Z.pow_le_mono_r; lia]). nia.
Qed.

Lemma bit_range i : (i < 32)%nat -> 0 <= Z.shiftl 1 (Z.of_nat i) < 2 ^ 32.
Proof.
  intros Hi. rewrite Z.shiftl_1_l. split; [apply Z.pow_nonneg; lia|apply Z.pow_lt_mono_r; lia].
Qed.

Lemma ret_bind {A B} (a : A) (f : A -> outcome B) : (Ret a ≫= f) = f a.
Proof. done. Qed.

Lemma square_spec n : gf2_matrix_square (matrix_of n) = Ret (matrix_of (n + n)).
Proof.
  unfold gf2_matrix_square. unfold matrix_of at 2 3. apply mapM_ret. intros i Hi. apply elem_of_seq in Hi.
  rewrite shift_add. apply times_spec, shift_range, bit_range. lia.
Qed.

Lemma one_bit_matrix : one_bit = matrix_of 1.
Proof. by vm_compute. Qed.

Lemma zeros_loop_spec n : forall m j, (j < 2 * n)%nat -> zeros_loop n (matrix_of m) (2 ^ Z.of_nat j) = Ret (matrix_of (m * 2 ^ (j + 1))).
Proof.
  assert (forall j, Z.shiftr (2 ^ Z.of_nat (S j)) 1 = 2 ^ Z.of_nat j) as Hhalf.
  { intros j. rewrite Z.shiftr_div_pow2, Nat2Z.inj_succ, Z.pow_succ_r, Z.mul_comm by lia. by apply Z.div_mul. }
  assert (forall j, (2 ^ Z.of_nat j =? 0) = false) as Hpos by (intros; apply Z.eqb_neq, Z.pow_nonzero; lia).
  induction n as [|n IH]; intros m j Hj; [lia|]. cbn [zeros_loop]. rewrite square_spec. cbn [mbind outcome_bind].
  destruct j as [|j]; [change (Z.shiftr (2 ^ Z.of_nat 0) 1 =? 0) with true; cbv iota; do 2 f_equal; change (2 ^ (0 + 1))%nat with 2%nat; lia|]. rewrite Hhalf, Hpos, square_spec. cbn [mbind outcome_bind].
  destruct j as [|j]; [change (Z.shiftr (2 ^ Z.of_nat 0) 1 =? 0) with true; cbv iota; do 2 f_equal; change (2 ^ (1 + 1))%nat with 4%nat; lia|]. rewrite Hhalf, Hpos, IH by lia.
  do 2 f_equal. replace (S (S j) + 1)%nat with (S (S (j + 1))) by lia. rewrite !Nat.pow_succ_r'. lia.
Qed.

Lemma zeros_op_spec j : (j < 64)%nat -> crc32c_zeros_op (2 ^ Z.of_nat j) = Ret (matrix_of (8 * 2 ^ j)).
Proof.
  intros Hj. unfold crc32c_zeros_op. rewrite one_bit_matrix, square_spec. rewrite ret_bind. rewrite square_spec. rewrite ret_bind.
  rewrite zeros_loop_spec by lia.
  assert ((1 + 1 + (1 + 1)) * 2 ^ (j + 1) = 8 * 2 ^ j)%nat as ->; [|done]. rewrite Nat.pow_add_r. change (2 ^ 1)%nat with 2%nat. lia.
Qed.

(** The tables for appending [n] zero bits. *)
Definition zeros_of (n : nat) : list (list Z) :=
  map (fun s => map (fun i => shift n (Z.shiftl (Z.of_nat i) s)) (seq 0 256)) [0; 8; 16; 24].

Lemma zeros_spec j : (j < 64)%nat -> crc32c_zeros (2 ^ Z.of_nat j) = Ret (zeros_of (8 * 2 ^ j)).
Proof.
  intros Hj. unfold crc32c_zeros. rewrite zeros_op_spec by done. rewrite ret_bind. unfold zeros_of.
  rewrite <- (map_id [0; 8; 16; 24]) at 1. apply mapM_ret. intros s Hs.
  rewrite <- (map_id (seq 0 256)) at 1. apply mapM_ret. intros i Hi. apply elem_of_seq in Hi. apply times_spec, power_range; [lia|].
  repeat (apply elem_of_cons in Hs as [->|Hs]; [lia|]). by apply not_elem_of_nil in Hs.
Qed.

Lemma shift_zeros n crc : 0 <= crc < 2 ^ 32 -> crc32c_shift (zeros_of n) crc = shift n crc.
Proof.
  intros Hc. unfold crc32c_shift, zeros_of. cbn [map nth]. change 0xff with 255.
  assert (0 <= Z.shiftr crc 24 < 256) as Hhigh.
  { rewrite Z.shiftr_div_pow2 by lia. split; [apply Z.div_pos; lia|apply Z.div_lt_upper_bound; lia]. }
  rewrite !entry_map by (apply land_byte || done). rewrite !Z2Nat.id by (apply land_byte || lia). rewrite Z.shiftl_0_r.
  rewrite <- !shift_lxor. f_equal. rewrite (low_byte crc) at 5. rewrite (low_byte (Z.shiftr crc 8)) at 2.
  rewrite (low_byte (Z.shiftr (Z.shiftr crc 8) 8)). rewrite !Z.shiftr_shiftr, !Z.shiftl_lxor, !Z.shiftl_shiftl by lia.
  by rewrite !Z.lxor_assoc.
Qed.

Lemma zeros_size size j : (j < 64)%nat -> Z.of_nat size = 2 ^ Z.of_nat j -> crc32c_zeros (Z.of_nat size) = Ret (zeros_of (8 * size)).
Proof.
  intros Hj E. rewrite E, zeros_spec by done. do 2 f_equal. f_equal. apply Nat2Z.inj. by rewrite E, Nat2Z.inj_pow.
Qed.

(** *** By the processor *)

(** What the manual of the processor says of the instructions: they shift the exclusive or of register and
    operand by as many bits as the operand has. *)
Class CrcLaws `{CrcInstructions} : Prop := {
  crc32b_law : forall crc v, 0 <= crc < 2 ^ 32 -> 0 <= v < 2 ^ 8 -> crc32b crc v = shift 8 (Z.lxor crc v);
  crc32q_law : forall crc v, 0 <= crc < 2 ^ 32 -> 0 <= v < 2 ^ 64 -> crc32q crc v = shift 64 (Z.lxor crc v);
}.

Section HardwareLaws.
Context `{CrcLaws}.

Lemma hw_byte_ok : step_ok hw_byte.
Proof. intros crc c Hc. unfold hw_byte. apply crc32b_law; [done|]. apply byte_range. Qed.

Lemma hw_word_ok : word_ok crc32q.
Proof.
  intros crc l Hc Hl. rewrite crc_word, Hl. apply crc32q_law; [done|]. pose proof (little_endian_range l) as Hr.
  unfold slen in Hr. by rewrite Hl in Hr.
Qed.

(** The first [m] bytes from position [p] on. *)
Abbreviation part p m next := (take m (drop p next)) (only parsing).

Lemma hw_word_part p m crc (next : bytes) : 0 <= crc < 2 ^ 32 -> (p + 8 + m <= length next)%nat ->
  crc_bytes (crc32q crc (load64 (drop p next))) (part (8 + p) m next) = crc_bytes crc (part p (8 + m) next).
Proof.
  intros Hc Hl. unfold load64. rewrite hw_word_ok by (done || (rewrite length_take, length_drop; lia)).
  rewrite <- crc_bytes_app. f_equal. rewrite Nat.add_comm, <- drop_drop. by rewrite take_take_drop.
Qed.

Lemma three_words_spec size n : forall next crc0 crc1 crc2,
  0 <= crc0 < 2 ^ 32 -> 0 <= crc1 < 2 ^ 32 -> 0 <= crc2 < 2 ^ 32 -> (2 * size + 8 * n <= length next)%nat ->
  three_words n size next crc0 crc1 crc2 =
  (crc_bytes crc0 (part 0 (8 * n) next), crc_bytes crc1 (part size (8 * n) next), crc_bytes crc2 (part (2 * size) (8 * n) next)).
Proof.
  induction n as [|n IH]; intros next crc0 crc1 crc2 Hc0 Hc1 Hc2 Hl; [by rewrite Nat.mul_0_r|]. cbn [three_words].
  assert (forall p crc, 0 <= crc < 2 ^ 32 -> (p <= 2 * size)%nat -> 0 <= crc32q crc (load64 (drop p next)) < 2 ^ 32) as Hrange.
  { intros p crc Hc Hp. unfold load64. rewrite hw_word_ok by (done || (rewrite length_take, length_drop; lia)). by apply crc_bytes_range. }
  pose proof (Hrange 0%nat crc0 Hc0 ltac:(lia)) as Hr0. rewrite drop_0 in Hr0.
  rewrite IH; [|done|apply Hrange; [done|lia]|apply Hrange; [done|lia]|rewrite length_drop; lia].
  rewrite !drop_drop. rewrite <- (drop_0 next) at 1. replace (8 * S n)%nat with (8 + 8 * n)%nat by lia.
  rewrite !hw_word_part by (done || lia). done.
Qed.

(** Appending zeros and the exclusive or with the sum of a part make the sum of both. *)
Lemma join_parts size crc l : 0 <= crc < 2 ^ 32 -> length l = size ->
  Z.lxor (crc32c_shift (zeros_of (8 * size)) crc) (crc_bytes 0 l) = crc_bytes crc l.
Proof. intros Hc <-. rewrite shift_zeros by done. by rewrite <- crc_bytes_lxor, Z.lxor_0_r. Qed.

Lemma three_parts_spec size n : forall crc next,
  (size = 8 * (size / 8))%nat -> 0 <= crc < 2 ^ 32 ->
  exists pre rest, next = pre ++ rest /\ three_parts n size (zeros_of (8 * size)) crc next = (crc_bytes crc pre, rest).
Proof.
  induction n as [|n IH]; intros crc next Hsize Hc; cbn [three_parts]; [by exists [], next|].
  case_bool_decide as Hlen; [|by exists [], next]. set (n8 := (size / 8)%nat) in *.
  rewrite three_words_spec by (done || lia). rewrite <- Hsize, drop_0.
  set (a := take size next). set (b := part size size next). set (c := part (2 * size) size next).
  assert (length b = size /\ length c = size) as [Hb Hc'] by (unfold b, c; rewrite !length_take, !length_drop; lia).
  rewrite (join_parts size (crc_bytes crc a) b), (join_parts size _ c) by (done || (repeat apply crc_bytes_range; done)).
  rewrite <- !crc_bytes_app.
  destruct (IH (crc_bytes crc (a ++ b ++ c)) (drop (size * 3) next) Hsize) as (pre & rest & E & ->); [by apply crc_bytes_range|].
  exists ((a ++ b ++ c) ++ pre), rest. split; [|by rewrite (crc_bytes_app crc (a ++ b ++ c))].
  rewrite <- app_assoc, <- E. unfold a, b, c.
  replace (2 * size)%nat with (size + size)%nat by lia. replace (size * 3)%nat with (size + size + size)%nat by lia.
  by rewrite <- !app_assoc, <- !drop_drop, !take_drop.
Qed.

End HardwareLaws.

(** *** The whole computation *)

Lemma init_range crc : 0 <= crc < 2 ^ 32 -> 0 <= Z.lxor crc 0xffffffff < 2 ^ 32.
Proof. intros Hc. by apply lxor_u32. Qed.

Lemma finish crc l : 0 <= crc < 2 ^ 32 ->
  Z.lxor (u32 (crc_bytes (Z.lxor crc 0xffffffff) l)) 0xffffffff = crc_reference crc l.
Proof. intros Hc. unfold crc_reference. rewrite u32_small; [done|]. by apply crc_bytes_range, init_range. Qed.

Lemma crc32c_sw_spec crc addr buf : 0 <= crc < 2 ^ 32 -> crc32c_sw crc addr buf = crc_reference crc buf.
Proof.
  intros Hc. unfold crc32c_sw. pose proof (init_range crc Hc) as Hr.
  destruct (align_spec _ buf sw_byte_ok addr _ Hr) as (addr' & pre & rest & -> & ->).
  pose proof (crc_bytes_range pre _ Hr) as Hr1.
  destruct (words_spec _ (length rest) sw_word_ok _ rest Hr1) as (mid & tail & -> & ->).
  rewrite (fold_step _ _ sw_byte_ok) by by apply crc_bytes_range. rewrite <- !crc_bytes_app, finish by done. by rewrite <- ?app_assoc.
Qed.

Lemma crc32c_hw_spec `{CrcLaws} crc addr buf : 0 <= crc < 2 ^ 32 -> crc32c_hw crc addr buf = Ret (crc_reference crc buf).
Proof.
  intros Hc. unfold crc32c_hw. rewrite (zeros_size LONG 13), ret_bind by (done || lia). rewrite (zeros_size SHORT 8), ret_bind by (done || lia).
  pose proof (init_range crc Hc) as Hr. destruct (align_spec _ buf hw_byte_ok addr _ Hr) as (addr' & pre & rest & -> & ->).
  pose proof (crc_bytes_range pre _ Hr) as Hr1.
  destruct (three_parts_spec LONG (length rest) (crc_bytes (Z.lxor crc 0xffffffff) pre) rest) as (pre2 & rest2 & -> & ->); [by vm_compute|done|].
  pose proof (crc_bytes_range pre2 _ Hr1) as Hr2.
  match goal with |- context [three_parts (length rest2) SHORT _ ?c rest2] =>
    destruct (three_parts_spec SHORT (length rest2) c rest2) as (pre3 & rest3 & -> & ->) end; [by vm_compute|done|].
  pose proof (crc_bytes_range pre3 _ Hr2) as Hr3.
  destruct (words_spec _ (length rest3) hw_word_ok _ rest3 Hr3) as (mid & tail & -> & ->).
  rewrite (fold_step _ _ hw_byte_ok) by by apply crc_bytes_range. rewrite <- !crc_bytes_app, finish by done.
  by rewrite <- ?app_assoc.
Qed.

(** ** Properties *)

(** C14: The checksum is the same on every processor.  With or without the crc instructions, at every
    alignment of the buffer and for every length, [crc32c] returns the CRC-32C of the buffer as the bit by
    bit definition has it, a 32-bit value; and checksums can be continued: the one of two pieces is the
    one of the second piece started with that of the first. *)
Theorem crc32c_is_reference `{CrcLaws} sse42 crc addr buf :
  0 <= crc < 2 ^ 32 ->
  crc32c sse42 crc addr buf = Ret (crc_reference crc buf) /\ 0 <= crc_reference crc buf < 2 ^ 32 /\
  forall more, crc_reference crc (buf ++ more) = crc_reference (crc_reference crc buf) more.
Proof.
  intros Hc. split; [|split].
  - unfold crc32c. destruct sse42; [by apply crc32c_hw_spec|by rewrite crc32c_sw_spec].
  - unfold crc_reference. apply lxor_u32; [|done]. by apply crc_bytes_range, init_range.
  - intros more. unfold crc_reference. rewrite crc_bytes_app, Z.lxor_assoc, Z.lxor_nilpotent, Z.lxor_0_r. done.
Qed.

(** A processor that does what its manual says. *)
Definition manual : CrcInstructions := {|
  crc32b := fun crc v => shift 8 (Z.lxor crc v);
  crc32q := fun crc v => shift 64 (Z.lxor crc v);
|}.

Lemma manual_laws : CrcLaws (H:=manual).
Proof. by split. Qed.

(** The check value of the CRC-32C standard. *)
Lemma crc32c_is_reference_witness :
  crc32c (H:=manual) true 0 3 (str "123456789") = Ret 0xe3069283 /\ crc32c (H:=manual) false 0 5 (str "123456789") = Ret 0xe3069283.
Proof.
  assert (crc_reference 0 (str "123456789") = 0xe3069283) as E by (vm_compute; reflexivity).
  pose proof (@crc32c_is_reference manual manual_laws true 0 3 (str "123456789") ltac:(lia)) as (H1 & _).
  pose proof (@crc32c_is_reference manual manual_laws false 0 5 (str "123456789") ltac:(lia)) as (H2 & _).
  rewrite E in H1, H2. split; [exact H1|exact H2].
Defined.
