(* ===== verification/StripeOperation.v ===== *)
(** * Operations on the stripe of one key (src/KineticClusterStripeOperation.cc)

    A value is stored as a stripe of chunks under one key on consecutive drives, starting at the
    hash of the key.  Writing operations resolve partial writes with the versions found on the
    drives, reading operations look for a version that enough chunks agree on and put the value
    together from them.  The operation vector is that of [ClusterOperation]; the redundancy provider
    is shared and keeps its cache of decode tables. *)

From S2P Require Import Prelude CppString Utility Kinetic Simulator Callbacks ClusterOperation Isa Redundancy Murmur.

Module StripeOperation.

Record KineticClusterStripeOperation {D : Type} := mkStripe {
  so_op : KineticClusterOperation D;
  need_indicator : bool;
  redundancy : RedundancyProvider;
}.
Arguments KineticClusterStripeOperation : clear implicits.
Arguments mkStripe {D} _ _ _.

Record VersionCount := mkVersionCount { version : option bytes; frequency : Z }.

(** The members [StripeOperation_GET] adds. *)
Record StripeOperation_GET {D : Type} := mkGet {
  get_stripe : KineticClusterStripeOperation D;
  get_version : VersionCount;
  get_value : option bytes;
}.
Arguments StripeOperation_GET : clear implicits.
Arguments mkGet {D} _ _ _.

(** ** Placement *)

(** The loop of [expandOperationVector]: the index is a [uint32_t]. *)
Fixpoint stripe_indices (nconn : nat) (index : Z) (size : nat) : list nat :=
  match size with
  | O => []
  | S size' =>
      let index' := u32 (index + 1) mod Z.of_nat nconn in
      Z.to_nat index' :: stripe_indices nconn index' size'
  end.

Definition stripe_start (key : bytes) (offset : nat) : Z :=
  u32 (Murmur.MurmurHash3_x86_32 key 0 + Z.of_nat offset).

Definition validStatusCode (code : StatusCode) : bool :=
  bool_decide (code = OK) || bool_decide (code = REMOTE_NOT_FOUND) || bool_decide (code = REMOTE_VERSION_MISMATCH).

(** ** Versions found by callbacks *)

Definition cb_ok (cb : callback) : bool := bool_decide (getResult cb = OK).

(** [getVersion()] of a version callback, [getRecord()->version()] of a value callback. *)
Definition callback_version (skip_value : bool) (cb : callback) : outcome bytes :=
  if skip_value then Ret (cb_version cb) else r ← deref (cb_record cb); Ret (rec_version r).

(** [getVersionEqual] and [getRecordVersionEqual] *)
Definition versions_equal (skip_value : bool) (lhs rhs : callback) : outcome bool :=
  if negb (cb_ok lhs) || negb (cb_ok rhs) then Ret false else
  l ← callback_version skip_value lhs;
  r ← callback_version skip_value rhs;
  Ret (bool_decide (l = r)).

(** The inner loop of [mostFrequentVersion]. *)
Definition version_frequency (skip_value : bool) (cbs : list callback) (o : callback) : outcome Z :=
  foldl (fun acc l => n ← acc; e ← versions_equal skip_value o l; Ret (if (e : bool) then n + 1 else n)) (Ret 0) cbs.

(** The outer loop: the frequency and the element it belongs to. *)
Fixpoint most_frequent_loop (skip_value : bool) (cbs todo : list callback) (freq : Z) (element : option callback) :
    outcome (Z * option callback) :=
  match todo with
  | [] => Ret (freq, element)
  | o :: todo' =>
      f ← version_frequency skip_value cbs o;
      let '(freq', element') := if freq <? f then (f, Some o) else (freq, element) in
      if slen cbs / 2 <? f then Ret (freq', element')
      else most_frequent_loop skip_value cbs todo' freq' element'
  end.

Definition most_frequent (skip_value : bool) (cbs : list callback) : outcome VersionCount :=
  p ← most_frequent_loop skip_value cbs cbs 0 (head cbs);
  let '(freq, element) := p in
  if freq =? 0 then Ret (mkVersionCount None 0)
  else e ← deref element; v ← callback_version skip_value e; Ret (mkVersionCount (Some v) freq).

(** [StripeOperation_GET::mostFrequentVersion] *)
Definition mostFrequentVersion (skip_value : bool) (ops : list KineticAsyncOperation) : outcome VersionCount :=
  cbs ← mapM (fun op => deref (op_callback op)) ops;
  most_frequent skip_value cbs.

(** [StripeOperation_GET::getVersionAt] *)
Definition getVersionAt (skip_value : bool) (ops : list KineticAsyncOperation) (index : nat) : outcome (option bytes) :=
  op ← deref (ops !! index);
  cb ← deref (op_callback op);
  if bool_decide (getResult cb = REMOTE_NOT_FOUND) then Ret (Some [])
  else if cb_ok cb then v ← callback_version skip_value cb; Ret (Some v)
  else Ret None.

(** ** Chunks *)

(** What a chunk read is good for. *)
Inductive chunk_state :=
  | Good (value : bytes)
  | BadCrc
  | Invalid.

Definition chunk_value (c : chunk_state) : bytes := match c with Good value => value | _ => [] end.
Definition is_good (c : chunk_state) : bool := match c with Good _ => true | _ => false end.
Definition is_bad_crc (c : chunk_state) : bool := match c with BadCrc => true | _ => false end.

Definition is_zeroed (c : chunk_state) : bool := match c with Good [] => true | _ => false end.

(** A data chunk that is empty and passed verification stands for zeroes. *)
Definition zeroed_indices (nData : nat) (chunks : list chunk_state) : list nat :=
  filter (fun i => (i < nData)%nat /\ is_zeroed (default Invalid (chunks !! i)) = true) (seq 0 (length chunks)).

(** The size of the first chunk that is not empty. *)
Definition chunk_size (stripe : list bytes) : nat :=
  match list_find (fun c => c <> []) stripe with Some (_, c) => length c | None => O end.

Definition fill_zeroes (zeroed : list nat) (stripe : list bytes) : list bytes :=
  foldl (fun l i => <[i := replicate (chunk_size stripe) NUL]> l) stripe zeroed.

(** Step 2: merging the chunks up to the size of the value. *)
Fixpoint merge_chunks (size : Z) (value : bytes) (stripe : list bytes) : bytes :=
  match stripe with
  | [] => value
  | c :: stripe' =>
      if slen value + slen c <=? size then merge_chunks size (value ++ c) stripe'
      else value ++ take (Z.to_nat (size - slen value)) c
  end.

Section Operations.
Context `{Env D} `{StatusInt} `{Checksum} `{IsaL}.
Variable nconn : nat.
Variable key : bytes.

Abbreviation Stripe := (KineticClusterStripeOperation D).

(** Running members of the base class. *)
Definition on_op {A} (m : M (KineticClusterOperation D) A) : M Stripe A :=
  zoom so_op (fun o w => mkStripe o (need_indicator w) (redundancy w)) m.

Definition set_indicator (b : bool) : M Stripe unit :=
  modify (fun w => mkStripe (so_op w) b (redundancy w)).

Definition stripe_ops (w : Stripe) : list KineticAsyncOperation := operations (so_op w).

Definition update_ops (f : list KineticAsyncOperation -> list KineticAsyncOperation) : M (KineticClusterOperation D) unit :=
  modify (fun o => mkOperation (f (operations o)) (op_sync o) (op_env o)).

(** [KineticClusterStripeOperation::expandOperationVector] *)
Definition expandStripe (size offset : nat) : M (KineticClusterOperation D) unit :=
  if bool_decide (nconn = 0%nat) && bool_decide (size <> 0%nat) then lift UB else
  update_ops (fun ops => ops ++ (mkOp None None <$> stripe_indices nconn (stripe_start key offset) size)).

(** [operations[index].callback = cb; operations[index].function = ...] *)
Definition assign (index : nat) (c : callback_class) (req : request) : M (KineticClusterOperation D) unit :=
  o ← get;
  op ← lift (deref (operations o !! index));
  let '(op', s) := fill c req op (op_sync o) in
  modify (fun o => mkOperation (<[index := op']> (operations o)) s (op_env o)).

Definition makeRecord (value version : bytes) : KineticRecord :=
  mkRecord (Some value) version (to_string (crc32c 0 value)) CRC32.

(** The status of the last operation of the vector. *)
Definition back_status : M Stripe StatusCode :=
  w ← get; op ← lift (deref (last (stripe_ops w))); cb ← lift (deref (op_callback op)); mret (getResult cb).

(** The loop of [createSingleKey] makes at most one attempt per connection. *)
Fixpoint createSingleKey_loop (attempts : nat) (keyname : bytes) (record : KineticRecord) : M Stripe StatusCode :=
  match attempts with
  | O => out_of_fuel
  | S attempts' =>
      n ← gets (fun w => length (stripe_ops w));
      on_op (expandStripe 1 n);;
      on_op (assign n PutCallback (Put keyname [] REQUIRE_SAME_VERSION record WRITE_BACK));;
      on_op executeOperationVector;;
      status ← back_status;
      if negb (validStatusCode status) && bool_decide (attempts' <> 0%nat)
      then createSingleKey_loop attempts' keyname record else mret status
  end.

Definition createSingleKey (keyname keyversion keyvalue : bytes) : M Stripe StatusCode :=
  createSingleKey_loop (Nat.max 1 nconn) keyname (makeRecord keyvalue keyversion).

Definition putIndicatorKey : M Stripe unit :=
  createSingleKey (makeIndicatorKey key) (str "indicator") [];; mret tt.

Definition needsIndicator (w : Stripe) : bool := need_indicator w.

(** ** Reading *)

Abbreviation GetOp := (StripeOperation_GET D).

Definition on_stripe {A} (m : M Stripe A) : M GetOp A :=
  zoom get_stripe (fun s w => mkGet s (get_version w) (get_value w)) m.

Definition get_ops (w : GetOp) : list KineticAsyncOperation := stripe_ops (get_stripe w).

(** [StripeOperation_GET::fillOperation] *)
Definition get_fillOperation (skip_value : bool) (index : nat) (k : bytes) : M (KineticClusterOperation D) unit :=
  if skip_value then assign index GetVersionCallback (GetVersion k) else assign index GetCallback (Get k).

(** [StripeOperation_GET::fillOperationVector] *)
Definition fillOperationVector (skip_value : bool) : M (KineticClusterOperation D) unit :=
  o ← get;
  mapM (fun i => op ← gets (fun o => operations o !! i);
                 match op with
                 | Some (mkOp _ None _) => get_fillOperation skip_value i key
                 | _ => mret tt
                 end) (seq 0 (length (operations o)));;
  mret tt.

(** The constructor, without the members that never change. *)
Definition new_get (skip_value skip_partial_get : bool) : M Stripe unit :=
  w ← get;
  on_op (expandStripe (if skip_partial_get then size (redundancy w) else numData (redundancy w)) 0);;
  on_op (fillOperationVector skip_value).

(** Looking up the versions of all chunks, with an operation of its own on the same drives: its
    operation vector after execution and its results. *)
Definition get_versions : M Stripe (list KineticAsyncOperation * list (StatusCode * Z)) := fun w =>
  let '(o, g) := (new_get true true;; on_op executeOperationVector) (mkStripe (new_operation (op_env (so_op w))) false (redundancy w)) in
  let w' := mkStripe (mkOperation (operations (so_op w)) (op_sync (so_op w)) (op_env (so_op g))) (need_indicator w) (redundancy g) in
  (rm ← o; Ret (stripe_ops g, rm), w').

(** ** Writing *)

Section Write.

(** The virtual member [fillOperation] of the deriving class. *)
Variable fillOperation : nat -> bytes -> WriteMode -> M Stripe unit.

Definition attemptStripeRepair (drive_versions : list KineticAsyncOperation) : M Stripe bool :=
  n ← gets (fun w => length (stripe_ops w));
  mapM (fun opnum =>
    op ← gets (fun w => stripe_ops w !! opnum);
    op ← lift (deref op); cb ← lift (deref (op_callback op));
    if bool_decide (getResult cb = REMOTE_VERSION_MISMATCH) then
      drive_version ← lift (getVersionAt true drive_versions opnum);
      match drive_version with
      | Some v => fillOperation opnum v REQUIRE_SAME_VERSION
      | None => mret tt
      end
    else mret tt) (seq 0 n);;
  rm ← on_op executeOperationVector;
  mret (rmap_at REMOTE_VERSION_MISMATCH rm =? 0).

(** The position of the first chunk with the version, -1 if there is none. *)
Fixpoint find_position (drive_versions : list KineticAsyncOperation) (v : bytes) (indices : list nat) : outcome Z :=
  match indices with
  | [] => Ret (-1)
  | i :: indices' =>
      drive_version ← getVersionAt true drive_versions i;
      if match drive_version with
         | Some dv => bool_decide (v = dv)
         | None => bool_decide (v = [])
         end
      then Ret (Z.of_nat i) else find_position drive_versions v indices'
  end.

Definition now_ : M Stripe Z := fun w =>
  let '(t, d) := env_now (op_env (so_op w)) in
  (Ret t, mkStripe (mkOperation (operations (so_op w)) (op_sync (so_op w)) d) (need_indicator w) (redundancy w)).

Definition usleep_ (us : Z) : M Stripe unit :=
  on_op (modify (fun o => mkOperation (operations o) (op_sync o) (env_usleep us (op_env o)))).

(** The polling loop: true if the operation is resolved, false if the polling period is over. *)
Fixpoint resolve_loop (fuel : nat) (timeout start_time : Z) (v : bytes) : M Stripe bool :=
  match fuel with
  | O => out_of_fuel
  | S fuel' =>
      '(drive_versions, rm) ← get_versions;
      mf ← lift (mostFrequentVersion true drive_versions);
      let mf := if frequency mf <? rmap_at REMOTE_NOT_FOUND rm then mkVersionCount (Some []) (rmap_at REMOTE_NOT_FOUND rm) else mf in
      most ← lift (deref (version mf));
      repaired ← (if bool_decide (v = most) then attemptStripeRepair drive_versions else mret false);
      if (repaired : bool) then mret true else
      n ← gets (fun w => size (redundancy w));
      position ← lift (find_position drive_versions v (seq 0 n));
      if position <? 0 then mret true else
      usleep_ (100 * 1000);;
      t ← now_;
      if t <? start_time + timeout * ns_per_s * (position + 1) then resolve_loop fuel' timeout start_time v
      else mret false
  end.

(** A poll takes at least 100 ms and polling ends after at most [size * timeout] seconds. *)
Definition resolve_fuel (timeout : Z) (n : nat) : nat := S (Z.to_nat (10 * timeout * Z.of_nat n)).

Definition resolvePartialWrite (timeout : Z) (v : bytes) : M Stripe unit :=
  start_time ← now_;
  n ← gets (fun w => size (redundancy w));
  resolved ← resolve_loop (resolve_fuel timeout n) timeout start_time v;
  if (resolved : bool) then mret tt else
  '(drive_versions, _) ← get_versions;
  attemptStripeRepair drive_versions;; mret tt.

(** The codes of all operations, counted again. *)
Definition recount : M Stripe (list (StatusCode * Z)) := gets (fun w => count_results (results (stripe_ops w))).

End Write.

(** *** PUT *)

Section PUT.
Variable version_new : bytes.
Variable values : list (option bytes).

(** [StripeOperation_PUT::fillOperation] *)
Definition put_fillOperation (index : nat) (drive_version : bytes) (mode : WriteMode) : M Stripe unit :=
  value ← lift (c ← deref (values !! index); deref c);
  on_op (assign index PutCallback (Put key drive_version mode (makeRecord value version_new) WRITE_BACK)).

(** The constructor. *)
Definition StripeOperation_PUT (version_old : bytes) (mode : WriteMode) : M Stripe unit :=
  n ← gets (fun w => size (redundancy w));
  if bool_decide (length values <> n) then throw (system_error invalid_argument) else
  on_op (expandStripe (length values) 0);;
  mapM (fun i => put_fillOperation i version_old mode) (seq 0 (length values));;
  mret tt.

Definition quick_repair (drive_versions : list KineticAsyncOperation) (skip_value : bool) : M Stripe bool :=
  n ← gets (fun w => length (stripe_ops w));
  mapM (fun opnum =>
    drive_version ← lift (getVersionAt skip_value drive_versions opnum);
    op ← gets (fun w => stripe_ops w !! opnum);
    op ← lift (deref op); cb ← lift (deref (op_callback op));
    on_op (modify (fun o =>
      let '(cb', s) := OnResult OK cb (op_sync o) in
      mkOperation (<[opnum := mkOp (op_function op) (Some cb') (op_connection op)]> (operations o)) s (op_env o)));;
    match drive_version with
    | Some v => if bool_decide (v <> version_new) then put_fillOperation opnum v REQUIRE_SAME_VERSION else mret tt
    | None => mret tt
    end) (seq 0 n);;
  rm ← on_op executeOperationVector;
  mret (rmap_at OK rm =? Z.of_nat n).

(** The decision of [execute]: the first result in the map with a quorum. *)
Definition put_decide (rm : list (StatusCode * Z)) : M Stripe StatusCode :=
  rp ← gets redundancy;
  match list_find (fun p => Z.of_nat (numData rp) <= snd p) rm with
  | Some (_, (code, n)) =>
      when (bool_decide (code = OK) && (n <? Z.of_nat (size rp))) (set_indicator true);;
      mret code
  | None => mret CLIENT_IO_ERROR
  end.

Definition PUT_execute (timeout : Z) : M Stripe StatusCode :=
  rm ← on_op executeOperationVector;
  let rm := rmap_touch OK rm in
  let rm := if rmap_at OK rm =? 0 then rm else
            let rm := rmap_touch REMOTE_VERSION_MISMATCH rm in
            if rmap_at REMOTE_VERSION_MISMATCH rm =? 0 then rmap_touch REMOTE_NOT_FOUND rm else rm in
  let partial := negb (rmap_at OK rm =? 0) &&
    (negb (rmap_at REMOTE_VERSION_MISMATCH rm =? 0) || negb (rmap_at REMOTE_NOT_FOUND rm =? 0)) in
  rm ← (if partial then resolvePartialWrite put_fillOperation timeout version_new;; recount else mret rm);
  put_decide rm.

Definition putHandoffKeys : M Stripe unit :=
  mapM (fun opnum =>
    op ← gets (fun w => stripe_ops w !! opnum);
    op ← lift (deref op); cb ← lift (deref (op_callback op));
    let scode := getResult cb in
    if bool_decide (scode <> OK) && bool_decide (scode <> REMOTE_VERSION_MISMATCH) then
      value ← lift (c ← deref (values !! opnum); deref c);
      createSingleKey (str "handoff=" ++ key ++ str "version=" ++ version_new ++ str "chunk=" ++ to_string (Z.of_nat opnum))
        version_new value;;
      mret tt
    else mret tt) (seq 0 (length values));;
  mret tt.
End PUT.

(** *** DEL *)

Definition del_fillOperation (index : nat) (drive_version : bytes) (mode : WriteMode) : M Stripe unit :=
  on_op (assign index BasicCallback (Delete key drive_version mode WRITE_BACK)).

Definition StripeOperation_DEL (v : bytes) (mode : WriteMode) (n offset : nat) : M Stripe unit :=
  on_op (expandStripe n offset);;
  mapM (fun i => del_fillOperation i v mode) (seq 0 n);;
  mret tt.

Definition del_decide (rm : list (StatusCode * Z)) : M Stripe StatusCode :=
  rp ← gets redundancy;
  match list_find (fun p => Z.of_nat (numData rp) <= snd p) rm with
  | Some (_, (code, n)) =>
      when (n <? Z.of_nat (size rp)) (set_indicator true);;
      mret code
  | None => mret CLIENT_IO_ERROR
  end.

Definition DEL_execute (timeout : Z) : M Stripe StatusCode :=
  rm ← on_op executeOperationVector;
  let rm := rmap_touch OK rm in
  let rm := if rmap_at OK rm =? 0 then rm else rmap_touch REMOTE_VERSION_MISMATCH rm in
  rm ← (if negb (rmap_at OK rm =? 0) && negb (rmap_at REMOTE_VERSION_MISMATCH rm =? 0)
        then resolvePartialWrite del_fillOperation timeout [];; recount else mret rm);
  let rm := rmap_touch OK rm in
  let rm := if rmap_at OK rm =? 0 then rm else rmap_touch REMOTE_NOT_FOUND rm in
  let rm := if negb (rmap_at OK rm =? 0) && negb (rmap_at REMOTE_NOT_FOUND rm =? 0)
            then rmap_alter (fun _ => 0) REMOTE_NOT_FOUND (rmap_alter (Z.add (rmap_at REMOTE_NOT_FOUND rm)) OK rm) else rm in
  del_decide rm.

(** *** GET *)

Definition check_chunk (v : bytes) (cb : callback) : chunk_state :=
  match cb_record cb with
  | Some r =>
      if bool_decide (rec_version r = v) then
        match rec_value r with
        | Some value => if bool_decide (to_string (crc32c 0 value) = rec_tag r) then Good value else BadCrc
        | None => Invalid
        end
      else Invalid
  | None => Invalid
  end.

Definition set_value (value : bytes) : M GetOp unit := modify (fun w => mkGet (get_stripe w) (get_version w) (Some value)).

Definition on_redundancy {A} (m : M RedundancyProvider A) : M GetOp A :=
  on_stripe (zoom redundancy (fun r w => mkStripe (so_op w) (need_indicator w) r) m).

Definition reconstructValue : M GetOp unit :=
  set_value [];;
  w ← get;
  let v := version (get_version w) in
  size ← lift (uuidDecodeSize v);
  if size =? 0 then mret tt else
  v ← lift (deref v);
  chunks ← lift (mapM (fun op => cb ← deref (op_callback op); Ret (check_chunk v cb)) (get_ops w));
  let nData := numData (redundancy (get_stripe w)) in
  let stripe := chunk_value <$> chunks in
  when (existsb is_bad_crc chunks) (on_stripe (set_indicator true));;
  stripe ← (if forallb is_good chunks then mret (Some <$> stripe)
            else on_redundancy (compute (Some <$> fill_zeroes (zeroed_indices nData chunks) stripe)));
  stripe ← lift (mapM deref stripe);
  set_value (merge_chunks size [] stripe).

Definition set_version (v : VersionCount) : M GetOp unit := modify (fun w => mkGet (get_stripe w) v (get_value w)).

(** The loop over the result map. *)
Fixpoint get_decide (skip_value : bool) (rm : list (StatusCode * Z)) : M GetOp StatusCode :=
  match rm with
  | [] => throw std_runtime_error
  | (code, n) :: rm' =>
      nData ← gets (fun w => numData (redundancy (get_stripe w)));
      if Z.of_nat nData <=? n then
        when (bool_decide (code = OK) && negb skip_value) reconstructValue;;
        if validStatusCode code then mret code else get_decide skip_value rm'
      else get_decide skip_value rm'
  end.

Definition do_execute (skip_value : bool) : M GetOp StatusCode :=
  rm ← on_stripe (on_op executeOperationVector);
  w ← get;
  mf ← lift (mostFrequentVersion skip_value (get_ops w));
  set_version mf;;
  let rm := rmap_touch OK rm in
  rm ← (if frequency mf <? rmap_at OK rm
        then on_stripe (set_indicator true);; mret (rmap_alter (fun _ => frequency mf) OK rm)
        else mret rm);
  get_decide skip_value rm.

(** [catch (std::exception& e)]: no result. *)
Definition attempt {W A} (m : M W A) : M W (option A) := try_catch (a ← m; mret (Some a)) (fun _ => mret None).

(** The keys a drive returned, assigned to the chunks they name. *)
Definition insert_handoff_key (skip_value : bool) (connection : nat) (opkey : bytes) : M GetOp unit :=
  chunk ← lift (s ← substr opkey (u64 (find_last_of "=" opkey + 1)) npos; Ret (stream_to_int s));
  w ← get;
  if chunk <? 0 then lift UB else
  op ← lift (deref (get_ops w !! Z.to_nat chunk));
  on_stripe (on_op (update_ops (fun ops =>
    <[Z.to_nat chunk := mkOp (op_function op) (op_callback op) connection]> ops);;
    get_fillOperation skip_value (Z.to_nat chunk) opkey)).

Definition insertHandoffChunks (skip_value : bool) : M GetOp bool :=
  w ← get;
  match version (get_version w) with
  | None => mret false
  | Some v =>
      let start_key := str "handoff=" ++ key ++ str "version=" ++ v in
      let end_key := str "handoff=" ++ key ++ str "version=" ++ v ++ str "~" in
      let '(o, range) := (ClusterRangeOp nconn start_key end_key 100;; executeOperationVector)
        (new_operation (op_env (so_op (get_stripe w)))) in
      on_stripe (on_op (modify (fun op => mkOperation (operations op) (op_sync op) (op_env range))));;
      lift o;;
      let found := imap (fun i op => (i, default [] (op_callback op ≫= cb_keys))) (operations range) in
      mapM (fun '(i, opkeys) => mapM (insert_handoff_key skip_value i) opkeys) found;;
      mret (existsb (fun '(_, opkeys) => negb (bool_decide (opkeys = []))) found)
  end.

(** Adding the parity chunks; chunks already obtained are not fetched again. *)
Definition add_parities (skip_value : bool) : M GetOp unit :=
  w ← get;
  let rp := redundancy (get_stripe w) in
  when (bool_decide (length (get_ops w) = numData rp))
    (on_stripe (on_op (expandStripe (numParity rp) (length (get_ops w));; fillOperationVector skip_value))).

Definition GET_execute (skip_value : bool) : M GetOp StatusCode :=
  r ← attempt (do_execute skip_value);
  match r with
  | Some status => mret status
  | None =>
      add_parities skip_value;;
      r ← attempt (do_execute skip_value);
      match r with
      | Some status => mret status
      | None =>
          inserted ← insertHandoffChunks skip_value;
          if (inserted : bool) then
            r ← attempt (do_execute skip_value);
            mret (default CLIENT_IO_ERROR r)
          else mret CLIENT_IO_ERROR
      end
  end.

Definition getVersion (w : GetOp) : option bytes := version (get_version w).
Definition getValue (w : GetOp) : option bytes := get_value w.

End Operations.
End StripeOperation.
Export StripeOperation.

(** ** Lemmas: placement *)

Definition ring (nconn : nat) (start : Z) (size : nat) : list nat :=
  (fun i => Z.to_nat ((start + Z.of_nat i) mod Z.of_nat nconn)) <$> seq 0 size.

Lemma stripe_indices_ring nconn index size :
  (0 < nconn)%nat -> Z.of_nat nconn < 2 ^ 32 -> stripe_indices nconn index size = ring nconn (u32 (index + 1)) size.
Proof.
  intros Hn Hw. revert index. induction size as [|size IH]; intros index; [done|].
  cbn [stripe_indices]. rewrite IH. unfold ring. cbn [seq fmap list_fmap]. rewrite Z.add_0_r. f_equal.
  rewrite <- fmap_S_seq, <- list_fmap_compose. apply list_fmap_ext. intros _ i _. simpl.
  assert (0 <= u32 (index + 1) mod Z.of_nat nconn < Z.of_nat nconn) by (apply Z.mod_pos_bound; lia).
  rewrite (u32_small (_ mod _ + 1)) by lia. f_equal.
  rewrite <- Z.add_assoc, Zplus_mod_idemp_l. f_equal; lia.
Qed.

Lemma ring_lookup nconn start size i x :
  ring nconn start size !! i = Some x <-> (i < size)%nat /\ x = Z.to_nat ((start + Z.of_nat i) mod Z.of_nat nconn).
Proof.
  unfold ring. rewrite list_lookup_fmap, fmap_Some. split.
  - intros (j & [-> Hj]%lookup_seq & ->). done.
  - intros [Hi ->]. exists i. split; [|done]. by apply lookup_seq.
Qed.

Lemma ring_app nconn start a b : ring nconn start a ++ ring nconn (start + Z.of_nat a) b = ring nconn start (a + b).
Proof.
  unfold ring. rewrite seq_app, fmap_app. f_equal. rewrite (Nat.add_comm 0 a), <- fmap_add_seq, <- list_fmap_compose.
  apply list_fmap_ext. intros _ i _. simpl. do 2 f_equal. lia.
Qed.

Lemma ring_mod nconn s s' n : s mod Z.of_nat nconn = s' mod Z.of_nat nconn -> ring nconn s n = ring nconn s' n.
Proof.
  intros E. apply list_fmap_ext. intros _ i _. f_equal. rewrite <- Zplus_mod_idemp_l, E. apply Zplus_mod_idemp_l.
Qed.

Lemma ring_NoDup nconn start size : (0 < nconn)%nat -> (size <= nconn)%nat -> NoDup (ring nconn start size).
Proof.
  intros Hn Hs. apply NoDup_alt. intros i j x [Hi ->]%ring_lookup [Hj E]%ring_lookup.
  assert (forall y, 0 <= y mod Z.of_nat nconn < Z.of_nat nconn) as Hb by (intros; apply Z.mod_pos_bound; lia).
  apply (f_equal Z.of_nat) in E. rewrite !Z2Nat.id in E by apply Hb.
  assert ((Z.of_nat i - Z.of_nat j) mod Z.of_nat nconn = 0) as Hd.
  { replace (Z.of_nat i - Z.of_nat j) with ((start + Z.of_nat i) - (start + Z.of_nat j)) by lia.
    rewrite Zminus_mod, E, Z.sub_diag. done. }
  apply Z.mod_divide in Hd as [q Hq]; [|lia]. destruct (Z.lt_trichotomy q 0) as [|[->|]]; [exfalso; nia|lia|exfalso; nia].
Qed.

(** ** Lemmas: versions *)

(** The version a callback stands for: that of a successful read. *)
Definition seen (skip_value : bool) (cb : callback) : option bytes :=
  if cb_ok cb then (if skip_value then Some (cb_version cb) else rec_version <$> cb_record cb) else None.

(** A successful read has its record. *)
Definition readable (skip_value : bool) (cb : callback) : Prop :=
  cb_ok cb = true -> skip_value = false -> is_Some (cb_record cb).

(** The number of callbacks that saw version [v]. *)
Definition occurrences (skip_value : bool) (v : bytes) (cbs : list callback) : Z :=
  Z.of_nat (length (filter (fun cb => seen skip_value cb = Some v) cbs)).

Lemma callback_version_seen skip cb : readable skip cb -> cb_ok cb = true ->
  exists v, callback_version skip cb = Ret v /\ seen skip cb = Some v.
Proof.
  intros Hr Hok. unfold callback_version, seen. rewrite Hok. destruct skip; [by eexists|].
  destruct (Hr Hok eq_refl) as [r ->]. by eexists.
Qed.

Lemma versions_equal_seen skip o l : readable skip o -> readable skip l ->
  versions_equal skip o l = Ret (bool_decide (is_Some (seen skip o) /\ seen skip o = seen skip l)).
Proof.
  intros Ho Hl. unfold versions_equal. destruct (cb_ok o) eqn:Eo; simpl.
  2: { rewrite bool_decide_eq_false_2; [done|]. unfold seen. rewrite Eo. intros [[] _]. done. }
  destruct (callback_version_seen skip o Ho Eo) as (v & Hcv & Hv). destruct (cb_ok l) eqn:El; simpl.
  2: { rewrite bool_decide_eq_false_2; [done|]. rewrite Hv. unfold seen. rewrite El. naive_solver. }
  destruct (callback_version_seen skip l Hl El) as (v' & Hcv' & Hv').
  rewrite Hcv. cbn. rewrite Hcv'. cbn. f_equal. apply bool_decide_ext. rewrite Hv, Hv'. naive_solver.
Qed.

Definition freq_of (skip_value : bool) (cbs : list callback) (o : callback) : Z :=
  match seen skip_value o with Some v => occurrences skip_value v cbs | None => 0 end.

Lemma version_frequency_spec skip cbs o :
  Forall (readable skip) cbs -> readable skip o -> version_frequency skip cbs o = Ret (freq_of skip cbs o).
Proof.
  intros Hr Ho. unfold version_frequency.
  assert (forall n, foldl (fun acc l => n ← acc; e ← versions_equal skip o l; Ret (if (e : bool) then n + 1 else n)) (Ret n) cbs
    = Ret (n + freq_of skip cbs o)) as Hn; [|by rewrite Hn].
  unfold freq_of, occurrences. induction Hr as [|l cbs Hl Hr IH]; intros n; cbn [foldl].
  { destruct (seen skip o); simpl; by rewrite Z.add_0_r. }
  rewrite versions_equal_seen by done. cbn [mbind outcome_bind]. rewrite IH.
  destruct (seen skip o) as [v|] eqn:Ev; [|by rewrite bool_decide_eq_false_2 by naive_solver; f_equal; lia].
  rewrite filter_cons. case_bool_decide as Hb; case_decide; simpl; try (f_equal; lia); destruct Hb; naive_solver.
Qed.

Lemma occurrences_disjoint skip v v' cbs : v <> v' -> occurrences skip v cbs + occurrences skip v' cbs <= slen cbs.
Proof.
  intros Hne. unfold occurrences, slen. induction cbs as [|cb cbs IH]; [done|].
  rewrite !filter_cons. do 2 case_decide; simpl; try lia. congruence.
Qed.

Lemma occurrences_nonneg skip v cbs : 0 <= occurrences skip v cbs.
Proof. unfold occurrences. lia. Qed.

Definition best (skip : bool) (cbs : list callback) (f : Z) (el : option callback) : Prop :=
  0 <= f /\ (f = 0 \/ exists e, el = Some e /\ e ∈ cbs /\ freq_of skip cbs e = f).

Lemma most_frequent_loop_spec skip cbs todo freq el :
  Forall (readable skip) cbs -> (forall x, x ∈ todo -> x ∈ cbs) ->
  (forall x, x ∈ cbs -> x ∉ todo -> freq_of skip cbs x <= freq) -> best skip cbs freq el ->
  exists f e, most_frequent_loop skip cbs todo freq el = Ret (f, e) /\ best skip cbs f e /\
    forall x, x ∈ cbs -> freq_of skip cbs x <= f.
Proof.
  intros Hr. revert freq el. induction todo as [|o todo IH]; intros freq el Hin Hdone Hbest; cbn [most_frequent_loop].
  { exists freq, el. split_and!; [done..|]. intros x Hx. apply Hdone; [done|]. apply not_elem_of_nil. }
  assert (o ∈ cbs) as Ho by (apply Hin; by left).
  rewrite version_frequency_spec by (done || by eapply Forall_forall). cbn [mbind outcome_bind].
  set (f := freq_of skip cbs o).
  set (p := if freq <? f then (f, Some o) else (freq, el)).
  assert (best skip cbs p.1 p.2 /\ freq <= p.1 /\ f <= p.1) as (Hb & Hle & Hlf).
  { unfold p. destruct (Z.ltb_spec freq f); simpl; [|done]. split_and!; try lia.
    split; [destruct Hbest; lia|]. right. by exists o. }
  destruct p as [freq' el'] eqn:Ep. simpl in *. destruct (Z.ltb_spec (slen cbs / 2) f) as [Hmaj|].
  - exists freq', el'. split_and!; [done..|]. intros x Hx. etrans; [|exact Hlf].
    unfold f, freq_of in *. destruct (seen skip x) as [v'|] eqn:Ex, (seen skip o) as [v|] eqn:Ev.
    + destruct (decide (v = v')) as [->|Hne]; [done|]. pose proof (occurrences_disjoint skip v v' cbs Hne).
      pose proof (Z.div_mod (slen cbs) 2 ltac:(lia)). pose proof (Z.mod_pos_bound (slen cbs) 2 ltac:(lia)). lia.
    + pose proof (Z.div_pos (slen cbs) 2 (slen_nonneg cbs)). lia.
    + apply occurrences_nonneg.
    + done.
  - apply IH; [intros x Hx; apply Hin; by right| |done].
    intros x Hx Hnt. destruct (decide (freq_of skip cbs x <= f)); [lia|].
    etrans; [|exact Hle]. apply Hdone; [done|]. rewrite elem_of_cons. intros [->|]; [|done]. unfold f in *. lia.
Qed.

Lemma freq_of_occurrences skip v cbs : occurrences skip v cbs <> 0 -> exists x, x ∈ cbs /\ freq_of skip cbs x = occurrences skip v cbs.
Proof.
  unfold occurrences. intros Hne. destruct (filter (fun cb => seen skip cb = Some v) cbs) as [|x l] eqn:E; [done|].
  assert (x ∈ filter (fun cb => seen skip cb = Some v) cbs) as [Hx Hin]%list_elem_of_filter by (rewrite E; by left).
  exists x. split; [done|]. unfold freq_of. by rewrite Hx; unfold occurrences; rewrite E.
Qed.

Lemma most_frequent_spec skip cbs :
  Forall (readable skip) cbs ->
  exists vc, most_frequent skip cbs = Ret vc /\ 0 <= frequency vc /\
    (forall v, occurrences skip v cbs <= frequency vc) /\
    match version vc with
    | Some v => 0 < frequency vc /\ occurrences skip v cbs = frequency vc
    | None => frequency vc = 0
    end.
Proof.
  intros Hr. unfold most_frequent.
  destruct (most_frequent_loop_spec skip cbs cbs 0 (head cbs)) as (f & el & E & [Hf Hb] & Hall); try done.
  { split; [done|by left]. }
  rewrite E. cbn.
  assert (forall v, occurrences skip v cbs <= f) as Hocc.
  { intros v. destruct (decide (occurrences skip v cbs = 0)) as [->|Hne]; [done|].
    destruct (freq_of_occurrences skip v cbs Hne) as (x & Hx & <-). by apply Hall. }
  destruct (Z.eqb_spec f 0) as [->|Hne]; [eexists; split; [done|]; done|].
  destruct Hb as [|(e & -> & He & Hfe)]; [done|]. cbn.
  unfold freq_of in Hfe. destruct (seen skip e) as [v|] eqn:Ev; [|lia].
  assert (cb_ok e = true) as Hok. { unfold seen in Ev. by destruct (cb_ok e). }
  destruct (callback_version_seen skip e) as (v' & -> & Hv'); [by eapply Forall_forall|done|].
  cbn. eexists. split; [done|]. simpl. simplify_eq. split_and!; try done. lia.
Qed.

(** ** Lemmas: putting a value together *)

Lemma merge_chunks_take size value stripe :
  slen value <= size -> merge_chunks size value stripe = take (Z.to_nat size) (value ++ concat stripe).
Proof.
  revert value. induction stripe as [|c stripe IH]; intros value Hv; cbn [merge_chunks concat].
  - rewrite app_nil_r, take_ge; [done|]. unfold slen in *. lia.
  - destruct (Z.leb_spec (slen value + slen c) size) as [Hle|Hgt].
    + rewrite IH by (rewrite slen_app; lia). by rewrite app_assoc.
    + unfold slen in *. rewrite take_app_ge, take_app_le by lia. do 2 f_equal. lia.
Qed.

(** What is stored of a stripe: data chunks beyond the value are zeroes and are not written. *)
Definition stored_stripe (used k : nat) (full : list bytes) : list bytes :=
  imap (fun i c => if decide (used <= i < k)%nat then [] else c) full.

Lemma stored_lookup used k full i :
  stored_stripe used k full !! i = (fun c => if decide (used <= i < k)%nat then [] else c) <$> full !! i.
Proof. unfold stored_stripe. by rewrite list_lookup_imap. Qed.

Lemma foldl_insert_lookup {A} (z : list nat) (x : A) (l : list A) i :
  foldl (fun l i => <[i := x]> l) l z !! i = if decide (i ∈ z) then (fun _ => x) <$> l !! i else l !! i.
Proof.
  revert l. induction z as [|j z IH]; intros l; [done|]. cbn [foldl]. rewrite IH.
  destruct (decide (i = j)) as [->|Hne].
  - rewrite (decide_True (P := j ∈ j :: z)) by (by left). destruct (decide (j < length l)%nat) as [Hlt|Hge].
    + rewrite list_lookup_insert_eq by done. destruct (lookup_lt_is_Some_2 l j Hlt) as [y ->]. by case_decide.
    + rewrite list_insert_ge, lookup_ge_None_2 by lia. by case_decide.
  - rewrite list_lookup_insert_ne by done. repeat case_decide; try done; rewrite elem_of_cons in *; naive_solver.
Qed.

Section Reconstruct.
Context `{IsaLaws k m}.

(** [chunks] is a read of the stored stripe in which some chunks may not be usable. *)
Record reads (cs used : nat) (full : list bytes) (chunks : list chunk_state) : Prop := {
  reads_stripe : valid_stripe (k:=k) (m:=m) cs full;
  reads_used : (1 <= used <= k)%nat;
  reads_size : (0 < cs)%nat;
  reads_zero : forall i, (used <= i < k)%nat -> full !! i = Some (replicate cs NUL);
  reads_good : forall i c, chunks !! i = Some (Good c) -> stored_stripe used k full !! i = Some c;
}.

Definition bad (chunks : list chunk_state) : list bool := (fun c => negb (is_good c)) <$> chunks.

Lemma reads_nonempty cs used full chunks i c :
  reads cs used full chunks -> chunks !! i = Some (Good c) -> c <> [] -> length c = cs.
Proof.
  intros [Hv _ _ _ Hg] Hi Hne. apply Hg in Hi. rewrite stored_lookup in Hi.
  apply fmap_Some in Hi as (d & Hd & ->). case_decide; [done|].
  apply valid_stripe_lengths in Hv as [_ Hf]. exact (Forall_lookup_1 _ _ _ _ Hf Hd).
Qed.

(** The first non-empty chunk has the chunk size, and there is one when enough chunks were read. *)
Lemma chunk_size_reads cs used full chunks :
  reads cs used full chunks -> (exists i c, chunks !! i = Some (Good c) /\ c <> []) ->
  chunk_size (chunk_value <$> chunks) = cs.
Proof.
  intros Hr (i & c & Hi & Hc). unfold chunk_size.
  destruct (list_find (fun c => c <> []) (chunk_value <$> chunks)) as [[j d]|] eqn:E.
  - apply list_find_Some in E as (Hj & Hd & _). rewrite list_lookup_fmap in Hj.
    apply fmap_Some in Hj as (x & Hx & ->). destruct x as [d| |]; [|done..].
    by eapply reads_nonempty.
  - exfalso. apply list_find_None in E. rewrite Forall_fmap, Forall_lookup in E.
    specialize (E i _ Hi). by apply E.
Qed.

(** Counting: [k] usable chunks cannot all stand for zeroes. *)
Lemma count_true_le_positions (l : list bool) n :
  (forall i, l !! i = Some false -> (i < n)%nat) -> (count_false l <= n)%nat.
Proof.
  revert n. induction l as [|b l IH]; intros n Hn; simpl; [lia|].
  destruct n as [|n].
  - destruct b; [|specialize (Hn 0%nat eq_refl); lia]. apply (IH 0%nat). intros i Hi. specialize (Hn (S i) Hi). lia.
  - assert (count_false l <= n)%nat; [|destruct b; lia]. apply IH. intros i Hi. specialize (Hn (S i) Hi). lia.
Qed.

Lemma reads_some_data cs used full chunks rp :
  reads cs used full chunks -> provider_ok (k:=k) (m:=m) rp -> length chunks = m -> (count_true (bad chunks) <= nParity rp)%nat ->
  exists i c, chunks !! i = Some (Good c) /\ c <> [].
Proof.
  intros Hr (_ & Hm & _) Hl Hb.
  destruct (decide (Exists (fun c => is_good c = true /\ is_zeroed c = false) chunks)) as [Hx|Hx].
  { apply Exists_exists in Hx as (c & [i Hi]%list_elem_of_lookup & Hg & Hz). destruct c as [[|a c]| |]; try done. by exists i, (a :: c). }
  exfalso. apply not_Exists_Forall in Hx; [|solve_decision]. rewrite Forall_lookup in Hx.
  assert (forall i, bad chunks !! i = Some false -> (used <= i < k)%nat) as Hpos.
  { intros i Hi. unfold bad in Hi. rewrite list_lookup_fmap in Hi. apply fmap_Some in Hi as (c & Hc & Hg).
    specialize (Hx i c Hc). destruct c as [[|a c]| |]; simpl in *; try done; [|by destruct Hx].
    apply (reads_good _ _ _ _ Hr) in Hc. rewrite stored_lookup in Hc. apply fmap_Some in Hc as (d & Hd & E).
    case_decide; [done|]. subst d. destruct (valid_stripe_lengths _ _ (reads_stripe _ _ _ _ Hr)) as [_ Hf].
    apply (Forall_lookup_1 _ _ _ _ Hf) in Hd. pose proof (reads_size _ _ _ _ Hr). simpl in Hd. lia. }
  pose proof (count_false_true (bad chunks)) as Hcnt. pose proof (reads_used _ _ _ _ Hr).
  unfold bad in Hcnt at 3. rewrite length_fmap, Hl in Hcnt.
  assert (count_false (bad chunks) <= k - 1)%nat; [|lia].
  destruct (bad chunks) as [|b l]; [simpl; lia|]. destruct b; [simpl|specialize (Hpos 0%nat eq_refl); lia].
  apply count_true_le_positions. intros i Hi. specialize (Hpos (S i) Hi). lia.
Qed.

Lemma zeroed_elem nD chunks i : i ∈ zeroed_indices nD chunks <-> (i < nD)%nat /\ chunks !! i = Some (Good []).
Proof.
  unfold zeroed_indices. rewrite list_elem_of_filter, elem_of_seq. split.
  - intros [[Hi Hz] _]. split; [done|]. destruct (chunks !! i) as [[[|]| |]|]; done.
  - intros [Hi Hz]. rewrite Hz. apply lookup_lt_Some in Hz. split; [done|lia].
Qed.

Lemma fill_zeroes_damaged cs used full chunks :
  reads cs used full chunks -> length chunks = m -> chunk_size (chunk_value <$> chunks) = cs ->
  damaged (bad chunks) full (Some <$> fill_zeroes (zeroed_indices k chunks) (chunk_value <$> chunks)).
Proof.
  intros Hr Hl Hcs. destruct (valid_stripe_lengths _ _ (reads_stripe _ _ _ _ Hr)) as [Hfl Hf].
  assert (length (fill_zeroes (zeroed_indices k chunks) (chunk_value <$> chunks)) = length chunks) as Hlen.
  { unfold fill_zeroes. generalize (zeroed_indices k chunks) (chunk_size (chunk_value <$> chunks)). intros z n.
    rewrite <- (length_fmap chunk_value chunks). generalize (chunk_value <$> chunks).
    induction z as [|j z IH]; intros l; [done|]. cbn [foldl]. by rewrite IH, length_insert. }
  split; [|by rewrite length_fmap, Hlen, Hfl, Hl].
  apply Forall2_same_length_lookup. split.
  { unfold bad. rewrite length_zip_with, !length_fmap, Hlen. lia. }
  intros i b [d x] Hb [Hd Hx]%lookup_zip_Some. simpl. unfold bad in Hb. rewrite list_lookup_fmap in Hb; rewrite list_lookup_fmap in Hx.
  unfold fill_zeroes in Hx. rewrite foldl_insert_lookup, list_lookup_fmap, Hcs in Hx.
  apply fmap_Some in Hb as (c & Hc & ->). rewrite Hc in Hx.
  destruct c as [c| |]; simpl.
  - pose proof (reads_good _ _ _ _ Hr _ _ Hc) as Hs. rewrite stored_lookup, Hd in Hs. simpl in Hs.
    destruct (decide (used <= i < k)%nat) as [Hu|Hu], (decide (i ∈ zeroed_indices k chunks)) as [Hz|Hz];
      simpl in Hx; simplify_eq.
    + rewrite (reads_zero _ _ _ _ Hr i Hu) in Hd. by simplify_eq.
    + destruct Hz. apply zeroed_elem. split; [lia|done].
    + exfalso. apply zeroed_elem in Hz as [_ Hz]. simplify_eq. apply (Forall_lookup_1 _ _ _ _ Hf) in Hd.
      pose proof (reads_size _ _ _ _ Hr). simpl in Hd. lia.
    + done.
  - destruct (decide (i ∈ zeroed_indices k chunks)) as [Hz|Hz]; simpl in Hx; [|naive_solver]. apply zeroed_elem in Hz as [_ Hz]. naive_solver.
  - destruct (decide (i ∈ zeroed_indices k chunks)) as [Hz|Hz]; simpl in Hx; [|naive_solver]. apply zeroed_elem in Hz as [_ Hz]. naive_solver.
Qed.

Lemma recover_chunks cs used full chunks rp :
  reads cs used full chunks -> provider_ok (k:=k) (m:=m) rp -> (m <= 255)%nat ->
  length chunks = m -> (count_true (bad chunks) <= nParity rp)%nat ->
  exists rp', compute (Some <$> fill_zeroes (zeroed_indices k chunks) (chunk_value <$> chunks)) rp =
    (Ret (Some <$> full), rp') /\ provider_ok (k:=k) (m:=m) rp'.
Proof.
  intros Hr Hrp Hm Hl Hb. pose proof (reads_used _ _ _ _ Hr).
  eapply compute_damaged; [done|lia|done|apply (reads_size _ _ _ _ Hr)|apply (reads_stripe _ _ _ _ Hr)| |done].
  eapply fill_zeroes_damaged; [done..|]. eapply chunk_size_reads; [done|]. by eapply reads_some_data.
Qed.

Lemma take_concat_prefix (value : bytes) used (full l : list bytes) :
  value = take (length value) (concat (take used full)) -> take used l = take used full ->
  take (length value) (concat l) = value.
Proof.
  intros Hv Hl. rewrite <- (take_drop used l), concat_app, Hl, take_app_le; [by symmetry|].
  apply (f_equal length) in Hv. rewrite length_take in Hv. lia.
Qed.

Lemma good_prefix cs used full chunks :
  reads cs used full chunks -> (k <= length chunks)%nat -> forallb is_good chunks = true ->
  take used (chunk_value <$> chunks) = take used full.
Proof.
  intros Hr Hl Hg. apply list_eq. intros i. destruct (decide (i < used)%nat) as [Hi|Hi].
  2: { rewrite !lookup_ge_None_2; [done|rewrite length_take; lia..]. }
  rewrite !lookup_take_lt, list_lookup_fmap by done. pose proof (reads_used _ _ _ _ Hr).
  destruct (lookup_lt_is_Some_2 chunks i) as [c Hc]; [lia|]. rewrite Hc. simpl.
  rewrite forallb_forall in Hg. pose proof (Hg c) as Hgc. rewrite <- list_elem_of_In in Hgc.
  destruct c as [c| |]; [|by discriminate Hgc; eapply list_elem_of_lookup_2..].
  apply (reads_good _ _ _ _ Hr) in Hc. rewrite stored_lookup in Hc. apply fmap_Some in Hc as (d & Hd & ->).
  rewrite decide_False by lia. done.
Qed.

Lemma mapM_callbacks {A} (f : callback -> A) ops cbs :
  op_callback <$> ops = Some <$> cbs -> mapM (fun op => cb ← deref (op_callback op); Ret (f cb)) ops = Ret (f <$> cbs).
Proof.
  revert cbs. induction ops as [|op ops IH]; intros [|cb cbs] E; try done. cbn in E. injection E as E1 E2.
  cbn. rewrite E1. cbn. specialize (IH cbs E2). cbn in IH. by rewrite IH.
Qed.

Lemma mapM_deref_Some {A} (l : list A) : mapM deref (Some <$> l) = Ret l.
Proof. induction l as [|x l IH]; [done|]. cbn in *. by rewrite IH. Qed.

Lemma mapM_callback_deref ops (cbs : list callback) :
  op_callback <$> ops = Some <$> cbs -> mapM (fun op => deref (op_callback op)) ops = Ret cbs.
Proof.
  revert cbs. induction ops as [|op ops IH]; intros [|cb cbs] E; try done. cbn in E. injection E as E1 E2.
  cbn. rewrite E1. cbn. specialize (IH cbs E2). cbn in IH. by rewrite IH.
Qed.

Section ReconstructValue.
Context `{Env D} `{StatusInt} `{Checksum}.

(** A read that can serve the value: all chunks of a data-only read, or enough of a full one. *)
Definition enough (rp : RedundancyProvider) (chunks : list chunk_state) : Prop :=
  ((k <= length chunks)%nat /\ forallb is_good chunks = true) \/
  (length chunks = m /\ (count_true (bad chunks) <= nParity rp)%nat).

Lemma reconstructValue_spec (w : StripeOperation_GET D) value v cs used full cbs :
  provider_ok (k:=k) (m:=m) (redundancy (get_stripe w)) -> (m <= 255)%nat ->
  version (get_version w) = Some v -> uuidDecodeSize (Some v) = Ret (slen value) -> value <> [] ->
  op_callback <$> get_ops w = Some <$> cbs ->
  let chunks := check_chunk v <$> cbs in
  reads cs used full chunks -> value = take (length value) (concat (take used full)) ->
  enough (redundancy (get_stripe w)) chunks ->
  exists w', reconstructValue w = (Ret tt, w') /\ get_value w' = Some value /\ get_version w' = get_version w /\
    provider_ok (k:=k) (m:=m) (redundancy (get_stripe w')).
Proof.
  intros Hrp Hm Hv Hsz Hne Hcbs chunks Hr Hval Hen. destruct w as [[o ni rp] vc val]. simpl in Hrp, Hv, Hen.
  unfold reconstructValue. unfold set_value. mstep.
  cbn [get_version get_stripe redundancy].
 rewrite Hv, Hsz. mstep.
  assert ((slen value =? 0) = false) as ->. { destruct value; [done|]. unfold slen. simpl. lia. }
  cbn [deref]. mstep. rewrite (mapM_callbacks (check_chunk v) _ cbs) by done. mstep. fold chunks.
  set (ni' := if existsb is_bad_crc chunks then true else ni).
  rewrite (bind_ret _ _ _ tt (mkGet (mkStripe o ni' rp) vc (Some []))) by (unfold ni'; by destruct (existsb _ _)).
  assert (exists st rp', (if forallb is_good chunks then mret (Some <$> (chunk_value <$> chunks)) else
    on_redundancy (compute (Some <$> fill_zeroes (zeroed_indices (numData rp) chunks) (chunk_value <$> chunks))))
    (mkGet (mkStripe o ni' rp) vc (Some [])) = (Ret (Some <$> st), mkGet (mkStripe o ni' rp') vc (Some [])) /\
    take (length value) (concat st) = value /\ provider_ok (k:=k) (m:=m) rp') as (st & rp' & E & Hst & Hrp').
  { destruct (forallb is_good chunks) eqn:Hg.
    - exists (chunk_value <$> chunks), rp. split_and!; [done| |done]. apply (take_concat_prefix value used full); [done|].
      apply (good_prefix cs); [done| |done]. destruct Hen as [[]|[-> _]]; [done|].
      destruct Hrp as (_ & <- & _). lia.
    - destruct Hen as [[_ Hf]|[Hl Hb]]; [by rewrite Hg in Hf|].
      destruct (recover_chunks cs used full chunks rp) as (rp' & E & Hrp'); try done.
      exists full, rp'. split_and!; [|by apply (take_concat_prefix value used full)|done].
      unfold on_redundancy, on_stripe, zoom. cbn [get_stripe redundancy so_op need_indicator get_version get_value].
      destruct Hrp as (Hk & _). unfold numData. rewrite Hk. by rewrite E. }
  rewrite (bind_ret _ _ _ _ _ E), mapM_deref_Some. mstep.
  eexists. split; [done|]. cbn [get_value get_version get_stripe redundancy]. split_and!; [|done..].
  f_equal. rewrite merge_chunks_take by apply slen_nonneg. by rewrite to_nat_slen.
Qed.

End ReconstructValue.
End Reconstruct.

(** ** Lemmas: filling operations *)

Section Filling.
Context `{Env D} `{StatusInt} `{Checksum} `{IsaL}.
Variables (nconn : nat) (key : bytes).

(** An operation that was bound to a request, with a fresh callback. *)
Definition bound (c : callback_class) (req : request) (op : KineticAsyncOperation) : KineticAsyncOperation :=
  mkOp (Some req) (Some (fst (new_callback c 0))) (op_connection op).

Lemma bound_ready c req op : op_ready (bound c req op).
Proof. eexists. split; [done|]. intros _. by eexists. Qed.

Lemma assign_spec i c req (o : KineticClusterOperation D) op :
  operations o !! i = Some op ->
  assign i c req o = (Ret tt, mkOperation (<[i := bound c req op]> (operations o)) (op_sync o + 1) (op_env o)).
Proof. intros Hi. unfold assign. mstep. rewrite Hi. cbn [deref]. by mstep. Qed.

(** A loop that updates one operation after the other, all of them such that [P]. *)
Lemma fill_loop (P : KineticAsyncOperation -> Prop) (f : nat -> M (KineticClusterOperation D) unit)
    (g : nat -> KineticAsyncOperation -> KineticAsyncOperation) n o :
  (forall i op o, (i < n)%nat -> operations o !! i = Some op -> P op ->
    f i o = (Ret tt, mkOperation (<[i := g i op]> (operations o)) (op_sync o + 1) (op_env o))) ->
  length (operations o) = n -> Forall P (operations o) ->
  mapM f (seq 0 n) o = (Ret (replicate n tt), mkOperation (imap g (operations o)) (op_sync o + Z.of_nat n) (op_env o)).
Proof.
  intros Hf Hl HP.
  assert (forall j l o, (j + length l = n)%nat -> drop j (operations o) = l -> (j <= length (operations o))%nat -> Forall P l ->
    mapM f (seq j (length l)) o = (Ret (replicate (length l) tt),
      mkOperation (take j (operations o) ++ imap (fun i => g (j + i)%nat) l) (op_sync o + Z.of_nat (length l)) (op_env o))) as Hgen.
  { intros j l. revert j. induction l as [|op l IH]; intros j o' Hn Hd Hj HPl.
    - simpl. rewrite app_nil_r, take_ge by (apply (f_equal length) in Hd; rewrite length_drop in Hd; simpl in Hd; lia).
      destruct o'. unfold mret, M_ret. simpl. by rewrite Z.add_0_r.
    - apply Forall_cons in HPl as [HPop HPl]. assert (operations o' !! j = Some op) as Hop.
      { rewrite <- (Nat.add_0_r j), <- lookup_drop, Hd. done. }
      pose proof (lookup_lt_Some _ _ _ Hop). simpl in Hn.
      cbn [length seq mapM]. rewrite (bind_ret _ _ _ _ _ (Hf j op o' ltac:(lia) Hop HPop)).
      assert (drop (S j) (<[j := g j op]> (operations o')) = l) as Hd'.
      { rewrite drop_insert_lt by lia. rewrite (drop_S _ _ _ Hop) in Hd. by injection Hd. }
      rewrite (bind_ret _ _ _ _ _ (IH (S j) (mkOperation (<[j := g j op]> (operations o')) (op_sync o' + 1) (op_env o'))
        ltac:(lia) Hd' ltac:(cbn [operations]; rewrite length_insert; lia) HPl)).
      cbn [operations op_sync op_env]. unfold mret, M_ret. f_equal. f_equal; [|lia].
      rewrite imap_cons, Nat.add_0_r. rewrite (take_S_r _ _ (g j op)) by (by apply list_lookup_insert_eq).
      rewrite take_insert_ge, <- app_assoc by lia. f_equal. cbn [app]. f_equal. apply imap_ext. intros. simpl. f_equal. lia. }
  specialize (Hgen 0%nat (operations o) o). rewrite drop_0, Hl in Hgen. apply Hgen; [lia|done|lia|done].
Qed.

Lemma on_op_ret {A} (f : M (KineticClusterOperation D) A) w a o :
  f (so_op w) = (Ret a, o) -> on_op f w = (Ret a, mkStripe o (need_indicator w) (redundancy w)).
Proof. intros E. unfold on_op, zoom. by rewrite E. Qed.

Lemma on_op_bind {A B} (f : M (KineticClusterOperation D) A) (g : A -> M (KineticClusterOperation D) B) w :
  on_op (f ≫= g) w = (on_op f ≫= fun a => on_op (g a)) w.
Proof.
  unfold on_op, zoom, mbind, M_bind. destruct (f (so_op w)) as [[a|e| |] o]; try done.
Qed.

Lemma mapM_on_op {A} (f : A -> M (KineticClusterOperation D) unit) (g : A -> M (KineticClusterStripeOperation D) unit) l w :
  (forall x w, x ∈ l -> g x w = on_op (f x) w) -> mapM g l w = on_op (mapM f l) w.
Proof.
  revert w. induction l as [|x l IH]; intros w Hg; [by destruct w|]. cbn [mapM].
  rewrite on_op_bind, !bind_unfold, Hg by (by left). destruct (on_op (f x) w) as [[a|e| |] w']; try done.
  rewrite on_op_bind, !bind_unfold, IH by (intros; apply Hg; by right).
  destruct (on_op (mapM f l) w') as [[b|e| |] w'']; try done. by destruct w''.
Qed.

Lemma expandStripe_spec n offset (o : KineticClusterOperation D) :
  (0 < nconn)%nat ->
  expandStripe nconn key n offset o = (Ret tt, mkOperation
    (operations o ++ (mkOp None None <$> stripe_indices nconn (stripe_start key offset) n)) (op_sync o) (op_env o)).
Proof. intros Hn. unfold expandStripe. by rewrite bool_decide_eq_false_2 by lia. Qed.

Lemma length_stripe_indices index n : length (stripe_indices nconn index n) = n.
Proof. revert index. induction n as [|n IH]; intros index; simpl; [done|]. by rewrite IH. Qed.

(** The requests of a put: one per chunk, on the drives of the stripe. *)
Definition put_operations (version_new version_old : bytes) (mode : WriteMode) (values : list bytes) : list KineticAsyncOperation :=
  zip_with (fun value conn => bound PutCallback
    (Put key version_old mode (makeRecord value version_new) WRITE_BACK) (mkOp None None conn))
    values (stripe_indices nconn (stripe_start key 0) (length values)).

Lemma StripeOperation_PUT_spec version_new values version_old mode (w : KineticClusterStripeOperation D) :
  (0 < nconn)%nat -> operations (so_op w) = [] -> length values = size (redundancy w) ->
  StripeOperation_PUT nconn key version_new (Some <$> values) version_old mode w =
    (Ret tt, mkStripe (mkOperation (put_operations version_new version_old mode values)
       (op_sync (so_op w) + Z.of_nat (length values)) (op_env (so_op w))) (need_indicator w) (redundancy w)).
Proof.
  intros Hn Ho Hl. unfold StripeOperation_PUT. mstep. rewrite length_fmap, bool_decide_eq_false_2 by lia.
  rewrite (bind_ret _ _ _ _ _ (on_op_ret _ _ _ _ (expandStripe_spec _ _ _ Hn))), Ho. cbn [app so_op need_indicator redundancy operations op_sync op_env].
  set (req i := Put key version_old mode (makeRecord (default [] (values !! i)) version_new) WRITE_BACK).
  set (ops := mkOp None None <$> _).
  assert (mapM (fun i => put_fillOperation key version_new (Some <$> values) i version_old mode) (seq 0 (length values))
    (mkStripe (mkOperation ops (op_sync (so_op w)) (op_env (so_op w))) (need_indicator w) (redundancy w)) =
    (Ret (replicate (length values) tt), mkStripe (mkOperation (imap (fun i => bound PutCallback (req i)) ops)
      (op_sync (so_op w) + Z.of_nat (length values)) (op_env (so_op w))) (need_indicator w) (redundancy w))) as E.
  { rewrite (mapM_on_op (fun i => assign i PutCallback (req i))).
    - exact (on_op_ret _ (mkStripe (mkOperation ops _ _) (need_indicator w) (redundancy w)) _ _
        (fill_loop (fun _ => True) (fun i => assign i PutCallback (req i)) (fun i => bound PutCallback (req i)) (length values)
        (mkOperation ops (op_sync (so_op w)) (op_env (so_op w)))
        (fun i op o _ Hop _ => assign_spec i _ _ o op Hop)
        ltac:(cbn [operations]; unfold ops; by rewrite length_fmap, length_stripe_indices) (Forall_true _ _ (fun _ => I)))).
    - intros i w' Hi%elem_of_seq. unfold put_fillOperation. rewrite list_lookup_fmap.
      destruct (lookup_lt_is_Some_2 values i) as [x Hx]; [lia|]. unfold req. by rewrite Hx. }
  rewrite (bind_ret _ _ _ _ _ E). unfold mret, M_ret. do 4 f_equal.
  unfold put_operations, ops. apply list_eq. intros i. rewrite list_lookup_imap, list_lookup_fmap, lookup_zip_with.
  destruct (values !! i) as [x|] eqn:Hx.
  - destruct (lookup_lt_is_Some_2 (stripe_indices nconn (stripe_start key 0) (length values)) i) as [c Hc].
    { rewrite length_stripe_indices. by eapply lookup_lt_Some. }
    rewrite Hc. simpl. unfold req. by rewrite Hx.
  - rewrite (lookup_ge_None_2 (stripe_indices _ _ _)); [done|]. rewrite length_stripe_indices. by apply lookup_ge_None.
Qed.

Lemma put_operations_ready version_new version_old mode values : Forall op_ready (put_operations version_new version_old mode values).
Proof.
  apply Forall_forall. intros op (i & Hi)%list_elem_of_lookup. unfold put_operations in Hi.
  apply lookup_zip_with_Some in Hi as (x & c & -> & _). apply bound_ready.
Qed.

End Filling.

(** ** Lemmas: decisions *)

Section Decisions.
Context `{Env D} `{SI : StatusInt} {SIL : StatusIntLaws}.
Implicit Types w : KineticClusterStripeOperation D.

(** The status a writing operation returns for a result map. *)
Definition decision (w : KineticClusterStripeOperation D) (rm : list (StatusCode * Z)) : option StatusCode :=
  find_quorum (Z.of_nat (nData (redundancy w))) rm.

Lemma put_decide_spec rm w :
  rmap_sorted rm ->
  put_decide rm w = (Ret (default CLIENT_IO_ERROR (decision w rm)),
    mkStripe (so_op w) (need_indicator w || (bool_decide (decision w rm = Some OK) &&
      (rmap_at OK rm <? Z.of_nat (size (redundancy w))))) (redundancy w)).
Proof.
  intros Hs. unfold put_decide, decision, find_quorum. mstep. unfold numData.
  destruct (list_find _ rm) as [[i [c n]]|] eqn:E; simpl.
  2: { rewrite orb_false_r. by destruct w. }
  apply list_find_Some in E as (Hi & _ & _). apply list_elem_of_lookup_2 in Hi. 
  destruct (decide (c = OK)) as [->|Hne].
  - rewrite (rmap_at_sorted _ _ _ Hs Hi), !bool_decide_eq_true_2 by done. simpl.
    destruct (n <? _); rewrite ?orb_true_r, ?orb_false_r; by destruct w.
  - rewrite !bool_decide_eq_false_2 by congruence. simpl. rewrite orb_false_r. by destruct w.
Qed.

(** What the decision means for the operations. *)
Lemma decision_spec w codes rm :
  rmap_sorted rm -> (forall c, rmap_at c rm = count_code c codes) -> (0 < nData (redundancy w))%nat ->
  match decision w rm with
  | Some c => Z.of_nat (nData (redundancy w)) <= count_code c codes
  | None => forall c, count_code c codes < Z.of_nat (nData (redundancy w))
  end.
Proof.
  intros Hs Hc Hn. unfold decision. destruct (find_quorum _ rm) as [c|] eqn:E.
  - apply find_quorum_spec in E as [E _]; [by rewrite <- Hc|lia|done].
  - intros c. rewrite <- Hc. apply find_quorum_none; [lia|done..].
Qed.

(** The status returned agrees with the results of the operations of [w]. *)
Definition decided (w : KineticClusterStripeOperation D) (status : StatusCode) : Prop :=
  let n c := count_code c (results (stripe_ops w)) in
  Z.of_nat (nData (redundancy w)) <= n status \/
  status = CLIENT_IO_ERROR /\ forall c, n c < Z.of_nat (nData (redundancy w)).

Lemma put_decide_decided rm w :
  rmap_sorted rm -> (forall c, rmap_at c rm = count_code c (results (stripe_ops w))) -> (0 < nData (redundancy w))%nat ->
  exists status w', put_decide rm w = (Ret status, w') /\ so_op w' = so_op w /\ decided w' status /\
    need_indicator w' = (need_indicator w ||
      (bool_decide (status = OK) && (count_code OK (results (stripe_ops w)) <? Z.of_nat (size (redundancy w))))).
Proof.
  intros Hs Hc Hn. rewrite put_decide_spec by done. eexists _, _. split; [done|]. split; [done|].
  pose proof (decision_spec w _ rm Hs Hc Hn) as Hd. rewrite Hc. unfold decided, stripe_ops in *. cbn [redundancy so_op need_indicator].
  destruct (decision w rm) as [c|]; simpl; split; auto.
  do 2 f_equal. by apply bool_decide_ext; split; [intros [= ->]|intros ->].
Qed.

Lemma touched c rm (f : StatusCode -> Z) :
  rmap_sorted rm -> (forall c', rmap_at c' rm = f c') ->
  rmap_sorted (rmap_touch c rm) /\ forall c', rmap_at c' (rmap_touch c rm) = f c'.
Proof. intros Hs Hf. split; [by apply rmap_touch_sorted|]. intros c'. by rewrite rmap_at_touch. Qed.

Lemma counted (ops : list KineticAsyncOperation) :
  rmap_sorted (count_results (results ops)) /\ forall c, rmap_at c (count_results (results ops)) = count_code c (results ops).
Proof. apply count_results_spec. Qed.

End Decisions.

Lemma mostFrequentVersion_unique skip ops cbs v :
  op_callback <$> ops = Some <$> cbs -> Forall (readable skip) cbs -> 0 < occurrences skip v cbs ->
  (forall v', v' <> v -> occurrences skip v' cbs < occurrences skip v cbs) ->
  mostFrequentVersion skip ops = Ret (mkVersionCount (Some v) (occurrences skip v cbs)).
Proof.
  intros Hcbs Hr Hpos Hmax. unfold mostFrequentVersion. rewrite (mapM_callback_deref ops cbs Hcbs). cbn.
  destruct (most_frequent_spec skip cbs Hr) as ([ov f] & E & _ & Hocc & Hv). rewrite E. simpl in *.
  destruct ov as [v'|]; [|specialize (Hocc v); lia]. destruct Hv as [_ Hf].
  destruct (decide (v' = v)) as [->|Hne]; [by rewrite Hf|]. specialize (Hmax v' Hne). specialize (Hocc v). lia.
Qed.

Lemma occurrences_results skip v ops cbs :
  op_callback <$> ops = Some <$> cbs -> occurrences skip v cbs <= count_code OK (results ops).
Proof.
  unfold occurrences, count_code. revert cbs. induction ops as [|op ops IH]; intros [|cb cbs] E; try done.
  cbn in E. injection E as E1 E2. specialize (IH cbs E2). unfold results in *. cbn [omap list_omap]. rewrite E1. cbn [fmap option_fmap option_map].
  rewrite !filter_cons. unfold seen at 1, cb_ok. repeat case_decide; simpl; try lia.
  - congruence.
  - destruct (bool_decide_reflect (getResult cb = OK)); done.
Qed.

Section GetDecisions.
Context `{Env D} `{SI : StatusInt} {SIL : StatusIntLaws} `{Checksum} `{IsaL}.
Implicit Types w : StripeOperation_GET D.

(** The value is reconstructed when success is the only result with a quorum. *)
Lemma get_decide_ok rm w w' :
  (forall c n, (c, n) ∈ rm -> Z.of_nat (nData (redundancy (get_stripe w))) <= n -> c = OK) ->
  (exists n, (OK, n) ∈ rm /\ Z.of_nat (nData (redundancy (get_stripe w))) <= n) ->
  reconstructValue w = (Ret tt, w') -> get_decide false rm w = (Ret OK, w').
Proof.
  intros Hone (n & Hin & Hn) Hrec. induction rm as [|[c n'] rm IH]; [by apply not_elem_of_nil in Hin|].
  cbn [get_decide]. mstep. unfold numData. destruct (Z.leb_spec (Z.of_nat (nData (redundancy (get_stripe w)))) n') as [Hle|Hgt].
  - assert (c = OK) as -> by (by eapply Hone; [left|]). rewrite bool_decide_eq_true_2 by done. cbn [andb negb].
    rewrite bind_when_true. by rewrite (bind_ret _ _ _ _ _ Hrec).
  - apply IH; [intros c' n0 Hin' Hle; apply (Hone c' n0); [by right|done]|].
    apply elem_of_cons in Hin as [|]; [|done]. simplify_eq. lia.
Qed.

Lemma rmap_lower_entries f rm c n :
  rmap_sorted rm -> (c, n) ∈ rmap_alter f OK rm -> c <> OK -> n = rmap_at c rm.
Proof.
  intros Hs Hin Hc. pose proof (rmap_alter_sorted f OK rm Hs) as Hs'.
  rewrite <- (rmap_at_sorted _ _ _ Hs' Hin), rmap_at_alter by done. by rewrite decide_False.
Qed.

Lemma rmap_alter_entry f rm : rmap_sorted rm -> (OK, f (rmap_at OK rm)) ∈ rmap_alter f OK rm.
Proof.
  induction 1 as [|[c n] m Hm IH Hf]; simpl; [by left|].
  destruct (compare_cases OK c) as [[E _]|[(E & E' & _)|(E & E' & <-)]]; rewrite ?E, ?E'; simpl.
  - assert (rmap_at OK m = 0) as ->; [|by left].
    clear -Hf E SIL. induction Hf as [|[c1 n1] m E' Hf IH]; simpl in *; [done|].
    by rewrite (CompareStatusCode_trans _ _ _ E E').
  - right. exact IH.
  - by left.
Qed.

(** The conditions under which one round of requests serves a read: the most frequent version has a
    quorum and no other result has one. *)
Lemma do_execute_serves w o rm v f w2 :
  let w1 := mkGet (mkStripe o (need_indicator (get_stripe w) || (f <? count_code OK (results (operations o))))
    (redundancy (get_stripe w))) (mkVersionCount (Some v) f) (get_value w) in
  executeOperationVector (so_op (get_stripe w)) = (Ret rm, o) -> rm = count_results (results (operations o)) ->
  mostFrequentVersion false (operations o) = Ret (mkVersionCount (Some v) f) ->
  f <= count_code OK (results (operations o)) ->
  Z.of_nat (nData (redundancy (get_stripe w))) <= f ->
  (forall c, c <> OK -> count_code c (results (operations o)) < Z.of_nat (nData (redundancy (get_stripe w)))) ->
  reconstructValue w1 = (Ret tt, w2) -> do_execute false w = (Ret OK, w2).
Proof.
  intros w1 E -> Hmf Hfle Hf Hother Hrec. unfold do_execute.
  assert (on_stripe (on_op executeOperationVector) w = (Ret (count_results (results (operations o))),
    mkGet (mkStripe o (need_indicator (get_stripe w)) (redundancy (get_stripe w))) (get_version w) (get_value w))) as E1.
  { unfold on_stripe, on_op, zoom. by rewrite E. }
  rewrite (bind_ret _ _ _ _ _ E1). mstep. unfold get_ops, stripe_ops. cbn [get_stripe so_op]. rewrite Hmf. mstep.
  unfold set_version. mstep. cbn [get_stripe get_value frequency].
  destruct (counted (operations o)) as [Hs Hc]. destruct (touched OK _ _ Hs Hc) as [Hs1 Hc1].
  set (rm1 := rmap_touch OK (count_results (results (operations o)))) in *. rewrite Hc1.
  assert (forall c n, (c, n) ∈ rm1 -> c <> OK -> n = count_code c (results (operations o))) as Hent.
  { intros c n Hin Hne. rewrite <- Hc1. symmetry. by apply rmap_at_sorted. }
  destruct (Z.ltb_spec f (count_code OK (results (operations o)))) as [Hlt|Hge].
  - mstep. apply get_decide_ok.
    + intros c n Hin Hle. destruct (decide (c = OK)) as [|Hne]; [done|]. exfalso.
      pose proof (rmap_lower_entries _ _ _ _ Hs1 Hin Hne) as ->. rewrite Hc1 in Hle. specialize (Hother c Hne).
      unfold on_stripe, zoom, set_indicator, modify in Hle. simpl in Hle. lia.
    + exists f. split; [exact (rmap_alter_entry (fun _ => f) rm1 Hs1)|]. done.
    + rewrite <- Hrec. unfold w1, on_stripe, zoom, set_indicator, modify. simpl. do 2 f_equal.
      destruct (Z.ltb_spec f (count_code OK (results (operations o)))); [by rewrite orb_true_r|lia].
  - mstep. apply get_decide_ok.
    + intros c n Hin Hle. destruct (decide (c = OK)) as [|Hne]; [done|]. exfalso.
      rewrite (Hent c n Hin Hne) in Hle. specialize (Hother c Hne). simpl in Hle. lia.
    + exists (rmap_at OK (count_results (results (operations o)))).
      split; [exact (rmap_alter_entry id _ Hs)|]. rewrite Hc. simpl. lia.
    + rewrite <- Hrec. unfold w1. do 2 f_equal.
      destruct (Z.ltb_spec f (count_code OK (results (operations o)))); [lia|by rewrite orb_false_r].
Qed.

End GetDecisions.

(** ** Lemmas: termination *)

Section Termination.
Context `{Env D} `{!ClockLaws D} `{StatusInt} `{Checksum} `{IsaL}.
Variables (nconn : nat) (key : bytes).

(** Time passes, for the operation vector and for a stripe operation. *)
Definition op_later (o o' : KineticClusterOperation D) : Prop := clock (op_env o) <= clock (op_env o').

Definition later (w w' : KineticClusterStripeOperation D) : Prop :=
  op_later (so_op w) (so_op w') /\ redundancy w' = redundancy w.

#[local] Instance op_later_preorder : PreOrder op_later.
Proof. split; [intros ?; unfold op_later; lia|intros ???; unfold op_later; lia]. Qed.

#[local] Instance later_preorder : PreOrder later.
Proof. split; [done|]. intros x y z [? E1] [? E2]. split; [by etrans|]. by rewrite E2. Qed.

Definition pair_later {A} (p q : A * D) : Prop := clock p.2 <= clock q.2.
#[local] Instance pair_later_preorder {A} : PreOrder (pair_later (A:=A)).
Proof. split; [intros ?; unfold pair_later; lia|intros ???; unfold pair_later; lia]. Qed.

Lemma call_function_tame op : tame pair_later (call_function op).
Proof.
  intros [s d]. unfold call_function, pair_later. simpl. destruct (op_callback op) as [cb|]; [|done].
  destruct (finished cb); [done|]. destruct (op_function op) as [req|]; [|done].
  pose proof (clock_submit (op_connection op) req d) as Hc. destruct (env_submit (op_connection op) req d) as [sub d'].
  simpl in Hc. destruct sub as [|[r|]|r|]; simpl; repeat case_match; simplify_eq; done.
Qed.

Lemma time_out_tame op : tame (fun _ _ => True) (time_out op).
Proof. intros s. unfold time_out. split; [done|]. repeat case_match; done. Qed.

Lemma executeOperationVector_tame : tame op_later executeOperationVector.
Proof.
  intros o. unfold executeOperationVector, op_later.
  pose proof (tame_mapM pair_later call_function (operations o) call_function_tame (op_sync o, op_env o)) as [Hc Hf].
  destruct (mapM call_function (operations o) (op_sync o, op_env o)) as [[ops|e| |] [s d]]; simpl in *; try done.
  assert (PreOrder (fun _ _ : Z => True)) by (by split).
  pose proof (tame_mapM (fun _ _ => True) time_out ops time_out_tame s) as [_ Ht].
  by destruct (mapM time_out ops s) as [[ops'|e| |] s'].
Qed.

Lemma on_op_tame {A} (f : M (KineticClusterOperation D) A) : tame op_later f -> tame later (on_op f).
Proof. intros Hf w. unfold on_op, zoom. specialize (Hf (so_op w)). destruct (f (so_op w)) as [r o]. destruct Hf. by repeat split. Qed.

Lemma assign_tame i c req : tame op_later (assign i c req).
Proof.
  unfold assign. repeat tame_step; [apply deref_fuel|]. unfold fill, new_callback. apply tame_modify. intros o'. unfold op_later. simpl. lia.
Qed.

Lemma expandStripe_tame n off : tame op_later (expandStripe (D:=D) nconn key n off).
Proof.
  unfold expandStripe. case_match; [by tame_step|]. apply tame_modify. intros o. unfold op_later. simpl. lia.
Qed.

Lemma callback_version_fuel skip cb : callback_version skip cb <> OutOfFuel.
Proof. unfold callback_version. destruct skip; [done|]. by destruct (cb_record cb). Qed.

Lemma versions_equal_fuel skip l r : versions_equal skip l r <> OutOfFuel.
Proof. unfold versions_equal. case_match; [done|]. eauto using callback_version_fuel with kio. Qed.

Lemma version_frequency_fuel skip cbs o : version_frequency skip cbs o <> OutOfFuel.
Proof.
  unfold version_frequency.
  assert (forall acc : outcome Z, acc <> OutOfFuel ->
    foldl (fun acc l => n ← acc; e ← versions_equal skip o l; Ret (if (e : bool) then n + 1 else n)) acc cbs <> OutOfFuel) as Hf; [|by apply Hf].
  induction cbs as [|cb cbs IH]; intros acc Ha; [done|]. cbn [foldl]. apply IH.
  apply outcome_bind_fuel; [done|]. intros n. apply outcome_bind_fuel; [apply versions_equal_fuel|done].
Qed.

Lemma mostFrequentVersion_fuel skip ops : mostFrequentVersion skip ops <> OutOfFuel.
Proof.
  unfold mostFrequentVersion. apply outcome_bind_fuel; [apply outcome_mapM_fuel; intros; apply deref_fuel|].
  intros cbs. unfold most_frequent. apply outcome_bind_fuel.
  - assert (forall todo f e, most_frequent_loop skip cbs todo f e <> OutOfFuel) as Hl; [|apply Hl].
    induction todo as [|o todo IH]; intros f e; [done|]. cbn [most_frequent_loop].
    apply outcome_bind_fuel; [apply version_frequency_fuel|]. intros n. repeat case_match; done || apply IH.
  - intros [f e]. case_match; [done|]. apply outcome_bind_fuel; [apply deref_fuel|]. intros cb.
    apply outcome_bind_fuel; [apply callback_version_fuel|done].
Qed.

Lemma getVersionAt_fuel skip ops i : getVersionAt skip ops i <> OutOfFuel.
Proof.
  unfold getVersionAt. repeat (apply outcome_bind_fuel; [apply deref_fuel|intros ?]).
  repeat case_match; try done. apply outcome_bind_fuel; [apply callback_version_fuel|done].
Qed.

Lemma find_position_fuel ops v l : find_position ops v l <> OutOfFuel.
Proof.
  induction l as [|i l IH]; [done|]. cbn [find_position]. apply outcome_bind_fuel; [apply getVersionAt_fuel|].
  intros x. by case_match.
Qed.

Lemma find_position_bound ops v n p : find_position ops v (seq 0 n) = Ret p -> p < Z.of_nat n.
Proof.
  assert (forall l, (forall i, i ∈ l -> (i < n)%nat) -> find_position ops v l = Ret p -> p < Z.of_nat n) as Hl.
  { induction l as [|i l IH]; intros Hb E; cbn [find_position] in E; [simplify_eq; lia|].
    destruct (getVersionAt true ops i); cbn in E; try done.
    pose proof (Hb i ltac:(by left)). destruct (match _ with Some _ => _ | None => _ end).
    - simplify_eq. lia.
    - apply IH; [|done]. intros j Hj. apply Hb. by right. }
  intros E. apply (Hl (seq 0 n)); [|done]. intros i [_ Hi]%elem_of_seq. lia.
Qed.

Lemma fillOperationVector_tame skip : tame op_later (fillOperationVector (D:=D) key skip).
Proof.
  unfold fillOperationVector, get_fillOperation. repeat tame_step; apply assign_tame.
Qed.

Lemma new_get_tame skip partial : tame later (new_get (D:=D) nconn key skip partial).
Proof.
  unfold new_get. repeat tame_step; apply on_op_tame; [apply expandStripe_tame|apply fillOperationVector_tame].
Qed.

Lemma get_versions_tame : tame later (get_versions (D:=D) nconn key).
Proof.
  intros w. unfold get_versions.
  assert (tame later (new_get (D:=D) nconn key true true;; on_op executeOperationVector)) as Ht.
  { repeat tame_step; [apply new_get_tame|apply on_op_tame, executeOperationVector_tame]. }
  specialize (Ht (mkStripe (new_operation (op_env (so_op w))) false (redundancy w))).
  destruct ((new_get _ _ _ _;; _) _) as [r g]. destruct Ht as [[Hl Hr] Hn]. simpl in *.
  split; [split; [exact Hl|exact Hr]|]. by destruct r.
Qed.

Lemma now_tame : tame later (now_ (D:=D)).
Proof.
  intros w. unfold now_. pose proof (clock_now (op_env (so_op w))) as Hc. destruct (env_now (op_env (so_op w))) as [t d].
  simpl in *. split; [|done]. split; [|done]. unfold op_later. simpl. lia.
Qed.

Lemma usleep_tame us : 0 <= us -> tame later (usleep_ (D:=D) us).
Proof.
  intros Hu. apply on_op_tame. apply tame_modify. intros o. unfold op_later. simpl.
  pose proof (clock_usleep us (op_env o) Hu). lia.
Qed.

Section Write.
Variable fillOperation : nat -> bytes -> WriteMode -> M (KineticClusterStripeOperation D) unit.
Hypothesis fillOperation_tame : forall i v mode, tame later (fillOperation i v mode).

Lemma attemptStripeRepair_tame drive_versions : tame later (attemptStripeRepair fillOperation drive_versions).
Proof.
  unfold attemptStripeRepair. repeat tame_step; try apply deref_fuel; try apply getVersionAt_fuel; try apply fillOperation_tame.
  apply on_op_tame, executeOperationVector_tame.
Qed.

Lemma resolve_loop_terminates fuel timeout start_time v w :
  0 <= timeout -> (0 < fuel)%nat ->
  start_time + timeout * ns_per_s * Z.of_nat (size (redundancy w)) <= clock (op_env (so_op w)) + Z.of_nat fuel * (100 * ns_per_ms) ->
  (resolve_loop nconn key fillOperation fuel timeout start_time v w).1 <> OutOfFuel.
Proof.
  intros Ht. revert w. induction fuel as [|fuel IH]; intros w Hf Hd; [lia|]. cbn [resolve_loop].
  apply (bind_not_fuel later); [apply get_versions_tame|]. intros [dv rm] w1 [L1 R1] _.
  apply (bind_not_fuel later); [tame_step; apply mostFrequentVersion_fuel|]. intros mf w2 [L2 R2] _.
  apply (bind_not_fuel later); [tame_step; apply deref_fuel|]. intros most w3 [L3 R3] _.
  apply (bind_not_fuel later); [case_match; [by apply attemptStripeRepair_tame|by tame_step]|]. intros repaired w4 [L4 R4] _.
  destruct repaired; [done|]. rewrite bind_gets.
  apply (bind_not_fuel later); [tame_step; apply find_position_fuel|]. intros p w5 [L5 R5] Hp.
  assert (p < Z.of_nat (size (redundancy w4))) as Hpb.
  { unfold lift in Hp. injection Hp as Hp _. by eapply find_position_bound. }
  destruct (p <? 0); [done|].
  assert (tame later (usleep_ (D:=D) (100 * 1000))) as Hus by (apply usleep_tame; lia).
  rewrite bind_unfold. destruct (Hus w5) as [_ Hn6].
  unfold usleep_ at 1, on_op, zoom, modify. cbn [so_op need_indicator redundancy operations op_sync op_env].
  pose proof (clock_usleep (100 * 1000) (op_env (so_op w5)) ltac:(lia)) as Hsl.
  rewrite bind_unfold. unfold now_. cbn [so_op op_env operations op_sync need_indicator redundancy].
  pose proof (clock_now (env_usleep (100 * 1000) (op_env (so_op w5)))) as Hnow.
  destruct (env_now _) as [t d]. simpl in Hnow.
  destruct (Z.ltb_spec t (start_time + timeout * ns_per_s * (p + 1))) as [Hlt|]; [|done].
  unfold op_later in *. unfold ns_per_s, ns_per_ms in *.
  assert (timeout * (p + 1) <= timeout * Z.of_nat (size (redundancy w))) by (rewrite R4, R3, R2, R1 in Hpb; nia).
  apply IH; [|cbn [so_op op_env redundancy]; rewrite R5, R4, R3, R2, R1; lia].
  destruct fuel; [|lia]. exfalso. lia.
Qed.

Lemma resolvePartialWrite_terminates timeout v w :
  0 <= timeout -> (resolvePartialWrite nconn key fillOperation timeout v w).1 <> OutOfFuel.
Proof.
  intros Ht. unfold resolvePartialWrite. rewrite bind_unfold. unfold now_ at 1.
  pose proof (clock_now (op_env (so_op w))) as Hnow. destruct (env_now _) as [t d]. simpl in Hnow.
  rewrite bind_gets, bind_unfold. cbn [redundancy].
  pose proof (resolve_loop_terminates (resolve_fuel timeout (size (redundancy w))) timeout t v
    (mkStripe (mkOperation (operations (so_op w)) (op_sync (so_op w)) d) (need_indicator w) (redundancy w)) Ht) as Hl.
  cbn [redundancy so_op op_env] in Hl. unfold resolve_fuel in *.
  destruct (resolve_loop _ _ _ _ _ _ _ _) as [[b|e| |] w'] eqn:E; simpl in *; try done.
  - destruct b; [done|].
    apply (bind_not_fuel later); [apply get_versions_tame|]. intros [dv rm] w1 _ _.
    apply (bind_not_fuel later); [by apply attemptStripeRepair_tame|]. done.
  - exfalso. apply Hl; [lia|unfold ns_per_s, ns_per_ms; nia|done].
Qed.

End Write.

Lemma put_fillOperation_tame version_new values i v mode : tame later (put_fillOperation (D:=D) key version_new values i v mode).
Proof.
  unfold put_fillOperation. repeat tame_step; [|apply on_op_tame, assign_tame].
  apply outcome_bind_fuel; [apply deref_fuel|]. intros. apply deref_fuel.
Qed.

Lemma del_fillOperation_tame i v mode : tame later (del_fillOperation (D:=D) key i v mode).
Proof. apply on_op_tame, assign_tame. Qed.

Lemma put_decide_tame rm w : (put_decide (D:=D) rm w).1 <> OutOfFuel.
Proof. unfold put_decide. rewrite bind_gets. destruct (list_find _ _) as [[? [? ?]]|]; [|done]. by destruct (_ && _) || destruct (_ <? _). Qed.

Lemma del_decide_tame rm w : (del_decide (D:=D) rm w).1 <> OutOfFuel.
Proof. unfold del_decide. rewrite bind_gets. destruct (list_find _ _) as [[? [? ?]]|]; [|done]. by destruct (_ && _) || destruct (_ <? _). Qed.

End Termination.

(** ** Properties *)

(** C40: Where the chunks of a key go.  Setting up the operations of a stripe that is not wider than the cluster binds
    chunk [i] to connection [(h + 1 + i) mod nconn], [h] being the 32-bit hash of the key and [h + 1] taken in 32 bits: the
    connections are consecutive, and distinct.  A read that sets up the data chunks first and the parities later arrives at the same operations
    as the write of the whole stripe, provided the 32-bit index does not wrap around in between.  The hash is the published
    algorithm on its test vectors, and no byte of the key is ignored: changing bytes within one group of four,
    counted from the front, always changes the hash. *)
Theorem stripe_placement {D} nconn key nData nParity (o : KineticClusterOperation D) :
  (0 < nconn)%nat -> Z.of_nat nconn < 2 ^ 32 -> (nData + nParity <= nconn)%nat ->
  let h := Murmur.MurmurHash3_x86_32 key 0 in
  exists conns, expandStripe nconn key (nData + nParity) 0 o =
      (Ret tt, mkOperation (operations o ++ (mkOp None None <$> conns)) (op_sync o) (op_env o)) /\
    length conns = (nData + nParity)%nat /\ NoDup conns /\
    (forall i, (i < nData + nParity)%nat -> conns !! i = Some (Z.to_nat ((u32 (h + 1) + Z.of_nat i) mod Z.of_nat nconn))) /\
    (h + Z.of_nat nData + 1 < 2 ^ 32 ->
     (expandStripe nconn key nData 0;; expandStripe nconn key nParity nData) o = expandStripe nconn key (nData + nParity) 0 o) /\
    (forall p group group' rest, key = p ++ group ++ rest -> (length p mod 4 = 0)%nat ->
     length group = length group' -> group <> group' -> length group = 4%nat \/ (length group < 4)%nat /\ rest = [] ->
     Murmur.MurmurHash3_x86_32 (p ++ group' ++ rest) 0 <> h) /\
    Murmur.MurmurHash3_x86_32 (str "test") 0 = 0xba6bd213 /\ Murmur.MurmurHash3_x86_32 (str "Hello, world!") 0 = 0xc0363e43.
Proof.
  intros Hn Hw Hs h. pose proof (MurmurHash3_range key) as Hh. fold h in Hh.
  assert (stripe_start key 0 = h) as Hstart by (unfold stripe_start; rewrite Z.add_0_r; by apply u32_small).
  exists (ring nconn (u32 (h + 1)) (nData + nParity)). rewrite !expandStripe_spec, Hstart, stripe_indices_ring by done. split_and!.
  - done.
  - unfold ring. by rewrite length_fmap, length_seq.
  - by apply ring_NoDup.
  - intros i Hi. by apply ring_lookup.
  - intros Hnw. rewrite (bind_ret _ _ _ _ _ (expandStripe_spec nconn key nData 0 o Hn)), expandStripe_spec, Hstart, !stripe_indices_ring by done.
    cbn [operations op_sync op_env]. rewrite <- app_assoc, <- fmap_app. do 4 f_equal. rewrite <- ring_app. f_equal. apply ring_mod.
    unfold stripe_start. fold h. rewrite !u32_small by (rewrite ?u32_small; lia). f_equal. lia.
  - intros p group group' rest Ek Hp Hl Hne Hend. unfold h. rewrite Ek. apply murmur_sensitive; [done|done|by intros ->|].
    by rewrite <- Hl.
  - by vm_compute.
  - by vm_compute.
Qed.

Lemma stripe_placement_witness :
  let key := str "C1:data:f_0000000000" in
  exists conns, expandStripe 10 key 6 0 (new_operation (Simulator.fresh 10)) =
      (Ret tt, mkOperation (mkOp None None <$> conns) 0 (Simulator.fresh 10)) /\ NoDup conns /\
    Murmur.MurmurHash3_x86_32 (str "C1:data:f_0000000001") 0 <> Murmur.MurmurHash3_x86_32 key 0.
Proof.
  intros key. destruct (stripe_placement 10 key 4 2 (new_operation (Simulator.fresh 10))) as (conns & E & _ & Hn & _ & _ & Hh & _); [lia..|].
  exists conns. split_and!; [exact E|exact Hn|]. by apply (Hh (str "C1:data:f_000000") (str "0000") (str "0001") []); [| | | |left].
Defined.

(** The version a read agrees on is the most frequent one: it occurs at least as often among the
    successful chunk reads as any other, its frequency is counted exactly, and there is none just when
    no chunk was read; stopping early at a majority does not change that. *)
Theorem mostFrequentVersion_is_mode skip_value ops cbs :
  op_callback <$> ops = Some <$> cbs -> Forall (readable skip_value) cbs ->
  exists vc, mostFrequentVersion skip_value ops = Ret vc /\
    (forall v, occurrences skip_value v cbs <= frequency vc) /\
    match version vc with
    | Some v => 0 < frequency vc /\ occurrences skip_value v cbs = frequency vc
    | None => frequency vc = 0
    end.
Proof.
  intros Hcbs Hr. unfold mostFrequentVersion.
  rewrite (mapM_callback_deref ops cbs Hcbs).
  destruct (most_frequent_spec skip_value cbs Hr) as (vc & E & _ & Hocc & Hv). exists vc. done.
Qed.

Definition version_read (s : StatusCode) (v : bytes) : callback := mkCallback GetVersionCallback s true None v None None.

Lemma mostFrequentVersion_is_mode_witness :
  let cbs := [version_read OK (str "v1"); version_read REMOTE_NOT_FOUND []; version_read OK (str "v2"); version_read OK (str "v2")] in
  exists vc, mostFrequentVersion true ((fun cb => mkOp None (Some cb) 0) <$> cbs) = Ret vc /\
    (forall v, occurrences true v cbs <= frequency vc) /\
    match version vc with
    | Some v => 0 < frequency vc /\ occurrences true v cbs = frequency vc
    | None => frequency vc = 0
    end.
Proof. apply mostFrequentVersion_is_mode; [reflexivity|]. repeat constructor; intros _ [=]. Defined.

(** C33: Writing operations end.  When the clock advances, neither [execute] of a put nor that of a
    remove polls for ever: the waiting period of [resolvePartialWrite] is bounded by the position of
    the client's chunk and the timeout, so that [resolve_fuel] polls are always enough. *)
Theorem write_operations_terminate `{ClockLaws D} `{StatusInt} `{Checksum} `{IsaL} nconn key version_new values timeout
    (w : KineticClusterStripeOperation D) :
  0 <= timeout ->
  (PUT_execute nconn key version_new values timeout w).1 <> OutOfFuel /\
  (DEL_execute nconn key timeout w).1 <> OutOfFuel.
Proof.
  intros Ht. split.
  - unfold PUT_execute. apply (bind_not_fuel later); [apply on_op_tame, executeOperationVector_tame|]. intros rm w1 _ _.
    rewrite bind_unfold. destruct (_ && _).
    + rewrite bind_unfold.
      pose proof (resolvePartialWrite_terminates nconn key _ (put_fillOperation_tame key version_new values) timeout version_new w1 Ht) as Hr.
      destruct (resolvePartialWrite _ _ _ _ _ _) as [[[]|e| |] w2]; simpl in *; try done. apply put_decide_tame.
    + apply put_decide_tame.
  - unfold DEL_execute. apply (bind_not_fuel later); [apply on_op_tame, executeOperationVector_tame|]. intros rm w1 _ _.
    rewrite bind_unfold. destruct (_ && _).
    + rewrite bind_unfold.
      pose proof (resolvePartialWrite_terminates nconn key _ (del_fillOperation_tame key) timeout [] w1 Ht) as Hr.
      destruct (resolvePartialWrite _ _ _ _ _ _) as [[[]|e| |] w2]; simpl in *; try done. apply del_decide_tame.
    + apply del_decide_tame.
Qed.

Lemma write_operations_terminate_witness :
  let crc : Checksum := fun _ s => slen s in
  let w := mkStripe (new_operation (Simulator.fresh 3)) false (@new_provider IsaSim.isa 2 1) in
  (@PUT_execute _ Simulator.sim_env Simulator.sim_status_int crc 3 (str "k") (str "v") [] 10 w).1 <> OutOfFuel /\
  (@DEL_execute _ Simulator.sim_env Simulator.sim_status_int 3 (str "k") 10 w).1 <> OutOfFuel.
Proof.
  intros crc w.
  apply (@write_operations_terminate _ Simulator.sim_env Simulator.sim_clock_laws Simulator.sim_status_int crc IsaSim.isa); lia.
Defined.

(** C13: A put is reported by quorum.  The constructor binds chunk [i] of the stripe to the [i]-th drive of
    the key, with the new version and the expected old one.  If execution returns a status, then at least
    [nData] of the chunk operations ended with exactly this status ([CLIENT_IO_ERROR] also stands for: no
    status did), and the indicator is set when the value was stored but not all its chunks were.  It can
    only fail to return in the resolution of a partial write, that is when some chunks were written while
    others were refused. *)
Theorem put_reports_quorum `{Env D} `{StatusIntLaws} `{Checksum} `{IsaL} nconn key version_new version_old mode values timeout
    (w : KineticClusterStripeOperation D) :
  (0 < nconn)%nat -> operations (so_op w) = [] -> length values = size (redundancy w) -> (0 < nData (redundancy w))%nat ->
  exists w1, StripeOperation_PUT nconn key version_new (Some <$> values) version_old mode w = (Ret tt, w1) /\
    stripe_ops w1 = put_operations nconn key version_new version_old mode values /\
    exists rm o, executeOperationVector (so_op w1) = (Ret rm, o) /\
      (forall c, rmap_at c rm = count_code c (results (operations o))) /\
      ((rmap_at OK rm = 0 \/ rmap_at REMOTE_VERSION_MISMATCH rm = 0 /\ rmap_at REMOTE_NOT_FOUND rm = 0) ->
       exists status w2, PUT_execute nconn key version_new (Some <$> values) timeout w1 = (Ret status, w2) /\ so_op w2 = o) /\
      forall status w2, PUT_execute nconn key version_new (Some <$> values) timeout w1 = (Ret status, w2) ->
        (0 < nData (redundancy w2))%nat -> decided w2 status /\
        (status = OK -> need_indicator w2 = false -> Z.of_nat (size (redundancy w2)) <= count_code OK (results (stripe_ops w2))).
Proof.
  intros Hn Ho Hl Hnd. rewrite (StripeOperation_PUT_spec nconn key) by done. eexists. split; [done|]. split; [done|].
  cbn [so_op]. set (o1 := mkOperation _ _ _).
  destruct (executeOperationVector_spec o1) as (ops & d & E & Hx); [apply put_operations_ready|].
  destruct (counted ops) as [Hs Hc]. eexists _, _. split; [exact E|]. split; [exact Hc|].
  set (w1 := mkStripe o1 _ _). unfold PUT_execute.
  rewrite (bind_ret (on_op executeOperationVector) _ w1 _ _ (on_op_ret _ w1 _ _ E)).
  set (rm1 := rmap_touch OK (count_results (results ops))).
  destruct (touched OK _ _ Hs Hc) as [Hs1 Hc1]. fold rm1 in Hs1, Hc1.
  set (rm := if rmap_at OK rm1 =? 0 then rm1 else _).
  assert (rmap_sorted rm /\ forall c, rmap_at c rm = count_code c (results ops)) as [Hs2 Hc2].
  { unfold rm. destruct (_ =? 0); [done|]. destruct (touched REMOTE_VERSION_MISMATCH _ _ Hs1 Hc1) as [Hs3 Hc3].
    destruct (_ =? 0); [|done]. by apply touched. }
  split.
  - intros Hp. replace (_ && _) with false; [|rewrite !Hc2; rewrite !Hc in Hp; destruct Hp as [->|[-> ->]]; simpl; [done|by rewrite andb_false_r]].
    rewrite bind_mret.
    destruct (put_decide_decided rm (mkStripe (mkOperation ops (op_sync o1 - pending (op_callbacks (operations o1))) d)
      (need_indicator w1) (redundancy w1))) as (status & w2 & E2 & Ho2 & _); [done|done|done|].
    exists status, w2. by split.
  - intros status w2 Hret Hnd2.
    apply bind_inv_ret in Hret as (rm' & w3 & E3 & Hd).
    assert (rmap_sorted rm' /\ forall c, rmap_at c rm' = count_code c (results (stripe_ops w3))) as [Hs3 Hc3].
    { destruct (_ && _) in E3.
      - apply bind_inv_ret in E3 as ([] & w4 & _ & E4). unfold recount, gets in E4. simplify_eq. apply counted.
      - unfold mret, M_ret in E3. by simplify_eq. }
    assert (0 < nData (redundancy w3))%nat as Hnd3.
    { rewrite put_decide_spec in Hd by done. by simplify_eq/=. }
    destruct (put_decide_decided rm' w3 Hs3 Hc3 Hnd3) as (st & w5 & E5 & Ho5 & Hdec & Hni). rewrite Hd in E5. simplify_eq.
    split; [done|]. intros -> Hfalse. rewrite Hni in Hfalse. apply orb_false_iff in Hfalse as [_ Hf]. simpl in Hf.
    rewrite put_decide_spec in Hd by done. simplify_eq/=. unfold stripe_ops in *. cbn [so_op]. lia.
Qed.

Lemma put_reports_quorum_witness :
  let crc : Checksum := fun _ s => slen s in
  let w := mkStripe (new_operation (Simulator.fresh 3)) false (@new_provider IsaSim.isa 2 1) in
  exists w1, @StripeOperation_PUT _ crc 3 (str "k") (str "v1") (Some <$> [str "a"; str "b"; str "c"]) [] IGNORE_VERSION w = (Ret tt, w1) /\
    exists status w2, @PUT_execute _ Simulator.sim_env Simulator.sim_status_int crc 3 (str "k") (str "v1")
      (Some <$> [str "a"; str "b"; str "c"]) 10 w1 = (Ret status, w2).
Proof.
  intros crc w.
  destruct (@put_reports_quorum _ Simulator.sim_env Simulator.sim_status_int Simulator.sim_status_int_laws crc IsaSim.isa 3 (str "k")
    (str "v1") [] IGNORE_VERSION [str "a"; str "b"; str "c"] 10 w) as (w1 & E & _ & rm & o & Ex & _ & Hret & _);
    [lia|reflexivity|reflexivity|simpl; lia|].
  exists w1. split; [exact E|].
  destruct Hret as (status & w2 & E2 & _).
  - right. vm_compute in E. injection E as <-. vm_compute in Ex. injection Ex as <- _. split; reflexivity.
  - exists status, w2. exact E2.
Defined.
