(* ===== verification/Cluster.v ===== *)
(** * A cluster of drives (src/KineticCluster.cc)

    The key-value interface the rest of the library works with: values are cut into stripes, coded,
    written and read through the stripe operations; the cluster keeps the limits of its drives and
    a snapshot of their statistics.  The background thread that updates the snapshot runs
    [updateSnapshot] as one step; Destruction.v has it meet the destructor. *)

From S2P Require Import Prelude CppString Utility Kinetic Simulator Callbacks ClusterOperation Isa Redundancy Murmur.
From S2P Require Import StripeOperation.

Module Cluster.

Record ClusterLimits := mkClusterLimits {
  max_key_size : Z;
  max_version_size : Z;
  max_value_size : Z;
  max_range_elements : Z;
}.

Record ClusterStatus := mkClusterStatus {
  indicator_exist : bool;
  drives_total : Z;
  drives_failed : Z;
  redundancy_factor : Z;
  connected : list bool;
  location : list bytes;
}.

Record ClusterStats := mkClusterStats {
  bytes_total : Z;
  bytes_free : Z;
  read_ops_total : Z;
  read_bytes_total : Z;
  write_ops_total : Z;
  write_bytes_total : Z;
  io_start : Z;
  io_end : Z;
  read_ops_period : Z;
  read_bytes_period : Z;
  write_ops_period : Z;
  write_bytes_period : Z;
  health : ClusterStatus;
}.

(** [cluster_limits] is none while it is not initialised. *)
Record KineticCluster {D : Type} := mkCluster {
  identity : bytes;
  instanceIdentity : bytes;
  chunkCapacity : Z;
  operation_timeout : Z;
  connections : nat;
  cl_redundancy : RedundancyProvider;
  cluster_limits : option ClusterLimits;
  statistics_scheduled : Z;
  statistics_snapshot : ClusterStats;
  cl_env : D;
}.
Arguments KineticCluster : clear implicits.
Arguments mkCluster {D} _ _ _ _ _ _ _ _ _ _.

(** ** Values and stripes *)

Section Stripes.
Context `{IsaL}.

(** The data chunks of a value; the last one is padded, missing ones are zeroes. *)
Definition data_chunk (chunkSize : nat) (value : bytes) (i : nat) : bytes :=
  if bool_decide (i * chunkSize < length value)%nat
  then resize (take chunkSize (drop (i * chunkSize) value)) (Z.of_nat chunkSize) NUL
  else replicate chunkSize NUL.

Definition data_chunk_size (capacity : Z) (value : bytes) : nat :=
  if slen value <? capacity then length value else Z.to_nat capacity.

(** The index of the first data chunk that is not written. *)
Definition chunks_used (chunkSize : nat) (value : bytes) : nat := (length value + chunkSize - 1) / chunkSize.

(** [KineticCluster::valueToStripe] *)
Definition valueToStripe (capacity : Z) (value : bytes) : M RedundancyProvider (list (option bytes)) :=
  rp ← get;
  if bool_decide (value = []) then mret (replicate (size rp) (Some [])) else
  let chunkSize := data_chunk_size capacity value in
  let data := (fun i => Some (data_chunk chunkSize value i)) <$> seq 0 (numData rp) in
  let parity := replicate (numParity rp) (Some []) in
  stripe ← compute (data ++ parity);
  if bool_decide (chunkSize = 0%nat) then lift UB else
  mret (imap (fun i c => if bool_decide (chunks_used chunkSize value <= i < numData rp)%nat then Some [] else c) stripe).

End Stripes.

Section Operations.
Context `{Env D} `{StatusInt} `{Checksum} `{IsaL}.

Abbreviation Stripe := (KineticClusterStripeOperation D).
Abbreviation GetOp := (StripeOperation_GET D).

Definition with_env (d : D) (rp : RedundancyProvider) (c : KineticCluster D) : KineticCluster D :=
  mkCluster (identity c) (instanceIdentity c) (chunkCapacity c) (operation_timeout c) (connections c) rp
    (cluster_limits c) (statistics_scheduled c) (statistics_snapshot c) d.

(** Running a member of an operation that shares the drives and the provider of the cluster. *)
Definition run_operation {A} (o : KineticClusterOperation D) (m : M (KineticClusterOperation D) A) :
    M (KineticCluster D) (A * KineticClusterOperation D) := fun c =>
  let '(r, o') := m (mkOperation (operations o) (op_sync o) (cl_env c)) in
  (a ← r; Ret (a, o'), with_env (op_env o') (cl_redundancy c) c).

Definition run_stripe {A} (s : Stripe) (m : M Stripe A) : M (KineticCluster D) (A * Stripe) := fun c =>
  let o := so_op s in
  let '(r, s') := m (mkStripe (mkOperation (operations o) (op_sync o) (cl_env c)) (need_indicator s) (cl_redundancy c)) in
  (a ← r; Ret (a, s'), with_env (op_env (so_op s')) (redundancy s') c).

Definition run_get {A} (g : GetOp) (m : M GetOp A) : M (KineticCluster D) (A * GetOp) := fun c =>
  let s := get_stripe g in let o := so_op s in
  let '(r, g') := m (mkGet (mkStripe (mkOperation (operations o) (op_sync o) (cl_env c)) (need_indicator s) (cl_redundancy c))
                           (get_version g) (get_value g)) in
  (a ← r; Ret (a, g'), with_env (op_env (so_op (get_stripe g'))) (redundancy (get_stripe g')) c).

Definition fresh_operation (c : KineticCluster D) : KineticClusterOperation D := new_operation (cl_env c).
Definition fresh_stripe (c : KineticCluster D) : Stripe := mkStripe (fresh_operation c) false (cl_redundancy c).
Definition fresh_get (c : KineticCluster D) : GetOp := mkGet (fresh_stripe c) (mkVersionCount None 0) None.

Definition now : M (KineticCluster D) Z := fun c =>
  let '(t, d) := env_now (cl_env c) in (Ret t, with_env d (cl_redundancy c) c).

Definition generate_uuid : M (KineticCluster D) bytes := fun c =>
  let '(u, d) := env_uuid (cl_env c) in (Ret u, with_env d (cl_redundancy c) c).

Definition usleep (us : Z) : M (KineticCluster D) unit :=
  modify (fun c => with_env (env_usleep us (cl_env c)) (cl_redundancy c) c).

(** [connections.size() - redundancy->numParity()], of type [size_t]. *)
Definition all_keys_quorum (c : KineticCluster D) : Z := u64 (Z.of_nat (connections c) - Z.of_nat (numParity (cl_redundancy c))).

(** ** Construction *)

(** The loop of the constructor: limits from any drive. *)
Fixpoint obtain_limits (block_size : Z) (offs : list nat) : M (KineticCluster D) unit :=
  match offs with
  | [] => mret tt
  | off :: offs' =>
      c ← get;
      '(cbs, _) ← run_operation (fresh_operation c) (ClusterLogOp (connections c) [LOG_LIMITS] 1 off;; ClusterLogOp_execute);
      cb ← lift (deref (head cbs));
      if cb_ok cb then
        l ← lift (deref (cb_log cb));
        if log_max_value_size l <? block_size then throw (system_error invalid_argument) else
        modify (fun c => mkCluster (identity c) (instanceIdentity c) (chunkCapacity c) (operation_timeout c) (connections c)
          (cl_redundancy c)
          (Some (mkClusterLimits (log_max_key_size l) (log_max_version_size l)
            (u64 (block_size * Z.of_nat (numData (cl_redundancy c)))) 100))
          (statistics_scheduled c) (statistics_snapshot c) (cl_env c))
      else obtain_limits block_size offs'
  end.

Definition set_snapshot (s : ClusterStats) (c : KineticCluster D) : KineticCluster D :=
  mkCluster (identity c) (instanceIdentity c) (chunkCapacity c) (operation_timeout c) (connections c) (cl_redundancy c)
    (cluster_limits c) (statistics_scheduled c) s (cl_env c).

(** The constructor; [memory] is what the members without initialiser hold.  The statistics update
    it schedules runs later, as [updateSnapshot]. *)
Definition new_cluster (memory : ClusterStats) (id : bytes) (block_size op_timeout : Z) (cons : nat) (rp : RedundancyProvider)
    (d : D) : outcome (KineticCluster D) * D :=
  let '(u, d) := env_uuid d in
  let c := mkCluster id u block_size op_timeout cons rp None 0 memory d in
  let '(r, c) := obtain_limits block_size (seq 0 cons) c in
  let s := statistics_snapshot c in let h := health s in
  let s' := mkClusterStats 1 (bytes_free s) (read_ops_total s) (read_bytes_total s) (write_ops_total s) (write_bytes_total s)
    (io_start s) (io_end s) (read_ops_period s) (read_bytes_period s) (write_ops_period s) (write_bytes_period s)
    (mkClusterStatus (indicator_exist h) (u32 (Z.of_nat cons)) (drives_failed h) (u32 (Z.of_nat (numParity rp)))
      (connected h) (location h)) in
  (_ ← r; Ret (set_snapshot s' c), cl_env c).

Definition limits (c : KineticCluster D) : outcome ClusterLimits := deref (cluster_limits c).
Definition id (c : KineticCluster D) : bytes := identity c.
Definition instanceId (c : KineticCluster D) : bytes := instanceIdentity c.

(** [stats] also tells whether it scheduled an update. *)
Definition stats : M (KineticCluster D) (ClusterStats * bool) :=
  t ← now;
  c ← get;
  if 2 <? to_seconds (t - statistics_scheduled c) then
    t' ← now;
    modify (fun c => mkCluster (identity c) (instanceIdentity c) (chunkCapacity c) (operation_timeout c) (connections c)
      (cl_redundancy c) (cluster_limits c) t' (statistics_snapshot c) (cl_env c));;
    mret (statistics_snapshot c, true)
  else mret (statistics_snapshot c, false).

(** ** Requests to all drives *)

Definition flush : M (KineticCluster D) StatusCode :=
  c ← get;
  '(status, _) ← run_operation (fresh_operation c)
    (ClusterFlushOp (connections c);; ClusterFlushOp_execute (all_keys_quorum c));
  mret status.

(** The keys are none when the caller's are left alone. *)
Definition range (start_key end_key : option bytes) (max_elements : Z) : M (KineticCluster D) (StatusCode * option (list bytes)) :=
  match start_key, end_key with
  | Some start_key, Some end_key =>
      c ← get;
      max_elements ← (if max_elements =? 0 then l ← lift (limits c); mret (max_range_elements l) else mret max_elements);
      '(status, o) ← run_operation (fresh_operation c)
        (ClusterRangeOp (connections c) start_key end_key max_elements;; ClusterRangeOp_execute (all_keys_quorum c));
      mret (status, if bool_decide (status = OK) then Some (ClusterRangeOp_getKeys max_elements (operations o)) else None)
  | _, _ => mret (CLIENT_INTERNAL_ERROR, None)
  end.

(** ** Removing *)

Definition do_remove (key version : option bytes) (wmode : WriteMode) : M (KineticCluster D) StatusCode :=
  match key, version with
  | Some key, Some version =>
      c ← get;
      '(status, _) ← run_stripe (fresh_stripe c) (
        StripeOperation_DEL (connections c) key version wmode (size (cl_redundancy c)) 0;;
        status ← DEL_execute (connections c) key (operation_timeout c);
        ni ← gets needsIndicator;
        when ni (putIndicatorKey (connections c) key);;
        mret status);
      mret status
  | _, _ => mret CLIENT_INTERNAL_ERROR
  end.

Definition remove_any (key : option bytes) : M (KineticCluster D) StatusCode := do_remove key (Some []) IGNORE_VERSION.

Definition remove (key version : option bytes) : M (KineticCluster D) StatusCode := do_remove key version REQUIRE_SAME_VERSION.

(** ** Writing *)

Definition on_provider {A} (m : M RedundancyProvider A) : M (KineticCluster D) A :=
  zoom cl_redundancy (fun rp c => with_env (cl_env c) rp c) m.

(** The version is none when the caller's is left alone. *)
Definition do_put (key version value : option bytes) (mode : WriteMode) : M (KineticCluster D) (StatusCode * option bytes) :=
  match key, version, value with
  | Some key, Some version, Some value =>
      c ← get;
      stripe ← try_catch (s ← on_provider (valueToStripe (chunkCapacity c) value); mret (Some s)) (fun _ => mret None);
      match stripe with
      | None => mret (CLIENT_INTERNAL_ERROR, None)
      | Some stripe =>
          uuid ← generate_uuid;
          let version_new := uuidGenerateEncodeSize (slen value) uuid in
          '(status, _) ← run_stripe (fresh_stripe c) (
            StripeOperation_PUT (connections c) key version_new stripe version mode;;
            status ← PUT_execute (connections c) key version_new stripe (operation_timeout c);
            ni ← gets needsIndicator;
            when ni (putIndicatorKey (connections c) key;; putHandoffKeys (connections c) key version_new stripe);;
            mret status);
          mret (status, if bool_decide (status = OK) then Some version_new else None)
      end
  | _, _, _ => mret (CLIENT_INTERNAL_ERROR, None)
  end.

Definition put_any (key value : option bytes) : M (KineticCluster D) (StatusCode * option bytes) :=
  do_put key (Some []) value IGNORE_VERSION.

Definition put (key version value : option bytes) : M (KineticCluster D) (StatusCode * option bytes) :=
  do_put key (Some (default [] version)) value REQUIRE_SAME_VERSION.

(** ** Reading *)

Definition VersionCount_eqb (lhs rhs : VersionCount) : outcome bool :=
  if negb (frequency lhs =? frequency rhs) then Ret false
  else if (frequency lhs =? 0) && (frequency rhs =? 0) then Ret true
  else l ← deref (version lhs); r ← deref (version rhs); Ret (bool_decide (l = r)).

(** The loop that waits for another client: whether the stripe version changed. *)
Fixpoint await_change (fuel : nat) (key : bytes) (skip_value : bool) (before : VersionCount) (deadline : Z) :
    M (KineticCluster D) bool :=
  match fuel with
  | O => out_of_fuel
  | S fuel' =>
      usleep (200 * 1000);;
      c ← get;
      '(_, g) ← run_get (fresh_get c)
        (on_stripe (new_get (connections c) key skip_value false);; GET_execute (connections c) key skip_value);
      after ← lift (mostFrequentVersion skip_value (get_ops g));
      same ← lift (VersionCount_eqb before after);
      if negb (same : bool) then mret true else
      t ← now;
      if t <? deadline then await_change fuel' key skip_value before deadline else mret false
  end.

(** A round takes at least 200 ms. *)
Definition await_fuel (timeout : Z) : nat := S (Z.to_nat (5 * timeout)).

(** [restarts] bounds how often a concurrent write may start the operation again. *)
Fixpoint do_get (restarts : nat) (key : option bytes) (skip_value : bool) :
    M (KineticCluster D) (StatusCode * option (option bytes * option bytes)) :=
  match key with
  | None => mret (CLIENT_INTERNAL_ERROR, None)
  | Some k =>
      c ← get;
      '(status, g) ← run_get (fresh_get c)
        (on_stripe (new_get (connections c) k skip_value false);; GET_execute (connections c) k skip_value);
      changed ← (if bool_decide (status = CLIENT_IO_ERROR) then
          before ← lift (mostFrequentVersion skip_value (get_ops g));
          if frequency before =? 0 then mret false else
          start_time ← now;
          await_change (await_fuel (operation_timeout c)) k skip_value before (start_time + operation_timeout c * ns_per_s)
        else mret false);
      if (changed : bool) then
        match restarts with
        | O => out_of_fuel
        | S restarts' => do_get restarts' key skip_value
        end
      else
        when (need_indicator (get_stripe g))
          (run_stripe (get_stripe g) (putIndicatorKey (connections c) k);; mret tt);;
        mret (status, if bool_decide (status = OK) then Some (getVersion g, getValue g) else None)
  end.

(** ** Statistics *)

Definition sum_statistics (name : bytes) (f : OperationStatistic -> Z) (l : DriveLog) : Z :=
  foldr (fun s acc => if bool_decide (stat_name s = name) then f s + acc else acc) 0 (log_operation_statistics l).

Definition updateSnapshot : M (KineticCluster D) unit :=
  c ← get;
  '(indicator_status, o) ← run_operation (fresh_operation c)
    (ClusterRangeOp (connections c) (makeIndicatorKey (id c)) (makeIndicatorKey (id c ++ str "~")) 1;;
     ClusterRangeOp_execute (all_keys_quorum c));
  let indicator := bool_decide (indicator_status = OK) && negb (bool_decide (ClusterRangeOp_getKeys 1 (operations o) = [])) in
  c ← get;
  '(cbs, _) ← run_operation (fresh_operation c)
    (ClusterLogOp (connections c) [LOG_CAPACITIES; LOG_STATISTICS] (connections c) 0;; ClusterLogOp_execute);
  logs ← lift (mapM (fun cb => deref (cb_log cb)) (filter (fun cb => cb_ok cb = true) cbs));
  let num_failed := Z.of_nat (length (filter (fun cb => cb_ok cb = false) cbs)) in
  let total f := u64 (foldr (fun l acc => f l + acc) 0 logs) in
  let read_ops := total (sum_statistics (str "GET_RESPONSE") stat_count) in
  let read_bytes := total (sum_statistics (str "GET_RESPONSE") stat_bytes) in
  let write_ops := total (sum_statistics (str "PUT") stat_count) in
  let write_bytes := total (sum_statistics (str "PUT") stat_bytes) in
  t ← now;
  modify (fun c =>
    let s := statistics_snapshot c in
    set_snapshot (mkClusterStats
      (total log_nominal_capacity_in_bytes)
      (total (fun l => log_nominal_capacity_in_bytes l - log_bytes_used l))
      read_ops read_bytes write_ops write_bytes
      (io_end s) t
      (u64 (read_ops - read_ops_total s)) (u64 (read_bytes - read_bytes_total s))
      (u64 (write_ops - write_ops_total s)) (u64 (write_bytes - write_bytes_total s))
      (mkClusterStatus indicator (drives_total (health s)) num_failed (redundancy_factor (health s))
        (connected (health s)) (location (health s)))) c).

End Operations.
End Cluster.
Export Cluster.

(** ** Lemmas: cutting a value *)

Section Chunks.
Variables (cs : nat) (value : bytes).
Hypothesis cs_pos : (0 < cs)%nat.

(** The value followed by [n] padding characters. *)
Definition padded (n : nat) : bytes := value ++ replicate n NUL.

Lemma data_chunk_padded i n : ((S i) * cs <= length value + n)%nat -> data_chunk cs value i = take cs (drop (i * cs) (padded n)).
Proof.
  intros Hn. unfold data_chunk, padded. case_bool_decide as Hi.
  - unfold resize. rewrite Nat2Z.id, drop_app_le by lia.
    destruct (decide (cs <= length (drop (i * cs) value))%nat) as [Hle|Hgt].
    + rewrite (take_app_le _ _ cs) by done. rewrite take_take, Nat.min_id, length_take, Nat.min_l, Nat.sub_diag by lia.
      apply app_nil_r.
    + rewrite (take_ge (drop (i * cs) value)), take_app_ge by lia. rewrite take_ge by lia.
      f_equal. rewrite length_drop in *. rewrite take_replicate. f_equal. lia.
  - rewrite drop_app_ge by lia. rewrite drop_replicate, take_replicate. f_equal. lia.
Qed.

Lemma length_data_chunk i : length (data_chunk cs value i) = cs.
Proof.
  rewrite (data_chunk_padded i (S i * cs)) by lia. unfold padded. rewrite length_take, length_drop, length_app, length_replicate. lia.
Qed.

Lemma concat_chunks n u : (u * cs <= length value + n)%nat -> concat (data_chunk cs value <$> seq 0 u) = take (u * cs) (padded n).
Proof.
  induction u as [|u IH]; intros Hu; [done|].
  rewrite seq_S, fmap_app, concat_app, IH by lia. cbn [fmap list_fmap concat]. rewrite app_nil_r.
  rewrite (data_chunk_padded _ n) by done. rewrite Nat.add_0_l. replace (S u * cs)%nat with (u * cs + cs)%nat by lia.
  by rewrite take_take_drop.
Qed.

(** The chunks that are written hold the value. *)
Lemma chunks_hold_value u : (length value <= u * cs)%nat -> take (length value) (concat (data_chunk cs value <$> seq 0 u)) = value.
Proof.
  intros Hu. rewrite (concat_chunks (u * cs)) by lia. unfold padded. rewrite take_take, Nat.min_l by done.
  by rewrite take_app_length.
Qed.

Lemma chunks_used_spec : value <> [] -> (1 <= chunks_used cs value)%nat /\ (length value <= chunks_used cs value * cs)%nat /\
  forall i, (i * cs < length value)%nat <-> (i < chunks_used cs value)%nat.
Proof.
  intros Hne. unfold chunks_used. assert (0 < length value)%nat by (destruct value; [done|simpl; lia]).
  pose proof (Nat.div_mod (length value + cs - 1) cs ltac:(lia)) as Hd.
  pose proof (Nat.mod_bound_pos (length value + cs - 1) cs ltac:(lia) cs_pos) as Hm.
  set (q := ((length value + cs - 1) / cs)%nat) in *. set (r := ((length value + cs - 1) mod cs)%nat) in *.
  clearbody q r. split_and!; [nia|nia|]. intros i. split; intros Hi; nia.
Qed.

Lemma chunks_unused_zero i : value <> [] -> (chunks_used cs value <= i)%nat -> data_chunk cs value i = replicate cs NUL.
Proof.
  intros Hne Hi. unfold data_chunk. rewrite bool_decide_eq_false_2; [done|].
  destruct (chunks_used_spec Hne) as (_ & _ & Hu). rewrite Hu. lia.
Qed.

End Chunks.

(** ** Lemmas: values and stripes *)

Section ValueToStripe.
Context `{IsaLaws k m}.

Lemma valueToStripe_spec capacity value rp :
  provider_ok (k:=k) (m:=m) rp -> (0 < k)%nat -> (m <= 255)%nat -> 0 < capacity -> value <> [] ->
  slen value <= capacity * Z.of_nat k ->
  let cs := data_chunk_size capacity value in let used := chunks_used cs value in
  exists full rp', valueToStripe capacity value rp = (Ret (Some <$> stored_stripe used k full), rp') /\
    provider_ok (k:=k) (m:=m) rp' /\ valid_stripe (k:=k) (m:=m) cs full /\ (0 < cs)%nat /\ (1 <= used <= k)%nat /\
    (forall i, (used <= i < k)%nat -> full !! i = Some (replicate cs NUL)) /\
    value = take (length value) (concat (take used full)).
Proof.
  intros Hrp Hk Hm Hc Hne Hlen cs used. pose proof Hrp as (Hnd & Hpar & _).
  assert (0 < cs)%nat as Hcs.
  { unfold cs, data_chunk_size. case_match; [destruct value; [done|simpl; lia]|lia]. }
  destruct (chunks_used_spec cs value Hcs Hne) as (Hu1 & Hul & Hu). fold used in Hu1, Hul, Hu.
  assert (used <= k)%nat as Huk.
  { destruct (decide (used <= k)%nat) as [|Hgt]; [done|]. exfalso. assert (k < used)%nat as Hlt%Hu by lia.
    unfold cs, data_chunk_size, slen in *. destruct (Z.ltb_spec (Z.of_nat (length value)) capacity); nia. }
  set (data := data_chunk cs value <$> seq 0 k).
  destruct (compute_encode rp cs data (Some [])) as (parity & rp' & E & Hv & Hrp'); try done.
  { unfold data. by rewrite length_fmap, length_seq. }
  { apply Forall_fmap, Forall_true. intros i. by apply length_data_chunk. }
  exists (data ++ parity), rp'. split_and!; try done; [| |].
  - unfold valueToStripe. mstep. rewrite bool_decide_eq_false_2 by done. unfold numData, numParity. rewrite Hnd. fold cs.
    change ((fun i => Some (data_chunk cs value i)) <$> seq 0 k) with (Some ∘ data_chunk cs value <$> seq 0 k).
    rewrite list_fmap_compose. change (data_chunk cs value <$> seq 0 k) with data.
    rewrite (bind_ret _ _ _ _ _ E). rewrite bool_decide_eq_false_2 by lia. unfold mret, M_ret. do 2 f_equal.
    unfold stored_stripe. apply list_eq. intros i. rewrite list_lookup_imap, !list_lookup_fmap, list_lookup_imap.
    destruct ((data ++ parity) !! i); [|done]. simpl. fold used. case_bool_decide; case_decide; done.
  - intros i [Hi1 Hi2]. rewrite lookup_app_l by (unfold data; rewrite length_fmap, length_seq; lia).
    unfold data. rewrite list_lookup_fmap, lookup_seq_lt by done. simpl. f_equal. by apply chunks_unused_zero.
  - rewrite take_app_le by (unfold data; rewrite length_fmap, length_seq; lia).
    unfold data. rewrite <- fmap_take, take_seq, Nat.min_l by done. symmetry. by apply chunks_hold_value.
Qed.

End ValueToStripe.

(** The number of chunks a read cannot use. *)
Definition unusable `{Checksum} (v : bytes) (cbs : list callback) : nat := count_true (bad (check_chunk v <$> cbs)).

(** A read of [stripe]: what passes verification is the chunk that was written there. *)
Definition honest_read `{Checksum} (v : bytes) (stripe : list (option bytes)) (cbs : list callback) : Prop :=
  forall i cb c, cbs !! i = Some cb -> check_chunk v cb = Good c -> stripe !! i = Some (Some c).

Lemma stripe_recovered `{Env D} `{StatusInt} `{Checksum} `{IsaLaws k m} capacity value uuid rp :
  provider_ok (k:=k) (m:=m) rp -> (0 < k)%nat -> (m <= 255)%nat -> 0 < capacity ->
  slen value <= capacity * Z.of_nat k -> slen value <= INT_MAX -> slen uuid = 36 \/ slen uuid = 16 ->
  let v := uuidGenerateEncodeSize (slen value) uuid in
  exists stripe rp', valueToStripe capacity value rp = (Ret (Some <$> stripe), rp') /\ length stripe = m /\
    provider_ok (k:=k) (m:=m) rp' /\
    forall (w : StripeOperation_GET D) cbs,
      provider_ok (k:=k) (m:=m) (redundancy (get_stripe w)) -> version (get_version w) = Some v ->
      op_callback <$> get_ops w = Some <$> cbs -> honest_read v (Some <$> stripe) cbs ->
      (length cbs = m /\ (unusable v cbs <= m - k)%nat) \/ (length cbs = k /\ unusable v cbs = 0%nat) ->
      exists w', reconstructValue w = (Ret tt, w') /\ getValue w' = Some value /\ get_version w' = get_version w /\
        provider_ok (k:=k) (m:=m) (redundancy (get_stripe w')).
Proof.
  intros Hrp Hk Hm Hc Hlen Hint Hu v.
  assert (uuidDecodeSize (Some v) = Ret (slen value)) as Hdec.
  { unfold v. rewrite uuidDecodeSize_encode by (done || (pose proof (slen_nonneg value); unfold INT_MAX in *; lia)).
    f_equal. lia. }
  destruct (decide (value = [])) as [->|Hne].
  - exists (replicate m []), rp. split_and!; [|by rewrite length_replicate|done|].
    + unfold valueToStripe. mstep. rewrite bool_decide_eq_true_2 by done. unfold size. rewrite fmap_replicate.
      destruct Hrp as (-> & Hpar & _). unfold mret, M_ret. do 3 f_equal. lia.
    + intros w cbs Hrpw Hv _ _ _. unfold reconstructValue, set_value. mstep. cbn [get_version]. rewrite Hv, Hdec. mstep.
      eexists. split; [done|]. done.
  - destruct (valueToStripe_spec capacity value rp) as (full & rp' & E & Hrp' & Hfull & Hcs & Hused & Hz & Hval); try done.
    exists (stored_stripe (chunks_used (data_chunk_size capacity value) value) k full), rp'.
    split_and!; [done| |done|].
    { unfold stored_stripe. rewrite length_imap. by destruct (valid_stripe_lengths _ _ Hfull). }
    intros w cbs Hrpw Hv Hcbs Hread Hen.
    destruct (reconstructValue_spec w value v (data_chunk_size capacity value)
      (chunks_used (data_chunk_size capacity value) value) full cbs) as (w' & Ew & Hw' & Hv' & Hp'); try done.
    + split; try done. intros i c Hi. rewrite list_lookup_fmap in Hi. apply fmap_Some in Hi as (cb & Hcb & Hgood).
      specialize (Hread i cb c Hcb (eq_sym Hgood)). rewrite list_lookup_fmap in Hread.
      by apply fmap_Some in Hread as (c' & Hc' & [= ->]).
    + unfold enough. rewrite !length_fmap. unfold unusable in Hen.
      destruct Hen as [[Hl Hb]|[Hl Hb]]; [right|left]; (split; [lia|]).
      * destruct Hrpw as (_ & Hpar & _). lia.
      * apply forallb_forall. intros c Hin%list_elem_of_In. apply list_elem_of_lookup in Hin as [i Hi].
        revert Hb. generalize dependent i. generalize (check_chunk v <$> cbs). intros chunks.
        induction chunks as [|c' chunks IH]; intros i Hi Hb; [done|]. cbn in Hb.
        destruct (is_good c') eqn:Hg; [|done]. destruct i as [|i]; [by simplify_eq/=|]. by eapply IH.
    + by exists w'.
Qed.

(** ** Properties *)

(** C1: What [do_put] stores, [reconstructValue] reads back, with up to [nParity] chunks lost.  A value
    of at most [nData] chunk capacities is cut into a stripe of [nData + nParity] chunks; from any read
    of all chunks under the version of the put, in which at most [nParity] chunks are missing, outdated or
    fail their checksum, and from any read of the data chunks alone that finds all of them, the
    reconstruction returns exactly the value, zero padding and unwritten zero chunks notwithstanding. *)
Theorem stripe_roundtrip `{Env D} `{StatusInt} `{Checksum} `{IsaLaws k m} capacity value uuid rp :
  provider_ok (k:=k) (m:=m) rp -> (0 < k)%nat -> (m <= 255)%nat -> 0 < capacity ->
  slen value <= capacity * Z.of_nat k -> slen value <= INT_MAX -> slen uuid = 36 \/ slen uuid = 16 ->
  let v := uuidGenerateEncodeSize (slen value) uuid in
  exists stripe rp', valueToStripe capacity value rp = (Ret stripe, rp') /\ length stripe = m /\
    forall (w : StripeOperation_GET D) cbs,
      provider_ok (k:=k) (m:=m) (redundancy (get_stripe w)) -> version (get_version w) = Some v ->
      op_callback <$> get_ops w = Some <$> cbs -> honest_read v stripe cbs ->
      (length cbs = m /\ (unusable v cbs <= m - k)%nat) \/ (length cbs = k /\ unusable v cbs = 0%nat) ->
      exists w', reconstructValue w = (Ret tt, w') /\ getValue w' = Some value.
Proof.
  intros Hrp Hk Hm Hc Hlen Hint Hu v. destruct (stripe_recovered capacity value uuid rp) as (stripe & rp' & E & Hl & _ & Hr); try done.
  exists (Some <$> stripe), rp'. split_and!; [done|by rewrite length_fmap|]. intros w cbs Hw Hv Hcbs Hread Hen.
  destruct (Hr w cbs) as (w' & Ew & Hval & _); try done. by exists w'.
Qed.

(** A read of a stripe from which chunk [lost] is gone. *)
Definition read_without `{Checksum} {D} (d : D) (rp : RedundancyProvider) (v : bytes) (lost : nat) (stripe : list (option bytes)) :
    StripeOperation_GET D :=
  let cb i c := if decide (i = lost) then mkCallback GetCallback REMOTE_NOT_FOUND true None [] None None
                else mkCallback GetCallback OK true ((fun x => makeRecord x v) <$> c) [] None None in
  mkGet (mkStripe (mkOperation (imap (fun i c => mkOp None (Some (cb i c)) i) stripe) 0 d) false rp) (mkVersionCount (Some v) 2) None.

Lemma stripe_roundtrip_witness :
  let crc : Checksum := fun _ s => slen s in
  let rp := @new_provider IsaSim.isa 2 1 in
  let v := uuidGenerateEncodeSize 6 (replicate 36 "u"%char) in
  exists stripe rp', @valueToStripe IsaSim.isa 4 (str "abcdef") rp = (Ret stripe, rp') /\
    exists w', @reconstructValue Simulator.sim crc IsaSim.isa (@read_without crc _ (Simulator.fresh 3) rp v 0 stripe) = (Ret tt, w') /\
      getValue w' = Some (str "abcdef").
Proof.
  intros crc rp v.
  assert (@provider_ok IsaSim.isa 2 3 rp) as Hrp by (apply (@new_provider_ok IsaSim.isa 2 3); lia).
  destruct (@stripe_roundtrip Simulator.sim Simulator.sim_env Simulator.sim_status_int crc IsaSim.isa 2 3 IsaSim.isa_laws
    4 (str "abcdef") (replicate 36 "u"%char) rp) as (stripe & rp' & E & Hl & Hread);
    [exact Hrp|lia|lia|lia|by vm_compute|by vm_compute|by left|].
  exists stripe, rp'. split; [exact E|]. vm_compute in E. injection E as <- _.
  match goal with |- context [@read_without ?c ?D ?d ?r ?v ?l ?st] => set (w := @read_without c D d r v l st) end.
  apply (Hread w (omap op_callback (get_ops w))); [exact Hrp|reflexivity|by vm_compute| |left; split; [reflexivity|vm_compute; lia]].
  intros [|[|[|i]]] cb c Hcb; vm_compute in Hcb; simplify_eq; vm_compute; naive_solver.
Defined.

(** One round of requests that can serve a read of version [v]: among the answers, version [v] is on at
    least [nData] chunks and on more of them than any other, no other result has a quorum, what passes
    verification was written, and enough chunks can be used. *)
Definition round_serves `{Env D} `{StatusInt} `{Checksum} `{IsaL} (k m : nat) (v : bytes) (stripe : list (option bytes)) (w : StripeOperation_GET D) : Prop :=
  exists o cbs, executeOperationVector (so_op (get_stripe w)) = (Ret (count_results (results (operations o))), o) /\
    op_callback <$> operations o = Some <$> cbs /\ Forall (readable false) cbs /\ honest_read v stripe cbs /\
    Z.of_nat k <= occurrences false v cbs /\
    (forall v', v' <> v -> occurrences false v' cbs < occurrences false v cbs) /\
    (forall c, c <> OK -> count_code c (results (operations o)) < Z.of_nat k) /\
    ((length cbs = m /\ (unusable v cbs <= m - k)%nat) \/ (length cbs = k /\ unusable v cbs = 0%nat)).

(** A read returns the value that was written when enough of it is there.  With the stripe of a put
    of [value]: if the requests for the data chunks are answered so that [round_serves] holds, or they
    fail and the round with the parity chunks added does, then [execute] ends with [OK], the value and
    its version, whatever chunks are missing, outdated or corrupted within the redundancy. *)
Theorem get_serves_value `{Env D} `{StatusIntLaws} `{Checksum} `{IsaLaws k m} nconn key capacity value uuid rp :
  provider_ok (k:=k) (m:=m) rp -> (0 < k)%nat -> (m <= 255)%nat -> 0 < capacity ->
  slen value <= capacity * Z.of_nat k -> slen value <= INT_MAX -> slen uuid = 36 \/ slen uuid = 16 ->
  let v := uuidGenerateEncodeSize (slen value) uuid in
  exists stripe rp', valueToStripe capacity value rp = (Ret stripe, rp') /\
    forall (w : StripeOperation_GET D), provider_ok (k:=k) (m:=m) (redundancy (get_stripe w)) ->
      let served w := exists w', GET_execute nconn key false w = (Ret OK, w') /\
                        getValue w' = Some value /\ getVersion w' = Some v in
      (round_serves k m v stripe w -> served w) /\
      (forall e w1 w2, do_execute false w = (Throw e, w1) -> add_parities nconn key false w1 = (Ret tt, w2) ->
        provider_ok (k:=k) (m:=m) (redundancy (get_stripe w2)) -> round_serves k m v stripe w2 -> served w).
Proof.
  intros Hrp Hk Hm Hc Hlen Hint Hu v. destruct (stripe_recovered (D:=D) capacity value uuid rp) as (stripe & rp' & E & Hl & _ & Hr); try done.
  exists (Some <$> stripe), rp'. split; [done|].
  assert (forall w : StripeOperation_GET D, provider_ok (k:=k) (m:=m) (redundancy (get_stripe w)) -> round_serves k m v (Some <$> stripe) w ->
    exists w', do_execute false w = (Ret OK, w') /\ getValue w' = Some value /\ getVersion w' = Some v) as Hround.
  { intros w Hw (o & cbs & Eo & Hcbs & Hread & Hhon & Hq & Hmode & Hother & Hen).
    set (f := occurrences false v cbs) in *.
    set (w1 := mkGet (mkStripe o (need_indicator (get_stripe w) || (f <? count_code OK (results (operations o))))
      (redundancy (get_stripe w))) (mkVersionCount (Some v) f) (get_value w)).
    destruct (Hr w1 cbs) as (w' & Ew & Hval & Hver & _); try done. exists w'. split; [|unfold getVersion; by rewrite Hver].
    pose proof Hw as (Hnd & _).
    apply (do_execute_serves w o (count_results (results (operations o))) v f); rewrite ?Hnd; try done.
    - apply mostFrequentVersion_unique; try done. unfold f in *. lia.
    - by apply occurrences_results. }
  intros w Hw served. split.
  - intros Hs. destruct (Hround w Hw Hs) as (w' & Ew & Hval). exists w'. split; [|done].
    unfold GET_execute, attempt, try_catch. rewrite bind_unfold. by rewrite (bind_ret _ _ _ _ _ Ew).
  - intros e w1 w2 E1 E2 Hw2 Hs. destruct (Hround w2 Hw2 Hs) as (w' & Ew & Hval). exists w'. split; [|done].
    unfold GET_execute, attempt, try_catch. rewrite bind_unfold, (bind_throw _ _ _ _ _ E1). cbn [mret M_ret].
    rewrite (bind_ret _ _ _ _ _ E2), bind_unfold. by rewrite (bind_ret _ _ _ _ _ Ew).
Qed.

(** A concrete run: a value is put on a cluster of three simulated drives and a read is set up. *)
Module Example_.
Definition crc : Checksum := fun _ s => slen s.
Definition provider : RedundancyProvider := @new_provider IsaSim.isa 2 1.
Definition memory : ClusterStats := mkClusterStats 0 0 0 0 0 0 0 0 0 0 0 0 (mkClusterStatus false 0 0 0 [] []).

Definition cluster : KineticCluster Simulator.sim :=
  mkCluster (str "C1") (str "instance") 4 10 3 provider None 0 memory (Simulator.fresh 3).

Definition after_put : KineticCluster Simulator.sim :=
  snd (@put_any _ Simulator.sim_env Simulator.sim_status_int crc IsaSim.isa (Some (str "k")) (Some (str "abcdef")) cluster).

Definition get_operation : StripeOperation_GET Simulator.sim :=
  snd (on_stripe (new_get 3 (str "k") false false)
    (mkGet (mkStripe (new_operation (cl_env after_put)) false provider) (mkVersionCount None 0) None)).

Definition uuid : bytes := pad0 36 (dec 1).
End Example_.

Lemma example_provider : redundancy (get_stripe Example_.get_operation) = Example_.provider.
Proof. vm_compute. reflexivity. Qed.

Lemma get_serves_value_witness :
  exists w', @GET_execute _ Simulator.sim_env Simulator.sim_status_int Example_.crc IsaSim.isa 3 (str "k") false Example_.get_operation =
    (Ret OK, w') /\ getValue w' = Some (str "abcdef") /\ getVersion w' = Some (uuidGenerateEncodeSize 6 Example_.uuid).
Proof.
  assert (@provider_ok IsaSim.isa 2 3 Example_.provider) as Hrp by (apply (@new_provider_ok IsaSim.isa 2 3); lia).
  destruct (@get_serves_value _ Simulator.sim_env Simulator.sim_status_int Simulator.sim_status_int_laws Example_.crc IsaSim.isa 2 3
    IsaSim.isa_laws 3 (str "k") 4 (str "abcdef") Example_.uuid Example_.provider) as (stripe & rp' & E & Hs);
    [exact Hrp|lia|lia|lia|by vm_compute|by vm_compute|left; by vm_compute|].
  destruct (Hs Example_.get_operation) as [Hserve _]; [rewrite example_provider; exact Hrp|].
  apply Hserve. vm_compute in E. injection E as <- _. clear Hs Hserve.
  set (o := snd (@executeOperationVector _ Simulator.sim_env Simulator.sim_status_int (so_op (get_stripe Example_.get_operation)))).
  set (v := uuidGenerateEncodeSize _ _).
  assert (occurrences false v (omap op_callback (operations o)) = 2) as Hocc by (vm_compute; reflexivity).
  exists o, (omap op_callback (operations o)). split_and!.
  - vm_compute. reflexivity.
  - vm_compute. reflexivity.
  - assert (forall l, forallb (fun cb => bool_decide (is_Some (cb_record cb))) l = true -> Forall (readable false) l) as Hl.
    { intros l Hl. apply Forall_forall. intros cb Hin _ _. rewrite forallb_forall in Hl.
      specialize (Hl cb). rewrite <- list_elem_of_In in Hl. by apply bool_decide_eq_true in Hl. }
    apply Hl. vm_compute. reflexivity.
  - intros [|[|i]] cb c Hcb Hg; vm_compute in Hcb; [injection Hcb as <-; vm_compute in Hg; injection Hg as <-; reflexivity..|discriminate Hcb].
  - rewrite Hocc. lia.
  - intros v' Hne. pose proof (occurrences_disjoint false v v' (omap op_callback (operations o)) (not_eq_sym Hne)) as Hd.
    rewrite Hocc in *. replace (slen (omap op_callback (operations o))) with 2 in Hd by (vm_compute; reflexivity). lia.
  - intros c Hc. replace (results (operations o)) with [OK; OK] by (vm_compute; reflexivity).
    unfold count_code. rewrite !filter_cons, !decide_False by congruence. simpl. lia.
  - right. split; vm_compute; reflexivity.
Defined.
