(* ===== verification/ClusterInterface.v ===== *)
(** * The key-value interface (include/ClusterInterface.hh)

    File objects and data blocks are written against the abstract class [ClusterInterface].  Here it
    is a type class over the state [W] of the system and the type [Cl] of cluster handles (the
    pointers that are passed around); [ClusterStore] states what its documentation promises to a
    client that nobody interferes with, in terms of an abstract map from keys to versioned values, and
    [ClusterFacts] the little that holds in any case.
    [KineticCluster] is one instance of the operations; a plain map is an instance of the promises.  How far the cluster keeps
    them is the subject of ClusterRefinement.v. *)

From S2P Require Import Prelude CppString Utility Kinetic Simulator Callbacks ClusterOperation Isa Redundancy StripeOperation Cluster.

Class ClusterInterface (W Cl : Type) := {
  ci_id : Cl -> W -> bytes;
  ci_instanceId : Cl -> W -> bytes;
  ci_limits : Cl -> M W ClusterLimits;
  ci_stats : Cl -> M W ClusterStats;
  (** version and value are set unless the caller's variables are left alone *)
  ci_get : Cl -> bytes -> M W (StatusCode * option (option bytes * option bytes));
  ci_get_version : Cl -> bytes -> M W (StatusCode * option (option bytes));
  (** a null version stands for "the key does not exist" *)
  ci_put : Cl -> bytes -> option bytes -> option bytes -> M W (StatusCode * option bytes);
  ci_put_any : Cl -> bytes -> option bytes -> M W (StatusCode * option bytes);
  ci_remove : Cl -> bytes -> option bytes -> M W StatusCode;
  ci_remove_any : Cl -> bytes -> M W StatusCode;
  ci_flush : Cl -> M W StatusCode;
  ci_range : Cl -> bytes -> bytes -> Z -> M W (StatusCode * option (list bytes));
  (** [system_clock::now()] *)
  ci_now : M W Z;
}.

(** ** The promises *)

(** The version a caller passes: null and the empty string both stand for "the key does not exist". *)
Definition expected (version : option bytes) : option bytes :=
  match version with Some [] => None | v => v end.

(** The keys of a range in order. *)
Definition keys_between (lo hi : bytes) (ks : list bytes) : list bytes :=
  foldr Simulator.insert_key [] (filter (fun k => str_leb lo k && str_leb k hi = true) ks).
Definition keys_of {A} (m : gmap bytes A) : list bytes := map fst (map_to_list m).
Definition range_of {A} (lo hi : bytes) (m : gmap bytes A) : list bytes := keys_between lo hi (keys_of m).

(** What a request with the ends exchanged is answered with: ascending keys of the range, not more than were asked for, and some if
    there are any.  It is not promised that they are the last ones: see [reverse_range_returns_smallest]. *)
Definition some_of_range (n : nat) (all keys : list bytes) : Prop :=
  key_sorted keys /\ (length keys <= n)%nat /\ (forall key, key ∈ keys -> key ∈ all) /\
  (all <> [] -> (0 < n)%nat -> keys <> []).

(** What holds of every cluster, also when its drives fail and others write to it: its names and limits are
    those it was made with, and the clock can be read. *)
Class ClusterFacts (W Cl : Type) `{ClusterInterface W Cl} := {
  store_limits : Cl -> ClusterLimits;
  store_id : Cl -> bytes;
  store_instance : Cl -> bytes;
  id_store : forall cl w, ci_id cl w = store_id cl;
  instance_store : forall cl w, ci_instanceId cl w = store_instance cl;
  limits_store : forall cl w, ci_limits cl w = (Ret (store_limits cl), w);
  now_returns : forall w, exists t w', ci_now w = (Ret t, w');
}.

Class ClusterStore (W Cl : Type) `{ClusterInterface W Cl} := {
  store_facts :: ClusterFacts W Cl;
  store : Cl -> W -> gmap bytes (bytes * bytes);
  store_time : W -> Z;
  store_versions : forall cl w key version value, store cl w !! key = Some (version, value) -> version <> [];
  now_store : forall w, exists w', ci_now w = (Ret (store_time w), w') /\ store_time w <= store_time w' /\
    forall cl, store cl w' = store cl w;
  get_store : forall cl key w, exists w', store_time w <= store_time w' /\ (forall cl, store cl w' = store cl w) /\
    ci_get cl key w = (Ret (match store cl w !! key with
                            | Some (version, value) => (OK, Some (Some version, Some value))
                            | None => (REMOTE_NOT_FOUND, None)
                            end), w');
  get_version_store : forall cl key w, exists w', store_time w <= store_time w' /\ (forall cl, store cl w' = store cl w) /\
    ci_get_version cl key w = (Ret (match store cl w !! key with
                            | Some (version, _) => (OK, Some (Some version))
                            | None => (REMOTE_NOT_FOUND, None)
                            end), w');
  put_store : forall cl key version value w, exists w', store_time w <= store_time w' /\
    if bool_decide (expected version = fst <$> store cl w !! key) then
      exists version', ci_put cl key version (Some value) w = (Ret (OK, Some version'), w') /\
        store cl w' = <[key := (version', value)]> (store cl w) /\ forall cl', cl' <> cl -> store cl' w' = store cl' w
    else ci_put cl key version (Some value) w = (Ret (REMOTE_VERSION_MISMATCH, None), w') /\
        forall cl, store cl w' = store cl w;
  put_any_store : forall cl key value w, exists w' version', store_time w <= store_time w' /\
    ci_put_any cl key (Some value) w = (Ret (OK, Some version'), w') /\
    store cl w' = <[key := (version', value)]> (store cl w) /\ forall cl', cl' <> cl -> store cl' w' = store cl' w;
  remove_any_store : forall cl key w, exists w', store_time w <= store_time w' /\
    ci_remove_any cl key w = (Ret (if store cl w !! key then OK else REMOTE_NOT_FOUND), w') /\
    store cl w' = delete key (store cl w) /\ forall cl', cl' <> cl -> store cl' w' = store cl' w;
  flush_store : forall cl w, exists w' status, store_time w <= store_time w' /\ (forall cl, store cl w' = store cl w) /\
    ci_flush cl w = (Ret status, w');
  range_store : forall cl start_key end_key max w, str_leb start_key end_key = true -> exists w', store_time w <= store_time w' /\
    (forall cl, store cl w' = store cl w) /\
    ci_range cl start_key end_key max w = (Ret (OK, Some
      (take (Z.to_nat (if max =? 0 then max_range_elements (store_limits cl) else max)) (range_of start_key end_key (store cl w)))), w');
  (** the last keys of a range, asked for with the ends exchanged: see [some_of_range] *)
  range_back_store : forall cl start_key end_key max w, str_leb start_key end_key = false -> exists keys w', store_time w <= store_time w' /\
    (forall cl, store cl w' = store cl w) /\
    some_of_range (Z.to_nat (if max =? 0 then max_range_elements (store_limits cl) else max)) (range_of end_key start_key (store cl w)) keys /\
    ci_range cl start_key end_key max w = (Ret (OK, Some keys), w');
}.

(** ** Ranges of keys *)

Lemma str_leb_trans a b c : str_leb a b = true -> str_leb b c = true -> str_leb a c = true.
Proof.
  unfold str_leb. rewrite !negb_true_iff. intros Hab Hbc. destruct (str_ltb c a) eqn:E; [|done].
  destruct (str_ltb a b) eqn:E'; [by rewrite (str_ltb_trans c a b) in Hbc|].
  assert (a = b) as -> by by apply str_ltb_total. by rewrite Hbc in E.
Qed.

Lemma str_leb_total a b : str_leb a b = true \/ str_leb b a = true.
Proof.
  unfold str_leb. destruct (str_ltb b a) eqn:E; [right|by left]. destruct (str_ltb a b) eqn:E'; [|done].
  pose proof (str_ltb_trans a b a E' E) as Ha. by rewrite str_ltb_irrefl in Ha.
Qed.

Lemma str_leb_antisym a b : str_leb a b = true -> str_leb b a = true -> a = b.
Proof. unfold str_leb. rewrite !negb_true_iff. intros. by apply str_ltb_total. Qed.

Lemma str_leb_app p a b : str_leb (p ++ a) (p ++ b) = str_leb a b.
Proof. unfold str_leb. by rewrite str_ltb_app. Qed.

Definition key_le (a b : bytes) : Prop := str_leb a b = true.

Lemma insert_key_perm key l : Simulator.insert_key key l ≡ₚ key :: l.
Proof.
  induction l as [|x l IH]; [done|]. cbn [Simulator.insert_key]. destruct (str_ltb key x); [done|].
  by rewrite IH, Permutation_swap.
Qed.

Lemma insert_key_sorted key l : StronglySorted key_le l -> StronglySorted key_le (Simulator.insert_key key l).
Proof.
  induction 1 as [|x l Hl IH Hx]; [by repeat constructor|]. cbn [Simulator.insert_key]. destruct (str_ltb key x) eqn:E.
  - assert (key_le key x) as Hle.
    { unfold key_le. destruct (str_leb_total key x) as [?|Hxk]; [done|]. unfold str_leb in Hxk. by rewrite E in Hxk. }
    constructor; [by constructor|]. constructor; [done|]. eapply Forall_impl; [exact Hx|]. intros y Hy. by eapply str_leb_trans.
  - constructor; [done|]. rewrite insert_key_perm. constructor; [|done]. unfold key_le, str_leb. by rewrite E.
Qed.

Lemma keys_between_perm lo hi ks : keys_between lo hi ks ≡ₚ filter (fun k => str_leb lo k && str_leb k hi = true) ks.
Proof.
  unfold keys_between. induction (filter _ ks) as [|x l IH]; [done|]. cbn [foldr]. by rewrite insert_key_perm, IH.
Qed.

Lemma keys_between_sorted lo hi ks : StronglySorted key_le (keys_between lo hi ks).
Proof. unfold keys_between. induction (filter _ ks) as [|x l IH]; [constructor|]. by apply insert_key_sorted. Qed.

Lemma keys_between_strict lo hi ks : NoDup ks -> key_sorted (keys_between lo hi ks).
Proof.
  intros Hnd. assert (NoDup (keys_between lo hi ks)) as Hnd' by (rewrite keys_between_perm; by apply NoDup_filter).
  pose proof (keys_between_sorted lo hi ks) as Hs. induction Hs as [|x l Hl IH Hx]; [constructor|].
  apply NoDup_cons in Hnd' as [Hnin Hnd']. constructor; [by apply IH|]. apply Forall_forall. intros y Hy.
  rewrite Forall_forall in Hx. specialize (Hx y Hy). unfold key_le, str_leb in Hx. apply negb_true_iff in Hx.
  destruct (str_ltb x y) eqn:E; [done|]. exfalso. by rewrite (str_ltb_total x y E Hx) in Hnin.
Qed.

Lemma elem_of_keys_between lo hi ks key :
  key ∈ keys_between lo hi ks <-> key ∈ ks /\ str_leb lo key = true /\ str_leb key hi = true.
Proof. rewrite keys_between_perm, list_elem_of_filter, andb_true_iff. tauto. Qed.

Section Keys.
Context {A : Type}.
Implicit Types m : gmap bytes A.

Lemma elem_of_keys m key : key ∈ keys_of m <-> is_Some (m !! key).
Proof.
  unfold keys_of. change (map fst) with (fmap (M:=list) (fst (A:=bytes) (B:=A))). rewrite list_elem_of_fmap. split.
  - intros ([k v] & -> & E%elem_of_map_to_list). by exists v.
  - intros [v E]. exists (key, v). split; [done|]. by apply elem_of_map_to_list.
Qed.

Lemma NoDup_keys m : NoDup (keys_of m).
Proof. apply NoDup_fst_map_to_list. Qed.

Lemma elem_of_range lo hi m key :
  key ∈ range_of lo hi m <-> is_Some (m !! key) /\ str_leb lo key = true /\ str_leb key hi = true.
Proof. unfold range_of. by rewrite elem_of_keys_between, elem_of_keys. Qed.

Lemma NoDup_range lo hi m : NoDup (range_of lo hi m).
Proof. unfold range_of. rewrite keys_between_perm. apply NoDup_filter, NoDup_keys. Qed.

Lemma range_sorted lo hi m : StronglySorted key_le (range_of lo hi m).
Proof. apply keys_between_sorted. Qed.

Lemma key_sorted_range lo hi m : key_sorted (range_of lo hi m).
Proof. apply keys_between_strict, NoDup_keys. Qed.

(** Sorted lists are determined by their elements, and so are ranges. *)
Lemma key_sorted_unique l l' : key_sorted l -> key_sorted l' -> (forall key, key ∈ l <-> key ∈ l') -> l = l'.
Proof.
  revert l'. induction l as [|x l IH]; intros [|y l'] Hs Hs' Hin; [done|..].
  - by destruct (proj1 (elem_of_nil y) (proj2 (Hin y) ltac:(by left))).
  - by destruct (proj1 (elem_of_nil x) (proj1 (Hin x) ltac:(by left))).
  - apply StronglySorted_inv in Hs as [Hs Hx], Hs' as [Hs' Hy]. rewrite Forall_forall in Hx, Hy.
    assert (x = y) as ->.
    { destruct (proj1 (elem_of_cons _ _ _) (proj1 (Hin x) ltac:(by left))) as [|Hxl]; [done|].
      destruct (proj1 (elem_of_cons _ _ _) (proj2 (Hin y) ltac:(by left))) as [|Hyl]; [done|].
      pose proof (str_ltb_trans _ _ _ (Hx y Hyl) (Hy x Hxl)) as Hc. by rewrite str_ltb_irrefl in Hc. }
    f_equal. apply IH; [done..|]. intros key. specialize (Hin key). rewrite !elem_of_cons in Hin.
    assert (key ∈ l -> key <> y) by (intros Hk ->; specialize (Hx y Hk); by rewrite str_ltb_irrefl in Hx).
    assert (key ∈ l' -> key <> y) by (intros Hk ->; specialize (Hy y Hk); by rewrite str_ltb_irrefl in Hy). tauto.
Qed.

Lemma range_unique lo hi m l : key_sorted l ->
  (forall key, key ∈ l <-> is_Some (m !! key) /\ str_leb lo key = true /\ str_leb key hi = true) -> range_of lo hi m = l.
Proof. intros Hs Hl. apply key_sorted_unique; [apply key_sorted_range|done|]. intros key. by rewrite Hl, elem_of_range. Qed.

(** Fewer keys, shorter ranges. *)
Lemma range_of_subset lo hi m m' :
  (forall key, key ∈ range_of lo hi m' -> key ∈ range_of lo hi m) ->
  (length (range_of lo hi m') <= length (range_of lo hi m))%nat.
Proof. intros Hsub. apply submseteq_length, NoDup_submseteq; [by apply NoDup_range|done]. Qed.

(** A page of a range that is not full holds all of it. *)
Lemma short_page (l : list bytes) n : (length (take n l) < n)%nat -> take n l = l.
Proof. intros Hl. apply take_ge. rewrite length_take in Hl. lia. Qed.

End Keys.

(** ** The implementation *)

Section Implementation.
Context `{Env D} `{StatusInt} `{Checksum} `{IsaL}.

(** [restarts] bounds how often a read starts over because of concurrent writes. *)
Definition kinetic_cluster (restarts : nat) : ClusterInterface (KineticCluster D) unit := {|
  ci_id := fun _ => id;
  ci_instanceId := fun _ => instanceId;
  ci_limits := fun _ => c ← get; lift (limits c);
  ci_stats := fun _ => s ← stats; mret (fst s);
  ci_get := fun _ key => do_get restarts (Some key) false;
  ci_get_version := fun _ key => '(status, r) ← do_get restarts (Some key) true; mret (status, fst <$> r);
  ci_put := fun _ key version value => put (Some key) version value;
  ci_put_any := fun _ key value => put_any (Some key) value;
  ci_remove := fun _ key version => remove (Some key) version;
  ci_remove_any := fun _ key => remove_any (Some key);
  ci_flush := fun _ => flush;
  ci_range := fun _ lo hi max => range (Some lo) (Some hi) max;
  ci_now := now;
|}.
End Implementation.

(** ** A map as a cluster *)

(** Version numbers and a clock that advances with every request. *)
Module MapCluster.

Record state := mkState { contents : gmap bytes (Z * bytes); time : Z }.

Definition limits_ : ClusterLimits := mkClusterLimits 4096 2048 16 100.

Definition stored (s : state) : gmap bytes (bytes * bytes) := prod_map to_string (fun v => v) <$> contents s.

Definition tick (s : state) : state := mkState (contents s) (time s + 1).
Definition set_key (key value : bytes) (s : state) : state := mkState (<[key := (time s, value)]> (contents s)) (time s + 1).
Definition delete_key (key : bytes) (s : state) : state := mkState (delete key (contents s)) (time s + 1).

Definition get_ (key : bytes) (s : state) : outcome (StatusCode * option (option bytes * option bytes)) * state :=
  (Ret (match stored s !! key with
        | Some (version, value) => (OK, Some (Some version, Some value))
        | None => (REMOTE_NOT_FOUND, None)
        end), tick s).

Definition get_version_ (key : bytes) (s : state) : outcome (StatusCode * option (option bytes)) * state :=
  (Ret (match stored s !! key with
        | Some (version, _) => (OK, Some (Some version))
        | None => (REMOTE_NOT_FOUND, None)
        end), tick s).

Definition put_ (key : bytes) (version value : option bytes) (s : state) : outcome (StatusCode * option bytes) * state :=
  if bool_decide (expected version = fst <$> stored s !! key) then
    (Ret (OK, Some (to_string (time s))), set_key key (default [] value) s)
  else (Ret (REMOTE_VERSION_MISMATCH, None), tick s).

Definition put_any_ (key : bytes) (value : option bytes) (s : state) : outcome (StatusCode * option bytes) * state :=
  (Ret (OK, Some (to_string (time s))), set_key key (default [] value) s).

Definition remove_any_ (key : bytes) (s : state) : outcome StatusCode * state :=
  (Ret (if stored s !! key then OK else REMOTE_NOT_FOUND), delete_key key s).

Definition remove_ (key : bytes) (version : option bytes) (s : state) : outcome StatusCode * state :=
  match stored s !! key with
  | Some (v, _) => if bool_decide (expected version = Some v) then (Ret OK, delete_key key s)
                   else (Ret REMOTE_VERSION_MISMATCH, tick s)
  | None => (Ret REMOTE_NOT_FOUND, tick s)
  end.

Definition range_ (start_key end_key : bytes) (max : Z) (s : state) : outcome (StatusCode * option (list bytes)) * state :=
  let n := Z.to_nat (if max =? 0 then max_range_elements limits_ else max) in
  (Ret (OK, Some (if str_leb start_key end_key then take n (range_of start_key end_key (stored s))
                  else reverse (take n (reverse (range_of end_key start_key (stored s)))))), tick s).

Definition no_stats : ClusterStats := mkClusterStats 1000 500 0 0 0 0 0 0 0 0 0 0 (mkClusterStatus false 1 0 0 [] []).

#[export] Instance map_interface : ClusterInterface state unit := {
  ci_id := fun _ _ => str "C1";
  ci_instanceId := fun _ _ => str "instance";
  ci_limits := fun _ s => (Ret limits_, s);
  ci_stats := fun _ s => (Ret no_stats, s);
  ci_get := fun _ => get_;
  ci_get_version := fun _ => get_version_;
  ci_put := fun _ => put_;
  ci_put_any := fun _ => put_any_;
  ci_remove := fun _ => remove_;
  ci_remove_any := fun _ => remove_any_;
  ci_flush := fun _ s => (Ret OK, tick s);
  ci_range := fun _ => range_;
  ci_now := fun s => (Ret (time s), tick s);
}.

Lemma to_string_not_empty n : to_string n <> [].
Proof.
  unfold to_string. destruct (Z.ltb_spec n 0); [done|]. destruct (dec_spec n ltac:(lia)) as (_ & _ & _ & Hne). done.
Qed.

Lemma stored_set key value s : stored (set_key key value s) = <[key := (to_string (time s), value)]> (stored s).
Proof. unfold stored, set_key. cbn [contents]. by rewrite fmap_insert. Qed.

Lemma stored_delete key s : stored (delete_key key s) = delete key (stored s).
Proof. unfold stored, delete_key. cbn [contents]. by rewrite fmap_delete. Qed.

Program Definition map_facts : ClusterFacts state unit := {|
  store_limits := fun _ => limits_;
  store_id := fun _ => str "C1";
  store_instance := fun _ => str "instance";
|}.
Solve All Obligations with (by intros; try (by eexists _, _)).

#[export] Program Instance map_store : ClusterStore state unit := {
  store_facts := map_facts;
  store := fun _ => stored;
  store_time := time;
}.
Next Obligation.
  intros cl w key version value E. unfold stored in E. rewrite lookup_fmap in E.
  destruct (contents w !! key) as [[]|]; simpl in E; simplify_eq. apply to_string_not_empty.
Qed.
Next Obligation. intros w. exists (tick w). split_and!; [done|simpl; lia|done]. Qed.
Next Obligation. intros cl key w. exists (tick w). split_and!; [simpl; lia|done|done]. Qed.
Next Obligation. intros cl key w. exists (tick w). split_and!; [simpl; lia|done|done]. Qed.
Next Obligation.
  intros cl key version value w. simpl. unfold put_. case_bool_decide as Hv.
  - exists (set_key key value w). split; [simpl; lia|]. eexists. split; [done|]. split; [apply stored_set|].
    intros []. by destruct cl.
  - eexists. split; [|by split]. simpl; lia.
Qed.
Next Obligation.
  intros cl key value w. exists (set_key key value w), (to_string (time w)).
  split_and!; [simpl; lia|done|apply stored_set|]. intros []. by destruct cl.
Qed.
Next Obligation.
  intros cl key w. exists (delete_key key w). split_and!; [simpl; lia|done|apply stored_delete|]. intros []. by destruct cl.
Qed.
Next Obligation. intros cl w. exists (tick w), OK. split_and!; [simpl; lia|done|done]. Qed.
Next Obligation. intros cl lo hi max w E. exists (tick w). split_and!; [simpl; lia|done|]. cbn. unfold range_. by rewrite E. Qed.
Next Obligation.
  intros cl lo hi max w E. set (n := Z.to_nat _). set (l := range_of hi lo (stored w)).
  exists (reverse (take n (reverse l))), (tick w). split_and!; [simpl; lia|done| |cbn; unfold range_; by rewrite E].
  assert (reverse (take n (reverse l)) = drop (length l - n) l) as -> by (by rewrite take_reverse, reverse_involutive).
  split_and!.
  - pose proof (key_sorted_range hi lo (stored w)) as Hs. fold l in Hs. rewrite <- (take_drop (length l - n) l) in Hs.
    by apply StronglySorted_app_1_r in Hs.
  - rewrite length_drop. lia.
  - intros key Hk. rewrite <- (take_drop (length l - n) l). apply elem_of_app. by right.
  - intros Hne Hn Hd. apply (f_equal length) in Hd. rewrite length_drop in Hd. destruct l; [done|]. cbn in Hd. lia.
Qed.

End MapCluster.
