(* ===== verification/ClusterDrives.v ===== *)
(** * Drives, requests and what they hold

    What ClusterReads.v and ClusterRefinement.v share: drives that answer as the protocol says, vectors of requests to
    them, decisions about unanimous results, and how a map from keys to versioned values lies on the drives. *)

From S2P Require Import Prelude CppString Utility Kinetic Simulator Callbacks ClusterOperation Isa Redundancy Murmur.
From S2P Require Import StripeOperation Cluster ClusterInterface.

(** ** Drives *)

(** The requests the cluster makes of its drives, apart from logs. *)
Definition standard (req : request) : bool :=
  match req with
  | GetLog _ => false
  | GetKeyRange _ start_inclusive _ end_inclusive _ _ => start_inclusive && end_inclusive
  | _ => true
  end.

(** The drives of a cluster.  Some may be down; the others answer in time, as the protocol says: that is what the drives of
    Simulator.v do with these requests.  A request changes no other drive, none is repaired or lost on the way, and
    reading the clock or making a uuid changes nothing. *)
Class Drives (D : Type) (nconn : nat) `{Env D} := {
  present : D -> Prop;
  drive : nat -> D -> gmap bytes KineticRecord;
  down : nat -> D -> bool;
  submit_up : forall i req d, present d -> (i < nconn)%nat -> standard req = true -> down i d = false ->
    exists d', env_submit i req d = (Answered (Simulator.sim_reply req (drive i d)).1, d') /\ present d' /\
      drive i d' = (Simulator.sim_reply req (drive i d)).2 /\ (forall j, j <> i -> drive j d' = drive j d) /\
      forall j, down j d' = down j d;
  submit_down : forall i req d, present d -> (i < nconn)%nat -> down i d = true ->
    exists d', env_submit i req d = (NotConnected, d') /\ present d' /\ (forall j, drive j d' = drive j d) /\
      forall j, down j d' = down j d;
  uuid_up : forall d, present d -> present (env_uuid d).2 /\ (forall j, drive j (env_uuid d).2 = drive j d) /\
    forall j, down j (env_uuid d).2 = down j d;
  uuid_length : forall d, slen (env_uuid d).1 = 36 \/ slen (env_uuid d).1 = 16;
}.

(** All drives work. *)
Definition working `{Drives D nconn} (d : D) : Prop := present d /\ forall i, (i < nconn)%nat -> down i d = false.

Section Working.
Context `{Drives D nconn}.

Lemma submit_answered i req d : working d -> (i < nconn)%nat -> standard req = true ->
  exists d', env_submit i req d = (Answered (Simulator.sim_reply req (drive i d)).1, d') /\ working d' /\
    drive i d' = (Simulator.sim_reply req (drive i d)).2 /\ forall j, j <> i -> drive j d' = drive j d.
Proof.
  intros [Hp Hd] Hi Hs. destruct (submit_up i req d Hp Hi Hs (Hd i Hi)) as (d' & E & Hp' & Hi' & Ho & Hd'). exists d'.
  split_and!; [done| |done..]. split; [done|]. intros j Hj. rewrite Hd'. by apply Hd.
Qed.

Lemma uuid_reads d : working d -> working (env_uuid d).2 /\ forall j, drive j (env_uuid d).2 = drive j d.
Proof.
  intros [Hp Hd]. destruct (uuid_up d Hp) as (Hp' & Hi & Hd'). split; [|done]. split; [done|]. intros j Hj. rewrite Hd'. by apply Hd.
Qed.

End Working.

(** ** Vectors of fresh requests *)

(** A vector that binds one request to each of some drives. *)
Definition batch (c : callback_class) (reqs : list request) (conns : list nat) : list KineticAsyncOperation :=
  zip_with (fun req conn => bound c req (mkOp None None conn)) reqs conns.

(** A callback that has received its reply. *)
Definition replied (c : callback_class) (r : reply) : callback := fst (deliver r (fst (new_callback c 0)) 0).

Section Batches.
Context `{Drives D nconn} `{StatusInt}.

Definition answers (d : D) (c : callback_class) (reqs : list request) (conns : list nat) : list KineticAsyncOperation :=
  zip_with (fun req conn => mkOp (Some req) (Some (replied c (Simulator.sim_reply req (drive conn d)).1)) conn) reqs conns.

(** What a batch does to the drives: each one performs its request. *)
Definition performed (reqs : list request) (conns : list nat) (d d' : D) : Prop :=
  (forall j req conn, reqs !! j = Some req -> conns !! j = Some conn ->
     drive conn d' = (Simulator.sim_reply req (drive conn d)).2) /\
  (forall i, i ∉ conns -> drive i d' = drive i d).

Lemma call_function_answered c req conn s d :
  working d -> (conn < nconn)%nat -> standard req = true ->
  exists d', call_function (bound c req (mkOp None None conn)) (s, d) =
      (Ret (mkOp (Some req) (Some (replied c (Simulator.sim_reply req (drive conn d)).1)) conn), (s - 1, d')) /\
    working d' /\ drive conn d' = (Simulator.sim_reply req (drive conn d)).2 /\ forall j, j <> conn -> drive j d' = drive j d.
Proof.
  intros Hw Hc Hs. destruct (submit_answered conn req d Hw Hc Hs) as (d' & E & Hd'). exists d'. split; [|done].
  unfold call_function, bound. cbn [op_callback new_callback fst finished cb_done op_function op_connection]. rewrite E.
  unfold replied, deliver. by destruct (Simulator.sim_reply req (drive conn d)).1.
Qed.

Lemma mapM_answered c reqs conns s d :
  working d -> length reqs = length conns -> NoDup conns -> Forall (fun i => i < nconn)%nat conns ->
  Forall (fun req => standard req = true) reqs ->
  exists d', mapM call_function (batch c reqs conns) (s, d) = (Ret (answers d c reqs conns), (s - slen conns, d')) /\
    working d' /\ performed reqs conns d d'.
Proof.
  intros Hw Hl Hnd Hlt Hst. revert conns s d Hw Hl Hnd Hlt.
  induction Hst as [|req reqs Hreq Hst IH]; intros [|conn conns] s d Hw Hl Hnd Hlt; try done.
  { exists d. split_and!; [cbn; by rewrite Z.sub_0_r|done|]. by split. }
  apply NoDup_cons in Hnd as [Hnin Hnd]. apply Forall_cons in Hlt as [Hc Hlt]. injection Hl as Hl.
  destruct (call_function_answered c req conn s d Hw Hc Hreq) as (d1 & E1 & Hw1 & Hd1 & Ho1).
  destruct (IH conns (s - 1) d1 Hw1 Hl Hnd Hlt) as (d2 & E2 & Hw2 & Hp & Hrest).
  assert (forall j req' conn', reqs !! j = Some req' -> conns !! j = Some conn' -> conn' <> conn) as Hne.
  { intros j req' conn' _ Hj ->. apply Hnin. by eapply list_elem_of_lookup_2. }
  exists d2. split_and!; [|done|split].
  - cbn [batch zip_with mapM]. rewrite (bind_ret _ _ _ _ _ E1), (bind_ret _ _ _ _ _ E2). unfold mret, M_ret.
    f_equal; [|f_equal; unfold slen; cbn [length]; lia]. do 2 f_equal. cbn [answers zip_with]. f_equal. unfold answers.
    apply list_eq. intros j. rewrite !lookup_zip_with.
    destruct (reqs !! j) as [req'|] eqn:Ereq; [|done]. destruct (conns !! j) as [conn'|] eqn:Econn; [|done]. cbn.
    by rewrite (Ho1 conn' (Hne _ _ _ Ereq Econn)).
  - intros [|j] req' conn' Ereq Econn; simplify_eq/=.
    + by rewrite Hrest, Hd1.
    + rewrite (Hp j req' conn' Ereq Econn). by rewrite (Ho1 conn' (Hne _ _ _ Ereq Econn)).
  - intros i Hi. apply not_elem_of_cons in Hi as [Hi1 Hi2]. by rewrite Hrest, Ho1.
Qed.

Lemma time_out_answers d c reqs conns s : mapM time_out (answers d c reqs conns) s = (Ret (answers d c reqs conns), s).
Proof.
  revert conns. induction reqs as [|req reqs IH]; intros [|conn conns]; try done.
  cbn [answers zip_with mapM]. change (zip_with _ reqs conns) with (answers d c reqs conns).
  assert (forall r, finished (replied c r) = true) as Hf by (by intros []).
  rewrite bind_unfold. unfold time_out at 1. cbn [op_callback]. rewrite Hf. cbv beta iota. by rewrite (bind_ret _ _ _ _ _ (IH conns)).
Qed.

(** Executing a vector of fresh requests: every request is answered by its drive. *)
Lemma execute_batch c reqs conns s d :
  working d -> length reqs = length conns -> NoDup conns -> Forall (fun i => i < nconn)%nat conns ->
  Forall (fun req => standard req = true) reqs ->
  exists s' d', executeOperationVector (mkOperation (batch c reqs conns) s d) =
      (Ret (count_results (results (answers d c reqs conns))), mkOperation (answers d c reqs conns) s' d') /\
    working d' /\ performed reqs conns d d'.
Proof.
  intros Hw Hl Hnd Hlt Hst. destruct (mapM_answered c reqs conns s d Hw Hl Hnd Hlt Hst) as (d' & E & Hd').
  exists (s - slen conns), d'. split; [|done]. unfold executeOperationVector. cbn [operations op_sync op_env]. rewrite E.
  by rewrite time_out_answers.
Qed.

(** The status codes of a batch, when all drives answer alike. *)
Lemma results_alike d c reqs conns code :
  length reqs = length conns ->
  (forall j req conn, reqs !! j = Some req -> conns !! j = Some conn -> reply_status (Simulator.sim_reply req (drive conn d)).1 = code) ->
  results (answers d c reqs conns) = replicate (length conns) code.
Proof.
  revert conns. induction reqs as [|req reqs IH]; intros [|conn conns] Hl Hall; try done. injection Hl as Hl.
  unfold results in *. cbn [answers zip_with omap list_omap op_callback fmap option_fmap option_map length replicate].
  assert (getResult (replied c (Simulator.sim_reply req (drive conn d)).1) = code) as ->.
  { rewrite <- (Hall 0%nat req conn eq_refl eq_refl). by destruct (Simulator.sim_reply req (drive conn d)).1. }
  f_equal. apply (IH conns Hl). intros j req' conn'. apply (Hall (S j)).
Qed.

End Batches.

(** ** Decisions on unanimous results *)

Section Unanimous.
Context `{Env D} {SI : StatusInt} {SIL : StatusIntLaws} `{Checksum} `{IsaL}.

(** A result map with the one status [code], [n] times. *)
Definition unanimous (rm : list (StatusCode * Z)) (code : StatusCode) (n : Z) : Prop :=
  rmap_sorted rm /\ forall c, rmap_at c rm = if decide (c = code) then n else 0.

Lemma count_code_replicate c code n : count_code c (replicate n code) = if decide (c = code) then Z.of_nat n else 0.
Proof.
  induction n as [|n IH]; [by destruct (decide _)|]. cbn [replicate]. unfold count_code in *. rewrite filter_cons.
  destruct (decide (code = c)) as [->|Hne]; cbn [length].
  - rewrite decide_True in * by done. lia.
  - rewrite decide_False in * by done. exact IH.
Qed.

Lemma unanimous_results ops code n : results ops = replicate n code -> unanimous (count_results (results ops)) code (Z.of_nat n).
Proof. intros ->. destruct (count_results_spec (replicate n code)) as [Hs Hc]. split; [done|]. intros c. by rewrite Hc, count_code_replicate. Qed.

Lemma unanimous_touch c rm code n : unanimous rm code n -> unanimous (rmap_touch c rm) code n.
Proof. intros [Hs Hc]. by apply touched. Qed.

Lemma unanimous_entry rm code n q : unanimous rm code n -> 0 < q <= n ->
  exists i, list_find (fun p => q <= snd p) rm = Some (i, (code, n)).
Proof.
  intros [Hs Hc] Hq. destruct (list_find (fun p => q <= snd p) rm) as [[i [c n']]|] eqn:E.
  - apply list_find_Some in E as (Hi & Hn & _). cbn in Hn. pose proof (rmap_at_sorted c n' rm Hs (list_elem_of_lookup_2 _ _ _ Hi)) as Hat.
    rewrite Hc in Hat. destruct (decide (c = code)) as [->|]; [|lia]. exists i. by rewrite Hat.
  - exfalso. pose proof (find_quorum_none q rm code ltac:(lia) Hs) as Hf. unfold find_quorum in Hf. rewrite E in Hf.
    specialize (Hf eq_refl). rewrite Hc, decide_True in Hf by done. lia.
Qed.

Lemma unanimous_quorum rm code n q : unanimous rm code n -> 0 < q <= n -> find_quorum q rm = Some code.
Proof. intros Hu Hq. unfold find_quorum. by destruct (unanimous_entry rm code n q Hu Hq) as [i ->]. Qed.

Lemma unanimous_enough rm code n q c n' : unanimous rm code n -> 0 < q -> (c, n') ∈ rm -> q <= n' -> c = code.
Proof.
  intros [Hs Hc] Hq Hin Hn. pose proof (rmap_at_sorted c n' rm Hs Hin) as Hat. rewrite Hc in Hat. destruct (decide (c = code)); [done|lia].
Qed.

(** A map with one status has it counted where two would be needed. *)
Lemma unanimous_pair rm code n a b : unanimous rm code n -> a <> b -> negb (rmap_at a rm =? 0) && negb (rmap_at b rm =? 0) = false.
Proof.
  intros [_ Hc] Hab. rewrite !Hc. destruct (decide (a = code)), (decide (b = code)); try congruence; by rewrite ?andb_false_r.
Qed.

Ltac touch := repeat match goal with |- unanimous (if ?b then _ else _) _ _ => destruct b end; auto using unanimous_touch.

Lemma PUT_execute_unanimous nconn key version_new values timeout (w : KineticClusterStripeOperation D) rm o code :
  executeOperationVector (so_op w) = (Ret rm, o) -> unanimous rm code (Z.of_nat (size (redundancy w))) -> (0 < nData (redundancy w))%nat ->
  PUT_execute nconn key version_new values timeout w = (Ret code, mkStripe o (need_indicator w) (redundancy w)).
Proof.
  intros E Hu Hk. unfold PUT_execute. rewrite (bind_ret _ _ _ _ _ (on_op_ret _ w _ _ E)). cbv zeta.
  set (rm' := if rmap_at OK (rmap_touch OK rm) =? 0 then _ else _).
  assert (unanimous rm' code (Z.of_nat (size (redundancy w)))) as Hu' by (unfold rm'; touch).
  rewrite andb_orb_distrib_r, !(unanimous_pair rm' code _ _ _ Hu') by done. cbn [orb]. mstep.
  destruct (Hu') as [Hs Hc]. rewrite put_decide_spec by done. unfold decision. cbn [redundancy so_op need_indicator].
  rewrite (unanimous_quorum _ _ _ _ Hu') by (unfold size; lia). cbn [default].
  rewrite Hc. destruct (decide (OK = code)) as [<-|Hne]; [|rewrite bool_decide_eq_false_2 by congruence].
  - rewrite Z.ltb_irrefl, andb_false_r. by rewrite orb_false_r.
  - cbn [andb]. by rewrite orb_false_r.
Qed.

Lemma DEL_execute_unanimous nconn key timeout (w : KineticClusterStripeOperation D) rm o code :
  executeOperationVector (so_op w) = (Ret rm, o) -> unanimous rm code (Z.of_nat (size (redundancy w))) -> (0 < nData (redundancy w))%nat ->
  DEL_execute nconn key timeout w = (Ret code, mkStripe o (need_indicator w) (redundancy w)).
Proof.
  intros E Hu Hk. unfold DEL_execute. rewrite (bind_ret _ _ _ _ _ (on_op_ret _ w _ _ E)). cbv zeta.
  set (rm1 := if rmap_at OK (rmap_touch OK rm) =? 0 then _ else _).
  assert (unanimous rm1 code (Z.of_nat (size (redundancy w)))) as Hu1 by (unfold rm1; touch).
  rewrite (unanimous_pair rm1 code _ _ _ Hu1) by done. mstep.
  set (rm2 := if rmap_at OK (rmap_touch OK rm1) =? 0 then _ else _).
  assert (unanimous rm2 code (Z.of_nat (size (redundancy w)))) as Hu2 by (unfold rm2; touch).
  rewrite (unanimous_pair rm2 code _ _ _ Hu2) by done.
  unfold del_decide. mstep. cbn [redundancy]. unfold numData.
  destruct (unanimous_entry rm2 code _ (Z.of_nat (nData (redundancy w))) Hu2) as [i Ei]; [unfold size; lia|].
  by rewrite Ei, Z.ltb_irrefl.
Qed.

End Unanimous.

(** ** Vectors of the stripe operations *)

Section Vectors.
Context `{Env D} `{StatusInt} `{Checksum} `{IsaL}.
Variables (nconn : nat) (key : bytes).
Hypotheses (some_connection : (0 < nconn)%nat) (few_connections : Z.of_nat nconn < 2 ^ 32).

(** The drives of the first [n] chunks of the key. *)
Definition placed (n : nat) : list nat := ring nconn (u32 (stripe_start key 0 + 1)) n.

Lemma length_placed n : length (placed n) = n.
Proof. unfold placed, ring. by rewrite length_fmap, length_seq. Qed.

Lemma placed_indices n : stripe_indices nconn (stripe_start key 0) n = placed n.
Proof. by apply stripe_indices_ring. Qed.

Lemma placed_more n n' j conn : (n <= n')%nat -> placed n !! j = Some conn -> placed n' !! j = Some conn.
Proof. unfold placed. rewrite !ring_lookup. intros Hn [Hj ->]. split; [by eapply Nat.lt_le_trans|done]. Qed.

Lemma placed_connections n : Forall (fun i => i < nconn)%nat (placed n).
Proof.
  apply Forall_forall. intros i Hin. apply list_elem_of_lookup in Hin as [j Hj]. unfold placed in Hj.
  apply ring_lookup in Hj as [_ ->].
  pose proof (Z.mod_pos_bound (u32 (stripe_start key 0 + 1) + Z.of_nat j) (Z.of_nat nconn) ltac:(lia)). lia.
Qed.

Lemma bound_batch c req conns :
  imap (fun _ => bound c req) (mkOp None None <$> conns) = batch c (replicate (length conns) req) conns.
Proof.
  apply list_eq. intros j. unfold batch. rewrite list_lookup_imap, list_lookup_fmap, lookup_zip_with.
  destruct (conns !! j) as [conn|] eqn:E; cbn; [|by destruct (replicate _ _ !! j)].
  by rewrite (proj2 (lookup_replicate _ _ _ _) (conj eq_refl (lookup_lt_Some _ _ _ E))).
Qed.

(** The requests of a read: for the versions or for the values. *)
Definition get_class (skip_value : bool) : callback_class := if skip_value then GetVersionCallback else GetCallback.
Definition get_request (skip_value : bool) : request := if skip_value then GetVersion key else Get key.

Lemma get_fillOperation_spec skip i (o : KineticClusterOperation D) op : operations o !! i = Some op ->
  get_fillOperation skip i key o = (Ret tt, mkOperation (<[i := bound (get_class skip) (get_request skip) op]> (operations o)) (op_sync o + 1) (op_env o)).
Proof. intros Hi. unfold get_fillOperation, get_class, get_request. destruct skip; by apply assign_spec. Qed.

Lemma new_get_spec skip (skip_partial : bool) (w : KineticClusterStripeOperation D) : operations (so_op w) = [] ->
  let n := if skip_partial then size (redundancy w) else numData (redundancy w) in
  new_get nconn key skip skip_partial w = (Ret tt, mkStripe (mkOperation
    (batch (get_class skip) (replicate n (get_request skip)) (placed n))
    (op_sync (so_op w) + Z.of_nat n) (op_env (so_op w))) (need_indicator w) (redundancy w)).
Proof.
  intros Ho n. unfold new_get. mstep. change (if skip_partial then size (redundancy w) else numData (redundancy w)) with n.
  rewrite (bind_ret _ _ _ _ _ (on_op_ret _ _ _ _ (expandStripe_spec _ _ _ _ _ some_connection))), Ho, placed_indices.
  cbn [app]. set (ops := mkOp None None <$> placed n).
  apply (on_op_ret (fillOperationVector key skip) (mkStripe (mkOperation ops _ _) _ _)). cbn [so_op need_indicator redundancy].
  unfold fillOperationVector. mstep. cbn [operations].
  assert (length ops = n) as Hl by (unfold ops; by rewrite length_fmap, length_placed).
  match goal with |- (mapM ?f _ ≫= _) ?o = _ =>
    pose proof (fill_loop (fun op => op_callback op = None) f (fun _ => bound (get_class skip) (get_request skip)) (length ops) o) as Hfill end.
  rewrite (bind_ret _ _ _ _ _ (Hfill ltac:(intros i op o _ Hi Hop; cbv beta; mstep; rewrite Hi; destruct op as [fn ? conn]; cbn in Hop; subst; by apply get_fillOperation_spec)
    eq_refl ltac:(unfold ops; cbn [operations]; by apply Forall_fmap, Forall_true))).
  cbn [operations op_sync op_env]. unfold mret, M_ret. do 2 f_equal; [|by rewrite Hl].
  unfold ops. by rewrite bound_batch, length_placed.
Qed.

Lemma DEL_spec v mode n (w : KineticClusterStripeOperation D) : operations (so_op w) = [] ->
  StripeOperation_DEL nconn key v mode n 0 w = (Ret tt, mkStripe (mkOperation
    (batch BasicCallback (replicate n (Delete key v mode WRITE_BACK)) (placed n))
    (op_sync (so_op w) + Z.of_nat n) (op_env (so_op w))) (need_indicator w) (redundancy w)).
Proof.
  intros Ho. unfold StripeOperation_DEL.
  rewrite (bind_ret _ _ _ _ _ (on_op_ret _ _ _ _ (expandStripe_spec _ _ _ _ _ some_connection))), Ho, placed_indices.
  cbn [app]. set (ops := mkOp None None <$> placed n). set (req := Delete key v mode WRITE_BACK).
  assert (length ops = n) as Hl by (unfold ops; by rewrite length_fmap, length_placed).
  rewrite bind_unfold, (mapM_on_op (fun i => assign i BasicCallback req)) by done.
  rewrite (on_op_ret _ (mkStripe (mkOperation ops (op_sync (so_op w)) (op_env (so_op w))) (need_indicator w) (redundancy w)) _ _
    (fill_loop (fun _ => True) (fun i => assign i BasicCallback req) (fun _ => bound BasicCallback req) n (mkOperation ops _ _)
    (fun i op o _ Hi _ => assign_spec i BasicCallback req o op Hi) Hl (Forall_true _ _ (fun _ => I)))).
  cbn [so_op operations op_sync op_env need_indicator redundancy]. unfold mret, M_ret. do 4 f_equal.
  unfold ops. by rewrite bound_batch, length_placed.
Qed.

Definition put_request (version_new version_old : bytes) (mode : WriteMode) (value : bytes) : request :=
  Put key version_old mode (makeRecord value version_new) WRITE_BACK.

Lemma put_batch version_new version_old mode values :
  put_operations nconn key version_new version_old mode values =
  batch PutCallback (put_request version_new version_old mode <$> values) (placed (length values)).
Proof. unfold put_operations, batch. by rewrite placed_indices, zip_with_fmap_l. Qed.

End Vectors.

(** ** The map a cluster holds *)

(** [k] data chunks out of [m] chunks per stripe on [nconn] drives. *)
Definition geometry (k m nconn : nat) (capacity limit : Z) : Prop :=
  (0 < k <= m)%nat /\ (m <= 255)%nat /\ (m <= nconn)%nat /\ Z.of_nat nconn < 2 ^ 32 /\ 0 < capacity /\ 0 < limit <= INT_MAX.
Existing Class geometry.

Section Store.
Context `{RD : Drives D nconn} {SI : StatusInt} {SIL : StatusIntLaws} `{Checksum} `{IsaLaws k m}.
Variables capacity limit : Z.
Hypothesis geometry_ok : geometry k m nconn capacity limit.

Implicit Types (d : D) (c : KineticCluster D) (s : gmap bytes (bytes * bytes)).

Let data_chunks : (0 < k <= m)%nat := proj1 geometry_ok.
Let few_chunks : (m <= 255)%nat := proj1 (proj2 geometry_ok).
Let wide_enough : (m <= nconn)%nat := proj1 (proj2 (proj2 geometry_ok)).
Let few_connections : Z.of_nat nconn < 2 ^ 32 := proj1 (proj2 (proj2 (proj2 geometry_ok))).
Let some_capacity : 0 < capacity := proj1 (proj2 (proj2 (proj2 (proj2 geometry_ok)))).
Let some_limit : 0 < limit <= INT_MAX := proj2 (proj2 (proj2 (proj2 (proj2 geometry_ok)))).
Let some_connection : (0 < nconn)%nat := Nat.lt_le_trans _ _ _ (proj1 data_chunks) (Nat.le_trans _ _ _ (proj2 data_chunks) wide_enough).

(** A read of version [v] of the stripe gives the value back. *)
Definition recovers (v value : bytes) (stripe : list bytes) : Prop :=
  forall (w : StripeOperation_GET D) cbs,
    provider_ok (k:=k) (m:=m) (redundancy (get_stripe w)) -> version (get_version w) = Some v ->
    op_callback <$> get_ops w = Some <$> cbs -> honest_read v (Some <$> stripe) cbs ->
    (length cbs = m /\ (unusable v cbs <= m - k)%nat) \/ (length cbs = k /\ unusable v cbs = 0%nat) ->
    exists w', reconstructValue w = (Ret tt, w') /\ getValue w' = Some value /\ get_version w' = get_version w /\
      provider_ok (k:=k) (m:=m) (redundancy (get_stripe w')).

(** How an entry of the map lies on the drives: every chunk of its stripe on the drive of its place, and the key on
    no other drive. *)
Definition key_stored d (key : bytes) (entry : option (bytes * bytes)) : Prop :=
  match entry with
  | None => forall i, (i < nconn)%nat -> drive i d !! key = None
  | Some (v, value) => v <> [] /\ exists stripe, length stripe = m /\ recovers v value stripe /\
      (forall j i, placed nconn key m !! j = Some i -> drive i d !! key = (fun chunk => makeRecord chunk v) <$> stripe !! j) /\
      (forall i, (i < nconn)%nat -> i ∉ placed nconn key m -> drive i d !! key = None)
  end.

(** The cluster [c] holds the map [s]. *)
Record represents c s : Prop := {
  rep_working : working (cl_env c);
  rep_provider : provider_ok (k:=k) (m:=m) (cl_redundancy c);
  rep_connections : connections c = nconn;
  rep_capacity : chunkCapacity c = capacity;
  rep_limits : exists l, cluster_limits c = Some l /\ max_range_elements l = limit;
  rep_keys : forall key, key_stored (cl_env c) key (s !! key);
}.

Lemma key_stored_same d d' key entry : (forall i, (i < nconn)%nat -> drive i d' !! key = drive i d !! key) ->
  key_stored d key entry -> key_stored d' key entry.
Proof.
  intros E. destruct entry as [[v value]|]; cbn.
  - intros (Hv & stripe & Hl & Hr & Hp & Ho). split; [done|]. exists stripe. split_and!; [done..| |].
    + intros j i Hj. rewrite E; [by apply Hp|]. pose proof (placed_connections nconn key some_connection m) as Hf.
      rewrite Forall_forall in Hf. apply Hf. by eapply list_elem_of_lookup_2.
    + intros i Hi Hn. rewrite E by done. by apply Ho.
  - intros Ho i Hi. rewrite E by done. by apply Ho.
Qed.

Lemma represents_env c s s' d rp : represents c s -> working d -> provider_ok (k:=k) (m:=m) rp ->
  (forall key, key_stored d key (s' !! key)) -> represents (with_env d rp c) s'.
Proof. intros [] ? ? ?. by split. Qed.

(** Nothing a client can see has changed. *)
Lemma represents_same c s d rp : represents c s -> working d -> provider_ok (k:=k) (m:=m) rp ->
  (forall i, (i < nconn)%nat -> drive i d = drive i (cl_env c)) -> represents (with_env d rp c) s.
Proof.
  intros Hr Hw Hrp E. eapply represents_env; [done..|]. intros key. eapply key_stored_same; [|by apply rep_keys].
  intros i Hi. by rewrite E.
Qed.

(** The version a writer has to name: the empty one for a key that does not exist. *)
Definition current s (key : bytes) : bytes := default [] (fst <$> s !! key).

(** The drives of a stripe agree on the version of its key. *)
Lemma stored_version d s key j i : (forall key, key_stored d key (s !! key)) -> placed nconn key m !! j = Some i ->
  Simulator.version_of (drive i d) key = current s key /\ (is_Some (drive i d !! key) <-> is_Some (s !! key)).
Proof.
  intros Hs Hj. specialize (Hs key). unfold Simulator.version_of, current. destruct (s !! key) as [[v value]|]; cbn in *.
  - destruct Hs as (_ & stripe & Hl & _ & Hp & _). rewrite (Hp j i Hj).
    destruct (lookup_lt_is_Some_2 stripe j) as [chunk ->].
    { rewrite Hl, <- (length_placed nconn key m). by eapply lookup_lt_Some. }
    cbn. split; [done|]. split; by eexists.
  - rewrite Hs; [cbn; split; [done|]; split; intros []; discriminate|].
    pose proof (placed_connections nconn key some_connection m) as Hf. rewrite Forall_forall in Hf. apply Hf.
    by eapply list_elem_of_lookup_2.
Qed.

(** A request to one key leaves the others alone. *)
Definition only_key (key : bytes) (req : request) : Prop :=
  forall m key', key' <> key -> (Simulator.sim_reply req m).2 !! key' = m !! key'.

Lemma performed_other key reqs conns d d' : performed reqs conns d d' -> length reqs = length conns -> Forall (only_key key) reqs ->
  forall key' i, key' <> key -> drive i d' !! key' = drive i d !! key'.
Proof.
  intros [Hp Ho] Hl Hk key' i Hne. destruct (decide (i ∈ conns)) as [Hin|Hnin]; [|by rewrite Ho].
  apply list_elem_of_lookup in Hin as [j Hj]. destruct (lookup_lt_is_Some_2 reqs j) as [req Hreq].
  { rewrite Hl. by eapply lookup_lt_Some. }
  rewrite (Hp j req i Hreq Hj). eapply Forall_lookup_1 in Hk; [|exact Hreq]. by apply Hk.
Qed.

(** Requests that only read. *)
Definition reading (req : request) : Prop := forall m, (Simulator.sim_reply req m).2 = m.

Lemma performed_reading reqs conns d d' : performed reqs conns d d' -> length reqs = length conns -> Forall reading reqs ->
  forall i, drive i d' = drive i d.
Proof.
  intros [Hp Ho] Hl Hk i. destruct (decide (i ∈ conns)) as [Hin|Hnin]; [|by rewrite Ho].
  apply list_elem_of_lookup in Hin as [j Hj]. destruct (lookup_lt_is_Some_2 reqs j) as [req Hreq].
  { rewrite Hl. by eapply lookup_lt_Some. }
  rewrite (Hp j req i Hreq Hj). eapply Forall_lookup_1 in Hk; [|exact Hreq]. by apply Hk.
Qed.

Lemma provider_geometry rp : provider_ok (k:=k) (m:=m) rp -> size rp = m /\ numData rp = k /\ nData rp = k.
Proof. intros (Hk & Hm & _). unfold size, numData. lia. Qed.

End Store.

#[global] Arguments provider_geometry {nconn H1 k m capacity limit geometry_ok} rp _.
#[global] Arguments key_stored_same {D nconn H RD H0 H1 k m capacity limit geometry_ok} d d' key entry _ _.
#[global] Arguments represents_same {D nconn H RD H0 H1 k m capacity limit geometry_ok} c s d rp _ _ _ _.
#[global] Arguments represents_env {D nconn H RD H0 H1 k m capacity limit} c s s' d rp _ _ _ _.
#[global] Arguments stored_version {D nconn H RD H0 H1 k m capacity limit geometry_ok} d s key j i _ _.
