(* ===== verification/ClusterReads.v ===== *)
(** * Reading while drives are down (src/KineticClusterStripeOperation.cc)

    A read asks the drives of the data chunks first and those of the parity chunks when that does not do.  With the
    drives of ClusterDrives.v, some of which may be down, the two rounds of [GET_execute] are followed to their end: whatever a
    map stored on the drives holds is read back, as long as no more drives of the key are down than there are parity
    chunks. *)

From S2P Require Import Prelude CppString Utility Kinetic Simulator Callbacks ClusterOperation Isa Redundancy Murmur.
From S2P Require Import StripeOperation Cluster ClusterInterface ClusterDrives.

(** ** Evaluating a round *)

Section Evaluation.
Context `{Env D} {SI : StatusInt} {SIL : StatusIntLaws} `{Checksum} `{IsaL}.
Implicit Types w : StripeOperation_GET D.

(** Once the requests of a round are answered and the frequent version is as frequent as success, the result map decides. *)
Lemma do_execute_eval skip w o mf :
  executeOperationVector (so_op (get_stripe w)) = (Ret (count_results (results (operations o))), o) ->
  mostFrequentVersion skip (operations o) = Ret mf -> frequency mf = count_code OK (results (operations o)) ->
  do_execute skip w = get_decide skip (rmap_touch OK (count_results (results (operations o))))
    (mkGet (mkStripe o (need_indicator (get_stripe w)) (redundancy (get_stripe w))) mf (get_value w)).
Proof.
  intros E Hmf Hf. unfold do_execute.
  assert (on_stripe (on_op executeOperationVector) w = (Ret (count_results (results (operations o))),
    mkGet (mkStripe o (need_indicator (get_stripe w)) (redundancy (get_stripe w))) (get_version w) (get_value w))) as E1
    by (unfold on_stripe, on_op, zoom; by rewrite E).
  rewrite (bind_ret _ _ _ _ _ E1). mstep. unfold get_ops, stripe_ops. cbn [get_stripe so_op]. rewrite Hmf. mstep.
  unfold set_version. mstep. cbn [get_stripe get_value].
  destruct (counted (operations o)) as [Hs Hc]. destruct (touched OK _ _ Hs Hc) as [_ Hc1].
  rewrite Hc1, Hf, Z.ltb_irrefl. by mstep.
Qed.

(** Nothing that is valid has a quorum: the round fails. *)
Lemma get_decide_fails skip rm w : (forall c n, (c, n) ∈ rm -> Z.of_nat (nData (redundancy (get_stripe w))) <= n ->
    c <> OK /\ validStatusCode c = false) -> get_decide skip rm w = (Throw std_runtime_error, w).
Proof.
  intros Hno. induction rm as [|[c n] rm IH]; [done|]. cbn [get_decide]. mstep. unfold numData.
  assert (get_decide skip rm w = (Throw std_runtime_error, w)) as E by (apply IH; intros; apply (Hno c0 n0); [by right|done]).
  destruct (Z.leb_spec (Z.of_nat (nData (redundancy (get_stripe w)))) n) as [Hle|]; [|done].
  destruct (Hno c n) as [Hc ->]; [by left|done|]. rewrite bool_decide_eq_false_2 by done. cbn [andb]. by rewrite bind_when_false.
Qed.

(** The first valid result with a quorum is taken; those that come before it in the map have none. *)
Lemma get_decide_first skip rm w code n : rmap_sorted rm -> (code, n) ∈ rm -> Z.of_nat (nData (redundancy (get_stripe w))) <= n ->
  validStatusCode code = true ->
  (forall c n', (c, n') ∈ rm -> Z.of_nat (nData (redundancy (get_stripe w))) <= n' -> c = code \/ CompareStatusCode code c = true) ->
  get_decide skip rm w = ((when (bool_decide (code = OK) && negb skip) reconstructValue);; mret code) w.
Proof.
  intros Hs Hin Hn Hv Hfirst. induction Hs as [|[c n'] rm Hs IH Hf]; [by apply not_elem_of_nil in Hin|].
  cbn [get_decide]. mstep. unfold numData. apply elem_of_cons in Hin.
  destruct (Z.leb_spec (Z.of_nat (nData (redundancy (get_stripe w)))) n') as [Hle|Hgt].
  - destruct (Hfirst c n') as [->|Hlt]; [by left|done|by rewrite Hv|]. exfalso.
    destruct Hin as [[= -> ->]|Hin]; [unfold CompareStatusCode in Hlt; lia|].
    rewrite Forall_forall in Hf. specialize (Hf _ Hin). cbn in Hf. unfold CompareStatusCode in *. lia.
  - destruct Hin as [[= -> ->]|Hin]; [lia|]. apply IH; [done|]. intros c' n0 Hin' Hle. apply (Hfirst c' n0); [by right|done].
Qed.

(** The entries of the map whose results a round decides on. *)
Lemma result_map ops : let rm := rmap_touch OK (count_results (results ops)) in
  rmap_sorted rm /\ (forall c n, (c, n) ∈ rm -> n = count_code c (results ops)) /\
  (forall c, 0 < count_code c (results ops) -> (c, count_code c (results ops)) ∈ rm).
Proof.
  intros rm. destruct (counted ops) as [Hs Hc]. destruct (touched OK _ _ Hs Hc) as [Hs' Hc']. split_and!; [done| |].
  - intros c n Hin. by rewrite <- Hc', (rmap_at_sorted c n _ Hs' Hin).
  - intros c Hpos. destruct (rmap_entry c rm) as [[n Hin]|Habs].
    + by rewrite <- (Hc' c), (rmap_at_sorted c n _ Hs' Hin).
    + rewrite <- Hc', (rmap_at_absent c rm Habs) in Hpos. lia.
Qed.

(** Without bad checksums the operations and the indicator stay as they are when a value is put together. *)
Lemma reconstructValue_indicator w cbs v w' : op_callback <$> get_ops w = Some <$> cbs -> version (get_version w) = Some v ->
  existsb is_bad_crc (check_chunk v <$> cbs) = false -> reconstructValue w = (Ret tt, w') ->
  so_op (get_stripe w') = so_op (get_stripe w) /\ need_indicator (get_stripe w') = need_indicator (get_stripe w).
Proof.
  intros Hcbs Hv Hcrc. unfold reconstructValue, set_value. mstep. cbn [get_version get_stripe]. rewrite Hv.
  destruct (uuidDecodeSize (Some v)) as [n|e| |]; mstep; try (by intros [=]).
  case_match; [by intros [= <-]|]. cbn [deref]. mstep. unfold get_ops in Hcbs. cbn [get_stripe].
  rewrite (mapM_callbacks (check_chunk v) _ cbs) by done. mstep. rewrite Hcrc, bind_when_false.
  destruct (forallb is_good (check_chunk v <$> cbs)).
  - mstep. rewrite mapM_deref_Some. mstep. by intros [= <-].
  - unfold on_redundancy, on_stripe, zoom. rewrite bind_unfold. cbn [get_stripe redundancy so_op need_indicator].
    destruct (compute _ _) as [[stripe|e| |] rp]; try (by intros [=]). mstep. cbn [get_stripe].
    destruct (mapM deref stripe) as [chunks|e| |]; mstep; try (by intros [=]). by intros [= <-].
Qed.

End Evaluation.

Section Reads.
Context `{RD : Drives D nconn} {SI : StatusInt} {SIL : StatusIntLaws} `{Checksum} `{IsaLaws k m}.
Variables capacity limit : Z.
Hypothesis geometry_ok : geometry k m nconn capacity limit.

Implicit Types (d : D) (c : KineticCluster D) (s : gmap bytes (bytes * bytes)).

Let data_chunks : (0 < k <= m)%nat := proj1 geometry_ok.
Let few_chunks : (m <= 255)%nat := proj1 (proj2 geometry_ok).
Let wide_enough : (m <= nconn)%nat := proj1 (proj2 (proj2 geometry_ok)).
Let few_connections : Z.of_nat nconn < 2 ^ 32 := proj1 (proj2 (proj2 (proj2 geometry_ok))).
Let some_capacity : 0 < capacity := proj1 (proj2 (proj2 (proj2 (proj2 geometry_ok)))).
Let some_limit : 0 < limit <= INT_MAX := proj2 (proj2 (proj2 (proj2 (proj2 geometry_ok)))).
Let some_connection : (0 < nconn)%nat := Nat.lt_le_trans _ _ _ (proj1 data_chunks) (Nat.le_trans _ _ _ (proj2 data_chunks) wide_enough).


(** ** Answers *)

(** What drive [conn] in state [d] answers to a read. *)
Definition response (skip : bool) (key : bytes) d (conn : nat) : callback :=
  if down conn d then set_result (fst (new_callback (get_class skip) 0)) CLIENT_IO_ERROR true
  else replied (get_class skip) (Simulator.sim_reply (get_request key skip) (drive conn d)).1.

Definition responded (skip : bool) (key : bytes) d (conn : nat) : KineticAsyncOperation :=
  mkOp (Some (get_request key skip)) (Some (response skip key d conn)) conn.

Definition unanswered (skip : bool) (key : bytes) (conn : nat) : KineticAsyncOperation :=
  bound (get_class skip) (get_request key skip) (mkOp None None conn).

(** States of the drives between which nothing has happened that a request could tell. *)
Definition same d d' : Prop := present d' /\ (forall i, drive i d' = drive i d) /\ forall i, down i d' = down i d.

Lemma same_trans d1 d2 d3 : same d1 d2 -> same d2 d3 -> same d1 d3.
Proof. intros (_ & H12 & H12') (Hp & H23 & H23'). split_and!; [done|intros; by rewrite H23|intros; by rewrite H23']. Qed.

Lemma response_same skip key d d' conn : same d d' -> response skip key d' conn = response skip key d conn.
Proof. intros (_ & Hd & Hdown). unfold response. by rewrite Hd, Hdown. Qed.

Lemma response_finished skip key d conn : finished (response skip key d conn) = true.
Proof. unfold response. destruct (down conn d); [done|]. by destruct (Simulator.sim_reply _ _).1. Qed.

Lemma read_reading skip key : reading (get_request key skip).
Proof. destruct skip; intros m0; cbn; by destruct (m0 !! key). Qed.

Lemma call_unanswered skip key conn t d : present d -> (conn < nconn)%nat ->
  exists d', call_function (unanswered skip key conn) (t, d) = (Ret (responded skip key d conn), (t - 1, d')) /\ same d d'.
Proof.
  intros Hp Hc. unfold call_function, unanswered, bound, responded, response.
  cbn [op_callback new_callback fst finished cb_done op_function op_connection]. destruct (down conn d) eqn:Ed.
  - destruct (submit_down conn (get_request key skip) d Hp Hc Ed) as (d' & E & Hd'). exists d'. by rewrite E.
  - assert (standard (get_request key skip) = true) as Hs by (by destruct skip).
    destruct (submit_up conn (get_request key skip) d Hp Hc Hs Ed) as (d' & E & Hp' & Hown & Hoth & Hdown). exists d'. rewrite E. split.
    + unfold replied, deliver. by destruct (Simulator.sim_reply (get_request key skip) (drive conn d)).1.
    + split_and!; [done| |done]. intros i. destruct (decide (i = conn)) as [->|]; [|by apply Hoth]. rewrite Hown. apply read_reading.
Qed.

(** A vector some of whose requests have been answered earlier. *)
Lemma mapM_reads skip key (old new : list nat) t d0 d : same d0 d -> Forall (fun i => i < nconn)%nat new ->
  exists t' d', mapM call_function ((responded skip key d0 <$> old) ++ (unanswered skip key <$> new)) (t, d) =
    (Ret (responded skip key d0 <$> (old ++ new)), (t', d')) /\ same d0 d'.
Proof.
  intros Hsame Hnew. revert t d Hsame. induction old as [|conn old IH]; intros t d Hsame.
  - cbn [app fmap list_fmap]. induction Hnew as [|conn new Hc Hnew IH] in t, d, Hsame |- *; [by exists t, d|].
    destruct (call_unanswered skip key conn t d (proj1 Hsame) Hc) as (d1 & E1 & Hs1).
    destruct (IH (t - 1) d1 (same_trans _ _ _ Hsame Hs1)) as (t' & d' & E2 & Hs2). exists t', d'. split; [|done].
    cbn [fmap list_fmap mapM]. rewrite (bind_ret _ _ _ _ _ E1), (bind_ret _ _ _ _ _ E2). unfold mret, M_ret. do 3 f_equal.
    unfold responded. by rewrite (response_same skip key d0 d).
  - destruct (IH t d Hsame) as (t' & d' & E & H'). exists t', d'. split; [|done].
    assert (call_function (responded skip key d0 conn) (t, d) = (Ret (responded skip key d0 conn), (t, d))) as E1.
    { unfold call_function, responded. cbn [op_callback]. by rewrite response_finished. }
    cbn [app fmap list_fmap mapM]. rewrite (bind_ret _ _ _ _ _ E1). cbn [app] in E. by rewrite (bind_ret _ _ _ _ _ E).
Qed.

Lemma mapM_time_out_responded skip key d (conns : list nat) t :
  mapM time_out (responded skip key d <$> conns) t = (Ret (responded skip key d <$> conns), t).
Proof.
  induction conns as [|conn conns IH]; [done|]. cbn [fmap list_fmap mapM].
  assert (time_out (responded skip key d conn) t = (Ret (responded skip key d conn), t)) as E
    by (unfold time_out, responded; cbn [op_callback]; by rewrite response_finished).
  rewrite (bind_ret _ _ _ _ _ E). by rewrite (bind_ret _ _ _ _ _ IH).
Qed.

Lemma vector_of_reads skip key (old new : list nat) t d0 d : same d0 d -> Forall (fun i => i < nconn)%nat new ->
  let ops := responded skip key d0 <$> (old ++ new) in
  exists t' d', executeOperationVector (mkOperation ((responded skip key d0 <$> old) ++ (unanswered skip key <$> new)) t d) =
    (Ret (count_results (results ops)), mkOperation ops t' d') /\ same d0 d'.
Proof.
  intros Hsame Hnew ops. destruct (mapM_reads skip key old new t d0 d Hsame Hnew) as (t' & d' & E & H').
  exists t', d'. split; [|done]. unfold executeOperationVector. cbn [operations op_sync op_env]. rewrite E.
  by rewrite mapM_time_out_responded.
Qed.

(** ** What the answers say *)

(** How an entry of the map lies on the drives that are up. *)
Definition key_held d (key : bytes) (entry : option (bytes * bytes)) : Prop :=
  match entry with
  | None => forall i, (i < nconn)%nat -> down i d = false -> drive i d !! key = None
  | Some (v, value) => exists stripe, length stripe = m /\ recovers (D:=D) (k:=k) (m:=m) v value stripe /\
      forall j i, placed nconn key m !! j = Some i -> down i d = false ->
        drive i d !! key = (fun chunk => makeRecord chunk v) <$> stripe !! j
  end.

(** The status a drive that is up answers with. *)
Definition found (entry : option (bytes * bytes)) : StatusCode := if entry then OK else REMOTE_NOT_FOUND.

Definition lost d (conns : list nat) : nat := count_true ((fun i => down i d) <$> conns).

Definition answer_ok (skip : bool) (entry : option (bytes * bytes)) d (conn : nat) (cb : callback) : Prop :=
  if down conn d then getResult cb = CLIENT_IO_ERROR /\ seen skip cb = None /\ cb_record cb = None
  else getResult cb = found entry /\ seen skip cb = fst <$> entry.

Lemma response_ok skip key d entry n j conn : key_held d key entry -> (n <= m)%nat -> placed nconn key n !! j = Some conn ->
  answer_ok skip entry d conn (response skip key d conn).
Proof.
  intros Hs Hn Hj. unfold answer_ok, response. destruct (down conn d) eqn:Ed; [by destruct skip|].
  assert (placed nconn key m !! j = Some conn) as Hm by (by apply (placed_more nconn key n m)).
  destruct entry as [[v value]|]; cbn [found].
  - destruct Hs as (stripe & Hl & _ & Hp). destruct (lookup_lt_is_Some_2 stripe j) as [chunk Hc].
    { rewrite Hl, <- (length_placed nconn key m). by eapply lookup_lt_Some. }
    specialize (Hp j conn Hm Ed). rewrite Hc in Hp. cbn in Hp. by destruct skip; cbn; rewrite Hp.
  - pose proof (placed_connections nconn key some_connection m) as Hf. rewrite Forall_forall in Hf.
    specialize (Hs conn (Hf conn (list_elem_of_lookup_2 _ _ _ Hm)) Ed). by destruct skip; cbn; rewrite Hs.
Qed.

(** The answers of some drives of a key, counted. *)
Lemma count_answers skip key d entry conns : Forall (fun conn => answer_ok skip entry d conn (response skip key d conn)) conns ->
  let codes := results (responded skip key d <$> conns) in
  forall code, count_code code codes = if decide (code = found entry) then slen conns - Z.of_nat (lost d conns)
    else if decide (code = CLIENT_IO_ERROR) then Z.of_nat (lost d conns) else 0.
Proof.
  intros Hall codes code. unfold codes, count_code, lost. clear codes. assert (found entry <> CLIENT_IO_ERROR) as Hne by (by destruct entry).
  induction Hall as [|conn conns Hc _ IH]; [cbn; by repeat case_decide|].
  cbn [fmap list_fmap results omap list_omap responded op_callback option_fmap option_map].
  change (omap (fun op => getResult <$> op_callback op) (responded skip key d <$> conns)) with (results (responded skip key d <$> conns)) in *.
  unfold answer_ok in Hc. rewrite filter_cons. cbn [count_true]. unfold slen in *. cbn [length].
  destruct (down conn d); destruct Hc as [-> _]; repeat case_decide; subst; try congruence; cbn [length]; lia.
Qed.

Lemma count_occurrences skip key d entry conns : Forall (fun conn => answer_ok skip entry d conn (response skip key d conn)) conns ->
  forall v, occurrences skip v (response skip key d <$> conns) =
    if decide (Some v = fst <$> entry) then slen conns - Z.of_nat (lost d conns) else 0.
Proof.
  intros Hall v. unfold occurrences, lost. induction Hall as [|conn conns Hc _ IH]; [cbn; by case_decide|].
  cbn [fmap list_fmap]. rewrite filter_cons. cbn [count_true]. unfold slen in *. cbn [length]. unfold answer_ok in Hc.
  destruct (down conn d).
  - destruct Hc as (_ & E & _). rewrite decide_False by (rewrite E; done). rewrite IH. case_decide; lia.
  - destruct Hc as (_ & E). rewrite Nat.add_0_l. destruct (decide (Some v = fst <$> entry)) as [Ev|Ev].
    + rewrite decide_True by congruence. cbn [length]. lia.
    + by rewrite decide_False by congruence.
Qed.

Lemma answers_readable skip key d entry conns : Forall (fun conn => answer_ok skip entry d conn (response skip key d conn)) conns ->
  Forall (readable skip) (response skip key d <$> conns).
Proof.
  intros Hall. apply Forall_fmap. eapply Forall_impl; [exact Hall|]. intros conn Hc Hok Hskip. cbn in *.
  unfold cb_ok in Hok. apply bool_decide_eq_true in Hok. unfold answer_ok in Hc. destruct (down conn d).
  - destruct Hc as [E _]. congruence.
  - destruct Hc as [E Hseen]. rewrite E in Hok. destruct entry as [[v value]|]; [|done].
    subst skip. unfold seen, cb_ok in Hseen. rewrite E in Hseen. by destruct (cb_record (response false key d conn)).
Qed.

(** The most frequent version is that of the entry, as often as success is reported. *)
Lemma answers_version skip key d entry conns : Forall (fun conn => answer_ok skip entry d conn (response skip key d conn)) conns ->
  exists mf, mostFrequentVersion skip (responded skip key d <$> conns) = Ret mf /\
    frequency mf = count_code OK (results (responded skip key d <$> conns)) /\
    (forall v value, entry = Some (v, value) -> (lost d conns < length conns)%nat -> version mf = Some v).
Proof.
  intros Hall. pose proof (count_occurrences skip key d entry conns Hall) as Hocc. pose proof (count_answers skip key d entry conns Hall OK) as HOK.
  cbv zeta in HOK. unfold mostFrequentVersion.
  assert (op_callback <$> (responded skip key d <$> conns) = Some <$> (response skip key d <$> conns)) as Hcbs
    by (by rewrite <- !list_fmap_compose).
  rewrite (mapM_callback_deref _ _ Hcbs). cbn.
  destruct (most_frequent_spec skip _ (answers_readable skip key d entry conns Hall)) as (mf & E & Hnn & Hmax & Hv). exists mf. rewrite E, HOK.
  assert (Z.of_nat (lost d conns) <= slen conns) as Hlost.
  { unfold lost, slen. clear. induction conns as [|i conns IH]; [done|]. cbn. destruct (down i d); lia. }
  destruct entry as [[v value]|]; cbn [found fst fmap option_fmap option_map] in *.
  - rewrite decide_True by done. specialize (Hmax v). rewrite Hocc, decide_True in Hmax by done.
    destruct (version mf) as [v'|]; split_and!; try done.
    + destruct Hv as [Hpos Ho]. rewrite Hocc in Ho. case_decide; lia.
    + intros v0 value0 [= <- <-] _. destruct Hv as [Hpos Ho]. rewrite Hocc in Ho. case_decide as Ev; [by injection Ev as ->|unfold slen in *; lia].
    + lia.
    + intros v0 value0 [= <- <-] Hl. unfold slen in *. lia.
  - rewrite decide_False by done. rewrite decide_False by done. split_and!; [done| |done].
    destruct (version mf) as [v'|]; [|done]. destruct Hv as [Hpos Ho]. rewrite Hocc in Ho. rewrite decide_False in Ho by done. lia.
Qed.
(** ** One round of requests *)

(** A read of the first [n] chunks: some have answered before, the others are about to be asked. *)
Definition asked (skip : bool) (key : bytes) d (n : nat) (w : StripeOperation_GET D) : Prop :=
  exists old new t d1, old ++ new = placed nconn key n /\
    so_op (get_stripe w) = mkOperation ((responded skip key d <$> old) ++ (unanswered skip key <$> new)) t d1 /\ same d d1 /\
    provider_ok (k:=k) (m:=m) (redundancy (get_stripe w)) /\ need_indicator (get_stripe w) = false /\ get_value w = None.

(** What a read finds of an entry. *)
Definition contents (skip : bool) (entry : option (bytes * bytes)) (g : StripeOperation_GET D) : Prop :=
  match entry with
  | Some (v, value) => getVersion g = Some v /\ getValue g = (if skip then None else Some value)
  | None => True
  end.

(** What a round leaves behind. *)
Definition settled d (g : StripeOperation_GET D) : Prop :=
  provider_ok (k:=k) (m:=m) (redundancy (get_stripe g)) /\ need_indicator (get_stripe g) = false /\
  same d (op_env (so_op (get_stripe g))).

Lemma placed_answers skip key d entry n : key_held d key entry -> (n <= m)%nat ->
  Forall (fun conn => answer_ok skip entry d conn (response skip key d conn)) (placed nconn key n).
Proof.
  intros Hs Hn. apply Forall_forall. intros conn [j Hj]%list_elem_of_lookup. by apply (response_ok skip key d entry n j conn).
Qed.

(** The evaluation of a round comes down to the loop over its results. *)
Lemma round_evaluated skip key d entry n w : key_held d key entry -> (n <= m)%nat -> asked skip key d n w ->
  let ops := responded skip key d <$> placed nconn key n in
  exists t d' mf, same d d' /\ do_execute skip w = get_decide skip (rmap_touch OK (count_results (results ops)))
      (mkGet (mkStripe (mkOperation ops t d') false (redundancy (get_stripe w))) mf None) /\
    (forall v value, entry = Some (v, value) -> (lost d (placed nconn key n) < n)%nat -> version mf = Some v).
Proof.
  intros Hs Hn (old & new & t & d1 & Epl & Eop & Hd1 & _ & Eni & Eval) ops.
  assert (Forall (fun i => i < nconn)%nat new) as Hnew.
  { pose proof (placed_connections nconn key some_connection n) as Hf. rewrite <- Epl in Hf. by apply Forall_app in Hf as [_ ?]. }
  destruct (vector_of_reads skip key old new t d d1 Hd1 Hnew) as (t' & d' & Eexec & Hd'). rewrite Epl in Eexec.
  destruct (answers_version skip key d entry _ (placed_answers skip key d entry n Hs Hn)) as (mf & Emf & Hfreq & Hver).
  exists t', d', mf. split_and!; [done| |].
  - rewrite <- Eni, <- Eval. exact (do_execute_eval skip w (mkOperation ops t' d') mf ltac:(by rewrite Eop) Emf Hfreq).
  - intros v value Hentry Hlost. apply (Hver v value Hentry). by rewrite length_placed.
Qed.

(** What the answers for a stored value are good for. *)
Lemma answers_sound key d v value n : key_held d key (Some (v, value)) -> (n <= m)%nat ->
  let cbs := response false key d <$> placed nconn key n in
  exists stripe, recovers (D:=D) (k:=k) (m:=m) v value stripe /\ honest_read v (Some <$> stripe) cbs /\
    unusable v cbs = lost d (placed nconn key n) /\ existsb is_bad_crc (check_chunk v <$> cbs) = false.
Proof.
  intros (stripe & Hl & Hrec & Hp) Hn cbs. exists stripe.
  assert (forall j conn, placed nconn key n !! j = Some conn -> if down conn d then check_chunk v (response false key d conn) = Invalid
    else exists chunk, stripe !! j = Some chunk /\ check_chunk v (response false key d conn) = Good chunk) as Hcheck.
  { intros j conn Hj. unfold response. destruct (down conn d) eqn:Ed; [done|].
    assert (placed nconn key m !! j = Some conn) as Hm by (by apply (placed_more nconn key n m)).
    destruct (lookup_lt_is_Some_2 stripe j) as [chunk Hc].
    { rewrite Hl, <- (length_placed nconn key m). by eapply lookup_lt_Some. }
    exists chunk. split; [done|]. specialize (Hp j conn Hm Ed). rewrite Hc in Hp. cbn in Hp.
    unfold check_chunk, replied. cbn. rewrite Hp. cbn. by rewrite !bool_decide_eq_true_2. }
  split; [done|]. split.
  { intros j cb chunk Hj Hc. unfold cbs in Hj. rewrite list_lookup_fmap in Hj. apply fmap_Some in Hj as (conn & Hconn & ->).
    specialize (Hcheck j conn Hconn). destruct (down conn d); [congruence|]. destruct Hcheck as (chunk' & Hst & Hc').
    rewrite list_lookup_fmap, Hst. cbn. congruence. }
  assert (Forall (fun conn => if down conn d then check_chunk v (response false key d conn) = Invalid
    else exists chunk, check_chunk v (response false key d conn) = Good chunk) (placed nconn key n)) as Hall.
  { apply Forall_forall. intros conn [j Hj]%list_elem_of_lookup. specialize (Hcheck j conn Hj). destruct (down conn d); [done|].
    destruct Hcheck as (chunk & _ & ?). by exists chunk. }
  unfold unusable, bad, lost, cbs. clear -Hall. induction Hall as [|conn conns Hc _ [IH1 IH2]]; [done|].
  cbn [fmap list_fmap count_true existsb]. destruct (down conn d); [rewrite Hc|destruct Hc as [chunk ->]]; cbn; split; (done || by rewrite IH1).
Qed.

(** The round succeeds when its drives are up, and when only as many are down as there are parity chunks if all were asked. *)
Lemma round_succeeds skip key d entry n w : key_held d key entry ->
  (n = m /\ (lost d (placed nconn key n) <= m - k)%nat) \/ (n = k /\ lost d (placed nconn key n) = 0%nat) -> asked skip key d n w ->
  exists g, do_execute skip w = (Ret (found entry), g) /\ contents skip entry g /\ settled d g.
Proof.
  intros Hs Hn Hw. assert (n <= m)%nat as Hnm by lia. set (lost' := lost d (placed nconn key n)) in *.
  assert (lost' + k <= n)%nat as Henough by lia.
  destruct (round_evaluated skip key d entry n w Hs Hnm Hw) as (t & d' & mf & Hd' & Edo & Hver).
  destruct Hw as (_ & _ & _ & _ & _ & _ & _ & Hrp & _). destruct (provider_geometry _ Hrp) as (_ & _ & Hnd).
  set (ops := responded skip key d <$> placed nconn key n) in *. set (cbs := response skip key d <$> placed nconn key n).
  pose proof (placed_answers skip key d entry n Hs Hnm) as Hans.
  pose proof (count_answers skip key d entry _ Hans) as Hcount. cbv zeta in Hcount. fold ops lost' in Hcount. unfold slen in Hcount.
  rewrite length_placed in Hcount. destruct (result_map ops) as (Hsorted & Hentry & Hin).
  assert (count_code (found entry) (results ops) = Z.of_nat n - Z.of_nat lost') as Hfound by (by rewrite Hcount, decide_True).
  rewrite (get_decide_first skip _ _ (found entry) (Z.of_nat n - Z.of_nat lost')) in Edo; [|done|rewrite <- Hfound; apply Hin; lia| | |].
  2: { cbn [get_stripe redundancy]. lia. }
  2: by destruct entry.
  2: { cbn [get_stripe redundancy]. intros c n' Hc Hle. apply Hentry in Hc. rewrite Hcount in Hc. repeat case_decide; [by left| |lia].
       right. subst c. by apply regular_before_errors; destruct entry. }
  destruct entry as [[v value]|]; cbn [found] in *.
  2: { rewrite bool_decide_eq_false_2 in Edo by done. cbn [andb] in Edo. rewrite bind_when_false in Edo. rewrite Edo. eexists. by split_and!. }
  specialize (Hver v value eq_refl ltac:(lia)). rewrite bool_decide_eq_true_2 in Edo by done.
  destruct skip; cbn [andb negb] in Edo.
  - rewrite bind_when_false in Edo. rewrite Edo. eexists. by split_and!.
  - rewrite bind_when_true in Edo. set (w1 := mkGet _ mf None) in Edo.
    destruct (answers_sound key d v value n Hs Hnm) as (stripe & Hrec & Hhon & Hun & Hcrc).
    assert (op_callback <$> get_ops w1 = Some <$> cbs) as Hcbs by (change (get_ops w1) with ops; unfold ops, cbs; by rewrite <- !list_fmap_compose).
    destruct (Hrec w1 cbs) as (g & Eg & Hval & Hv & Hrp'); [done..| |].
    { unfold cbs. rewrite Hun, length_fmap, length_placed. fold lost'. lia. }
    destruct (reconstructValue_indicator w1 cbs v g Hcbs Hver Hcrc Eg) as [Eop Eni].
    exists g. rewrite Edo, (bind_ret _ _ _ _ _ Eg). split; [done|]. unfold contents, getVersion, settled. rewrite Hv, Eni, Eop. by split_and!.
Qed.

(** A round without enough answers fails, and leaves its answers to the next one. *)
Lemma round_fails skip key d entry n w : key_held d key entry -> (n <= m)%nat -> (n < lost d (placed nconn key n) + k)%nat ->
  asked skip key d n w ->
  exists t d' mf, do_execute skip w = (Throw std_runtime_error,
    mkGet (mkStripe (mkOperation (responded skip key d <$> placed nconn key n) t d') false (redundancy (get_stripe w))) mf None) /\ same d d'.
Proof.
  intros Hs Hnm Hfew Hw. destruct (round_evaluated skip key d entry n w Hs Hnm Hw) as (t & d' & mf & Hd' & Edo & _).
  exists t, d', mf. split; [|done]. rewrite Edo. destruct Hw as (_ & _ & _ & _ & _ & _ & _ & Hrp & _).
  destruct (provider_geometry _ Hrp) as (_ & _ & Hnd). apply get_decide_fails. cbn [get_stripe redundancy]. intros c n' Hc Hle.
  destruct (result_map (responded skip key d <$> placed nconn key n)) as (_ & Hentry & _). apply Hentry in Hc.
  pose proof (count_answers skip key d entry _ (placed_answers skip key d entry n Hs Hnm) c) as Hcount. cbv zeta in Hcount.
  unfold slen in Hcount. rewrite length_placed in Hcount. rewrite Hcount in Hc. repeat case_decide; [lia|by subst c|lia].
Qed.
(** ** Both rounds *)

(** What is not yet bound to a request. *)
Definition fill_missing (skip : bool) (key : bytes) (op : KineticAsyncOperation) : KineticAsyncOperation :=
  match op_callback op with None => bound (get_class skip) (get_request key skip) op | Some _ => op end.

Lemma fillOperationVector_missing skip key ops t d : exists t',
  fillOperationVector key skip (mkOperation ops t d) = (Ret tt, mkOperation (fill_missing skip key <$> ops) t' d).
Proof.
  unfold fillOperationVector. mstep. cbn [operations]. match goal with |- context [mapM ?g _] => set (f := g) end.
  assert (forall todo past t, exists l t', mapM f (seq (length past) (length todo)) (mkOperation (past ++ todo) t d) =
    (Ret l, mkOperation (past ++ (fill_missing skip key <$> todo)) t' d)) as Hgen.
  { induction todo as [|op todo IH]; intros past t0; [by exists [], t0|]. cbn [length seq mapM fmap list_fmap].
    assert (exists t', f (length past) (mkOperation (past ++ op :: todo) t0 d) =
      (Ret tt, mkOperation ((past ++ [fill_missing skip key op]) ++ todo) t' d)) as (t1 & E1).
    { unfold f. mstep. cbn [operations]. rewrite list_lookup_middle by done. destruct op as [fn [cb|] conn].
      - exists t0. by rewrite <- app_assoc.
      - rewrite (get_fillOperation_spec key skip (length past) _ (mkOp fn None conn)) by (cbn; by rewrite list_lookup_middle).
        exists (t0 + 1). cbn [operations op_sync op_env]. do 2 f_equal.
        rewrite <- (Nat.add_0_r (length past)), insert_app_r. cbn. by rewrite <- app_assoc. }
    rewrite (bind_ret _ _ _ _ _ E1). destruct (IH (past ++ [fill_missing skip key op]) t1) as (l & t' & E2).
    rewrite length_app, Nat.add_1_r in E2. rewrite (bind_ret _ _ _ _ _ E2). exists (tt :: l), t'. by rewrite <- app_assoc. }
  destruct (Hgen ops [] t) as (l & t' & E). exists t'. cbn [length app] in E. by rewrite (bind_ret _ _ _ _ _ E).
Qed.

(** The index of the first parity chunk is that of the key, further on: unless it wraps. *)
Lemma parities_placed key : stripe_start key 0 + Z.of_nat k + 1 < 2 ^ 32 ->
  placed nconn key k ++ stripe_indices nconn (stripe_start key k) (m - k) = placed nconn key m.
Proof.
  intros Hw. rewrite stripe_indices_ring by done.
  assert (u32 (stripe_start key k + 1) = u32 (stripe_start key 0 + 1) + Z.of_nat k) as ->.
  { assert (0 <= stripe_start key 0 < 2 ^ 32) as Hb by (apply Z.mod_pos_bound; lia).
    assert (stripe_start key k = stripe_start key 0 + Z.of_nat k) as ->.
    { unfold stripe_start at 1, u32. rewrite <- Zplus_mod_idemp_l. change (Murmur.MurmurHash3_x86_32 key 0 mod 2 ^ 32) with (u32 (Murmur.MurmurHash3_x86_32 key 0)).
      unfold stripe_start in Hb, Hw |- *. cbn [Z.of_nat] in *. rewrite Z.add_0_r in *. apply Z.mod_small. lia. }
    rewrite !u32_small; lia. }
  unfold placed. rewrite ring_app. f_equal. lia.
Qed.

Lemma add_parities_spec skip key d t d' mf rp : same d d' -> provider_ok (k:=k) (m:=m) rp -> stripe_start key 0 + Z.of_nat k + 1 < 2 ^ 32 ->
  exists w, add_parities nconn key skip
      (mkGet (mkStripe (mkOperation (responded skip key d <$> placed nconn key k) t d') false rp) mf None) = (Ret tt, w) /\ asked skip key d m w.
Proof.
  intros Hd Hrp Hw. pose proof Hrp as (Hk & Hm & _). unfold add_parities. mstep. unfold get_ops, stripe_ops. cbn [get_stripe so_op operations redundancy].
  rewrite length_fmap, length_placed. unfold numData, numParity. rewrite Hk, bool_decide_eq_true_2 by done. cbn [when].
  set (rest := stripe_indices nconn (stripe_start key k) (m - k)).
  destruct (fillOperationVector_missing skip key ((responded skip key d <$> placed nconn key k) ++ (mkOp None None <$> rest)) t d') as (t' & Efill).
  assert (nParity rp = (m - k)%nat) as -> by lia.
  set (w := mkGet (mkStripe (mkOperation ((responded skip key d <$> placed nconn key k) ++ (unanswered skip key <$> rest)) t' d') false rp) mf None).
  exists w. split.
  - unfold on_stripe, on_op, zoom. cbn [get_stripe so_op need_indicator redundancy get_version get_value].
    rewrite (bind_ret _ _ _ _ _ (expandStripe_spec nconn key (m - k) k _ some_connection)). cbn [operations op_sync op_env]. fold rest.
    rewrite Efill. unfold w. rewrite fmap_app, <- !list_fmap_compose. done.
  - exists (placed nconn key k), rest, t', d'. split_and!; try done. by apply parities_placed.
Qed.

(** Drives enough to read a key: no drive of its data chunks is down, or not more are down than there are parity chunks and
    the index of the first parity chunk does not wrap. *)
Definition enough_drives d (key : bytes) : Prop :=
  lost d (placed nconn key k) = 0%nat \/
  ((lost d (placed nconn key m) <= m - k)%nat /\ stripe_start key 0 + Z.of_nat k + 1 < 2 ^ 32).

Lemma GET_execute_degraded skip key d entry w : key_held d key entry -> enough_drives d key -> asked skip key d k w ->
  exists g, GET_execute nconn key skip w = (Ret (found entry), g) /\ contents skip entry g /\ settled d g.
Proof.
  intros Hs Hd Hw. unfold GET_execute, attempt, try_catch. rewrite bind_unfold.
  destruct (decide (lost d (placed nconn key k) = 0%nat)) as [Hz|Hnz].
  { destruct (round_succeeds skip key d entry k w Hs) as (g & E & Hg); [by right|done|]. exists g. by rewrite (bind_ret _ _ _ _ _ E). }
  destruct Hd as [?|[Hlost Hwrap]]; [done|].
  destruct (round_fails skip key d entry k w Hs) as (t & d' & mf & E & Hd'); [lia|lia|done|].
  rewrite (bind_unfold (do_execute skip)), E. cbv beta iota. unfold mret at 1, M_ret at 1.
  destruct Hw as (_ & _ & _ & _ & _ & _ & _ & Hrp & _).
  destruct (add_parities_spec skip key d t d' mf (redundancy (get_stripe w)) Hd' Hrp Hwrap) as (w2 & E2 & Hw2).
  rewrite (bind_ret _ _ _ _ _ E2).
  destruct (round_succeeds skip key d entry m w2 Hs) as (g & E3 & Hg); [by left|done|]. exists g.
  by rewrite bind_unfold, (bind_ret _ _ _ _ _ E3).
Qed.

(** ** The client's read *)

(** The operation of a read. *)
Definition get_operation (key : bytes) (skip_value : bool) : M (StripeOperation_GET D) StatusCode :=
  on_stripe (new_get nconn key skip_value false);; GET_execute nconn key skip_value.

Definition start_get d rp : StripeOperation_GET D := mkGet (mkStripe (new_operation d) false rp) (mkVersionCount None 0) None.

(** What a read of [s] gives: status, version and value. *)
Definition read_of s (key : bytes) (skip : bool) : StatusCode * option (option bytes * option bytes) :=
  match s !! key with
  | Some (v, value) => (OK, Some (Some v, if skip then None else Some value))
  | None => (REMOTE_NOT_FOUND, None)
  end.

Lemma get_operation_degraded skip key d entry rp : present d -> provider_ok (k:=k) (m:=m) rp -> key_held d key entry -> enough_drives d key ->
  exists g, get_operation key skip (start_get d rp) = (Ret (found entry), g) /\ contents skip entry g /\ settled d g.
Proof.
  intros Hp Hrp Hs He. destruct (provider_geometry rp Hrp) as (_ & Hnd & _).
  set (w := mkGet (mkStripe (mkOperation (unanswered skip key <$> placed nconn key k) (0 + Z.of_nat k) d) false rp) (mkVersionCount None 0) None).
  assert (on_stripe (new_get nconn key skip false) (start_get d rp) = (Ret tt, w)) as Enew.
  { unfold on_stripe, zoom, start_get. cbn [get_stripe].
    rewrite (new_get_spec nconn key some_connection few_connections skip false (mkStripe (new_operation d) false rp) eq_refl).
    cbn [redundancy so_op new_operation op_sync op_env need_indicator]. rewrite Hnd. unfold w. do 4 f_equal.
    unfold batch. rewrite <- (length_placed nconn key k) at 1. by rewrite zip_with_replicate_l. }
  unfold get_operation. rewrite (bind_ret _ _ _ _ _ Enew). apply GET_execute_degraded; [done..|].
  exists [], (placed nconn key k), (0 + Z.of_nat k), d. by split_and!.
Qed.

Lemma do_get_degraded c s key skip restarts : present (cl_env c) -> provider_ok (k:=k) (m:=m) (cl_redundancy c) -> connections c = nconn ->
  key_held (cl_env c) key (s !! key) -> enough_drives (cl_env c) key ->
  exists d rp, do_get restarts (Some key) skip c = (Ret (read_of s key skip), with_env d rp c) /\ provider_ok (k:=k) (m:=m) rp /\ same (cl_env c) d.
Proof.
  intros Hp Hrp Hn Hs He.
  destruct (get_operation_degraded skip key (cl_env c) (s !! key) (cl_redundancy c) Hp Hrp Hs He) as (g & Eg & Hc & Hrp' & Eni & Hd).
  exists (op_env (so_op (get_stripe g))), (redundancy (get_stripe g)). split; [|done].
  assert (run_get (fresh_get c) (get_operation key skip) c = (Ret (found (s !! key), g), with_env (op_env (so_op (get_stripe g))) (redundancy (get_stripe g)) c)) as Erun.
  { unfold run_get. unfold start_get, new_operation in Eg.
    cbn [fresh_get get_stripe fresh_stripe so_op fresh_operation new_operation operations op_sync need_indicator get_version get_value].
    by rewrite Eg. }
  assert (found (s !! key) <> CLIENT_IO_ERROR) as Hio by (by destruct (s !! key)).
  destruct restarts; cbn [do_get]; mstep; rewrite Hn; fold (get_operation key skip); rewrite (bind_ret _ _ _ _ _ Erun); cbv beta iota;
    rewrite (bool_decide_eq_false_2 (_ = CLIENT_IO_ERROR)) by done; mstep; rewrite Eni, bind_when_false; mstep; unfold read_of, contents in *;
    destruct (s !! key) as [[v value]|]; try done; destruct Hc as [-> ->]; done.
Qed.

End Reads.
