(* ===== verification/ClusterRefinement.v ===== *)
(** * The cluster as a store (src/KineticCluster.cc and what it calls)

    [ClusterInterface] promises its clients a map from keys to versioned values.  Here the cluster of
    Cluster.v is shown to keep this promise while its drives work and nobody interferes: down to the
    requests each drive receives, every sequence of calls is answered as the map answers it; and what the drives then hold can
    still be read after some of them are lost.  Ranges are forward; what
    is answered when their ends are exchanged is [do_range_back_store], which is less than one would expect. *)

From S2P Require Import Prelude CppString Utility Kinetic Simulator Callbacks ClusterOperation Isa Redundancy Murmur.
From S2P Require Import StripeOperation Cluster ClusterInterface ClusterDrives ClusterReads.

(** ** Pages of sorted keys *)

Lemma take_elem {A} n (l : list A) x : x ∈ take n l -> x ∈ l.
Proof. apply subseteq_take. Qed.

Lemma key_sorted_head x l y : key_sorted (x :: l) -> y ∈ x :: l -> y <> x -> str_ltb x y = true /\ y ∈ l.
Proof.
  intros Hs [->|Hy]%elem_of_cons Hne; [done|]. apply StronglySorted_inv in Hs as [_ Hx]. rewrite Forall_forall in Hx. auto.
Qed.

(** The head of a part of a sorted list is the head of the list, if the part has it. *)
Lemma key_sorted_part_head x l y l' : key_sorted (x :: l) -> key_sorted (y :: l') -> (forall z, z ∈ y :: l' -> z ∈ x :: l) ->
  x ∈ y :: l' -> y = x.
Proof.
  intros Hs Hs' Hsub Hx. destruct (decide (y = x)) as [|Hne]; [done|].
  destruct (key_sorted_head x l y Hs (Hsub y ltac:(by left)) Hne) as [Hlt _].
  destruct (key_sorted_head y l' x Hs' Hx (not_eq_sym Hne)) as [Hlt' _].
  pose proof (str_ltb_trans _ _ _ Hlt Hlt') as E. by rewrite str_ltb_irrefl in E.
Qed.

Lemma key_sorted_part_tail x l l' : key_sorted (x :: l') -> (forall z, z ∈ x :: l' -> z ∈ x :: l) -> forall z, z ∈ l' -> z ∈ l.
Proof.
  intros Hs' Hsub z Hz. apply StronglySorted_inv in Hs' as [_ Hx]. rewrite Forall_forall in Hx. specialize (Hx z Hz).
  pose proof (Hsub z ltac:(by right)) as [->|]%elem_of_cons; [by rewrite str_ltb_irrefl in Hx|done].
Qed.

(** A part that holds the beginning of a sorted list begins with it. *)
Lemma sorted_pages n (M R : list bytes) : key_sorted M -> key_sorted R -> (forall x, x ∈ M -> x ∈ R) -> (forall x, x ∈ take n R -> x ∈ M) ->
  take n M = take n R.
Proof.
  revert M R. induction n as [|n IH]; intros M R HM HR Hsub Hpre; [done|].
  destruct R as [|x R]. { destruct M as [|y M]; [done|]. destruct (proj1 (elem_of_nil y) (Hsub y ltac:(by left))). }
  destruct M as [|y M]. { destruct (proj1 (elem_of_nil x) (Hpre x ltac:(by left))). }
  pose proof (key_sorted_part_head x R y M HR HM Hsub (Hpre x ltac:(by left))) as ->. cbn [take]. f_equal.
  pose proof (key_sorted_part_tail x R M HM Hsub) as Hsub'. pose proof HM as HM'. apply StronglySorted_inv in HM' as [HM' _].
  pose proof HR as HR'. apply StronglySorted_inv in HR' as [HR' Hlt]. rewrite Forall_forall in Hlt. apply IH; [done..|].
  intros z Hz. assert (z ∈ x :: M) as [->|]%elem_of_cons; [by apply Hpre; right| |done].
  apply take_elem in Hz. specialize (Hlt x Hz). by rewrite str_ltb_irrefl in Hlt.
Qed.

(** An early element of a sorted list is as early in every part that has it. *)
Lemma sorted_prefix (K R : list bytes) n x : key_sorted K -> key_sorted R -> (forall y, y ∈ K -> y ∈ R) -> x ∈ K -> x ∈ take n R -> x ∈ take n K.
Proof.
  revert K R. induction n as [|n IH]; intros K R HK HR Hsub Hx Hpre; [done|].
  destruct R as [|r R]; [by apply not_elem_of_nil in Hpre|]. destruct K as [|y K]; [by apply not_elem_of_nil in Hx|].
  pose proof HR as HR'. apply StronglySorted_inv in HR' as [HR' Hlt].
  destruct (decide (r ∈ y :: K)) as [Hr|Hr].
  - pose proof (key_sorted_part_head r R y K HR HK Hsub Hr) as ->. cbn [take] in *.
    apply elem_of_cons in Hx as [->|Hx]; [by left|]. right.
    pose proof HK as HK'. apply StronglySorted_inv in HK' as [HK' HltK].
    apply (IH K R); [done|done|exact (key_sorted_part_tail r R K HK Hsub)|done|].
    apply elem_of_cons in Hpre as [->|]; [|done]. rewrite Forall_forall in HltK. specialize (HltK r Hx). by rewrite str_ltb_irrefl in HltK.
  - assert (forall z, z ∈ y :: K -> z ∈ R) as Hsub'.
    { intros z Hz. pose proof (Hsub z Hz) as Hz'. by apply elem_of_cons in Hz' as [->|]. }
    assert (x ∈ take n (y :: K)) as Hin.
    { apply (IH (y :: K) R); [done..|]. cbn [take] in Hpre. by apply elem_of_cons in Hpre as [->|]. }
    apply list_elem_of_lookup in Hin as [j Hj]. apply lookup_take_Some in Hj as [Hj Hlt'].
    apply list_elem_of_lookup. exists j. apply lookup_take_Some. split; [done|lia].
Qed.

Lemma getKeys_take n ops : 0 <= n -> ClusterRangeOp_getKeys n ops = take (Z.to_nat n) (merged_keys ops).
Proof.
  intros Hn. unfold ClusterRangeOp_getKeys. fold (merged_keys ops). destruct (Z.ltb_spec n (slen (merged_keys ops))) as [|Hle]; [done|].
  symmetry. apply take_ge. unfold slen in Hle. lia.
Qed.

Section Store.
Context `{RD : Drives D nconn} {SI : StatusInt} {SIL : StatusIntLaws} `{Checksum} `{IsaLaws k m}.
Variables capacity limit : Z.
Hypothesis geometry_ok : geometry k m nconn capacity limit.

Implicit Types (d : D) (c : KineticCluster D) (s : gmap bytes (bytes * bytes)).

Let data_chunks : (0 < k <= m)%nat := proj1 geometry_ok.
Let few_chunks : (m <= 255)%nat := proj1 (proj2 geometry_ok).
Let wide_enough : (m <= nconn)%nat := proj1 (proj2 (proj2 geometry_ok)).
Let few_connections : Z.of_nat nconn < 2 ^ 32 := proj1 (proj2 (proj2 (proj2 geometry_ok))).
Let some_capacity : 0 < capacity := proj1 (proj2 (proj2 (proj2 (proj2 geometry_ok)))).
Let some_limit : 0 < limit <= INT_MAX := proj2 (proj2 (proj2 (proj2 (proj2 geometry_ok)))).
Let some_connection : (0 < nconn)%nat := Nat.lt_le_trans _ _ _ (proj1 data_chunks) (Nat.le_trans _ _ _ (proj2 data_chunks) wide_enough).

Abbreviation recovers := (recovers (D:=D) (k:=k) (m:=m)).
Abbreviation key_stored := (key_stored (k:=k) (m:=m)).
Abbreviation key_held := (key_held (k:=k) (m:=m)).
Abbreviation enough_drives := (enough_drives (k:=k) (m:=m)).
Abbreviation represents := (represents (k:=k) (m:=m) capacity limit).

(** ** Writing *)

(** Whether drives that hold [s] accept a request of this mode and version. *)
Definition accepts s (key : bytes) (mode : WriteMode) (version_old : bytes) : bool :=
  match mode with IGNORE_VERSION => true | REQUIRE_SAME_VERSION => bool_decide (current s key = version_old) end.

Lemma mode_checked d s key mode version_old j i : (forall key, key_stored d key (s !! key)) -> placed nconn key m !! j = Some i ->
  Simulator.mode_ok (drive i d) key version_old mode = accepts s key mode version_old.
Proof. intros Hs Hj. unfold Simulator.mode_ok, accepts. by rewrite (proj1 (stored_version d s key j i Hs Hj)). Qed.

(** A put that is accepted leaves the stripe on the drives. *)
Lemma put_stored d d' s key v value values mode version_old : (forall key, key_stored d key (s !! key)) ->
  v <> [] -> length values = m -> recovers v value values ->
  accepts s key mode version_old = true ->
  performed (put_request key v version_old mode <$> values) (placed nconn key m) d d' ->
  forall key', key_stored d' key' (<[key := (v, value)]> s !! key').
Proof.
  intros Hs Hv Hl Hr Hok Hp key'. destruct (decide (key' = key)) as [->|Hne].
  - rewrite lookup_insert_eq. cbn. split; [done|]. exists values. split_and!; [done..| |].
    + intros j i Hj. destruct (lookup_lt_is_Some_2 values j) as [chunk Hc].
      { rewrite Hl, <- (length_placed nconn key m). by eapply lookup_lt_Some. }
      destruct Hp as [Hp _]. rewrite (Hp j (put_request key v version_old mode chunk) i); [|by rewrite list_lookup_fmap, Hc|done].
      unfold put_request. cbn. rewrite (mode_checked d s key mode version_old j i Hs Hj), Hok. cbn. by rewrite lookup_insert_eq, Hc.
    + intros i Hi Hn. destruct Hp as [_ Ho]. rewrite Ho by done. specialize (Hs key). destruct (s !! key) as [[v0 value0]|]; cbn in Hs.
      * destruct Hs as (_ & stripe & _ & _ & _ & Hs). by apply Hs.
      * by apply Hs.
  - rewrite lookup_insert_ne by done. eapply key_stored_same; [|apply Hs]. intros i _.
    eapply (performed_other key); [exact Hp|by rewrite length_fmap, length_placed| |done].
    apply Forall_fmap, Forall_true. intros chunk m0 key0 Hk0. unfold put_request. cbn. destruct (Simulator.mode_ok _ _ _ _); [|done].
    cbn. by rewrite lookup_insert_ne.
Qed.

(** The stripe operation of a put. *)
Definition put_operation (nconn : nat) (key v version_old : bytes) (mode : WriteMode) (values : list bytes) (timeout : Z) :
    M (KineticClusterStripeOperation D) StatusCode :=
  StripeOperation_PUT nconn key v (Some <$> values) version_old mode;;
  status ← PUT_execute nconn key v (Some <$> values) timeout;
  ni ← gets needsIndicator;
  when ni (putIndicatorKey nconn key;; putHandoffKeys nconn key v (Some <$> values));;
  mret status.

Lemma put_executes d s rp key v version_old mode values timeout : working d -> (forall key, key_stored d key (s !! key)) ->
  provider_ok (k:=k) (m:=m) rp -> length values = m ->
  exists o, put_operation nconn key v version_old mode values timeout (mkStripe (new_operation d) false rp) =
      (Ret (if accepts s key mode version_old then OK else REMOTE_VERSION_MISMATCH), mkStripe o false rp) /\
    working (op_env o) /\ performed (put_request key v version_old mode <$> values) (placed nconn key m) d (op_env o).
Proof.
  intros Hw Hs Hrp Hl. destruct (provider_geometry rp Hrp) as (Hsz & _ & Hnd).
  destruct (execute_batch PutCallback (put_request key v version_old mode <$> values) (placed nconn key m) (0 + Z.of_nat m) d)
    as (s' & d' & Eexec & Hw' & Hperf); [done|by rewrite length_fmap, length_placed|apply ring_NoDup; lia|by apply placed_connections|
    by apply Forall_fmap, Forall_true|].
  set (o := mkOperation _ s' d') in Eexec. set (code := if accepts s key mode version_old then OK else REMOTE_VERSION_MISMATCH).
  exists o. split; [|done].
  assert (unanimous (count_results (results (operations o))) code (Z.of_nat (size rp))) as Hun.
  { rewrite Hsz, <- (length_placed nconn key m). apply unanimous_results, results_alike; [by rewrite length_fmap, length_placed|].
    intros j req conn Hreq Hconn. rewrite list_lookup_fmap in Hreq. apply fmap_Some in Hreq as (chunk & _ & ->). unfold put_request. cbn.
    rewrite (mode_checked d s key mode version_old j conn Hs Hconn).
    unfold code. by destruct (accepts _ _ _ _). }
  set (w1 := mkStripe (mkOperation (put_operations nconn key v version_old mode values) (0 + Z.of_nat (length values)) d) false rp).
  assert (PUT_execute nconn key v (Some <$> values) timeout w1 = (Ret code, mkStripe o false rp)) as Eput.
  { apply (PUT_execute_unanimous nconn key v (Some <$> values) timeout w1 (count_results (results (operations o))) o code); [|done|cbn; lia].
    cbn [so_op w1]. rewrite put_batch, Hl by done. exact Eexec. }
  unfold put_operation. rewrite (bind_ret _ _ _ _ _ (StripeOperation_PUT_spec nconn key v values version_old mode
    (mkStripe (new_operation d) false rp) some_connection eq_refl ltac:(cbn [redundancy]; lia))).
  cbn [so_op op_sync op_env need_indicator redundancy new_operation]. fold w1. rewrite (bind_ret _ _ _ _ _ Eput). by mstep.
Qed.

(** A refused put has not changed any drive. *)
Lemma put_refused d d' s key v version_old mode values : (forall key, key_stored d key (s !! key)) -> length values = m ->
  accepts s key mode version_old = false ->
  performed (put_request key v version_old mode <$> values) (placed nconn key m) d d' -> forall i, drive i d' = drive i d.
Proof.
  intros Hs Hl Hno [Hp Ho] i. destruct (decide (i ∈ placed nconn key m)) as [Hin|]; [|by apply Ho].
  apply list_elem_of_lookup in Hin as [j Hj]. destruct (lookup_lt_is_Some_2 values j) as [chunk Hc].
  { rewrite Hl, <- (length_placed nconn key m). by eapply lookup_lt_Some. }
  rewrite (Hp j (put_request key v version_old mode chunk) i); [|by rewrite list_lookup_fmap, Hc|done].
  unfold put_request. cbn. rewrite (mode_checked d s key mode version_old j i Hs Hj), Hno. done.
Qed.

Lemma do_put_store c s key version_old mode value : represents c s ->
  slen value <= capacity * Z.of_nat k -> slen value <= INT_MAX ->
  exists c', if accepts s key mode version_old
    then exists v, do_put (Some key) (Some version_old) (Some value) mode c = (Ret (OK, Some v), c') /\ represents c' (<[key := (v, value)]> s)
    else do_put (Some key) (Some version_old) (Some value) mode c = (Ret (REMOTE_VERSION_MISMATCH, None), c') /\ represents c' s.
Proof.
  intros Hr Hlen Hint. pose proof Hr as [Hw Hrp Hn Hcap _ Hs].
  destruct (env_uuid (cl_env c)) as [u d1] eqn:Eu. pose proof (uuid_length (cl_env c)) as Hu. rewrite Eu in Hu.
  destruct (uuid_reads (cl_env c) Hw) as [Hw1 Hd1]. rewrite Eu in Hw1, Hd1. cbn in Hu, Hw1, Hd1.
  destruct (stripe_recovered (D:=D) capacity value u (cl_redundancy c)) as (values & rp' & E & Hl & Hrp' & Hrec); try done; [lia|].
  set (v := uuidGenerateEncodeSize (slen value) u) in *.
  assert (v <> []) as Hv by (intros [_ ->]%app_eq_nil; by destruct Hu).
  assert (forall key, key_stored d1 key (s !! key)) as Hs1.
  { intros key'. eapply key_stored_same; [|apply Hs]. intros i _. by rewrite Hd1. }
  destruct (put_executes d1 s rp' key v version_old mode values (operation_timeout c) Hw1 Hs1 Hrp' Hl) as (o & Eput & Hw' & Hperf).
  unfold do_put. mstep. rewrite Hcap, Hn.
  assert (try_catch (s0 ← on_provider (valueToStripe capacity value); mret (Some s0)) (fun _ => mret None) c =
    (Ret (Some (Some <$> values)), with_env (cl_env c) rp' c)) as Estripe.
  { unfold try_catch. rewrite bind_unfold. unfold on_provider, zoom. by rewrite E. }
  rewrite (bind_ret _ _ _ _ _ Estripe).
  assert (generate_uuid (with_env (cl_env c) rp' c) = (Ret u, with_env d1 rp' c)) as Euuid
    by (unfold generate_uuid; cbn [with_env cl_env]; by rewrite Eu).
  rewrite (bind_ret _ _ _ _ _ Euuid). fold v. fold (put_operation nconn key v version_old mode values (operation_timeout c)).
  assert (run_stripe (fresh_stripe c) (put_operation nconn key v version_old mode values (operation_timeout c)) (with_env d1 rp' c) =
    (Ret (if accepts s key mode version_old then OK else REMOTE_VERSION_MISMATCH, mkStripe o false rp'), with_env (op_env o) rp' c)) as Erun
    by (unfold run_stripe; unfold new_operation in Eput;
      cbn [fresh_stripe so_op fresh_operation new_operation operations op_sync cl_env with_env cl_redundancy need_indicator]; by rewrite Eput).
  rewrite (bind_ret _ _ _ _ _ Erun). cbv beta iota. exists (with_env (op_env o) rp' c). destruct (accepts s key mode version_old) eqn:Eok.
  - exists v. split; [done|]. eapply represents_env; [done..|]. by eapply put_stored.
  - split; [done|]. eapply represents_env; [done..|]. intros key'. eapply key_stored_same; [|apply Hs1]. intros i _. f_equal.
    by eapply put_refused.
Qed.

(** ** Removing *)

(** The stripe operation of a removal. *)
Definition remove_operation (nconn : nat) (key v : bytes) (mode : WriteMode) (n : nat) (timeout : Z) : M (KineticClusterStripeOperation D) StatusCode :=
  StripeOperation_DEL nconn key v mode n 0;;
  status ← DEL_execute nconn key timeout;
  ni ← gets needsIndicator;
  when ni (putIndicatorKey nconn key);;
  mret status.

(** What drives that hold [s] answer to a removal. *)
Definition removal s (key : bytes) (mode : WriteMode) (v : bytes) : StatusCode :=
  if s !! key then if accepts s key mode v then OK else REMOTE_VERSION_MISMATCH else REMOTE_NOT_FOUND.

Lemma delete_reply d s key mode v j i : (forall key, key_stored d key (s !! key)) -> placed nconn key m !! j = Some i ->
  let r := Simulator.sim_reply (Delete key v mode WRITE_BACK) (drive i d) in
  reply_status r.1 = removal s key mode v /\ r.2 = if bool_decide (removal s key mode v = OK) then delete key (drive i d) else drive i d.
Proof.
  intros Hs Hj. destruct (stored_version d s key j i Hs Hj) as [_ Hsome]. cbn. unfold removal. rewrite (mode_checked d s key mode v j i Hs Hj).
  destruct (drive i d !! key) as [r|] eqn:E; destruct (s !! key) as [e|] eqn:Es; try done.
  - by destruct (accepts s key mode v).
  - by destruct (proj1 Hsome (mk_is_Some _ _ eq_refl)).
  - by destruct (proj2 Hsome (mk_is_Some _ _ eq_refl)).
Qed.

Lemma remove_executes d s rp key v mode timeout : working d -> (forall key, key_stored d key (s !! key)) -> provider_ok (k:=k) (m:=m) rp ->
  exists o, remove_operation nconn key v mode m timeout (mkStripe (new_operation d) false rp) =
      (Ret (removal s key mode v), mkStripe o false rp) /\
    working (op_env o) /\ performed (replicate m (Delete key v mode WRITE_BACK)) (placed nconn key m) d (op_env o).
Proof.
  intros Hw Hs Hrp. destruct (provider_geometry rp Hrp) as (Hsz & _ & Hnd). set (req := Delete key v mode WRITE_BACK).
  destruct (execute_batch BasicCallback (replicate m req) (placed nconn key m) (0 + Z.of_nat m) d)
    as (s' & d' & Eexec & Hw' & Hperf); [done|by rewrite length_replicate, length_placed|apply ring_NoDup; lia|by apply placed_connections|
    by apply Forall_replicate|].
  set (o := mkOperation _ s' d') in Eexec. exists o. split; [|done].
  assert (unanimous (count_results (results (operations o))) (removal s key mode v) (Z.of_nat (size rp))) as Hun.
  { rewrite Hsz, <- (length_placed nconn key m). apply unanimous_results, results_alike; [by rewrite length_replicate, !length_placed|].
    intros j req' conn [-> _]%lookup_replicate Hconn. by apply (delete_reply d s key mode v j conn Hs Hconn). }
  unfold remove_operation. rewrite (bind_ret _ _ _ _ _ (DEL_spec nconn key some_connection few_connections v mode m
    (mkStripe (new_operation d) false rp) eq_refl)).
  cbn [so_op op_sync op_env need_indicator redundancy new_operation]. fold req. set (w1 := mkStripe _ false rp).
  by rewrite (bind_ret _ _ _ _ _ (DEL_execute_unanimous nconn key timeout w1 _ o _ Eexec Hun ltac:(cbn; lia))).
Qed.

Lemma remove_stored d d' s key v mode : (forall key, key_stored d key (s !! key)) ->
  performed (replicate m (Delete key v mode WRITE_BACK)) (placed nconn key m) d d' ->
  forall key', key_stored d' key' ((if bool_decide (removal s key mode v = OK) then delete key s else s) !! key').
Proof.
  intros Hs Hp key'. destruct (decide (key' = key)) as [->|Hne].
  - assert (forall j i, placed nconn key m !! j = Some i -> drive i d' =
      if bool_decide (removal s key mode v = OK) then delete key (drive i d) else drive i d) as Hin.
    { intros j i Hj. destruct Hp as [Hp _]. rewrite (Hp j (Delete key v mode WRITE_BACK) i); [|apply lookup_replicate; split; [done|]|done].
      - by apply (delete_reply d s key mode v j i Hs Hj).
      - rewrite <- (length_placed nconn key m). by eapply lookup_lt_Some. }
    destruct Hp as [_ Ho]. case_bool_decide as Hok.
    + rewrite lookup_delete_eq. intros i Hi. destruct (decide (i ∈ placed nconn key m)) as [[j Hj]%list_elem_of_lookup|Hn].
      * by rewrite (Hin j i Hj), lookup_delete_eq.
      * rewrite Ho by done. specialize (Hs key). destruct (s !! key) as [[v0 value0]|]; cbn in Hs; [|by apply Hs].
        destruct Hs as (_ & stripe & _ & _ & _ & Hs). by apply Hs.
    + eapply key_stored_same; [|apply Hs]. intros i Hi. f_equal.
      destruct (decide (i ∈ placed nconn key m)) as [[j Hj]%list_elem_of_lookup|Hn]; [by apply (Hin j)|by apply Ho].
  - assert ((if bool_decide (removal s key mode v = OK) then delete key s else s) !! key' = s !! key') as ->
      by (case_bool_decide; [by rewrite lookup_delete_ne|done]).
    eapply key_stored_same; [|apply Hs]. intros i _.
    eapply (performed_other key); [exact Hp|by rewrite length_replicate, length_placed| |done].
    apply Forall_replicate. intros m0 key0 Hk0. cbn. destruct (m0 !! key); [|done]. destruct (Simulator.mode_ok _ _ _ _); [|done].
    cbn. by rewrite lookup_delete_ne.
Qed.

Lemma do_remove_store c s key v mode : represents c s ->
  exists c', do_remove (Some key) (Some v) mode c = (Ret (removal s key mode v), c') /\
    represents c' (if bool_decide (removal s key mode v = OK) then delete key s else s).
Proof.
  intros Hr. pose proof Hr as [Hw Hrp Hn _ _ Hs]. destruct (provider_geometry _ Hrp) as (Hsz & _ & _).
  destruct (remove_executes (cl_env c) s (cl_redundancy c) key v mode (operation_timeout c) Hw Hs Hrp) as (o & Edel & Hw' & Hperf).
  unfold do_remove. mstep. rewrite Hn, Hsz. fold (remove_operation nconn key v mode m (operation_timeout c)).
  assert (run_stripe (fresh_stripe c) (remove_operation nconn key v mode m (operation_timeout c)) c =
    (Ret (removal s key mode v, mkStripe o false (cl_redundancy c)), with_env (op_env o) (cl_redundancy c) c)) as Erun
    by (unfold run_stripe; unfold new_operation in Edel;
      cbn [fresh_stripe so_op fresh_operation new_operation operations op_sync cl_env cl_redundancy need_indicator]; by rewrite Edel).
  rewrite (bind_ret _ _ _ _ _ Erun). cbv beta iota. eexists. split; [done|].
  eapply represents_env; [done..|]. by eapply remove_stored.
Qed.

(** ** Reading *)

(** What is stored of a key can be read from the drives that are left. *)
Lemma stored_held d d' key entry : (forall i, down i d' = false -> drive i d' = drive i d) -> key_stored d key entry -> key_held d' key entry.
Proof.
  intros Hd. destruct entry as [[v value]|]; cbn.
  - intros (_ & stripe & Hl & Hrec & Hp & _). exists stripe. split_and!; [done..|]. intros j i Hj Hi. rewrite Hd by done. by apply Hp.
  - intros Ho i Hi Hup. rewrite Hd by done. by apply Ho.
Qed.

Lemma working_enough d key : working d -> enough_drives d key.
Proof.
  intros [_ Hup]. left. pose proof (placed_connections nconn key some_connection k) as Hf. unfold lost.
  induction Hf as [|i conns Hi _ IH]; [done|]. cbn. by rewrite (Hup i Hi).
Qed.

Lemma same_working d d' : working d -> same d d' -> working d' /\ forall i, drive i d' = drive i d.
Proof. intros [_ Hup] (Hp & Hd & Hdown). split; [|done]. split; [done|]. intros i Hi. rewrite Hdown. by apply Hup. Qed.

Lemma do_get_store c s key skip restarts : represents c s ->
  exists c', do_get restarts (Some key) skip c = (Ret (read_of s key skip), c') /\ represents c' s.
Proof.
  intros Hr. pose proof Hr as [Hw Hrp Hn _ _ Hs].
  destruct (do_get_degraded capacity limit geometry_ok c s key skip restarts (proj1 Hw) Hrp Hn (stored_held _ _ _ _ (fun _ _ => eq_refl) (Hs key)) (working_enough _ key Hw))
    as (d & rp & E & Hrp' & Hsame).
  destruct (same_working _ _ Hw Hsame) as [Hw' Hd]. exists (with_env d rp c). split; [done|]. by apply represents_same.
Qed.

(** ** All drives *)

(** A request to all connections of the cluster. *)
Lemma execute_all cls req d : working d -> standard req = true ->
  exists o, (forall A (f : list (StatusCode * Z) -> M (KineticClusterOperation D) A),
      ((expandOperationVector nconn nconn 0;; fill_all cls req);; (executeOperationVector ≫= f)) (new_operation d) =
      f (count_results (results (operations o))) o) /\
    operations o = answers d cls (replicate nconn req) (seq 0 nconn) /\ working (op_env o) /\
    performed (replicate nconn req) (seq 0 nconn) d (op_env o).
Proof.
  intros Hw Hst.
  assert (expandOperationVector nconn nconn 0 (new_operation d) = (Ret tt, mkOperation (mkOp None None <$> seq 0 nconn) 0 d)) as Eexp.
  { unfold expandOperationVector, new_operation. rewrite bool_decide_eq_false_2 by lia. cbn [andb operations op_sync op_env app].
    replace ((fun i => mkOp None None ((i + 0) mod nconn)) <$> seq 0 nconn) with (mkOp None None <$> seq 0 nconn); [done|].
    apply list_fmap_ext. intros j i [-> Hi]%lookup_seq. rewrite Nat.add_0_r, Nat.mod_small by lia. done. }
  destruct (fill_all_spec cls req (mkOperation (mkOp None None <$> seq 0 nconn) 0 d)) as (ops & Efill & Eops).
  assert (ops = batch cls (replicate nconn req) (seq 0 nconn)) as ->.
  { rewrite Eops. cbn [operations]. rewrite <- list_fmap_compose. unfold batch. rewrite zip_with_replicate_l by (by rewrite length_seq). done. }
  destruct (execute_batch cls (replicate nconn req) (seq 0 nconn) (0 + Z.of_nat (length (mkOp None None <$> seq 0 nconn))) d)
    as (s' & d' & Eexec & Hw' & Hperf); [done|by rewrite length_replicate, length_seq|apply NoDup_seq| |by apply Forall_replicate|].
  { apply Forall_forall. intros i Hi%elem_of_seq. lia. }
  exists (mkOperation (answers d cls (replicate nconn req) (seq 0 nconn)) s' d'). split; [|by split_and!].
  intros A f. rewrite bind_assoc, (bind_ret _ _ _ _ _ Eexp), (bind_ret _ _ _ _ _ Efill), (bind_ret _ _ _ _ _ Eexec). done.
Qed.

Lemma results_everywhere cls req d code : (forall m, reply_status (Simulator.sim_reply req m).1 = code) ->
  results (answers d cls (replicate nconn req) (seq 0 nconn)) = replicate nconn code.
Proof.
  intros Hall. etrans; [apply (results_alike _ _ _ _ code)|by rewrite length_seq]; [by rewrite length_replicate, length_seq|].
  intros j req' conn [-> _]%lookup_replicate _. apply Hall.
Qed.

Lemma quorum_everywhere c rm : connections c = nconn -> provider_ok (k:=k) (m:=m) (cl_redundancy c) -> unanimous rm OK (Z.of_nat nconn) ->
  find_quorum (all_keys_quorum c) rm = Some OK.
Proof.
  intros Hn (Hk & Hm & _) Hu. apply (unanimous_quorum rm OK (Z.of_nat nconn)); [done|]. unfold all_keys_quorum, numParity. rewrite Hn.
  rewrite u64_small; lia.
Qed.

Lemma run_operation_ret {A} (f : M (KineticClusterOperation D) A) c0 c a o : f (new_operation (cl_env c)) = (Ret a, o) ->
  run_operation (fresh_operation c0) f c = (Ret (a, o), with_env (op_env o) (cl_redundancy c) c).
Proof. intros E. unfold run_operation. cbn [fresh_operation operations op_sync new_operation]. unfold new_operation in E. by rewrite E. Qed.

Lemma do_flush_store c s : represents c s -> exists c', flush c = (Ret OK, c') /\ represents c' s.
Proof.
  intros Hr. pose proof Hr as [Hw Hrp Hn _ _ Hs].
  destruct (execute_all BasicCallback Flush (cl_env c) Hw eq_refl) as (o & E & Eops & Hw' & Hperf).
  assert (unanimous (count_results (results (operations o))) OK (Z.of_nat nconn)) as Hun.
  { apply unanimous_results. rewrite Eops. by apply results_everywhere. }
  exists (with_env (op_env o) (cl_redundancy c) c). split.
  - unfold flush. mstep. rewrite Hn.
    assert ((ClusterFlushOp nconn;; ClusterFlushOp_execute (all_keys_quorum c)) (new_operation (cl_env c)) = (Ret OK, o)) as Ef
      by (unfold ClusterFlushOp, ClusterFlushOp_execute; by rewrite E, (quorum_everywhere c _ Hn Hrp Hun)).
    by rewrite (bind_ret _ _ _ _ _ (run_operation_ret _ c c _ _ Ef)).
  - apply represents_same; try done. intros i _.
    apply (performed_reading _ _ _ _ Hperf); [by rewrite length_replicate, length_seq|]. by apply Forall_replicate.
Qed.

(** ** Ranges *)

(** What the drives hold of a range is what the map holds of it. *)
Lemma stored_somewhere d s key : (forall key, key_stored d key (s !! key)) ->
  is_Some (s !! key) <-> exists i, (i < nconn)%nat /\ is_Some (drive i d !! key).
Proof.
  intros Hs. split.
  - intros Hkey. destruct (lookup_lt_is_Some_2 (placed nconn key m) 0) as [i Hi]; [rewrite length_placed; lia|]. exists i.
    pose proof (placed_connections nconn key some_connection m) as Hf. rewrite Forall_forall in Hf.
    split; [apply Hf; by eapply list_elem_of_lookup_2|]. by apply (stored_version d s key 0 i Hs Hi).
  - intros (i & Hi & Hkey). specialize (Hs key). destruct (s !! key); [by eexists|]. rewrite (Hs i Hi) in Hkey. by destruct Hkey.
Qed.

(** The keys of drive [i] between two. *)
Definition drive_range d lo hi (i : nat) : list bytes := Simulator.keys_in_range (drive i d) lo hi.

Lemma drive_range_sorted d lo hi i : key_sorted (drive_range d lo hi i).
Proof. apply keys_between_strict, NoDup_keys. Qed.

Lemma elem_of_drive_range d lo hi i key :
  key ∈ drive_range d lo hi i <-> is_Some (drive i d !! key) /\ str_leb lo key = true /\ str_leb key hi = true.
Proof.
  change (drive_range d lo hi i) with (keys_between lo hi (keys_of (drive i d))). by rewrite elem_of_keys_between, elem_of_keys.
Qed.

(** Every key of a range is on some drive, and drives hold no others. *)
Lemma range_on_drives d s lo hi key : (forall key, key_stored d key (s !! key)) ->
  key ∈ range_of lo hi s <-> exists i, (i < nconn)%nat /\ key ∈ drive_range d lo hi i.
Proof.
  intros Hs. rewrite elem_of_range, (stored_somewhere d s key Hs). setoid_rewrite elem_of_drive_range. naive_solver.
Qed.

Lemma range_page d s lo hi n (M : list bytes) : (forall key, key_stored d key (s !! key)) -> key_sorted M ->
  (forall key, key ∈ M <-> exists i, (i < nconn)%nat /\ key ∈ take n (drive_range d lo hi i)) ->
  take n M = take n (range_of lo hi s).
Proof.
  intros Hs HM Helem. apply sorted_pages; [done|apply key_sorted_range|..].
  - intros key (i & Hi & Hkey)%Helem. apply (range_on_drives d s lo hi key Hs). exists i. split; [done|]. by eapply take_elem.
  - intros key Hkey. pose proof (take_elem _ _ _ Hkey) as (i & Hi & Hstored)%(range_on_drives d s lo hi key Hs). apply Helem. exists i.
    split; [done|]. apply (sorted_prefix _ (range_of lo hi s)); [apply drive_range_sorted|apply key_sorted_range| |done|done].
    intros y Hy. apply (range_on_drives d s lo hi y Hs). by exists i.
Qed.

(** A request for a range in either order of its ends: what the drives return, merged in ascending order and cut. *)
Lemma range_answered c s start_key end_key max_ : represents c s -> 0 <= max_ <= INT_MAX ->
  let n := Z.to_nat (if max_ =? 0 then limit else max_) in
  let backwards := str_ltb end_key start_key in
  let lo := if backwards then end_key else start_key in let hi := if backwards then start_key else end_key in
  exists M c', range (Some start_key) (Some end_key) max_ c = (Ret (OK, Some (take n M)), c') /\ represents c' s /\ key_sorted M /\
    forall key, key ∈ M <-> exists i, (i < nconn)%nat /\
      key ∈ take n (if backwards then reverse (drive_range (cl_env c) lo hi i) else drive_range (cl_env c) lo hi i).
Proof.
  intros Hr Hmax n backwards lo hi. pose proof Hr as [Hw Hrp Hn _ (l & El & Elim) Hs].
  set (max := if max_ =? 0 then limit else max_) in *.
  assert (0 < max <= INT_MAX) as Hmax' by (unfold max; destruct (Z.eqb_spec max_ 0); lia).
  set (req := GetKeyRange lo true hi true backwards (i32 max)).
  destruct (execute_all RangeCallback req (cl_env c) Hw eq_refl) as (o & E & Eops & Hw' & Hperf).
  assert (unanimous (count_results (results (operations o))) OK (Z.of_nat nconn)) as Hun
    by (apply unanimous_results; rewrite Eops; by apply results_everywhere).
  assert ((ClusterRangeOp nconn start_key end_key max;; ClusterRangeOp_execute (all_keys_quorum c)) (new_operation (cl_env c)) = (Ret OK, o)) as Erange.
  { unfold ClusterRangeOp, ClusterRangeOp_execute. fold backwards lo hi req. by rewrite E, (quorum_everywhere c _ Hn Hrp Hun). }
  exists (merged_keys (operations o)), (with_env (op_env o) (cl_redundancy c) c). split_and!; [| |apply merged_keys_spec|].
  - unfold range. mstep.
    assert ((if max_ =? 0 then l ← lift (limits c); mret (max_range_elements l) else mret max_) c = (Ret max, c)) as Emax.
    { unfold max. destruct (max_ =? 0); [|done]. unfold limits. rewrite El. cbn [deref]. mstep. by rewrite <- Elim. }
    rewrite (bind_ret _ _ _ _ _ Emax), Hn, (bind_ret _ _ _ _ _ (run_operation_ret _ c c _ _ Erange)). cbv beta iota.
    by rewrite bool_decide_eq_true_2, getKeys_take by (done || lia).
  - apply represents_same; try done. intros i _.
    apply (performed_reading _ _ _ _ Hperf); [by rewrite length_replicate, length_seq|]. by apply Forall_replicate.
  - intros key. rewrite (proj2 (merged_keys_spec _)), Eops. unfold n, drive_range. split.
    + intros (op & cb & ks & Hop & Hcb & Hks & Hin). apply list_elem_of_lookup in Hop as [j Hj]. unfold answers in Hj.
      apply lookup_zip_with_Some in Hj as (req' & conn & -> & [-> _]%lookup_replicate & [-> Hconn]%lookup_seq). cbn in Hcb, Hks. simplify_eq/=.
      exists j. split; [done|]. by rewrite i32_small in Hin by (unfold INT_MIN; lia).
    + intros (i & Hi & Hin). exists (mkOp (Some req) (Some (replied RangeCallback (Simulator.sim_reply req (drive i (cl_env c))).1)) i).
      eexists _, _. split_and!; [|done|done|cbn; by rewrite i32_small by (unfold INT_MIN; lia)].
      apply list_elem_of_lookup. exists i. unfold answers. apply lookup_zip_with_Some. exists req, i. split_and!; [done| |].
      * by apply lookup_replicate.
      * by apply lookup_seq.
Qed.

Lemma do_range_store c s lo hi max_ : represents c s -> str_leb lo hi = true -> 0 <= max_ <= INT_MAX ->
  exists c', range (Some lo) (Some hi) max_ c =
      (Ret (OK, Some (take (Z.to_nat (if max_ =? 0 then limit else max_)) (range_of lo hi s))), c') /\ represents c' s.
Proof.
  intros Hr Hle Hmax. destruct (range_answered c s lo hi max_ Hr Hmax) as (M & c' & E & Hr' & HM & Helem). exists c'. split; [|done].
  unfold str_leb in Hle. apply negb_true_iff in Hle. rewrite Hle in Helem.
  by rewrite E, (range_page (cl_env c) s lo hi _ M (rep_keys _ _ _ _ Hr) HM Helem).
Qed.

(** With the ends exchanged the cluster does what [ClusterStore] promises. *)
Lemma do_range_back_store c s start_key end_key max_ : represents c s -> str_leb start_key end_key = false -> 0 <= max_ <= INT_MAX ->
  exists keys c', range (Some start_key) (Some end_key) max_ c = (Ret (OK, Some keys), c') /\ represents c' s /\
    some_of_range (Z.to_nat (if max_ =? 0 then limit else max_)) (range_of end_key start_key s) keys.
Proof.
  intros Hr Hle Hmax. destruct (range_answered c s start_key end_key max_ Hr Hmax) as (M & c' & E & Hr' & HM & Helem). eexists _, c'.
  split; [exact E|]. split; [done|]. unfold str_leb in Hle. apply negb_false_iff in Hle. rewrite Hle in Helem. set (n := Z.to_nat _) in *.
  assert (forall key, key ∈ M -> key ∈ range_of end_key start_key s) as Hsub.
  { intros key (i & Hi & Hkey%take_elem)%Helem. apply (range_on_drives _ _ _ _ _ (rep_keys _ _ _ _ Hr)). exists i.
    by rewrite elem_of_reverse in Hkey. }
  split_and!.
  - rewrite <- (take_drop n M) in HM. by apply StronglySorted_app_1_l in HM.
  - rewrite length_take. lia.
  - intros key Hk%take_elem. by apply Hsub.
  - intros Hne Hn. assert (M <> []) as HMne; [|by destruct M, n; (done || lia)]. intros ->.
    destruct (range_of end_key start_key s) as [|x l] eqn:Er; [done|].
    destruct (proj1 (range_on_drives (cl_env c) s end_key start_key x (rep_keys _ _ _ _ Hr))) as (i & Hi & Hx); [rewrite Er; by left|].
    destruct (reverse (drive_range (cl_env c) end_key start_key i)) as [|y l'] eqn:Erev.
    + apply (f_equal reverse) in Erev. rewrite reverse_involutive in Erev. rewrite Erev in Hx. by apply not_elem_of_nil in Hx.
    + apply (not_elem_of_nil y), Helem. exists i. split; [done|]. rewrite Erev. destruct n; [lia|]. by left.
Qed.

(** The last key of a range, asked for with the ends exchanged: the answer is the smallest among the last ones of the drives. *)
Lemma do_range_last c s start_key end_key : represents c s -> str_leb start_key end_key = false ->
  exists keys c', range (Some start_key) (Some end_key) 1 c = (Ret (OK, Some keys), c') /\ represents c' s /\
    some_of_range 1 (range_of end_key start_key s) keys /\
    forall key, keys = [key] ->
      (exists i, (i < nconn)%nat /\ last (drive_range (cl_env c) end_key start_key i) = Some key) /\
      forall i key', (i < nconn)%nat -> last (drive_range (cl_env c) end_key start_key i) = Some key' -> str_leb key key' = true.
Proof.
  intros Hr Hle. destruct (do_range_back_store c s start_key end_key 1 Hr Hle ltac:(unfold INT_MAX; lia)) as (keys & c' & E & Hr' & Hk).
  exists keys, c'. split_and!; [done..|]. intros key ->.
  destruct (range_answered c s start_key end_key 1 Hr ltac:(unfold INT_MAX; lia)) as (M & c2 & E2 & _ & HM & Helem).
  rewrite E in E2. injection E2 as EM _. unfold str_leb in Hle. apply negb_false_iff in Hle. rewrite Hle in Helem.
  change (Z.to_nat (if 1 =? 0 then limit else 1)) with 1%nat in *. change (Z.to_nat 1) with 1%nat in EM.
  assert (forall (l : list bytes) x, x ∈ take 1 (reverse l) <-> last l = Some x) as Hlast.
  { intros l x. destruct (last l) as [y|] eqn:El.
    - apply last_Some in El as [l' ->]. rewrite reverse_snoc. cbn [take]. rewrite list_elem_of_singleton. split; [by intros ->|by intros [= ->]].
    - apply last_None in El as ->. split; [intros Hx; by apply not_elem_of_nil in Hx|done]. }
  destruct M as [|x M]; [done|]. cbn [take] in EM. injection EM as ->. split.
  - destruct (proj1 (Helem x)) as (i & Hi & Hx); [by left|]. exists i. split; [done|]. by apply Hlast.
  - intros i key' Hi Hkey'%Hlast. assert (key' ∈ x :: M) as Hin by (apply Helem; by exists i).
    apply elem_of_cons in Hin as [->|Hin]; [unfold str_leb; by rewrite str_ltb_irrefl|].
    apply StronglySorted_inv in HM as [_ HM]. rewrite Forall_forall in HM. specialize (HM _ Hin). unfold str_leb.
    destruct (str_ltb key' x) eqn:Ek; [|done]. pose proof (str_ltb_trans _ _ _ HM Ek) as Hc. by rewrite str_ltb_irrefl in Hc.
Qed.

End Store.

(** ** The interface and its specification *)

(** The calls of [ClusterInterface] that look at keys or change them. *)
Inductive call :=
  | CGet (key : bytes)
  | CGetVersion (key : bytes)
  | CPut (key : bytes) (version : option bytes) (value : bytes)
  | CPutAny (key value : bytes)
  | CRemove (key version : bytes)
  | CRemoveAny (key : bytes)
  | CFlush
  | CRange (start_key end_key : bytes) (max_elements : Z).

Inductive answer :=
  | AValue (r : StatusCode * option (option bytes * option bytes))
  | AVersion (r : StatusCode * option (option bytes))
  | AWritten (r : StatusCode * option bytes)
  | AStatus (status : StatusCode)
  | AKeys (r : StatusCode * option (list bytes)).

(** A call of the interface. *)
Definition run_call `{ClusterInterface W Cl} (cl : Cl) (a : call) : M W answer :=
  match a with
  | CGet key => r ← ci_get cl key; mret (AValue r)
  | CGetVersion key => r ← ci_get_version cl key; mret (AVersion r)
  | CPut key version value => r ← ci_put cl key version (Some value); mret (AWritten r)
  | CPutAny key value => r ← ci_put_any cl key (Some value); mret (AWritten r)
  | CRemove key version => r ← ci_remove cl key (Some version); mret (AStatus r)
  | CRemoveAny key => r ← ci_remove_any cl key; mret (AStatus r)
  | CFlush => r ← ci_flush cl; mret (AStatus r)
  | CRange lo hi max => r ← ci_range cl lo hi max; mret (AKeys r)
  end.

(** What a map answers to a call, and the map afterwards; [new] is the version given to a value that is written, [limit] the
    number of keys of a range without a limit of its own. *)
Definition store_call (limit : Z) (new : bytes) (a : call) (s : gmap bytes (bytes * bytes)) : answer * gmap bytes (bytes * bytes) :=
  match a with
  | CGet key => (AValue (match s !! key with
                         | Some (v, value) => (OK, Some (Some v, Some value))
                         | None => (REMOTE_NOT_FOUND, None)
                         end), s)
  | CGetVersion key => (AVersion (match s !! key with
                                  | Some (v, _) => (OK, Some (Some v))
                                  | None => (REMOTE_NOT_FOUND, None)
                                  end), s)
  | CPut key version value =>
      if bool_decide (expected version = fst <$> s !! key) then (AWritten (OK, Some new), <[key := (new, value)]> s)
      else (AWritten (REMOTE_VERSION_MISMATCH, None), s)
  | CPutAny key value => (AWritten (OK, Some new), <[key := (new, value)]> s)
  | CRemove key version =>
      match s !! key with
      | Some (v, _) => if bool_decide (version = v) then (AStatus OK, delete key s) else (AStatus REMOTE_VERSION_MISMATCH, s)
      | None => (AStatus REMOTE_NOT_FOUND, s)
      end
  | CRemoveAny key => (AStatus (if s !! key then OK else REMOTE_NOT_FOUND), delete key s)
  | CFlush => (AStatus OK, s)
  | CRange lo hi max => (AKeys (OK, Some (take (Z.to_nat (if max =? 0 then limit else max)) (range_of lo hi s))), s)
  end.

(** A sequence of calls, with a version for each of them. *)
Fixpoint store_calls (limit : Z) (news : list bytes) (cs : list call) (s : gmap bytes (bytes * bytes)) :
    list answer * gmap bytes (bytes * bytes) :=
  match news, cs with
  | new :: news', a :: cs' =>
      let '(r, s1) := store_call limit new a s in
      let '(rs, s2) := store_calls limit news' cs' s1 in (r :: rs, s2)
  | _, _ => ([], s)
  end.

(** The calls the documentation allows: values that fit into a stripe, ranges forwards. *)
Definition allowed (k : nat) (capacity : Z) (a : call) : Prop :=
  match a with
  | CPut _ _ value | CPutAny _ value => slen value <= capacity * Z.of_nat k /\ slen value <= INT_MAX
  | CRange lo hi max => str_leb lo hi = true /\ 0 <= max <= INT_MAX
  | _ => True
  end.

(** This is what [ClusterStore] promises to the other parts of the library. *)
Lemma store_call_promised `{ClusterStore W Cl} (cl : Cl) a w :
  match a with CRemove _ _ | CFlush => False | CRange lo hi _ => str_leb lo hi = true | _ => True end ->
  exists new w', let '(r, s') := store_call (max_range_elements (store_limits cl)) new a (store cl w) in
    run_call cl a w = (Ret r, w') /\ store cl w' = s'.
Proof.
  destruct a as [key|key|key v value|key value|key v|key| |lo hi max]; intros Ha; try done; cbn [run_call store_call].
  - destruct (get_store cl key w) as (w' & _ & Hs & E). exists [], w'. rewrite (bind_ret _ _ _ _ _ E). by split.
  - destruct (get_version_store cl key w) as (w' & _ & Hs & E). exists [], w'. rewrite (bind_ret _ _ _ _ _ E). by split.
  - destruct (put_store cl key v value w) as (w' & _ & E). case_bool_decide.
    + destruct E as (v' & E & Hs & _). exists v', w'. rewrite (bind_ret _ _ _ _ _ E). by split.
    + destruct E as (E & Hs). exists [], w'. rewrite (bind_ret _ _ _ _ _ E). by split.
  - destruct (put_any_store cl key value w) as (w' & v & _ & E & Hs & _). exists v, w'. rewrite (bind_ret _ _ _ _ _ E). by split.
  - destruct (remove_any_store cl key w) as (w' & _ & E & Hs & _). exists [], w'. rewrite (bind_ret _ _ _ _ _ E). by split.
  - destruct (range_store cl lo hi max w Ha) as (w' & _ & Hs & E). exists [], w'. rewrite (bind_ret _ _ _ _ _ E). by split.
Qed.

(** ** Refinement *)

Section Refinement.
Context `{RD : Drives D nconn} {SI : StatusInt} {SIL : StatusIntLaws} `{Checksum} `{IsaLaws k m}.
Variables capacity limit : Z.

Abbreviation represents := (represents (k:=k) (m:=m) capacity limit).

Lemma accepts_expected c s key version : represents c s ->
  accepts s key REQUIRE_SAME_VERSION (default [] version) = bool_decide (expected version = fst <$> s !! key).
Proof.
  intros Hr. unfold accepts, current. apply bool_decide_ext. pose proof (rep_keys _ _ _ _ Hr key) as Hs.
  destruct (s !! key) as [[v value]|]; cbn; [destruct Hs as [Hv _]|]; destruct version as [[|x version]|]; cbn; split; intros E; simplify_eq; done.
Qed.

Lemma call_refines c s a restarts : geometry k m nconn capacity limit -> represents c s -> allowed k capacity a ->
  exists new c', let '(r, s') := store_call limit new a s in
    run_call (H:=kinetic_cluster restarts) tt a c = (Ret r, c') /\ represents c' s'.
Proof.
  intros Hg Hr Ha.
  destruct a as [key|key|key v value|key value|key v|key| |lo hi max]; cbn [run_call store_call allowed] in *.
  - destruct (do_get_store capacity limit Hg c s key false restarts Hr) as (c' & E & Hr'). exists [], c'.
    split; [|done]. cbn [ci_get kinetic_cluster]. rewrite (bind_ret _ _ _ _ _ E). unfold read_of. by destruct (s !! key) as [[]|].
  - destruct (do_get_store capacity limit Hg c s key true restarts Hr) as (c' & E & Hr'). exists [], c'.
    split; [|done]. cbn [ci_get_version kinetic_cluster]. rewrite bind_assoc, (bind_ret _ _ _ _ _ E). unfold read_of.
    by destruct (s !! key) as [[]|].
  - destruct Ha as [Hcap Hint]. destruct (do_put_store capacity limit Hg c s key (default [] v) REQUIRE_SAME_VERSION value Hr Hcap Hint) as (c' & E).
    rewrite (accepts_expected c s key v Hr) in E. cbn [ci_put kinetic_cluster]. unfold put. case_bool_decide.
    + destruct E as (new & E & Hr'). exists new, c'. split; [by rewrite (bind_ret _ _ _ _ _ E)|done].
    + destruct E as (E & Hr'). exists [], c'. split; [by rewrite (bind_ret _ _ _ _ _ E)|done].
  - destruct Ha as [Hcap Hint]. destruct (do_put_store capacity limit Hg c s key [] IGNORE_VERSION value Hr Hcap Hint) as (c' & E).
    cbn [accepts] in E. destruct E as (new & E & Hr'). exists new, c'. split; [|done].
    cbn [ci_put_any kinetic_cluster]. unfold put_any. by rewrite (bind_ret _ _ _ _ _ E).
  - destruct (do_remove_store capacity limit Hg c s key v REQUIRE_SAME_VERSION Hr) as (c' & E & Hr').
    cbn [ci_remove kinetic_cluster]. unfold remove. revert E Hr'. unfold removal, accepts, current.
    destruct (s !! key) as [[v0 value]|]; cbn; [|intros E Hr'; exists [], c'; by rewrite (bind_ret _ _ _ _ _ E)].
    rewrite (bool_decide_ext (v0 = v) (v = v0)) by done. case_bool_decide as Hv; rewrite bool_decide_decide; cbn; intros E Hr';
      exists [], c'; (split; [by rewrite (bind_ret _ _ _ _ _ E)|done]).
  - destruct (do_remove_store capacity limit Hg c s key [] IGNORE_VERSION Hr) as (c' & E & Hr'). exists [], c'.
    cbn [ci_remove_any kinetic_cluster]. unfold remove_any. revert E Hr'. unfold removal. cbn [accepts].
    destruct (s !! key) eqn:Es; cbn; intros E Hr'; (split; [by rewrite (bind_ret _ _ _ _ _ E)|]); [done|by rewrite delete_id].
  - destruct (do_flush_store capacity limit Hg c s Hr) as (c' & E & Hr'). exists [], c'.
    split; [|done]. cbn [ci_flush kinetic_cluster]. by rewrite (bind_ret _ _ _ _ _ E).
  - destruct Ha as [Hle Hmax]. destruct (do_range_store capacity limit Hg c s lo hi max Hr Hle Hmax) as (c' & E & Hr').
    exists [], c'. split; [|done]. cbn [ci_range kinetic_cluster]. by rewrite (bind_ret _ _ _ _ _ E).
Qed.

(** A cluster whose drives are empty holds the empty map. *)
Lemma empty_represents c : working (cl_env c) -> provider_ok (k:=k) (m:=m) (cl_redundancy c) -> connections c = nconn ->
  chunkCapacity c = capacity -> (exists l, cluster_limits c = Some l /\ max_range_elements l = limit) ->
  (forall i, (i < nconn)%nat -> drive i (cl_env c) = ∅) -> represents c ∅.
Proof. intros ? ? ? ? ? Hd. split; try done. intros key. rewrite lookup_empty. intros i Hi. by rewrite Hd, lookup_empty. Qed.

(** C2: The cluster is a store.  While its drives work and nobody else writes, whatever sequence of reads, writes, removals,
    forward ranges and flushes a client makes, every call returns, and returns what a map from keys to versioned values
    answers, whatever the geometry of the stripes, their placement and the number of drives: reads give the last value written and its
    version, writes and removals under a version succeed exactly when the version is current, and ranges are pages of
    the sorted keys.  At the end the drives hold exactly the chunks of that map, so that the next client is served alike. *)
Theorem cluster_is_a_store c s restarts cs : geometry k m nconn capacity limit -> represents c s -> Forall (allowed k capacity) cs ->
  exists news c', length news = length cs /\
    mapM (run_call (H:=kinetic_cluster restarts) tt) cs c = (Ret (store_calls limit news cs s).1, c') /\
    represents c' (store_calls limit news cs s).2.
Proof.
  intros Hg. revert c s. induction cs as [|a cs IH]; intros c s Hr Hcs.
  { exists [], c. by split_and!. }
  apply Forall_cons in Hcs as [Ha Hcs]. destruct (call_refines c s a restarts Hg Hr Ha) as (new & c1 & E).
  destruct (store_call limit new a s) as [r s1] eqn:Ecall. destruct E as [E Hr1].
  destruct (IH c1 s1 Hr1 Hcs) as (news & c2 & Hl & E2 & Hr2). exists (new :: news), c2. cbn [store_calls length]. rewrite Ecall.
  destruct (store_calls limit news cs s1) as [rs s2]. split_and!; [by f_equal| |done].
  cbn [mapM]. rewrite (bind_ret _ _ _ _ _ E). by rewrite (bind_ret _ _ _ _ _ E2).
Qed.

(** C3: What a cluster holds survives the loss of drives.  After any calls that left the map [s] on the drives,
    some drives go down and the others keep what they have: a key is read as before, version and value, as
    long as no more of its drives are down than a stripe has parity chunks.  The read asks the drives of the data chunks,
    adds those of the parity chunks when it has to, and computes what is missing.  Without a drive of a data chunk lost this is so for
    every key; otherwise for those whose index does not wrap between data and parity chunks. *)
Theorem reads_survive_losses c s d key skip restarts : geometry k m nconn capacity limit -> represents c s ->
  present d -> (forall i, down i d = false -> drive i d = drive i (cl_env c)) -> enough_drives (k:=k) (m:=m) d key ->
  exists d' rp, do_get restarts (Some key) skip (with_env d (cl_redundancy c) c) = (Ret (read_of s key skip), with_env d' rp c) /\
    provider_ok (k:=k) (m:=m) rp /\ same d d'.
Proof.
  intros Hg [Hw Hrp Hn _ _ Hs] Hp Hd He.
  apply (do_get_degraded capacity limit Hg (with_env d (cl_redundancy c) c) s key skip restarts Hp Hrp Hn); [|done].
  by apply (stored_held (cl_env c)).
Qed.

End Refinement.

(** ** Simulated drives *)

Module Refinement_example.
Import Simulator.

Definition sim_drive (i : nat) (d : sim) : gmap bytes KineticRecord :=
  match sim_drives d !! i with Some (Some m) => m | _ => ∅ end.

Definition sim_down (i : nat) (d : sim) : bool := match sim_drives d !! i with Some None => true | _ => false end.

#[export] Program Instance sim_answering n : Drives sim n := {
  present d := length (sim_drives d) = n;
  drive := sim_drive;
  down := sim_down;
}.
Next Obligation.
  intros n i req d Hl Hi _ Hdown. cbn beta in Hl. unfold sim_down in Hdown. destruct (lookup_lt_is_Some_2 (sim_drives d) i) as [[m|] Ho]; [lia| |by rewrite Ho in Hdown].
  unfold sim_drive at 1 3. cbn [env_submit sim_env]. unfold sim_submit.
  rewrite Ho. destruct (sim_reply req m) as [r m'] eqn:E. eexists. split; [done|]. split_and!.
  - cbn. by rewrite length_insert.
  - unfold sim_drive. cbn. by rewrite list_lookup_insert_eq by lia.
  - intros j Hj. unfold sim_drive. cbn. by rewrite list_lookup_insert_ne.
  - intros j. unfold sim_down. cbn. destruct (decide (j = i)) as [->|]; [|by rewrite list_lookup_insert_ne].
    by rewrite list_lookup_insert_eq, Ho by lia.
Qed.
Next Obligation.
  intros n i req d Hl _ Hdown. unfold sim_down in Hdown. exists d. cbn [env_submit sim_env]. unfold sim_submit.
  by destruct (sim_drives d !! i) as [[m|]|].
Qed.
Next Obligation. done. Qed.
Next Obligation.
  intros n d. left. cbn [env_uuid sim_env fst]. unfold slen. rewrite length_pad0; [done|].
  pose proof (Z.mod_pos_bound (sim_uuids d) (10 ^ 36) ltac:(lia)) as Hb.
  destruct (dec_spec (sim_uuids d mod 10 ^ 36) ltac:(lia)) as (_ & _ & Hl & _). apply (Hl 36%nat); [lia|]. change (Z.of_nat 36) with 36. lia.
Qed.

(** Three drives, two data chunks and one parity chunk per stripe. *)
Definition cluster : KineticCluster sim :=
  mkCluster (str "C1") (str "instance") 4 10 3 Example_.provider (Some (mkClusterLimits 4096 2048 8 100)) 0 Example_.memory (fresh 3).

Definition calls : list call :=
  [CPut (str "a") None (str "abcdef"); CGet (str "a"); CPut (str "a") None (str "xyz"); CPutAny (str "b") []; CRange (str "a") (str "c") 0;
   CRemoveAny (str "a"); CGetVersion (str "a"); CFlush].

Definition run : outcome (list answer) * KineticCluster sim :=
  mapM (run_call (H:=@kinetic_cluster _ sim_env sim_status_int Example_.crc IsaSim.isa 1) tt) calls cluster.

(** The same cluster after one write. *)
Definition written : outcome (list answer) * KineticCluster sim :=
  mapM (run_call (H:=@kinetic_cluster _ sim_env sim_status_int Example_.crc IsaSim.isa 1) tt) [CPut (str "a") None (str "abcdef")] cluster.

(** A drive is lost. *)
Definition lose (i : nat) (d : sim) : sim := mkSim (<[i := None]> (sim_drives d)) (sim_clock d) (sim_uuids d).
End Refinement_example.

Lemma cluster_is_a_store_witness :
  exists news c', Refinement_example.run = (Ret (store_calls 100 news Refinement_example.calls ∅).1, c') /\
    forall i, (i < 3)%nat -> Refinement_example.sim_drive i (cl_env c') !! str "a" = None.
Proof.
  destruct (@cluster_is_a_store _ 3 _ (Refinement_example.sim_answering 3) Simulator.sim_status_int Simulator.sim_status_int_laws Example_.crc
    IsaSim.isa 2 3 IsaSim.isa_laws 4 100 Refinement_example.cluster ∅ 1 Refinement_example.calls) as (news & c' & Hl & E & Hr).
  - unfold geometry, INT_MAX. split_and!; lia.
  - apply empty_represents; try done.
    + split; [done|]. intros [|[|[|i]]] Hi; (reflexivity || lia).
    + by eexists.
    + intros [|[|[|i]]] Hi; (done || lia).
  - repeat (apply Forall_cons_2; [by vm_compute|]). apply Forall_nil_2.
  - exists news, c'. split; [exact E|]. intros i Hi. pose proof (rep_keys _ _ _ _ Hr (str "a")) as Hkey.
    assert ((store_calls 100 news Refinement_example.calls ∅).2 !! str "a" = None) as En.
    { destruct news as [|n0 [|n1 [|n2 [|n3 [|n4 [|n5 [|n6 [|n7 [|]]]]]]]]]; try discriminate Hl. vm_compute. reflexivity. }
    rewrite En in Hkey. exact (Hkey i Hi).
Defined.

Lemma reads_survive_losses_witness :
  exists c v, Refinement_example.written = (Ret [AWritten (OK, Some v)], c) /\
    forall i, (i < 3)%nat -> exists c', do_get (H:=Simulator.sim_env) (H0:=Simulator.sim_status_int) (H1:=Example_.crc) (H2:=IsaSim.isa) 0
      (Some (str "a")) false (with_env (Refinement_example.lose i (cl_env c)) (cl_redundancy c) c) = (Ret (OK, Some (Some v, Some (str "abcdef"))), c').
Proof.
  assert (geometry 2 3 3 4 100) as Hg by (unfold geometry, INT_MAX; split_and!; lia).
  destruct (@call_refines _ 3 _ (Refinement_example.sim_answering 3) Simulator.sim_status_int Simulator.sim_status_int_laws Example_.crc
    IsaSim.isa 2 3 IsaSim.isa_laws 4 100 Refinement_example.cluster ∅ (CPut (str "a") None (str "abcdef")) 1 Hg) as (v & c & E).
  - apply empty_represents; try done.
    + split; [done|]. intros [|[|[|i]]] Hi; (reflexivity || lia).
    + by eexists.
    + intros [|[|[|i]]] Hi; (reflexivity || lia).
  - by vm_compute.
  - cbn [store_call] in E. rewrite lookup_empty, bool_decide_eq_true_2 in E by done. destruct E as [E Hr]. exists c, v.
    split. { unfold Refinement_example.written. cbn [mapM]. by rewrite (bind_ret _ _ _ _ _ E). }
    intros i Hi. pose proof (rep_working _ _ _ _ Hr) as [Hl Hup]. cbn in Hl, Hup.
    destruct (@reads_survive_losses _ 3 _ (Refinement_example.sim_answering 3) Simulator.sim_status_int Simulator.sim_status_int_laws Example_.crc
      IsaSim.isa 2 3 4 100 c _ (Refinement_example.lose i (cl_env c)) (str "a") false 0 Hg Hr) as (d' & rp & Eget & _).
    + cbn. by rewrite length_insert.
    + intros j Hj. cbn in Hj |- *. unfold Refinement_example.sim_down, Refinement_example.sim_drive in *. cbn in Hj |- *.
      destruct (decide (j = i)) as [->|]; [by rewrite list_lookup_insert_eq in Hj by lia|by rewrite list_lookup_insert_ne].
    + right. split; [|by vm_compute]. 
      assert (forall j, (j < 3)%nat -> Refinement_example.sim_down j (Refinement_example.lose i (cl_env c)) = bool_decide (j = i)) as Hdown.
      { intros j Hj. specialize (Hup j Hj). unfold Refinement_example.sim_down, Refinement_example.lose in *. cbn. case_bool_decide as Hji.
        - by rewrite Hji, list_lookup_insert_eq by lia.
        - by rewrite list_lookup_insert_ne. }
      pose proof (length_placed 3 (str "a") 3) as Hlen. pose proof (placed_connections 3 (str "a") ltac:(lia) 3) as Hlt.
      assert (NoDup (placed 3 (str "a") 3)) as Hnd by (apply ring_NoDup; lia).
      unfold lost. destruct (placed 3 (str "a") 3) as [|x [|y [|z [|]]]]; try discriminate Hlen. clear Hlen.
      apply Forall_cons in Hlt as [Hx Hlt]. apply Forall_cons in Hlt as [Hy Hlt]. apply Forall_cons in Hlt as [Hz _].
      apply NoDup_cons in Hnd as [Hnx Hnd]. apply NoDup_cons in Hnd as [Hny _].
      apply not_elem_of_cons in Hnx as [Hxy Hxz%not_elem_of_cons]. apply not_elem_of_cons in Hny as [Hyz _].
      cbn. rewrite (Hdown x Hx), (Hdown y Hy), (Hdown z Hz). repeat case_bool_decide; cbn; lia.
    + eexists. rewrite Eget. unfold read_of. by rewrite lookup_insert_eq.
Defined.
