(* ===== verification/DataBlock.v ===== *)
(** * Blocks of a file (src/DataBlock.cc)

    A block is one key of the cluster, cached in memory: the value last read from the cluster, or a
    local copy with the changes made since, and the list of the changed regions.  Changes of others
    are merged region by region when the value is read again.  The state of a block operation is
    the block together with the system the cluster belongs to; a block is used under its mutex. *)

From S2P Require Import Prelude CppString Utility Kinetic Cluster ClusterInterface.

Module DataBlock.

Inductive Mode := STANDARD | CREATE.

#[export] Instance Mode_eq_dec : EqDecision Mode.
Proof. solve_decision. Defined.

Record DataBlock {Cl : Type} := mkBlock {
  mode : Mode;
  cluster : Cl;
  key : bytes;
  version : option bytes;
  remote_value : option bytes;
  local_value : option bytes;
  value_size : Z;
  updates : list (Z * Z);
  timestamp : Z;
}.
Arguments DataBlock : clear implicits.
Arguments mkBlock {Cl} _ _ _ _ _ _ _ _ _.

(** [expiration_time], in milliseconds. *)
Definition expiration_time : Z := 1000.

(** [s.copy(buffer, n, pos)] *)
Definition string_copy (s buffer : bytes) (n pos : Z) : outcome bytes :=
  if slen s <? pos then Throw std_out_of_range
  else let c := take (Z.to_nat n) (drop (Z.to_nat pos) s) in Ret (c ++ drop (length c) buffer).

(** [s.replace(pos1, n1, t, pos2, n2)] *)
Definition replace_from (s : bytes) (pos1 n1 : Z) (t : bytes) (pos2 n2 : Z) : outcome bytes :=
  u ← substr t pos2 n2; replace s pos1 n1 u.

Section Block.
Context {W Cl : Type} `{ClusterInterface W Cl}.
Abbreviation Block := (DataBlock Cl).

(** ** Construction *)

Definition new_block (c : option Cl) (k : bytes) (m : Mode) : M W Block :=
  match c with
  | None => throw (system_error io_error)
  | Some c =>
      t ← (match m with CREATE => ci_now (Cl:=Cl) | STANDARD => mret 0 end);
      mret (mkBlock m c k None None None 0 [] t)
  end.

(** ** Members of the state *)

Abbreviation M' := (M (Block * W)).

Definition block : M' Block := gets fst.
Definition set_block (f : Block -> Block) : M' unit := modify (fun '(b, w) => (f b, w)).
Definition on_cluster {A} (m : M W A) : M' A := zoom snd (fun w p => (fst p, w)) m.

Definition set_version (v : option bytes) (b : Block) : Block :=
  mkBlock (mode b) (cluster b) (key b) v (remote_value b) (local_value b) (value_size b) (updates b) (timestamp b).
Definition set_remote (r : option bytes) (b : Block) : Block :=
  mkBlock (mode b) (cluster b) (key b) (version b) r (local_value b) (value_size b) (updates b) (timestamp b).
Definition set_local (l : option bytes) (b : Block) : Block :=
  mkBlock (mode b) (cluster b) (key b) (version b) (remote_value b) l (value_size b) (updates b) (timestamp b).
Definition set_size (n : Z) (b : Block) : Block :=
  mkBlock (mode b) (cluster b) (key b) (version b) (remote_value b) (local_value b) n (updates b) (timestamp b).
Definition set_updates (u : list (Z * Z)) (b : Block) : Block :=
  mkBlock (mode b) (cluster b) (key b) (version b) (remote_value b) (local_value b) (value_size b) u (timestamp b).
Definition set_timestamp (t : Z) (b : Block) : Block :=
  mkBlock (mode b) (cluster b) (key b) (version b) (remote_value b) (local_value b) (value_size b) (updates b) t.

Definition capacity : M' Z := b ← block; l ← on_cluster (ci_limits (cluster b)); mret (max_value_size l).

(** ** Operations *)

(** The other block is re-used for a different key; it keeps its memory. *)
Definition reassign (c : Cl) (k : bytes) (m : Mode) : M' unit :=
  set_block (fun b => mkBlock m c k None (remote_value b) (local_value b) 0 [] 0);;
  b ← block;
  match local_value b with
  | Some _ => n ← capacity; set_block (set_local (Some (replicate (Z.to_nat n) "0"%char)))
  | None => mret tt
  end.

Definition getIdentity : M' bytes := b ← block; i ← gets (fun p => ci_instanceId (cluster b) (snd p)); mret (key b ++ i).

Definition validateVersion : M' bool :=
  t ← on_cluster (ci_now (Cl:=Cl));
  b ← block;
  if to_millis (t - timestamp b) <? expiration_time then mret true else
  if bool_decide (version b = None) && bool_decide (mode b = STANDARD) then mret false else
  '(status, remote_version) ← on_cluster (ci_get_version (cluster b) (key b));
  if (bool_decide (version b = None) && bool_decide (status = REMOTE_NOT_FOUND)) ||
     (bool_decide (status = OK) && bool_decide (version b <> None) && bool_decide (remote_version = Some (version b)))
  then
    t ← on_cluster (ci_now (Cl:=Cl));
    set_block (set_timestamp t);;
    mret true
  else mret false.

(** Merging one local change into the value read from the cluster. *)
Definition merge_update (local : option bytes) (state : Z * bytes) (update : Z * Z) : outcome (Z * bytes) :=
  let '(size, merged) := state in
  if snd update =? 0 then Ret (fst update, merged)
  else
    l ← deref local;
    merged' ← replace_from merged (fst update) (snd update) l (fst update) (snd update);
    Ret (Z.max (fst update + snd update) size, merged').

Fixpoint merge_updates (local : option bytes) (state : Z * bytes) (us : list (Z * Z)) : outcome (Z * bytes) :=
  match us with
  | [] => Ret state
  | u :: us' => state' ← merge_update local state u; merge_updates local state' us'
  end.

Definition getRemoteValue : M' unit :=
  b ← block;
  '(status, r) ← on_cluster (ci_get (cluster b) (key b));
  set_block (fun b => match r with Some (v, value) => set_version v (set_remote value b) | None => b end);;
  if negb (bool_decide (status = OK)) && negb (bool_decide (status = REMOTE_NOT_FOUND)) then throw (system_error io_error) else
  set_block (fun b => if bool_decide (status = REMOTE_NOT_FOUND) then set_version None b
                      else set_size (match remote_value b with Some r => slen r | None => 0 end) b);;
  t ← on_cluster (ci_now (Cl:=Cl));
  set_block (set_timestamp t);;
  b ← block;
  if bool_decide (updates b = []) then set_block (set_local None) else
  match remote_value b with
  | None => mret tt
  | Some r =>
      n ← capacity;
      let merged := if slen r <? n then resize r n NUL else r in
      '(size, merged) ← lift (merge_updates (local_value b) (value_size b, merged) (updates b));
      set_block (set_size size);;
      set_block (set_remote None);;
      set_block (set_local (Some merged))
  end.

(** [buffer] is the caller's memory, a null pointer if none; the result is what it holds afterwards. *)
Definition read (buffer : option bytes) (offset length : Z) : M' bytes :=
  n ← capacity;
  match buffer with
  | None => throw (system_error invalid_argument)
  | Some buffer =>
      if n <? u64 (offset + length) then throw (system_error invalid_argument) else
      valid ← validateVersion;
      when (negb valid) getRemoteValue;;
      b ← block;
      let buffer := if value_size b <? u64 (offset + length)
                    then replicate (Z.to_nat length) NUL ++ drop (Z.to_nat length) buffer else buffer in
      if offset <? value_size b then
        let copy_length := Z.min length (value_size b - offset) in
        match local_value b with
        | Some l => lift (string_copy l buffer copy_length offset)
        | None => lift (r ← deref (remote_value b); string_copy r buffer copy_length offset)
        end
      else mret buffer
  end.

(** The part of [write] that provides a local copy, and the one that changes it. *)
Definition ensure_local : M' unit :=
  b ← block;
  when (bool_decide (local_value b = None))
    (n ← capacity;
     set_block (fun b => match remote_value b with
                         | Some r => set_remote None (set_local (Some r) b)
                         | None => set_local (Some (replicate (Z.to_nat n) "0"%char)) b
                         end)).

Definition store_bytes (data : bytes) (offset length : Z) : M' unit :=
  b ← block;
  l ← lift (deref (local_value b));
  n ← capacity;
  let l := if slen l <? value_size b then resize l n NUL else l in
  set_block (set_local (Some l));;
  l ← lift (replace l offset length data);
  set_block (set_local (Some l));;
  set_block (fun b => set_updates (updates b ++ [(offset, length)]) b).

Definition write (buffer : option bytes) (offset length : Z) : M' unit :=
  n ← capacity;
  match buffer with
  | None => throw (system_error invalid_argument)
  | Some buffer =>
      if n <? u64 (offset + length) then throw (system_error invalid_argument) else
      set_block (fun b => set_size (Z.max (u64 (offset + length)) (value_size b)) b);;
      ensure_local;;
      store_bytes (take (Z.to_nat length) buffer) offset length
  end.

Definition truncate (offset : Z) : M' unit :=
  n ← capacity;
  if n <? offset then throw (system_error invalid_argument) else
  set_block (fun b => set_updates (updates b ++ [(offset, 0)]) (set_size offset b)).

(** Writing the value the block holds. *)
Definition flush_put : M' StatusCode :=
  set_block (fun b => match local_value b with
                      | Some l => if value_size b =? slen l then b else set_local (Some (resize l (value_size b) NUL)) b
                      | None => match remote_value b with Some _ => b | None => set_remote (Some []) b end
                      end);;
  b ← block;
  '(status, v) ← on_cluster (ci_put (cluster b) (key b) (version b)
    (match local_value b with Some l => Some l | None => remote_value b end));
  set_block (fun b => match v with Some v => set_version (Some v) b | None => b end);;
  mret status.

(** The loop of [flush] repeats while another client's value gets in between; [fuel] bounds how often. *)
Fixpoint flush_loop (fuel : nat) (status : StatusCode) : M' StatusCode :=
  match fuel with
  | O => out_of_fuel
  | S fuel' =>
      b ← block;
      when (bool_decide (status = REMOTE_VERSION_MISMATCH) || (bool_decide (version b = None) && bool_decide (mode b = STANDARD)))
        getRemoteValue;;
      status ← flush_put;
      if bool_decide (status = REMOTE_VERSION_MISMATCH) then flush_loop fuel' status else mret status
  end.

Definition flush (fuel : nat) : M' unit :=
  status ← flush_loop fuel CLIENT_INTERNAL_ERROR;
  if negb (bool_decide (status = OK)) then throw (system_error io_error) else
  set_block (set_updates []);;
  t ← on_cluster (ci_now (Cl:=Cl));
  set_block (set_timestamp t).

Definition dirty (b : Block) : bool :=
  negb (bool_decide (updates b = [])) || (bool_decide (version b = None) && bool_decide (mode b = CREATE)).

Definition size : M' Z :=
  valid ← validateVersion;
  when (negb valid) getRemoteValue;;
  b ← block;
  mret (value_size b).

End Block.
End DataBlock.
Import DataBlock.

(** ** Lemmas *)

(** The bytes a block serves reads from. *)
Definition served {Cl} (b : DataBlock Cl) : bytes :=
  match local_value b with Some l => l | None => default [] (remote_value b) end.

Definition content {Cl} (b : DataBlock Cl) : bytes := take (Z.to_nat (value_size b)) (served b).

Lemma content_lookup {Cl} (b : DataBlock Cl) i :
  content b !! i = if decide (Z.of_nat i < value_size b) then served b !! i else None.
Proof. unfold content. case_decide; [apply lookup_take_lt; lia|apply lookup_take_ge; lia]. Qed.

(** A write the block remembers, and what such a region covers. *)
Definition covers (u : Z * Z) (i : nat) : bool := (fst u <=? Z.of_nat i) && (Z.of_nat i <? fst u + snd u).
Definition covered (us : list (Z * Z)) (i : nat) : bool := existsb (fun u => covers u i) us.

(** The size of a value of size [n] after the remembered changes. *)
Definition merged_size (n : Z) (us : list (Z * Z)) : Z :=
  fold_left (fun size u => if snd u =? 0 then fst u else Z.max (fst u + snd u) size) us n.

(** The state a block is in between operations: its size is that of data it holds, and the regions it
    remembers lie in its local copy, which never exceeds the capacity [n]. *)
Record block_ok {Cl} (n : Z) (b : DataBlock Cl) : Prop := {
  ok_size : 0 <= value_size b <= slen (served b);
  ok_capacity : slen (served b) <= n;
  ok_updates : Forall (fun u => 0 <= fst u /\ 0 <= snd u /\ fst u + snd u <= n /\
    (snd u <> 0 -> exists l, local_value b = Some l /\ fst u + snd u <= slen l)) (updates b);
}.

Lemma length_content {Cl} n (b : DataBlock Cl) : block_ok n b -> slen (content b) = value_size b.
Proof. intros [H1 _ _]. unfold content, slen in *. rewrite length_take. lia. Qed.

Lemma string_copy_spec s buffer n pos :
  0 <= pos <= slen s -> 0 <= n -> pos + n <= slen s ->
  string_copy s buffer n pos = Ret (take (Z.to_nat n) (drop (Z.to_nat pos) s) ++ drop (Z.to_nat n) buffer).
Proof.
  intros Hp Hn Hs. unfold string_copy, slen in *.
  destruct (Z.ltb_spec (Z.of_nat (length s)) pos); [lia|]. do 3 f_equal. rewrite length_take, length_drop. lia.
Qed.

Lemma replace_spec s pos len t :
  0 <= pos -> 0 <= len -> pos + len <= slen s -> slen t = len ->
  replace s pos len t = Ret (take (Z.to_nat pos) s ++ t ++ drop (Z.to_nat (pos + len)) s).
Proof.
  intros Hp Hl Hs Ht. unfold replace. destruct (Z.ltb_spec (slen s) pos); [lia|]. rewrite Z.min_l by lia. done.
Qed.

Lemma lookup_replaced (s t : bytes) (pos : nat) i :
  (pos + length t <= length s)%nat ->
  (take pos s ++ t ++ drop (pos + length t) s) !! i =
  if decide (pos <= i < pos + length t)%nat then t !! (i - pos)%nat else s !! i.
Proof.
  intros Hs. case_decide as Hi.
  - rewrite lookup_app_r by (rewrite length_take; lia). rewrite lookup_app_l by (rewrite length_take; lia).
    f_equal. rewrite length_take. lia.
  - destruct (decide (i < pos)%nat).
    + rewrite lookup_app_l by (rewrite length_take; lia). by apply lookup_take_lt.
    + rewrite !lookup_app_r by (rewrite ?length_take; lia). rewrite lookup_drop. f_equal. rewrite length_take. lia.
Qed.

Lemma lookup_resize s n c i : 0 <= n -> resize s n c !! i =
  if decide (Z.of_nat i < n) then Some (default c (s !! i)) else None.
Proof.
  intros Hn. unfold resize. case_decide as Hi.
  - destruct (decide (i < length s)%nat) as [Hl|Hl].
    + rewrite lookup_app_l by (rewrite length_take; lia). rewrite lookup_take_lt by lia.
      by destruct (lookup_lt_is_Some_2 s i Hl) as [x ->].
    + rewrite lookup_app_r by (rewrite length_take; lia). rewrite (lookup_ge_None_2 s) by lia.
      apply lookup_replicate_2. rewrite length_take. lia.
  - apply lookup_ge_None_2. rewrite length_app, length_take, length_replicate. lia.
Qed.

Section Facts.
Context `{ClusterFacts W Cl}.
Implicit Types (b : DataBlock Cl) (w : W).

Definition cap b : Z := max_value_size (store_limits (cluster b)).

Lemma on_cluster_ret {A} (m : M W A) b w a w' : m w = (Ret a, w') -> on_cluster m (b, w) = (Ret a, (b, w')).
Proof. intros E. unfold on_cluster, zoom. simpl. by rewrite E. Qed.

Lemma capacity_spec b w : capacity (b, w) = (Ret (cap b), (b, w)).
Proof.
  unfold capacity, block. mstep. cbn [fst]. by rewrite (bind_ret _ _ _ _ _ (on_cluster_ret _ b w _ _ (limits_store (cluster b) w))).
Qed.

End Facts.

Section Laws.
Context `{ClusterStore W Cl}.
Implicit Types (b : DataBlock Cl) (w : W).

(** The local copy a write starts from, and the one it stores to. *)
Definition write_base (n : Z) b : bytes :=
  match local_value b with
  | Some l => l
  | None => match remote_value b with Some r => r | None => replicate (Z.to_nat n) "0"%char end
  end.

Definition write_target (n size : Z) b : bytes :=
  if slen (write_base n b) <? size then resize (write_base n b) n NUL else write_base n b.

Definition written (n : Z) b (buffer : bytes) (offset length : Z) : DataBlock Cl :=
  let size := Z.max (offset + length) (value_size b) in
  let l := write_target n size b in
  mkBlock (mode b) (cluster b) (key b) (version b) (match local_value b with Some _ => remote_value b | None => None end)
    (Some (take (Z.to_nat offset) l ++ take (Z.to_nat length) buffer ++ drop (Z.to_nat (offset + length)) l)) size
    (updates b ++ [(offset, length)]) (timestamp b).

Lemma write_base_served n b i : block_ok n b -> Z.of_nat i < value_size b -> write_base n b !! i = served b !! i.
Proof.
  intros [Hs _ _] Hi. unfold served, write_base in *. destruct (local_value b); [done|].
  destruct (remote_value b); [done|]. simpl in Hs. unfold slen in Hs. simpl in Hs. lia.
Qed.

Lemma write_target_spec n size b :
  block_ok n b -> value_size b <= size -> 0 <= size <= n ->
  size <= slen (write_target n size b) <= n /\
  (forall i, Z.of_nat i < value_size b -> write_target n size b !! i = served b !! i) /\
  (forall l, local_value b = Some l -> slen l <= slen (write_target n size b)).
Proof.
  intros Hok Hv Hn. pose proof Hok as [Hs Hc _].
  assert (slen (write_base n b) <= n) as Hb.
  { unfold write_base, served in *. destruct (local_value b); [done|]. destruct (remote_value b); [done|].
    unfold slen. rewrite length_replicate. lia. }
  unfold write_target. destruct (Z.ltb_spec (slen (write_base n b)) size) as [Hlt|Hge].
  - assert (slen (resize (write_base n b) n NUL) = n) as Hl by (apply length_resize; lia). rewrite Hl. split_and!; [lia|lia| |].
    + intros i Hi. rewrite lookup_resize, decide_True by lia. rewrite write_base_served by done.
      destruct (lookup_lt_is_Some_2 (served b) i) as [x ->]; [unfold slen in *; lia|done].
    + intros l El. unfold write_base in Hb. rewrite El in Hb. lia.
  - split_and!; [done|done| |].
    + intros i Hi. by apply write_base_served.
    + intros l El. unfold write_base. by rewrite El.
Qed.

Lemma write_result b w buffer offset length :
  block_ok (cap b) b -> 0 <= offset -> 0 <= length -> offset + length <= cap b -> cap b < 2 ^ 64 -> length <= slen buffer ->
  write (Some buffer) offset length (b, w) = (Ret tt, (written (cap b) b buffer offset length, w)).
Proof.
  intros Hok Ho Hl Hc Hn Hb. unfold write. rewrite (bind_ret _ _ _ _ _ (capacity_spec b w)).
  rewrite u64_small by lia. destruct (Z.ltb_spec (cap b) (offset + length)); [lia|].
  set (size := Z.max (offset + length) (value_size b)). unfold set_block at 1. mstep.
  pose proof Hok as [Hs Hcp _].
  destruct (write_target_spec (cap b) size b) as ([Hlo Hhi] & _); [done|lia|lia|].
  set (b1 := set_size size b). change (set_size size b) with b1.
  set (b2 := match local_value b with
             | Some _ => b1
             | None => match remote_value b with Some r => set_remote None (set_local (Some r) b1)
                       | None => set_local (Some (replicate (Z.to_nat (cap b)) "0"%char)) b1 end end).
  assert (ensure_local (b1, w) = (Ret tt, (b2, w))) as E1.
  { unfold ensure_local, block. mstep. cbn [fst]. change (local_value b1) with (local_value b). unfold b2.
    destruct (local_value b); [by rewrite bool_decide_eq_false_2|]. rewrite bool_decide_eq_true_2 by done.
    unfold when. rewrite (bind_ret _ _ _ _ _ (capacity_spec b1 w)). unfold set_block, modify.
    change (remote_value b1) with (remote_value b). by destruct (remote_value b). }
  rewrite (bind_ret _ _ _ _ _ E1).
  assert (local_value b2 = Some (write_base (cap b) b) /\ value_size b2 = size /\ cap b2 = cap b) as (Hl2 & Hs2 & Hc2).
  { unfold b2, write_base. by destruct (local_value b) eqn:El, (remote_value b) eqn:Er; split_and!. }
  unfold store_bytes, block, set_block. mstep. cbn [fst]. rewrite Hl2. cbn [deref]. mstep.
  rewrite (bind_ret _ _ _ _ _ (capacity_spec b2 w)), Hs2, Hc2. cbv zeta.
  change (if slen (write_base (cap b) b) <? size then resize (write_base (cap b) b) (cap b) NUL else write_base (cap b) b) with (write_target (cap b) size b).
  mstep. rewrite replace_spec; [|lia|lia|lia|unfold slen in *; rewrite length_take; lia]. mstep.
  unfold modify, written. fold size. do 2 f_equal. unfold b2, set_updates, set_local, set_remote, b1, set_size.
  by destruct (local_value b) eqn:El, (remote_value b) eqn:Er; cbn; rewrite ?El, ?Er.
Qed.

Lemma written_ok b buffer offset length :
  block_ok (cap b) b -> 0 <= offset -> 0 <= length -> offset + length <= cap b -> length <= slen buffer ->
  let b' := written (cap b) b buffer offset length in
  block_ok (cap b) b' /\ forall i, Z.of_nat i < value_size b' ->
    content b' !! i = if decide (offset <= Z.of_nat i < offset + length) then buffer !! (i - Z.to_nat offset)%nat
                      else write_target (cap b) (value_size b') b !! i.
Proof.
  intros Hok Ho Hl Hc Hb b'. pose proof Hok as [Hs Hcp Hu].
  set (size := Z.max (offset + length) (value_size b)).
  destruct (write_target_spec (cap b) size b) as ([Hlo Hhi] & Hag & Hll); [done|lia|lia|].
  set (l := write_target (cap b) size b) in *.
  assert (served b' = take (Z.to_nat offset) l ++ take (Z.to_nat length) buffer ++
    drop (Z.to_nat offset + List.length (take (Z.to_nat length) buffer)) l) as Hsv.
  { unfold b', written, served. cbn [local_value]. fold size. fold l. do 3 f_equal. rewrite length_take. unfold slen in *. lia. }
  assert (List.length (take (Z.to_nat length) buffer) = Z.to_nat length) as Hlt by (rewrite length_take; unfold slen in *; lia).
  assert (slen (served b') = slen l) as Hsl.
  { rewrite Hsv. unfold slen in *. rewrite !length_app, length_drop, Hlt, length_take. lia. }
  split.
  - split.
    + change (value_size b') with size. lia.
    + lia.
    + unfold b', written. cbn [updates local_value]. fold size. fold l. apply Forall_app. split.
      * eapply Forall_impl; [exact Hu|]. intros u (H1 & H2 & H3 & H4). split_and!; try done. intros Hne.
        destruct (H4 Hne) as (l' & El' & Hl'). eexists. split; [done|]. specialize (Hll l' El').
        unfold slen in *. rewrite !length_app, !length_take, length_drop. lia.
      * constructor; [|constructor]. simpl. split_and!; try lia. intros _. eexists. split; [done|].
        unfold slen in *. rewrite !length_app, !length_take, length_drop. lia.
  - intros i Hi. rewrite content_lookup, decide_True, Hsv by done. change (value_size b') with size. fold l.
    rewrite lookup_replaced by (rewrite Hlt; unfold slen in *; lia). rewrite Hlt.
    do 2 case_decide; try lia; [|done]. rewrite lookup_take_lt by lia. done.
Qed.

Definition valid_update (n : Z) (local : option bytes) (u : Z * Z) : Prop :=
  0 <= fst u /\ 0 <= snd u /\ fst u + snd u <= n /\
  (snd u <> 0 -> exists l, local = Some l /\ fst u + snd u <= slen l).

Lemma merged_size_range n size us local :
  Forall (valid_update n local) us -> 0 <= size <= n -> 0 <= merged_size size us <= n.
Proof.
  unfold merged_size. intros Hu. revert size. induction Hu as [|u us (H1 & H2 & H3 & _) Hu IH]; intros size Hs; [done|].
  cbn [fold_left]. apply IH. case_match; lia.
Qed.

Lemma merge_update_spec n local size m u :
  valid_update n local u -> n <= slen m ->
  exists m', merge_update local (size, m) u = Ret (if snd u =? 0 then fst u else Z.max (fst u + snd u) size, m') /\
    slen m' = slen m /\ forall i, m' !! i = if covers u i then default [] local !! i else m !! i.
Proof.
  intros (H1 & H2 & H3 & H4) Hm. unfold merge_update, covers. destruct (Z.eqb_spec (snd u) 0) as [E|E].
  - exists m. split_and!; [done..|]. intros i. rewrite E. case_match eqn:Ec; [|done]. lia.
  - destruct (H4 E) as (l & -> & Hl). cbn [deref mbind outcome_bind].
    unfold replace_from, substr. destruct (Z.ltb_spec (slen l) (fst u)); [lia|]. cbn [mbind outcome_bind].
    set (d := take _ (drop _ l)).
    assert (List.length d = Z.to_nat (snd u)) as Hd.
    { unfold d, slen in *. rewrite length_take, length_drop. lia. }
    rewrite replace_spec by (unfold slen in *; lia).
    replace (Z.to_nat (fst u + snd u)) with (Z.to_nat (fst u) + List.length d)%nat by lia.
    eexists. split; [done|]. split.
    + unfold slen in *. rewrite !length_app, length_take, length_drop. lia.
    + intros i. rewrite lookup_replaced by (unfold slen in *; lia). rewrite Hd.
      case_decide as Hi; destruct ((fst u <=? Z.of_nat i) && (Z.of_nat i <? fst u + snd u)) eqn:Ec; try lia; [|done].
      unfold d. rewrite lookup_take_lt by (unfold slen in *; lia). rewrite lookup_drop. simpl. f_equal. lia.
Qed.

Lemma merge_updates_spec n local size m us :
  Forall (valid_update n local) us -> n <= slen m ->
  exists m', merge_updates local (size, m) us = Ret (merged_size size us, m') /\
    slen m' = slen m /\ forall i, m' !! i = if covered us i then default [] local !! i else m !! i.
Proof.
  intros Hu. revert size m. induction Hu as [|u us Hu Hus IH]; intros size m Hm.
  { exists m. done. }
  cbn [merge_updates]. destruct (merge_update_spec n local size m u Hu Hm) as (m1 & E & Hl1 & Hm1). rewrite E.
  cbn [mbind outcome_bind]. destruct (IH (if snd u =? 0 then fst u else Z.max (fst u + snd u) size) m1) as (m2 & E2 & Hl2 & Hm2); [lia|].
  exists m2. split_and!; [exact E2|lia|]. intros i. rewrite Hm2. cbn [covered existsb]. fold (covered us i).
  destruct (covered us i); [by rewrite orb_true_r|]. rewrite orb_false_r. apply Hm1.
Qed.

(** Remembered regions lie in the local copy. *)
Lemma covered_region n local us i : Forall (valid_update n local) us -> covered us i = true -> exists l, local = Some l /\ (i < length l)%nat.
Proof.
  intros Hu Hc. apply existsb_exists in Hc as (u & Hin%list_elem_of_In & Hc). rewrite Forall_forall in Hu.
  destruct (Hu u Hin) as (H1 & H2 & H3 & H4). unfold covers in Hc. destruct H4 as (l & El & Hl); [lia|].
  exists l. split; [done|]. unfold slen in Hl. lia.
Qed.

(** The block that [getRemoteValue] makes of [b] when it merges the remembered changes into a remote value. *)
Definition merged_block b (merged : bytes) : DataBlock Cl :=
  set_local (Some merged) (set_remote None (set_size (merged_size (value_size b) (updates b)) b)).

Lemma merge_run b w r :
  Forall (valid_update (cap b) (local_value b)) (updates b) -> 0 <= value_size b <= cap b -> slen r <= cap b ->
  exists merged, (n ← capacity;
      let merged := if slen r <? n then resize r n NUL else r in
      '(size, merged) ← lift (merge_updates (local_value b) (value_size b, merged) (updates b));
      set_block (set_size size);;
      set_block (set_remote None);;
      set_block (set_local (Some merged))) (b, w) = (Ret tt, (merged_block b merged, w)) /\
    block_ok (cap b) (merged_block b merged) /\
    forall i, Z.of_nat i < cap b -> merged !! i = if covered (updates b) i then served b !! i else Some (default NUL (r !! i)).
Proof.
  intros Hu Hs Hr. rewrite (bind_ret _ _ _ _ _ (capacity_spec b w)). cbv zeta. set (m := if slen r <? cap b then _ else r).
  assert (slen m = cap b /\ forall i, Z.of_nat i < cap b -> m !! i = Some (default NUL (r !! i))) as [Hml Hm].
  { unfold m. pose proof (slen_nonneg r). destruct (Z.ltb_spec (slen r) (cap b)).
    - split; [apply length_resize; lia|]. intros i Hi. rewrite lookup_resize by lia. by rewrite decide_True.
    - split; [lia|]. intros i Hi. destruct (lookup_lt_is_Some_2 r i) as [x ->]; [unfold slen in *; lia|done]. }
  destruct (merge_updates_spec (cap b) (local_value b) (value_size b) m (updates b) Hu) as (m' & Em & Hl' & Hm'); [lia|].
  rewrite Em. unfold set_block. mstep. exists m'. split; [done|].
  pose proof (merged_size_range (cap b) (value_size b) (updates b) (local_value b) Hu Hs) as Hms. split.
  - split; [unfold served; simpl; lia|unfold served; simpl; lia|]. simpl. eapply Forall_impl; [exact Hu|].
    intros u (H1 & H2 & H3 & H4). split_and!; try done. intros _. eexists. split; [done|]. lia.
  - intros i Hi. rewrite Hm'. destruct (covered (updates b) i) eqn:Ecov; [|by apply Hm].
    destruct (covered_region _ _ _ _ Hu Ecov) as (l & El & _). unfold served. by rewrite El.
Qed.

Lemma getRemoteValue_found b w v r :
  store (cluster b) w !! key b = Some (v, r) -> block_ok (cap b) b -> slen r <= cap b ->
  exists b' w', getRemoteValue (b, w) = (Ret tt, (b', w')) /\ (forall cl, store cl w' = store cl w) /\
    cluster b' = cluster b /\ key b' = key b /\ mode b' = mode b /\ version b' = Some v /\ updates b' = updates b /\
    value_size b' = merged_size (slen r) (updates b) /\ block_ok (cap b') b' /\
    (updates b <> [] -> is_Some (local_value b') /\ remote_value b' = None) /\
    forall i, Z.of_nat i < value_size b' ->
      content b' !! i = if covered (updates b) i then served b !! i else Some (default NUL (r !! i)).
Proof.
  intros Hst Hok Hr. pose proof Hok as [Hs Hcp Hu]. unfold getRemoteValue, block, set_block. mstep. cbn [fst].
  destruct (get_store (cluster b) (key b) w) as (w1 & _ & Hst1 & E1). rewrite Hst in E1.
  rewrite (bind_ret _ _ _ _ _ (on_cluster_ret _ b w _ _ E1)). mstep. cbn [negb andb bool_decide].
  rewrite !bool_decide_eq_true_2 by done. rewrite bool_decide_eq_false_2 by done. cbn [negb andb]. mstep.
  set (b1 := set_size _ _).
  destruct (now_store w1) as (w2 & E2 & _ & Hst2).
  rewrite (bind_ret _ _ _ _ _ (on_cluster_ret _ b1 w1 _ _ E2)). mstep. cbn [fst].
  set (b2 := set_timestamp (store_time w1) b1).
  change (updates b2) with (updates b). change (remote_value b2) with (Some r).
  assert (forall cl, store cl w2 = store cl w) as Hst' by (intros; by rewrite Hst2, Hst1).
  destruct (decide (updates b = [])) as [Eu|Eu].
  - rewrite bool_decide_eq_true_2 by done. unfold modify. eexists _, _. split; [done|].
    split_and!; try done.
    + change (updates _) with (updates b). by rewrite Eu.
    + split; [unfold served; simpl; unfold slen; lia|done|]. change (updates _) with (updates b). by rewrite Eu.
    + intros i Hi. rewrite content_lookup, decide_True by done. rewrite Eu. unfold served. simpl in *.
      destruct (lookup_lt_is_Some_2 r i) as [x ->]; [unfold slen in *; lia|done].
  - rewrite bool_decide_eq_false_2 by done. pose proof (slen_nonneg r).
    destruct (merge_run b2 w2 r) as (merged & Em & Hok' & Hm); [done|simpl; change (cap b2) with (cap b); lia|done|].
    exists (merged_block b2 merged), w2. split; [exact Em|]. split_and!; try done.
    intros i Hi. rewrite content_lookup, decide_True by done. unfold served at 1. simpl. rewrite Hm.
    { change (updates b2) with (updates b). destruct (covered (updates b) i) eqn:Ec; [|done].
      destruct (covered_region (cap b) _ _ _ Hu Ec) as (l & El & _). unfold served. simpl. by rewrite El. }
    destruct Hok' as [Hs' Hc' _]. change (cap (merged_block b2 merged)) with (cap b) in *. change (cap b2) with (cap b) in *. lia.
Qed.

(** *** Flushing *)

(** The block after its local copy was cut to the size of the value. *)
Definition trimmed b : DataBlock Cl :=
  if value_size b =? slen (served b) then b else set_local (Some (resize (served b) (value_size b) NUL)) b.

Lemma trimmed_content n b l :
  local_value b = Some l -> block_ok n b ->
  local_value (trimmed b) = Some (content b) /\ content (trimmed b) = content b.
Proof.
  intros El [Hs _ _]. unfold trimmed, content, served in *. rewrite El in *.
  assert (resize l (value_size b) NUL = take (Z.to_nat (value_size b)) l) as Hr.
  { unfold resize, slen in *. rewrite (Nat.sub_0_le _ _) || replace (Z.to_nat (value_size b) - length l)%nat with 0%nat by lia. apply app_nil_r. }
  destruct (Z.eqb_spec (value_size b) (slen l)) as [E|E].
  - rewrite El. split; [|done]. f_equal. rewrite E, to_nat_slen. by rewrite firstn_all.
  - cbn [set_local local_value value_size]. rewrite Hr. split; [done|]. by rewrite take_take, Nat.min_id.
Qed.

Lemma flush_put_spec b w l :
  local_value b = Some l -> block_ok (cap b) b ->
  exists w', store_time w <= store_time w' /\
    if bool_decide (expected (version b) = fst <$> store (cluster b) w !! key b) then
      exists v, flush_put (b, w) = (Ret OK, (set_version (Some v) (trimmed b), w')) /\
        store (cluster b) w' = <[key b := (v, content b)]> (store (cluster b) w) /\
        forall cl', cl' <> cluster b -> store cl' w' = store cl' w
    else flush_put (b, w) = (Ret REMOTE_VERSION_MISMATCH, (trimmed b, w')) /\ forall cl, store cl w' = store cl w.
Proof.
  intros El Hok. destruct (trimmed_content (cap b) b l El Hok) as [Htl _].
  assert (forall f : DataBlock Cl -> M (DataBlock Cl * W) StatusCode,
    (set_block (fun b => match local_value b with
                      | Some l => if value_size b =? slen l then b else set_local (Some (resize l (value_size b) NUL)) b
                      | None => match remote_value b with Some _ => b | None => set_remote (Some []) b end
                      end);; (b ← block; f b)) (b, w) = f (trimmed b) (trimmed b, w)) as Hf.
  { intros f. unfold set_block, block. mstep. rewrite El. unfold trimmed, served. rewrite El. done. }
  unfold flush_put. rewrite Hf, Htl.
  assert (cluster (trimmed b) = cluster b /\ key (trimmed b) = key b /\ version (trimmed b) = version b) as (Hc & Hk & Hv).
  { unfold trimmed. by destruct (_ =? _). }
  rewrite Hc, Hk, Hv. destruct (put_store (cluster b) (key b) (version b) (content b) w) as (w' & Ht & Hput).
  exists w'. split; [done|]. case_bool_decide.
  - destruct Hput as (v & E & Hst & Hot). exists v. split; [|done].
    rewrite (bind_ret _ _ _ _ _ (on_cluster_ret _ _ _ _ _ E)). unfold set_block. by mstep.
  - destruct Hput as [E Hst]. split; [|done].
    rewrite (bind_ret _ _ _ _ _ (on_cluster_ret _ _ _ _ _ E)). unfold set_block. by mstep.
Qed.

Lemma getRemoteValue_missing b w :
  store (cluster b) w !! key b = None -> updates b <> [] -> remote_value b = None ->
  exists t w', getRemoteValue (b, w) = (Ret tt, (set_timestamp t (set_version None b), w')) /\ (forall cl, store cl w' = store cl w).
Proof.
  intros Hst Hu Hr. unfold getRemoteValue, block, set_block. mstep. cbn [fst].
  destruct (get_store (cluster b) (key b) w) as (w1 & _ & Hst1 & E1). rewrite Hst in E1.
  rewrite (bind_ret _ _ _ _ _ (on_cluster_ret _ b w _ _ E1)). mstep.
  rewrite !(bool_decide_eq_true_2 (REMOTE_NOT_FOUND = REMOTE_NOT_FOUND)) by done. cbn [negb]. rewrite andb_false_r. mstep.
  destruct (now_store w1) as (w2 & E2 & _ & Hst2).
  rewrite (bind_ret _ _ _ _ _ (on_cluster_ret _ _ w1 _ _ E2)). mstep. cbn [fst].
  rewrite bool_decide_eq_false_2 by done. cbn [set_timestamp set_version remote_value]. rewrite Hr.
  eexists _, w2. split; [done|]. intros. by rewrite Hst2, Hst1.
Qed.

Lemma expected_stored (v : bytes) : v <> [] -> expected (Some v) = Some v.
Proof. by destruct v. Qed.

Definition in_sync b w : Prop := expected (version b) = fst <$> store (cluster b) w !! key b.

(** What a successful flush leaves behind: the cluster holds the content of the block under its key. *)
Definition published b w b' w' : Prop :=
  cluster b' = cluster b /\ key b' = key b /\
  exists v, version b' = Some v /\ store (cluster b) w' = <[key b := (v, content b')]> (store (cluster b) w) /\
    forall cl', cl' <> cluster b -> store cl' w' = store cl' w.

Definition refreshes status b : bool :=
  bool_decide (status = REMOTE_VERSION_MISMATCH) || (bool_decide (version b = None) && bool_decide (mode b = STANDARD)).

Lemma put_published b w l w' v :
  local_value b = Some l -> block_ok (cap b) b ->
  store (cluster b) w' = <[key b := (v, content b)]> (store (cluster b) w) ->
  (forall cl', cl' <> cluster b -> store cl' w' = store cl' w) ->
  published b w (set_version (Some v) (trimmed b)) w' /\ content (set_version (Some v) (trimmed b)) = content b.
Proof.
  intros El Hok Hst Hot. destruct (trimmed_content (cap b) b l El Hok) as [_ Hct].
  assert (content (set_version (Some v) (trimmed b)) = content b) as Hc by exact Hct.
  split; [|done]. unfold published. rewrite Hc. split_and!; [by unfold trimmed; destruct (_ =? _)..|]. by exists v.
Qed.

(** One pass of the loop, from a block that need not be read again. *)
Lemma flush_pass fuel status b w l :
  local_value b = Some l -> block_ok (cap b) b -> refreshes status b = false ->
  (in_sync b w -> exists b' w', flush_loop (S fuel) status (b, w) = (Ret OK, (b', w')) /\ published b w b' w' /\ content b' = content b) /\
  (~ in_sync b w -> exists w', flush_loop (S fuel) status (b, w) = flush_loop fuel REMOTE_VERSION_MISMATCH (trimmed b, w') /\
    forall cl, store cl w' = store cl w).
Proof.
  intros El Hok Hr. cbn [flush_loop]. unfold block. mstep. cbn [fst]. fold (refreshes status b). rewrite Hr. mstep.
  destruct (flush_put_spec b w l El Hok) as (w' & _ & Hput). unfold in_sync.
  split; intros Hs.
  - rewrite bool_decide_eq_true_2 in Hput by done. destruct Hput as (v & E & Hst & Hot).
    rewrite (bind_ret _ _ _ _ _ E). rewrite bool_decide_eq_false_2 by done. eexists _, _. split; [done|].
    by apply (put_published b w l).
  - rewrite bool_decide_eq_false_2 in Hput by done. destruct Hput as [E Hst].
    rewrite (bind_ret _ _ _ _ _ E). rewrite bool_decide_eq_true_2 by done. by exists w'.
Qed.

(** One pass that reads the block again first: the changes are merged into what the cluster holds. *)
Lemma flush_pass_refresh fuel status b w v r :
  store (cluster b) w !! key b = Some (v, r) -> block_ok (cap b) b -> slen r <= cap b -> updates b <> [] ->
  refreshes status b = true ->
  exists b' w', flush_loop (S fuel) status (b, w) = (Ret OK, (b', w')) /\ published b w b' w' /\
    value_size b' = merged_size (slen r) (updates b) /\
    forall i, Z.of_nat i < value_size b' ->
      content b' !! i = if covered (updates b) i then served b !! i else Some (default NUL (r !! i)).
Proof.
  intros Hst Hok Hr Hu Href. cbn [flush_loop]. unfold block. mstep. cbn [fst]. fold (refreshes status b). rewrite Href. mstep.
  destruct (getRemoteValue_found b w v r Hst Hok Hr) as (b1 & w1 & E1 & Hst1 & Hc1 & Hk1 & _ & Hv1 & _ & Hs1 & Hok1 & Hl1 & Hcont).
  rewrite (bind_ret _ _ _ _ _ E1). destruct (Hl1 Hu) as [[l1 El1] _].
  destruct (flush_put_spec b1 w1 l1 El1 Hok1) as (w' & _ & Hput).
  rewrite bool_decide_eq_true_2 in Hput by (rewrite Hv1, Hc1, Hk1, Hst1, Hst; apply expected_stored; eauto using store_versions). destruct Hput as (v' & E & Hst' & Hot).
  rewrite (bind_ret _ _ _ _ _ E). rewrite bool_decide_eq_false_2 by done. eexists _, _. split; [done|].
  destruct (put_published b1 w1 l1 w' v' El1 Hok1 Hst' Hot) as [(Hpc & Hpk & v'' & Hpv & Hps & Hpo) Hpcont].
  assert (value_size (set_version (Some v') (trimmed b1)) = value_size b1) as Hvs.
  { unfold trimmed. by destruct (_ =? _). }
  split_and!.
  - unfold published. rewrite Hpc, Hpk, Hc1, Hk1 in *. split_and!; [done..|]. exists v''. split_and!; [done| |].
    + by rewrite Hps, Hst1.
    + intros cl' Hne. by rewrite Hpo, Hst1.
  - by rewrite Hvs.
  - intros i Hi. rewrite Hpcont. apply Hcont. lia.
Qed.

Lemma trimmed_ok b l :
  local_value b = Some l -> block_ok (cap b) b -> Forall (fun u => fst u + snd u <= value_size b) (updates b) ->
  block_ok (cap (trimmed b)) (trimmed b) /\ forall i, Z.of_nat i < value_size b -> served (trimmed b) !! i = served b !! i.
Proof.
  intros El Hok Hu. pose proof (length_content _ _ Hok) as Hlc. pose proof Hok as [Hs Hcp Hup].
  destruct (trimmed_content (cap b) b l El Hok) as [Htl _].
  assert (served (trimmed b) = content b) as Hsv by (unfold served; by rewrite Htl).
  assert (value_size (trimmed b) = value_size b /\ updates (trimmed b) = updates b /\ cap (trimmed b) = cap b) as (Hv & Hut & Hct).
  { unfold trimmed. by destruct (_ =? _). }
  split.
  - split; rewrite ?Hsv, ?Hv, ?Hct, ?Hlc, ?Hut; [lia|lia|]. rewrite Forall_forall in *. intros u Hin.
    destruct (Hup u Hin) as (H1 & H2 & H3 & _). split_and!; try done. intros _. eexists. split; [exact Htl|].
    rewrite Hlc. by apply Hu.
  - intros i Hi. rewrite Hsv, content_lookup. by rewrite decide_True.
Qed.

(** *** Reading *)

Lemma validateVersion_spec b w :
  exists valid t w', validateVersion (b, w) = (Ret valid, (set_timestamp t b, w')) /\ (forall cl, store cl w' = store cl w) /\
    (valid = true -> to_millis (store_time w - timestamp b) < expiration_time \/ in_sync b w).
Proof.
  assert (set_timestamp (timestamp b) b = b) as Hid by (by destruct b).
  unfold validateVersion, block, set_block, in_sync. destruct (now_store w) as (w1 & E1 & _ & Hst1).
  rewrite (bind_ret _ _ _ _ _ (on_cluster_ret _ b w _ _ E1)). mstep. cbn [fst].
  destruct (Z.ltb_spec (to_millis (store_time w - timestamp b)) expiration_time) as [Hlt|Hge].
  { exists true, (timestamp b), w1. rewrite Hid. split_and!; auto. }
  destruct (bool_decide (version b = None) && bool_decide (mode b = STANDARD)) eqn:Ev.
  { exists false, (timestamp b), w1. by rewrite Hid. }
  destruct (get_version_store (cluster b) (key b) w1) as (w2 & _ & Hst2 & E2). rewrite Hst1 in E2.
  rewrite (bind_ret _ _ _ _ _ (on_cluster_ret _ b w1 _ _ E2)).
  destruct (store (cluster b) w !! key b) as [[v r]|] eqn:Est.
  - rewrite (bool_decide_eq_false_2 (OK = REMOTE_NOT_FOUND)), andb_false_r by done. cbn [orb].
    rewrite (bool_decide_eq_true_2 (OK = OK)) by done. cbn [andb].
    destruct (bool_decide (version b <> None) && bool_decide (Some (Some v) = Some (version b))) eqn:Ec.
    + destruct (now_store w2) as (w3 & E3 & _ & Hst3). rewrite (bind_ret _ _ _ _ _ (on_cluster_ret _ b w2 _ _ E3)). mstep.
      exists true, (store_time w2), w3. split_and!; [done|intros; by rewrite Hst3, Hst2, Hst1|].
      intros _. right. bool_to_prop. match goal with E : Some (Some v) = Some _ |- _ => injection E as <- end. simpl.
      apply expected_stored. eauto using store_versions.
    + exists false, (timestamp b), w2. rewrite Hid. split_and!; [done|intros; by rewrite Hst2, Hst1|done].
  - rewrite (bool_decide_eq_true_2 (REMOTE_NOT_FOUND = REMOTE_NOT_FOUND)), andb_true_r by done.
    rewrite (bool_decide_eq_false_2 (REMOTE_NOT_FOUND = OK)) by done. cbn [andb]. rewrite orb_false_r.
    case_bool_decide as Hn.
    + destruct (now_store w2) as (w3 & E3 & _ & Hst3). rewrite (bind_ret _ _ _ _ _ (on_cluster_ret _ b w2 _ _ E3)). mstep.
      exists true, (store_time w2), w3. split_and!; [done|intros; by rewrite Hst3, Hst2, Hst1|].
      intros _. right. by rewrite Hn.
    + exists false, (timestamp b), w2. rewrite Hid. split_and!; [done|intros; by rewrite Hst2, Hst1|done].
Qed.

(** What reading the block again makes of it. *)
Definition merged_with b (stored : option (bytes * bytes)) b' : Prop :=
  match stored with
  | Some (v, r) => version b' = Some v /\ value_size b' = merged_size (slen r) (updates b) /\
      forall i, Z.of_nat i < value_size b' ->
        content b' !! i = if covered (updates b) i then served b !! i else Some (default NUL (r !! i))
  | None => version b' = None /\ content b' = content b
  end.

(** A block nobody removed from the cluster: it is there, or the block was never read from there. *)
Definition not_removed b w : Prop :=
  match store (cluster b) w !! key b with
  | Some (_, r) => slen r <= cap b
  | None => remote_value b = None /\ (updates b = [] -> value_size b = 0)
  end.

Lemma getRemoteValue_spec b w :
  block_ok (cap b) b -> not_removed b w ->
  exists b' w', getRemoteValue (b, w) = (Ret tt, (b', w')) /\ (forall cl, store cl w' = store cl w) /\
    block_ok (cap b') b' /\ cluster b' = cluster b /\ key b' = key b /\ updates b' = updates b /\
    merged_with b (store (cluster b) w !! key b) b'.
Proof.
  intros Hok Hnr. unfold not_removed in Hnr. destruct (store (cluster b) w !! key b) as [[v r]|] eqn:Est.
  - destruct (getRemoteValue_found b w v r Est Hok Hnr) as (b' & w' & E & Hst & Hc & Hk & _ & Hv & Hu & Hs & Hok' & _ & Hcont).
    exists b', w'. by split_and!.
  - destruct Hnr as [Hrm Hsz]. destruct (decide (updates b = [])) as [Eu|Eu].
    + unfold getRemoteValue, block, set_block. mstep. cbn [fst].
      destruct (get_store (cluster b) (key b) w) as (w1 & _ & Hst1 & E1). rewrite Est in E1.
      rewrite (bind_ret _ _ _ _ _ (on_cluster_ret _ b w _ _ E1)). mstep.
      rewrite !(bool_decide_eq_true_2 (REMOTE_NOT_FOUND = REMOTE_NOT_FOUND)) by done. cbn [negb]. rewrite andb_false_r. mstep.
      destruct (now_store w1) as (w2 & E2 & _ & Hst2).
      rewrite (bind_ret _ _ _ _ _ (on_cluster_ret _ _ w1 _ _ E2)). mstep. cbn [fst].
      rewrite bool_decide_eq_true_2 by done. eexists _, _. split; [done|].
      split_and!; [intros; by rewrite Hst2, Hst1| |done..| |].
      * destruct Hok as [Hs Hcp Hu]. specialize (Hsz Eu). split; simpl; rewrite ?Eu; [|unfold served; simpl; rewrite Hrm; simpl|done].
        -- rewrite Hsz. pose proof (slen_nonneg (served (set_local None (set_timestamp (store_time w1) (set_version None b))))). lia.
        -- pose proof (slen_nonneg (served b)). unfold slen at 1; simpl. change (cap _) with (cap b). lia.
      * done.
      * simpl. unfold content. simpl. by rewrite (Hsz Eu).
    + destruct (getRemoteValue_missing b w Est Eu Hrm) as (t & w' & E & Hst). eexists _, w'. split; [exact E|].
      split_and!; try done. by destruct Hok.
Qed.

(** *** What is remembered survives *)

(** A block whose remembered changes are writes inside its size; both its values fit its capacity [n]. *)
Record block_fine (n : Z) b : Prop := {
  fine_ok : block_ok n b;
  fine_updates : Forall (fun u => 0 < snd u /\ fst u + snd u <= value_size b) (updates b);
  fine_remote : slen (default [] (remote_value b)) <= n;
}.

(** The block still remembers the same bytes. *)
Definition keeps_remembered b b' : Prop :=
  cluster b' = cluster b /\ key b' = key b /\ updates b' = updates b /\
  forall i, covered (updates b) i = true -> served b' !! i = served b !! i.

#[export] Instance keeps_remembered_preorder : PreOrder keeps_remembered.
Proof.
  split; [by intros b|]. intros b1 b2 b3 (H1 & H2 & H3 & H4) (H1' & H2' & H3' & H4'). split_and!; [congruence..|].
  intros i Hi. rewrite H4' by (by rewrite H3). by apply H4.
Qed.

Lemma merged_size_grows size us : Forall (fun u => 0 < snd u) us ->
  size <= merged_size size us /\ Forall (fun u => fst u + snd u <= merged_size size us) us.
Proof.
  unfold merged_size. intros Hu. revert size. induction Hu as [|u us Hp Hu IH]; intros size; [done|].
  cbn [fold_left]. destruct (Z.eqb_spec (snd u) 0); [lia|].
  destruct (IH (Z.max (fst u + snd u) size)) as [H1 H2]. split; [lia|]. constructor; [lia|done].
Qed.

Lemma merged_fine b b1 size : merged_size size (updates b) <= value_size b1 -> updates b1 = updates b ->
  Forall (fun u => 0 < snd u /\ fst u + snd u <= value_size b) (updates b) ->
  Forall (fun u => 0 < snd u /\ fst u + snd u <= value_size b1) (updates b1).
Proof.
  intros Hs -> Hu. destruct (merged_size_grows size (updates b)) as [_ Hg]; [by eapply Forall_impl; [exact Hu|]; intros ? []|].
  apply Forall_and. split; [by eapply Forall_impl; [exact Hu|]; intros ? []|]. eapply Forall_impl; [exact Hg|]. intros u ?. simpl in *. lia.
Qed.

Lemma covered_end b i : Forall (fun u => 0 < snd u /\ fst u + snd u <= value_size b) (updates b) ->
  covered (updates b) i = true -> Z.of_nat i < value_size b.
Proof.
  intros Hu Hc. apply existsb_exists in Hc as (u & Hin%list_elem_of_In & Hc). rewrite Forall_forall in Hu.
  destruct (Hu u Hin). unfold covers in Hc. lia.
Qed.

Lemma getRemoteValue_fine b w :
  block_fine (cap b) b -> updates b <> [] -> (forall v r, store (cluster b) w !! key b = Some (v, r) -> slen r <= cap b) ->
  exists b' w', getRemoteValue (b, w) = (Ret tt, (b', w')) /\ (forall cl, store cl w' = store cl w) /\
    block_fine (cap b') b' /\ keeps_remembered b b'.
Proof.
  intros [Hok Hup Hrm] Hne Hfit. pose proof Hok as [Hs Hcp Hu]. destruct (store (cluster b) w !! key b) as [[v r]|] eqn:Est.
  - destruct (getRemoteValue_found b w v r Est Hok (Hfit _ _ eq_refl))
      as (b' & w' & E & Hst & Hc & Hk & _ & _ & Hu' & Hs' & Hok' & Hlr & Hcont). destruct (Hlr Hne) as [_ Hr'].
    assert (Forall (fun u => 0 < snd u /\ fst u + snd u <= value_size b') (updates b')) as Hup'.
    { apply (merged_fine b b' (slen r)); [lia|done..]. }
    exists b', w'. split; [exact E|]. split; [done|]. split.
    + split; [done|done|]. rewrite Hr'. change (0 <= cap b'). destruct Hok' as [? ? _]. lia.
    + split_and!; [done..|]. intros i Hi. assert (Z.of_nat i < value_size b') as Hlt by (apply covered_end; [done|by rewrite Hu']).
      specialize (Hcont i Hlt). by rewrite content_lookup, decide_True, Hi in Hcont by done.
  - destruct (remote_value b) as [r|] eqn:Er.
    2: { destruct (getRemoteValue_missing b w Est Hne Er) as (t & w' & E & Hst). eexists _, w'. split; [exact E|]. split; [done|].
         split; [split; [by destruct Hok|done|]|done]. simpl. by rewrite Er. }
    unfold getRemoteValue, block, set_block. mstep. cbn [fst].
    destruct (get_store (cluster b) (key b) w) as (w1 & _ & Hst1 & E1). rewrite Est in E1.
    rewrite (bind_ret _ _ _ _ _ (on_cluster_ret _ b w _ _ E1)). mstep.
    rewrite !(bool_decide_eq_true_2 (REMOTE_NOT_FOUND = REMOTE_NOT_FOUND)) by done. cbn [negb]. rewrite andb_false_r. mstep.
    destruct (now_store w1) as (w2 & E2 & _ & Hst2).
    rewrite (bind_ret _ _ _ _ _ (on_cluster_ret _ _ w1 _ _ E2)). mstep. cbn [fst]. rewrite bool_decide_eq_false_2 by done.
    set (b2 := set_timestamp (store_time w1) (set_version None b)). change (remote_value b2) with (remote_value b). rewrite Er.
    destruct (merge_run b2 w2 r) as (merged & Em & Hok' & Hm);
      [exact Hu|change (cap b2) with (cap b); change (value_size b2) with (value_size b); lia|exact Hrm|].
    exists (merged_block b2 merged), w2. split; [exact Em|]. split; [intros; by rewrite Hst2, Hst1|]. split.
    + split; [exact Hok'| |].
      * apply (merged_fine b _ (value_size b)); [simpl; lia|done..].
      * change (0 <= cap b). lia.
    + split_and!; [done..|]. intros i Hi. unfold served at 1. simpl. rewrite Hm.
      * change (updates b2) with (updates b). by rewrite Hi.
      * change (cap b2) with (cap b). destruct (covered_region (cap b) _ _ _ Hu Hi) as (l & El & Hl).
        unfold served in Hcp. rewrite El in Hcp. unfold slen in Hcp. lia.
Qed.

(** What [read] and [size] begin with. *)
Lemma refresh_fine b w :
  block_fine (cap b) b -> updates b <> [] -> (forall v r, store (cluster b) w !! key b = Some (v, r) -> slen r <= cap b) ->
  exists b' w', (forall A (m : M (DataBlock Cl * W) A), (valid ← validateVersion; when (negb valid) getRemoteValue;; m) (b, w) = m (b', w')) /\
    (forall cl, store cl w' = store cl w) /\ block_fine (cap b') b' /\ keeps_remembered b b'.
Proof.
  intros Hf Hne Hfit. destruct (validateVersion_spec b w) as (valid & t & w1 & Ev & Hst1 & _). destruct valid.
  - eexists _, w1. split; [intros A m; rewrite (bind_ret _ _ _ _ _ Ev); cbn [negb when]; mstep; reflexivity|]. split; [done|].
    split; [|done]. destruct Hf as [[] ? ?]. by split.
  - destruct (getRemoteValue_fine (set_timestamp t b) w1) as (b' & w' & E & Hst & Hf' & Hk);
      [by destruct Hf as [[] ? ?]; split|done|intros v r; rewrite Hst1; apply Hfit|].
    exists b', w'. split; [intros A m; rewrite (bind_ret _ _ _ _ _ Ev); cbn [negb when]; by rewrite (bind_ret _ _ _ _ _ E)|].
    split; [intros; by rewrite Hst, Hst1|]. by split.
Qed.

(** Reading a region that is remembered. *)
Lemma read_remembered b w buffer offset length :
  block_fine (cap b) b -> (forall v r, store (cluster b) w !! key b = Some (v, r) -> slen r <= cap b) ->
  0 <= offset -> 0 < length -> offset + length <= cap b -> cap b < 2 ^ 64 -> length <= slen buffer ->
  (forall i, offset <= Z.of_nat i < offset + length -> covered (updates b) i = true) ->
  exists b' w', read (Some buffer) offset length (b, w) =
      (Ret (take (Z.to_nat length) (drop (Z.to_nat offset) (served b)) ++ drop (Z.to_nat length) buffer), (b', w')) /\
    (forall cl, store cl w' = store cl w) /\ block_fine (cap b') b' /\ keeps_remembered b b' /\ offset + length <= value_size b'.
Proof.
  intros Hf Hfit Ho Hl Hc Hn Hb Hcov. assert (updates b <> []) as Hne.
  { intros E. specialize (Hcov (Z.to_nat offset) ltac:(lia)). by rewrite E in Hcov. }
  destruct (refresh_fine b w Hf Hne Hfit) as (b' & w' & E & Hst & Hf' & Hk). exists b', w'. pose proof Hk as (Hkc & Hkk & Hku & Hks).
  assert (offset + length <= value_size b') as Hsize.
  { pose proof (covered_end b' (Z.to_nat (offset + length - 1)) (fine_updates _ _ Hf')) as He. rewrite Hku in He.
    specialize (He (Hcov (Z.to_nat (offset + length - 1)) ltac:(lia))). lia. }
  split; [|done]. unfold read. rewrite (bind_ret _ _ _ _ _ (capacity_spec b w)). rewrite u64_small by lia.
  destruct (Z.ltb_spec (cap b) (offset + length)); [lia|]. rewrite E. unfold block. mstep. cbn [fst].
  destruct (Z.ltb_spec (value_size b') (offset + length)); [lia|]. destruct (Z.ltb_spec offset (value_size b')); [|lia].
  rewrite Z.min_l by lia. pose proof (ok_size _ _ (fine_ok _ _ Hf')) as Hs'.
  assert ((match local_value b' with Some l => lift (string_copy l buffer length offset)
    | None => lift (r ← deref (remote_value b'); string_copy r buffer length offset) end) (b', w') =
    (Ret (take (Z.to_nat length) (drop (Z.to_nat offset) (served b')) ++ drop (Z.to_nat length) buffer), (b', w'))) as ->.
  { unfold served in *. destruct (local_value b') as [l|]; [by rewrite string_copy_spec by lia|].
    destruct (remote_value b') as [r|]; simpl in *; [by rewrite string_copy_spec by lia|unfold slen in *; simpl in *; lia]. }
  assert (take (Z.to_nat length) (drop (Z.to_nat offset) (served b')) = take (Z.to_nat length) (drop (Z.to_nat offset) (served b))) as ->; [|done].
  apply list_eq. intros j. destruct (decide (j < Z.to_nat length)%nat) as [Hj|Hj].
  - rewrite !lookup_take_lt, !lookup_drop by lia. apply Hks, Hcov. lia.
  - by rewrite !lookup_take_ge by lia.
Qed.

Lemma size_remembered b w i :
  block_fine (cap b) b -> (forall v r, store (cluster b) w !! key b = Some (v, r) -> slen r <= cap b) -> covered (updates b) i = true ->
  exists b' w', size (b, w) = (Ret (value_size b'), (b', w')) /\ (forall cl, store cl w' = store cl w) /\
    block_fine (cap b') b' /\ keeps_remembered b b' /\ Z.of_nat i < value_size b'.
Proof.
  intros Hf Hfit Hi. assert (updates b <> []) as Hne by (intros E; by rewrite E in Hi).
  destruct (refresh_fine b w Hf Hne Hfit) as (b' & w' & E & Hst & Hf' & Hk). exists b', w'. split.
  - unfold size. rewrite E. unfold block. by mstep.
  - split_and!; [done..|]. destruct Hk as (_ & _ & Hku & _). apply covered_end; [by apply fine_updates in Hf'|by rewrite Hku].
Qed.

(** *** Flushing succeeds *)

(** What a flush makes of the content. *)
Definition merged_or_same b w b' : Prop :=
  (in_sync b w -> content b' = content b) /\
  (forall v r, store (cluster b) w !! key b = Some (v, r) -> ~ in_sync b w ->
    value_size b' = merged_size (slen r) (updates b) /\
    forall i, Z.of_nat i < value_size b' ->
      content b' !! i = if covered (updates b) i then served b !! i else Some (default NUL (r !! i))).

Lemma flush_finish fuel b w b1 w1 :
  flush_loop fuel CLIENT_INTERNAL_ERROR (b, w) = (Ret OK, (b1, w1)) -> published b w b1 w1 -> merged_or_same b w b1 ->
  exists b' w', flush fuel (b, w) = (Ret tt, (b', w')) /\ published b w b' w' /\ dirty b' = false /\ merged_or_same b w b'.
Proof.
  intros E Hp Hm. unfold flush. rewrite (bind_ret _ _ _ _ _ E). rewrite bool_decide_eq_true_2 by done. cbn [negb].
  unfold set_block. mstep. destruct (now_store w1) as (w2 & E2 & _ & Hst2).
  rewrite (bind_ret _ _ _ _ _ (on_cluster_ret _ _ w1 _ _ E2)). unfold modify. eexists _, w2. split; [done|].
  destruct Hp as (Hc & Hk & v & Hv & Hst & Hot). split_and!; try done.
  - unfold published. split_and!; [done..|]. exists v. split_and!; [done|by rewrite Hst2|]. intros. by rewrite Hst2, Hot.
  - unfold dirty. simpl. by rewrite Hv.
Qed.

(** The merging pass, for a block [b0] that differs from [b] only beyond the value. *)
Lemma flush_merge b w b0 w0 st v r n :
  (forall cl, store cl w0 = store cl w) -> cluster b0 = cluster b -> key b0 = key b -> updates b0 = updates b -> updates b <> [] ->
  block_ok (cap b0) b0 -> store (cluster b) w !! key b = Some (v, r) -> slen r <= cap b0 -> refreshes st b0 = true ->
  (forall i, Z.of_nat i < value_size b -> served b0 !! i = served b !! i) ->
  Forall (fun u => fst u + snd u <= value_size b) (updates b) -> ~ in_sync b w ->
  exists b' w', flush_loop (S n) st (b0, w0) = (Ret OK, (b', w')) /\ published b w b' w' /\ merged_or_same b w b'.
Proof.
  intros Hst0 Hc0 Hk0 Hu0 Hu Hok0 Hst Hr Href Hsv Hle Hns.
  destruct (flush_pass_refresh n st b0 w0 v r) as (b' & w' & E & (Hpc & Hpk & v' & Hpv & Hps & Hpo) & Hs' & Hcont);
    [by rewrite Hst0, Hc0, Hk0|done|done|by rewrite Hu0|done|]. rewrite Hc0, Hk0, Hst0 in *. rewrite Hu0 in *.
  exists b', w'. split_and!; [done| |].
  - unfold published. split_and!; [done..|]. exists v'. split_and!; [done..|]. intros. by rewrite Hpo, Hst0.
  - split; [done|]. rewrite Hst. intros ?? [= <- <-] _. split; [done|].
    intros i Hi. rewrite Hcont by done. destruct (covered (updates b) i) eqn:Ec; [|done]. apply Hsv.
    apply existsb_exists in Ec as (u & Hin%list_elem_of_In & Hcv). rewrite Forall_forall in Hle. specialize (Hle u Hin).
    unfold covers in Hcv. lia.
Qed.

(** A block that was never read: the first pass reads it. *)
Lemma flush_unread b w l n :
  local_value b = Some l -> remote_value b = None -> block_ok (cap b) b -> not_removed b w -> updates b <> [] ->
  Forall (fun u => fst u + snd u <= value_size b) (updates b) -> refreshes CLIENT_INTERNAL_ERROR b = true ->
  exists b' w', flush_loop (S n) CLIENT_INTERNAL_ERROR (b, w) = (Ret OK, (b', w')) /\ published b w b' w' /\ merged_or_same b w b'.
Proof.
  intros El Hrm Hok Hnr Hu Hle Href.
  assert (version b = None) as Hv. { unfold refreshes in Href. simpl in Href. by bool_to_prop. }
  unfold not_removed in Hnr. destruct (store (cluster b) w !! key b) as [[v r]|] eqn:Est.
  { apply (flush_merge b w b w _ v r); try done. unfold in_sync. by rewrite Hv, Est. }
  destruct (getRemoteValue_missing b w Est Hu Hrm) as (t & w1 & E1 & Hst1).
  set (b0 := set_timestamp t (set_version None b)) in *.
  assert (block_ok (cap b0) b0) as Hok0 by (by destruct Hok).
  destruct (flush_put_spec b0 w1 l El Hok0) as (w2 & _ & Hput).
  change (key b0) with (key b) in Hput. change (cluster b0) with (cluster b) in Hput.
  rewrite bool_decide_eq_true_2 in Hput by (by rewrite Hst1, Est). destruct Hput as (v & E2 & Hst2 & Hot2).
  destruct (put_published b0 w1 l w2 v El Hok0 Hst2 Hot2) as [(Hpc & Hpk & v' & Hpv & Hps & Hpo) Hcont].
  exists (set_version (Some v) (trimmed b0)), w2. split_and!.
  - cbn [flush_loop]. unfold block. mstep. cbn [fst]. fold (refreshes CLIENT_INTERNAL_ERROR b). rewrite Href. mstep.
    rewrite (bind_ret _ _ _ _ _ E1), (bind_ret _ _ _ _ _ E2). by rewrite bool_decide_eq_false_2.
  - unfold published. split_and!; [done..|]. exists v'. split_and!; [done| |].
    + etrans; [exact Hps|]. change (cluster b0) with (cluster b). by rewrite Hst1.
    + intros cl' Hne. etrans; [by apply Hpo|apply Hst1].
  - split; [by rewrite Hcont|]. by rewrite Est.
Qed.

(** A block with a known version, or a new one: one pass, or a second one that merges. *)
Lemma flush_known b w l n :
  local_value b = Some l -> block_ok (cap b) b -> not_removed b w -> updates b <> [] ->
  Forall (fun u => fst u + snd u <= value_size b) (updates b) ->
  (version b <> None -> is_Some (store (cluster b) w !! key b)) -> refreshes CLIENT_INTERNAL_ERROR b = false ->
  exists b' w', flush_loop (S (S n)) CLIENT_INTERNAL_ERROR (b, w) = (Ret OK, (b', w')) /\ published b w b' w' /\ merged_or_same b w b'.
Proof.
  intros El Hok Hnr Hu Hle Hthere Href.
  destruct (flush_pass (S n) CLIENT_INTERNAL_ERROR b w l El Hok Href) as [Hsync Hstale].
  destruct (decide (expected (version b) = fst <$> store (cluster b) w !! key b)) as [Hs|Hs].
  { destruct (Hsync Hs) as (b1 & w1 & E & Hp & Hcont). exists b1, w1. split_and!; [done..|]. by split. }
  destruct (Hstale Hs) as (w1 & -> & Hst1). unfold not_removed in Hnr.
  destruct (store (cluster b) w !! key b) as [[v r]|] eqn:Est.
  2: { destruct (version b) eqn:Ev; [|done]. by destruct (Hthere ltac:(done)). }
  destruct (trimmed_ok b l El Hok Hle) as [Hok0 Hsv].
  assert (cluster (trimmed b) = cluster b /\ key (trimmed b) = key b /\ updates (trimmed b) = updates b /\ cap (trimmed b) = cap b)
    as (Hc0 & Hk0 & Hu0 & Hcap0) by (unfold trimmed; by destruct (_ =? _)).
  apply (flush_merge b w (trimmed b) w1 _ v r); rewrite ?Hcap0; try done.
  - by rewrite <- Hcap0.
  - unfold in_sync. by rewrite Est.
Qed.

(** *** What every operation keeps *)

(** The block stays the block of its key. *)
Definition same_key (p p' : DataBlock Cl * W) : Prop := cluster (fst p') = cluster (fst p) /\ key (fst p') = key (fst p).

#[export] Instance same_key_preorder : PreOrder same_key.
Proof. split; [by intros p|]. intros p q r [H1 H2] [H3 H4]. split; congruence. Qed.

Lemma keeps_set_block f : (forall b, cluster (f b) = cluster b /\ key (f b) = key b) -> keeps same_key (set_block f).
Proof. intros Hf [b w]. apply Hf. Qed.

Lemma keeps_on_cluster {A} (m : M W A) : keeps same_key (on_cluster m).
Proof. intros [b w]. unfold on_cluster, zoom. simpl. by destruct (m w). Qed.

Lemma keeps_block : keeps same_key (block (Cl:=Cl) (W:=W)).
Proof. apply keeps_same; [apply _|done]. Qed.

Ltac key_step := first
  [ apply keeps_on_cluster | apply keeps_block
  | apply keeps_set_block; intros b; repeat first [case_match | case_bool_decide]; done | keeps_step ].

Lemma getRemoteValue_key : keeps same_key getRemoteValue.
Proof. unfold getRemoteValue, capacity. repeat key_step. Qed.

Lemma flush_key fuel : keeps same_key (flush fuel).
Proof.
  unfold flush. apply keeps_bind; [apply _| |repeat key_step]. generalize CLIENT_INTERNAL_ERROR.
  induction fuel as [|fuel IH]; intros status; cbn [flush_loop]; [by keeps_step|].
  unfold flush_put. repeat first [apply getRemoteValue_key | apply IH | key_step].
Qed.

Lemma ensure_local_key : keeps same_key ensure_local.
Proof. unfold ensure_local, capacity. repeat key_step. Qed.

Lemma write_key buffer offset length : keeps same_key (write buffer offset length).
Proof. unfold write, store_bytes, capacity. repeat first [apply ensure_local_key | key_step]. Qed.

Lemma validateVersion_key : keeps same_key validateVersion.
Proof. unfold validateVersion. repeat key_step. Qed.

Lemma read_key buffer offset length : keeps same_key (read buffer offset length).
Proof. unfold read, capacity. repeat first [apply validateVersion_key | apply getRemoteValue_key | key_step]. Qed.

Lemma truncate_key offset : keeps same_key (truncate offset).
Proof. unfold truncate, capacity. repeat key_step. Qed.

Lemma size_key : keeps same_key size.
Proof. unfold size. repeat first [apply validateVersion_key | apply getRemoteValue_key | key_step]. Qed.

(** A flush that returns leaves no changes behind. *)
Lemma flush_put_version b w b' w' : flush_put (b, w) = (Ret OK, (b', w')) -> version b' <> None.
Proof.
  unfold flush_put, set_block, block. mstep. cbn [fst].
  match goal with |- context [on_cluster (ci_put ?c ?k ?v ?value)] => assert (exists x, value = Some x) as [x ->] end.
  { destruct (local_value b) as [l|] eqn:El.
    - destruct (_ =? _); cbn [local_value set_local]; rewrite ?El; by eexists.
    - destruct (remote_value b) as [r|] eqn:Er; cbn [local_value remote_value set_remote]; rewrite ?El, ?Er; by eexists. }
  match goal with |- context [on_cluster (ci_put ?c ?k ?v _) ≫= _] => destruct (put_store c k v x w) as (w1 & _ & Hput) end.
  match goal with |- context [(on_cluster _ ≫= _) (?b1, w)] => set (b2 := b1) in * end.
  case_bool_decide.
  - destruct Hput as (v & E & _). rewrite (bind_ret _ _ _ _ _ (on_cluster_ret _ b2 w _ _ E)). mstep. intros [= <- <-]. done.
  - destruct Hput as [E _]. rewrite (bind_ret _ _ _ _ _ (on_cluster_ret _ b2 w _ _ E)). mstep. done.
Qed.

Lemma flush_loop_version fuel : forall status b w b' w',
  flush_loop fuel status (b, w) = (Ret OK, (b', w')) -> version b' <> None.
Proof.
  induction fuel as [|fuel IH]; intros status b w b' w'; cbn [flush_loop]; [done|]. unfold block. mstep. intros E.
  apply bind_inv_ret in E as ([] & [b1 w1] & _ & E). apply bind_inv_ret in E as (st & [b2 w2] & E2 & E).
  case_bool_decide; [by apply IH in E|]. injection E as -> -> ->. by apply flush_put_version in E2.
Qed.

Lemma flush_clean fuel b w b' w' : flush fuel (b, w) = (Ret tt, (b', w')) -> dirty b' = false.
Proof.
  unfold flush. intros E. apply bind_inv_ret in E as (st & [b1 w1] & E1 & E). case_bool_decide as Hst; [|done]. subst st.
  apply flush_loop_version in E1. cbn [negb] in E. unfold set_block in E. rewrite bind_modify in E.
  apply bind_inv_ret in E as (t & [b2 w2] & E2 & E). unfold on_cluster, zoom in E2. simpl in E2.
  destruct (ci_now w1) as [[]]; simplify_eq. injection E as <- <-. unfold dirty. simpl.
  rewrite (bool_decide_eq_false_2 (version b1 = None)) by done. done.
Qed.

End Laws.

(** ** Properties *)

Import MapCluster.

(** C16: Writing into a block.  A write within the capacity succeeds; afterwards the written region holds
    the caller's bytes, the rest of the value is what it was, the size has grown to the end of the region
    if that is beyond it, the region is remembered and the block stays well-formed. *)
Theorem block_write `{ClusterStore W Cl} (b : DataBlock Cl) w buffer offset length :
  block_ok (cap b) b -> 0 <= offset -> 0 <= length -> offset + length <= cap b -> cap b < 2 ^ 64 -> length <= slen buffer ->
  exists b', write (Some buffer) offset length (b, w) = (Ret tt, (b', w)) /\ block_ok (cap b') b' /\
    value_size b' = Z.max (offset + length) (value_size b) /\ updates b' = updates b ++ [(offset, length)] /\
    version b' = version b /\
    forall i, Z.of_nat i < value_size b' ->
      (offset <= Z.of_nat i < offset + length -> content b' !! i = buffer !! (i - Z.to_nat offset)%nat) /\
      (~ (offset <= Z.of_nat i < offset + length) -> Z.of_nat i < value_size b -> content b' !! i = content b !! i).
Proof.
  intros Hok Ho Hl Hc Hn Hb. eexists. split; [by apply write_result|].
  destruct (written_ok b buffer offset length Hok Ho Hl Hc Hb) as [Hok' Hcont].
  split_and!; try done. intros i Hi. rewrite (Hcont i Hi). split; intros Hin; [by rewrite decide_True|].
  intros Hv. rewrite decide_False by done. pose proof Hok as [Hs Hcp _].
  destruct (write_target_spec (cap b) (Z.max (offset + length) (value_size b)) b) as (_ & Hag & _); [done|lia|lia|].
  cbn [value_size written]. rewrite Hag by done. rewrite content_lookup. by rewrite decide_True.
Qed.

Definition example_block : DataBlock unit :=
  mkBlock CREATE tt (str "C1:data:f_0000000000") None None (Some (str "0123456789abcdef")) 6 [(0, 6)] 0.

Lemma block_write_witness :
  let w := MapCluster.mkState ∅ 5 in
  exists b', write (Some (str "XY")) 5 2 (example_block, w) = (Ret tt, (b', w)) /\
    value_size b' = 7 /\ content b' !! 6%nat = Some "Y"%char.
Proof.
  intros w. destruct (block_write example_block w (str "XY") 5 2) as (b' & E & _ & Hs & _ & _ & Hc);
    [|lia|lia|by vm_compute|by vm_compute|by vm_compute|].
  - split; [by vm_compute|by vm_compute|]. repeat constructor; try (by vm_compute). intros _.
    exists (str "0123456789abcdef"). split; [reflexivity|by vm_compute].
  - exists b'. split; [exact E|]. split; [exact Hs|].
    destruct (Hc 6%nat) as [Hc6 _]; [rewrite Hs; simpl; lia|]. rewrite Hc6 by (simpl; lia). reflexivity.
Defined.

(** C15: Reading from a block.  A read within the capacity returns, for every position, the byte of the
    value the block holds afterwards, and zero beyond its end.  That value is the one held before when it
    was verified recently or is up to date; otherwise it is the value of the cluster with the remembered
    changes merged into it: local bytes where a region covers the position, remote bytes elsewhere. *)
Theorem block_read `{ClusterStore W Cl} (b : DataBlock Cl) w buffer offset length :
  block_ok (cap b) b -> not_removed b w ->
  0 <= offset -> 0 <= length -> offset + length <= cap b -> cap b < 2 ^ 64 -> slen buffer = length ->
  exists b' w' out, read (Some buffer) offset length (b, w) = (Ret out, (b', w')) /\
    (forall cl, store cl w' = store cl w) /\ block_ok (cap b') b' /\ slen out = length /\
    (forall j, Z.of_nat j < length -> out !! j = Some (default NUL (content b' !! (Z.to_nat offset + j)%nat))) /\
    ((content b' = content b /\ (to_millis (store_time w - timestamp b) < expiration_time \/ in_sync b w)) \/
     merged_with b (store (cluster b) w !! key b) b').
Proof.
  intros Hok Hnr Ho Hl Hc Hn Hb. unfold read. rewrite (bind_ret _ _ _ _ _ (capacity_spec b w)).
  rewrite u64_small by lia. destruct (Z.ltb_spec (cap b) (offset + length)); [lia|].
  destruct (validateVersion_spec b w) as (valid & t & w1 & Ev & Hst1 & Hvt). rewrite (bind_ret _ _ _ _ _ Ev).
  assert (exists b' w', when (negb valid) getRemoteValue (set_timestamp t b, w1) = (Ret tt, (b', w')) /\
    (forall cl, store cl w' = store cl w) /\ block_ok (cap b') b' /\
    ((content b' = content b /\ (to_millis (store_time w - timestamp b) < expiration_time \/ in_sync b w)) \/
     merged_with b (store (cluster b) w !! key b) b')) as (b' & w' & E & Hst & Hok' & Hres).
  { destruct valid; cbn [negb when].
    - eexists _, _. split; [done|]. split_and!; [done|by destruct Hok|]. left. split; [done|]. by apply Hvt.
    - destruct (getRemoteValue_spec (set_timestamp t b) w1) as (b' & w' & E & Hst & Hok' & _ & _ & _ & Hm).
      + by destruct Hok.
      + unfold not_removed in *. simpl. by rewrite Hst1.
      + exists b', w'. split; [exact E|]. split_and!; [intros; by rewrite Hst|done|]. right. simpl in Hm. by rewrite Hst1 in Hm. }
  rewrite (bind_ret _ _ _ _ _ E). unfold block. mstep. cbn [fst]. exists b', w'.
  pose proof Hok' as [Hs' _ _].
  assert (forall out, slen out = length -> (forall j, Z.of_nat j < length -> out !! j = Some (default NUL (content b' !! (Z.to_nat offset + j)%nat))) ->
    exists out0, (Ret out, (b', w')) = (Ret out0, (b', w')) /\ (forall cl, store cl w' = store cl w) /\ block_ok (cap b') b' /\
    slen out0 = length /\ (forall j, Z.of_nat j < length -> out0 !! j = Some (default NUL (content b' !! (Z.to_nat offset + j)%nat))) /\
    ((content b' = content b /\ (to_millis (store_time w - timestamp b) < expiration_time \/ in_sync b w)) \/
     merged_with b (store (cluster b) w !! key b) b')) as Hdone.
  { intros out Ho1 Ho2. exists out. by split_and!. }
  set (buf := if value_size b' <? offset + length then _ else buffer).
  assert (slen buf = length /\ (value_size b' < offset + length -> buf = replicate (Z.to_nat length) NUL)) as [Hbl Hbz].
  { unfold buf. destruct (Z.ltb_spec (value_size b') (offset + length)); [|split; [done|lia]].
    rewrite drop_ge, app_nil_r by (unfold slen in *; lia). split; [unfold slen; rewrite length_replicate; lia|done]. }
  destruct (Z.ltb_spec offset (value_size b')) as [Hlt|Hge].
  - set (n := Z.min length (value_size b' - offset)).
    assert ((match local_value b' with Some l => lift (string_copy l buf n offset)
      | None => lift (r ← deref (remote_value b'); string_copy r buf n offset) end) (b', w') =
      (Ret (take (Z.to_nat n) (drop (Z.to_nat offset) (served b')) ++ drop (Z.to_nat n) buf), (b', w'))) as ->.
    { unfold served in *. destruct (local_value b') as [l|]; [by rewrite string_copy_spec by lia|].
      destruct (remote_value b') as [r|]; simpl in *; [by rewrite string_copy_spec by lia|unfold slen in *; simpl in *; lia]. }
    assert (List.length (take (Z.to_nat n) (drop (Z.to_nat offset) (served b'))) = Z.to_nat n) as Htl.
    { rewrite length_take, length_drop. unfold slen in *. lia. }
    apply Hdone.
    + unfold slen in *. rewrite length_app, Htl, length_drop. lia.
    + intros j Hj. destruct (decide (Z.of_nat j < n)) as [Hjn|Hjn].
      * rewrite lookup_app_l by lia. rewrite lookup_take_lt, lookup_drop, content_lookup, decide_True by lia.
        destruct (lookup_lt_is_Some_2 (served b') (Z.to_nat offset + j)) as [x ->]; [unfold slen in *; lia|done].
      * rewrite lookup_app_r, Htl, lookup_drop by lia. rewrite content_lookup, decide_False by lia.
        rewrite Hbz by lia. apply lookup_replicate_2. lia.
  - apply Hdone; [done|]. intros j Hj. rewrite content_lookup, decide_False by lia. rewrite Hbz by lia.
    apply lookup_replicate_2. lia.
Qed.

Lemma block_read_witness :
  exists b' w' out, read (Some (replicate 4 "?"%char)) 4 4 (example_block, MapCluster.mkState ∅ 5) = (Ret out, (b', w')) /\ slen out = 4.
Proof.
  destruct (block_read example_block (MapCluster.mkState ∅ 5) (replicate 4 "?"%char) 4 4) as (b' & w' & out & E & _ & _ & Hl & _);
    [|split; [reflexivity|intros [=]]|lia|lia|by vm_compute|by vm_compute|reflexivity|].
  - split; [by vm_compute|by vm_compute|]. repeat constructor; try (by vm_compute). intros _.
    exists (str "0123456789abcdef"). split; [reflexivity|by vm_compute].
  - exists b', w', out. split; [exact E|exact Hl].
Defined.

(** C9: Flushing a block publishes it.  A block with local changes inside its size, on a key that nobody
    removed, is stored by [flush] in at most two attempts: the cluster then holds the content of the
    block under its key and nothing else has changed, the block knows the new version and is clean.  If
    the block was up to date its content is what was stored; if another client had written the key, that
    client's value was merged region by region, local bytes winning where they were written. *)
Theorem block_flush `{ClusterStore W Cl} (b : DataBlock Cl) w l fuel :
  local_value b = Some l -> remote_value b = None -> block_ok (cap b) b -> not_removed b w ->
  updates b <> [] -> Forall (fun u => fst u + snd u <= value_size b) (updates b) ->
  (version b <> None -> is_Some (store (cluster b) w !! key b)) -> (2 <= fuel)%nat ->
  exists b' w', flush fuel (b, w) = (Ret tt, (b', w')) /\ published b w b' w' /\ dirty b' = false /\ merged_or_same b w b'.
Proof.
  intros El Hrm Hok Hnr Hu Hle Hthere Hf. destruct fuel as [|[|fuel]]; [lia..|].
  destruct (refreshes CLIENT_INTERNAL_ERROR b) eqn:Href.
  - destruct (flush_unread b w l (S fuel)) as (b1 & w1 & E & Hp & Hm); try done. by eapply flush_finish.
  - destruct (flush_known b w l fuel) as (b1 & w1 & E & Hp & Hm); try done. by eapply flush_finish.
Qed.

Lemma block_flush_witness :
  let w := MapCluster.mkState {[str "C1:data:f_0000000000" := (9, str "????????")]} 5 in
  exists b' w', flush 2 (example_block, w) = (Ret tt, (b', w')) /\ published example_block w b' w' /\ dirty b' = false /\
    merged_or_same example_block w b'.
Proof.
  intros w. apply (block_flush example_block w (str "0123456789abcdef") 2); try reflexivity.
  - split; [by vm_compute|by vm_compute|]. repeat constructor; try (by vm_compute). intros _.
    exists (str "0123456789abcdef"). split; [reflexivity|by vm_compute].
  - unfold not_removed. vm_compute. intros [=].
  - discriminate.
  - repeat constructor; by vm_compute.
  - intros []. reflexivity.
Defined.

(** ** What blocks do not guarantee *)

(** A truncation of a block that was only read is lost: [flush] writes the remote value back, not cut. *)
Lemma truncation_after_read_is_lost :
  let w := MapCluster.mkState {[str "k" := (1, str "abcdef")]} (10 * ns_per_s) in
  let run := (b ← lift (Ret tt); read (Some (replicate 6 "?"%char)) 0 6;; truncate 2;; flush 2) in
  let b := mkBlock STANDARD tt (str "k") None None None 0 [] 0 in
  let '(o, (b', w')) := run (b, w) in
  o = Ret tt /\ value_size b' = 2 /\ snd <$> MapCluster.contents w' !! str "k" = Some (str "abcdef").
Proof. by vm_compute. Qed.

(** Extending a new block by truncation and reading it dereferences a null pointer. *)
Lemma read_after_extension_crashes :
  let w := MapCluster.mkState ∅ (10 * ns_per_s) in
  let b := mkBlock STANDARD tt (str "k") None None None 0 [] 0 in
  fst ((truncate 4;; read (Some (replicate 4 "?"%char)) 0 4) (b, w)) = UB.
Proof. by vm_compute. Qed.

(** So does reading a flushed block after another client removed the key. *)
Lemma read_after_removal_crashes :
  let w := MapCluster.mkState ∅ (10 * ns_per_s) in
  let b := mkBlock CREATE tt (str "k") None None None 0 [] (10 * ns_per_s) in
  let later := modify (fun p : DataBlock unit * MapCluster.state => (fst p, MapCluster.mkState ∅ (time (snd p) + 10 * ns_per_s))) in
  fst ((write (Some (str "data")) 0 4;; flush 2;; later;; read (Some (replicate 4 "?"%char)) 0 4) (b, w)) = UB.
Proof. by vm_compute. Qed.

(** A block that is re-used for another key serves the bytes of the old one in the holes of the new one. *)
Lemma reassigned_block_leaks_old_data :
  let w := MapCluster.mkState {[str "old" := (1, str "SECRET")]} (10 * ns_per_s) in
  let b := mkBlock STANDARD tt (str "old") None None None 0 [] 0 in
  let '(o, (b', _)) := (read (Some (replicate 6 "?"%char)) 0 6;; reassign tt (str "new") CREATE;; write (Some (str "x")) 5 1) (b, w) in
  o = Ret tt /\ content b' = str "SECREx".
Proof. by vm_compute. Qed.

(** Holes of a new block are filled with the digit zero. *)
Lemma holes_hold_the_digit_zero :
  let w := MapCluster.mkState ∅ (10 * ns_per_s) in
  let b := mkBlock CREATE tt (str "k") None None None 0 [] (10 * ns_per_s) in
  let '(o, (b', _)) := write (Some (str "x")) 3 1 (b, w) in o = Ret tt /\ content b' = str "000x".
Proof. by vm_compute. Qed.
