(* ===== verification/PrefetchOracle.v ===== *)
(** * Predicting the blocks that are read next (src/PrefetchOracle.cc)

    The oracle remembers the block numbers last used and extrapolates the most frequent distance
    between them.  The distances are kept in an [unordered_map], whose iteration order is up to the
    standard library: it is the argument [order], a permutation of the entries. *)

From S2P Require Import Prelude.

Module PrefetchOracle.

Inductive PredictionType := COMPLETE | CONTINUE.

#[export] Instance PredictionType_eq_dec : EqDecision PredictionType.
Proof. solve_decision. Defined.

(** The deques from front to back. *)
Record PrefetchOracle := mkOracle {
  max_prediction : nat;
  sequence_capacity : nat;
  sequence : list Z;
  past_prediction : list Z;
}.

Definition _contains (container : list Z) (number : Z) : bool := existsb (Z.eqb number) container.

Definition new_oracle (max : nat) : PrefetchOracle :=
  mkOracle max (if bool_decide (8 < max)%nat then max + 2 else 10)%nat [] [].

Definition add (number : Z) (o : PrefetchOracle) : PrefetchOracle :=
  if _contains (sequence o) number then o
  else mkOracle (max_prediction o) (sequence_capacity o) (take (sequence_capacity o) (number :: sequence o)) (past_prediction o).

Abbreviation distance_map := (list (Z * list Z)) (only parsing).

(** [distances[d].push_back(x)] *)
Fixpoint push_distance (d x : Z) (m : distance_map) : distance_map :=
  match m with
  | [] => [(d, [x])]
  | (d', xs) :: m' => if d' =? d then (d', xs ++ [x]) :: m' else (d', xs) :: push_distance d x m'
  end.

(** Differences of [int]s: the distances to the next element and to the one after it. *)
Definition push_neighbours (x : Z) (rest : list Z) (m : distance_map) : distance_map :=
  match rest with
  | [] => m
  | [y] => push_distance (i32 (x - y)) x m
  | y :: z :: _ => push_distance (i32 (x - z)) x (push_distance (i32 (x - y)) x m)
  end.

Fixpoint distances (seq : list Z) (m : distance_map) : distance_map :=
  match seq with
  | [] => m
  | x :: seq' => distances seq' (push_neighbours x seq' m)
  end.

(** The loop over the map that keeps the first entry with the most elements. *)
Definition most_frequent_distance (entries : distance_map) : option (Z * list Z) :=
  match entries with
  | [] => None
  | e :: _ => Some (foldl (fun best it => if bool_decide (length (snd best) < length (snd it))%nat then it else best) e entries)
  end.

(** [for (i = 1; i < n + 1; i++)]: at most [length] positive numbers. *)
Definition build_prediction (front d : Z) (n length : nat) : list Z :=
  take length (filter (fun p => 0 < p) ((fun i => i32 (front + Z.of_nat i * d)) <$> seq 1 n)).

Section Predict.
Variable order : distance_map -> distance_map.

Definition predict (length : nat) (type : PredictionType) (o : PrefetchOracle) : outcome (list Z) * PrefetchOracle :=
  let length := Nat.min length (max_prediction o) in
  if bool_decide (List.length (sequence o) < 3)%nat then (Ret [], o) else
  match most_frequent_distance (order (distances (sequence o) [])) with
  | None => (UB, o)
  | Some (d, xs) =>
      if bool_decide (List.length xs < 3 * List.length (sequence o) / 4)%nat then (Ret [], o) else
      match head xs with
      | None => (UB, o)
      | Some front =>
          let prediction := build_prediction front d (List.length xs) length in
          let prediction := match type with
                            | CONTINUE => filter (fun p => _contains (past_prediction o) p = false) prediction
                            | COMPLETE => prediction
                            end in
          (Ret prediction, mkOracle (max_prediction o) (sequence_capacity o) (sequence o)
            (take (sequence_capacity o) (reverse prediction ++ past_prediction o)))
      end
  end.

End Predict.
End PrefetchOracle.
Import PrefetchOracle.

(** ** Lemmas *)

(** The entries of a map of distances are not empty, their keys distinct. *)
Definition map_ok (m : list (Z * list Z)) : Prop := NoDup (fst <$> m) /\ Forall (fun e => snd e <> []) m.

Lemma push_distance_keys d x m k : k ∈ fst <$> push_distance d x m <-> k = d \/ k ∈ fst <$> m.
Proof.
  induction m as [|[d' xs] m IH]; simpl; [set_solver|]. destruct (Z.eqb_spec d' d) as [->|]; simpl; set_solver.
Qed.

Lemma push_distance_ok d x m : map_ok m -> map_ok (push_distance d x m).
Proof.
  intros [Hn Hf]. induction m as [|[d' xs] m IH]; simpl.
  { split; [repeat constructor; set_solver|by repeat constructor]. }
  apply NoDup_cons in Hn as [Hd Hn]. apply Forall_cons in Hf as [Hx Hf].
  destruct (Z.eqb_spec d' d) as [->|Hne].
  - split; [by constructor|]. constructor; [|done]. simpl. by destruct xs.
  - destruct (IH Hn Hf) as [IH1 IH2]. split; [|by constructor]. simpl. constructor; [|done].
    rewrite push_distance_keys. naive_solver.
Qed.

Lemma distances_ok seq m : map_ok m -> map_ok (distances seq m).
Proof.
  revert m. induction seq as [|x seq IH]; intros m Hm; cbn [distances]; [done|]. apply IH.
  unfold push_neighbours. destruct seq as [|y [|z seq]]; auto using push_distance_ok.
Qed.

Lemma push_distance_nonempty d x m : push_distance d x m <> [].
Proof. destruct m as [|[d' xs] m]; simpl; [done|]. by case_match. Qed.

Lemma distances_nonempty x y seq m : distances (x :: y :: seq) m <> [].
Proof.
  assert (forall seq m, m <> [] -> distances seq m <> []) as Hd.
  { clear. induction seq as [|x seq IH]; intros m Hm; cbn [distances]; [done|]. apply IH.
    unfold push_neighbours. destruct seq as [|y [|z seq]]; [done|apply push_distance_nonempty..]. }
  cbn [distances]. apply Hd. unfold push_neighbours at 1. destruct seq as [|z [|]]; apply push_distance_nonempty.
Qed.

(** The loop finds an entry with the most elements. *)
Lemma frequent_distance_spec entries e :
  most_frequent_distance entries = Some e ->
  e ∈ entries /\ forall e', e' ∈ entries -> (length (snd e') <= length (snd e))%nat.
Proof.
  destruct entries as [|e0 entries]; [done|]. unfold most_frequent_distance. intros E.
  assert (forall (l : list (Z * list Z)) best, let r := foldl (fun (best it : Z * list Z) => if bool_decide (length (snd best) < length (snd it))%nat then it else best) best l in
    (r = best \/ r ∈ l) /\ (length (snd best) <= length (snd r))%nat /\
    forall e', e' ∈ l -> (length (snd e') <= length (snd r))%nat) as Hl.
  { induction l as [|it l IH]; intros best r; simpl in *; [split_and!; auto; intros e' []%not_elem_of_nil|].
    subst r. set (b := if bool_decide (length (snd best) < length (snd it))%nat then it else best).
    assert ((b = it \/ b = best) /\ (length (snd best) <= length (snd b))%nat /\ (length (snd it) <= length (snd b))%nat) as (Hb & Hb1 & Hb2).
    { unfold b. destruct (bool_decide_reflect (length (snd best) < length (snd it))%nat); split_and!; auto; lia. }
    destruct (IH b) as (H1 & H2 & H3). split_and!; [|lia|].
    - destruct H1 as [->|]; [|right; by right]. destruct Hb as [->| ->]; [right; by left|by left].
    - intros e' [->|He]%elem_of_cons; [lia|auto]. }
  destruct (Hl (e0 :: entries) e0) as (H1 & _ & H3). set (r := foldl _ _ _) in *. assert (e = r) as -> by congruence.
  split; [destruct H1 as [->|]; [by left|done]|done].
Qed.

Lemma build_prediction_spec front d n len p :
  p ∈ build_prediction front d n len -> 0 < p <= INT_MAX /\ exists i, (1 <= i <= n)%nat /\ p = i32 (front + Z.of_nat i * d).
Proof.
  unfold build_prediction. intros Hp. apply elem_of_take in Hp as (j & Hj & _).
  apply list_elem_of_lookup_2 in Hj. apply list_elem_of_filter in Hj as [Hpos Hin].
  apply list_elem_of_fmap in Hin as (i & -> & Hi%elem_of_seq). split; [|exists i; split; [lia|done]].
  split; [done|]. unfold i32, INT_MAX. pose proof (Z.mod_pos_bound (front + Z.of_nat i * d + 2 ^ 31) (2 ^ 32)). lia.
Qed.

Definition oracle_ok (o : PrefetchOracle) : Prop :=
  NoDup (sequence o) /\ (length (sequence o) <= sequence_capacity o)%nat /\
  (length (past_prediction o) <= sequence_capacity o)%nat /\ (max_prediction o + 2 <= sequence_capacity o)%nat.

Lemma _contains_spec l x : _contains l x = true <-> x ∈ l.
Proof.
  unfold _contains. rewrite existsb_exists. setoid_rewrite <- list_elem_of_In. split.
  - intros (y & Hy & E). by apply Z.eqb_eq in E as ->.
  - intros Hx. exists x. split; [done|]. apply Z.eqb_refl.
Qed.

Lemma new_oracle_ok max : oracle_ok (new_oracle max).
Proof. unfold oracle_ok, new_oracle. simpl. split_and!; [constructor|lia|lia|]. case_bool_decide; lia. Qed.

Lemma add_ok n o : oracle_ok o -> oracle_ok (add n o).
Proof.
  intros (Hn & Hl & Hp & Hm). unfold add. destruct (_contains (sequence o) n) eqn:E; [done|].
  assert (n ∉ sequence o) by (rewrite <- _contains_spec; by rewrite E).
  unfold oracle_ok. simpl. split_and!; try done; [|rewrite length_take; lia].
  eapply sublist_NoDup; [|apply sublist_take]. by constructor.
Qed.

(** ** Properties *)

(** C39: What the oracle predicts.  In every state reached by [add] and [predict] the prediction succeeds,
    whatever the order in which the map of distances is iterated; it has at most as many elements as were
    asked for and as the oracle is configured for, all of them positive block numbers, none from the
    remembered past predictions when it continues; the history stays free of duplicates and within its
    capacity.  A non-empty prediction needs a distance that at least three quarters of the history have,
    and extrapolates its most recent occurrence in steps of this distance. *)
Theorem predict_sound order length type o :
  (forall m, Permutation (order m) m) -> oracle_ok o ->
  exists p o', predict order length type o = (Ret p, o') /\ oracle_ok o' /\ sequence o' = sequence o /\
    (List.length p <= Nat.min length (max_prediction o))%nat /\ Forall (fun x => 0 < x <= INT_MAX) p /\
    (type = CONTINUE -> Forall (fun x => x ∉ past_prediction o) p) /\
    (p <> [] -> exists d xs front, (d, xs) ∈ distances (sequence o) [] /\ head xs = Some front /\
       (3 * List.length (sequence o) / 4 <= List.length xs)%nat /\
       forall x, x ∈ p -> exists i, (1 <= i <= List.length xs)%nat /\ x = i32 (front + Z.of_nat i * d)).
Proof.
  intros Hord Hok. pose proof Hok as (Hn & Hl & Hp & Hm). unfold predict.
  case_bool_decide as H3. { exists [], o. split_and!; try done; simpl; try lia; by constructor. }
  destruct (most_frequent_distance (order (distances (sequence o) []))) as [[d xs]|] eqn:E.
  2: { destruct (order (distances (sequence o) [])) as [|] eqn:Eo; [|done]. exfalso.
       pose proof (Hord (distances (sequence o) [])) as Hperm. rewrite Eo in Hperm. apply Permutation_nil in Hperm.
       destruct (sequence o) as [|x [|y seq]]; simpl in H3; try lia. by apply distances_nonempty in Hperm. }
  apply frequent_distance_spec in E as [Hin _]. rewrite Hord in Hin.
  case_bool_decide as Hconf. { exists [], o. split_and!; try done; simpl; try lia; by constructor. }
  assert (xs <> []) as Hxs.
  { assert (map_ok (distances (sequence o) [])) as [_ Hf] by (apply distances_ok; split; constructor).
    rewrite Forall_forall in Hf. by apply (Hf (d, xs)). }
  destruct xs as [|front xs]; [done|]. cbn [head].
  set (b := build_prediction front d (List.length (front :: xs)) (Nat.min length (max_prediction o))).
  set (p := match type with CONTINUE => _ | COMPLETE => b end).
  assert (forall x, x ∈ p -> x ∈ b) as Hsub.
  { unfold p. destruct type; [done|]. intros x [_ Hx]%list_elem_of_filter. done. }
  assert (List.length p <= Nat.min length (max_prediction o))%nat as Hlen.
  { etrans; [|apply (firstn_le_length (Nat.min length (max_prediction o)) (filter (fun p => 0 < p)
      ((fun i => i32 (front + Z.of_nat i * d)) <$> seq 1 (List.length (front :: xs)))))].
    fold (build_prediction front d (List.length (front :: xs)) (Nat.min length (max_prediction o))). fold b.
    unfold p. destruct type; [done|]. apply length_filter. }
  eexists p, _. split; [done|]. split_and!; try done.
  - unfold oracle_ok. simpl. split_and!; try done. rewrite length_take. lia.
  - apply Forall_forall. intros x Hx%Hsub. by apply build_prediction_spec in Hx as [? _].
  - intros ->. apply Forall_forall. intros x [Hx _]%list_elem_of_filter. rewrite <- _contains_spec. by rewrite Hx.
  - intros _. exists d, (front :: xs), front. split_and!; [done|done|lia|].
    intros x Hx%Hsub. by apply build_prediction_spec in Hx as [_ ?].
Qed.

Definition example_oracle : PrefetchOracle := foldl (fun o n => add n o) (new_oracle 10) [0; 1; 2; 3].

Lemma predict_sound_witness :
  exists p o', predict (fun m => m) 2 CONTINUE example_oracle = (Ret p, o') /\ (List.length p <= 2)%nat.
Proof.
  destruct (predict_sound (fun m => m) 2 CONTINUE example_oracle) as (p & o' & E & _ & _ & Hl & _).
  - intros m. reflexivity.
  - split_and!; [|vm_compute; lia..]. apply (bool_decide_unpack _). by vm_compute.
  - exists p, o'. split; [exact E|]. simpl in Hl. lia.
Defined.

(** A sequential reader gets the next blocks. *)
Example predict_sequential : fst (predict (fun m => m) 2 CONTINUE example_oracle) = Ret [4; 5].
Proof. by vm_compute. Qed.
