(* ===== verification/BackgroundOperationHandler.v ===== *)
(** * The thread pool (src/BackgroundOperationHandler.cc)

    Tasks are queued for worker threads, or run in threads of their own when the queue capacity is
    zero.  The member functions are the atomic sections between acquiring and releasing the queue
    mutex; the threads of the pool and the threads that call [run], [try_run] and
    [changeConfiguration] interleave them, which is the relation [step].  Tasks are values of an
    arbitrary type [T]; what they do is not the pool's business. *)

From S2P Require Import Prelude.

Module BackgroundOperationHandler.
Section Pool.
Context {T : Type}.

Record BackgroundOperationHandler := mkHandler {
  q : list T;
  queue_capacity : nat;
  thread_capacity : nat;
  numthreads : nat;
  shutdown : bool;
}.

(** ** Member functions *)

(** The constructor, with the number of worker threads it starts. *)
Definition new_handler (worker_threads queue_depth : nat) : outcome (BackgroundOperationHandler * nat) :=
  if bool_decide (queue_depth <> 0%nat) then
    if bool_decide (worker_threads = 0%nat) then Throw (system_error invalid_argument)
    else Ret (mkHandler [] queue_depth worker_threads 0 false, worker_threads)
  else Ret (mkHandler [] queue_depth worker_threads 0 false, 0%nat).

(** What a caller's task becomes: queued, handed to a thread of its own, run by the caller, or refused. *)
Inductive accepted := Queued | NewThread | Inline | Refused.

Definition push (function : T) (h : BackgroundOperationHandler) : BackgroundOperationHandler :=
  mkHandler (q h ++ [function]) (queue_capacity h) (thread_capacity h) (numthreads h) (shutdown h).

Definition try_run_noqueue (h : BackgroundOperationHandler) : accepted :=
  if bool_decide (thread_capacity h <= numthreads h)%nat then Refused else NewThread.

Definition run_noqueue (h : BackgroundOperationHandler) : accepted :=
  match try_run_noqueue h with Refused => Inline | a => a end.

Definition run (function : T) (h : BackgroundOperationHandler) : accepted * BackgroundOperationHandler :=
  if bool_decide (queue_capacity h = 0%nat) then (run_noqueue h, h) else (Queued, push function h).

(** After queueing, [run] returns once this holds. *)
Definition run_returns (h : BackgroundOperationHandler) : bool := bool_decide (length (q h) <= queue_capacity h)%nat.

Definition try_run (function : T) (h : BackgroundOperationHandler) : accepted * BackgroundOperationHandler :=
  if bool_decide (queue_capacity h = 0%nat) then (try_run_noqueue h, h)
  else if bool_decide (queue_capacity h <= length (q h))%nat then (Refused, h)
  else (Queued, push function h).

(** [numthreads++] and [numthreads--]. *)
Definition thread_starts (h : BackgroundOperationHandler) : BackgroundOperationHandler :=
  mkHandler (q h) (queue_capacity h) (thread_capacity h) (S (numthreads h)) (shutdown h).
Definition thread_ends (h : BackgroundOperationHandler) : BackgroundOperationHandler :=
  mkHandler (q h) (queue_capacity h) (thread_capacity h) (pred (numthreads h)) (shutdown h).

(** A round of [worker_thread]: it waits, leaves its loop, or takes the task at the front. *)
Inductive worker_round := Waits | Leaves | Takes (function : T) (h : BackgroundOperationHandler).

Definition worker_thread (h : BackgroundOperationHandler) : worker_round :=
  if shutdown h then Leaves else
  match q h with
  | [] => Waits
  | function :: q' => Takes function (mkHandler q' (queue_capacity h) (thread_capacity h) (numthreads h) (shutdown h))
  end.

Definition set_shutdown (b : bool) (h : BackgroundOperationHandler) : BackgroundOperationHandler :=
  mkHandler (q h) (queue_capacity h) (thread_capacity h) (numthreads h) b.

(** [changeConfiguration] stops the workers first when there are too many ... *)
Definition must_stop (worker_threads : nat) (h : BackgroundOperationHandler) : bool :=
  bool_decide (queue_capacity h <> 0%nat) && bool_decide (worker_threads < numthreads h)%nat.

(** ... and then starts those that are missing: the new state and their number. *)
Definition configure (worker_threads queue_depth : nat) (h : BackgroundOperationHandler) : BackgroundOperationHandler * nat :=
  let running := if bool_decide (queue_capacity h <> 0%nat) then numthreads h else 0%nat in
  (mkHandler (q h) queue_depth worker_threads (numthreads h) (shutdown h),
   if bool_decide (queue_depth <> 0%nat) then (worker_threads - running)%nat else 0%nat).

(** ** The threads *)

(** A thread of the pool: created but not yet running, waiting for a task, running one, or gone. *)
Inductive thread :=
  | WorkerCreated | WorkerIdle | WorkerBusy (function : T)
  | TaskCreated (function : T) | TaskRunning (function : T)
  | Gone.

(** Whether the thread is included in [numthreads]. *)
Definition counted (t : thread) : bool :=
  match t with WorkerIdle | WorkerBusy _ | TaskRunning _ => true | _ => false end.

Record system := mkSystem {
  handler : BackgroundOperationHandler;
  threads : list thread;
  (* the tasks queued and the tasks taken from the queue so far, oldest first *)
  queued : list T;
  taken : list T;
}.

Definition set_thread (s : system) (i : nat) (t : thread) (h : BackgroundOperationHandler) : system :=
  mkSystem h (<[i := t]> (threads s)) (queued s) (taken s).

(** The effect of [run] and [try_run] on the system. *)
Definition accept (s : system) (function : T) (r : accepted * BackgroundOperationHandler) : system :=
  match fst r with
  | Queued => mkSystem (snd r) (threads s) (queued s ++ [function]) (taken s)
  | NewThread => mkSystem (snd r) (threads s ++ [TaskCreated function]) (queued s) (taken s)
  | Inline | Refused => mkSystem (snd r) (threads s) (queued s) (taken s)
  end.

Inductive step : system -> system -> Prop :=
  | step_run s function : step s (accept s function (run function (handler s)))
  | step_try_run s function : step s (accept s function (try_run function (handler s)))
  | step_worker_starts s i : threads s !! i = Some WorkerCreated ->
      step s (set_thread s i WorkerIdle (thread_starts (handler s)))
  | step_worker_takes s i function h : threads s !! i = Some WorkerIdle -> worker_thread (handler s) = Takes function h ->
      step s (mkSystem h (<[i := WorkerBusy function]> (threads s)) (queued s) (taken s ++ [function]))
  | step_worker_done s i function : threads s !! i = Some (WorkerBusy function) ->
      step s (set_thread s i WorkerIdle (handler s))
  | step_worker_leaves s i : threads s !! i = Some WorkerIdle -> worker_thread (handler s) = Leaves ->
      step s (set_thread s i Gone (thread_ends (handler s)))
  | step_task_starts s i function : threads s !! i = Some (TaskCreated function) ->
      step s (set_thread s i (TaskRunning function) (thread_starts (handler s)))
  | step_task_done s i function : threads s !! i = Some (TaskRunning function) ->
      step s (set_thread s i Gone (thread_ends (handler s)))
  | step_stop s worker_threads : must_stop worker_threads (handler s) = true ->
      step s (mkSystem (set_shutdown true (handler s)) (threads s) (queued s) (taken s))
  | step_destroy s : step s (mkSystem (set_shutdown true (handler s)) (threads s) (queued s) (taken s))
  | step_restart s : numthreads (handler s) = 0%nat ->
      step s (mkSystem (set_shutdown false (handler s)) (threads s) (queued s) (taken s))
  | step_configure s worker_threads queue_depth : must_stop worker_threads (handler s) = false ->
      step s (mkSystem (fst (configure worker_threads queue_depth (handler s)))
        (threads s ++ replicate (snd (configure worker_threads queue_depth (handler s))) WorkerCreated) (queued s) (taken s)).

Definition initial (h : BackgroundOperationHandler) (workers : nat) : system :=
  mkSystem h (replicate workers WorkerCreated) [] [].

Definition reachable (s : system) : Prop :=
  exists worker_threads queue_depth h n, new_handler worker_threads queue_depth = Ret (h, n) /\ rtc step (initial h n) s.

(** ** Invariants *)

Definition count_threads (ts : list thread) : nat := length (filter (fun t => counted t = true) ts).

Record pool_ok (s : system) : Prop := {
  pool_fifo : queued s = taken s ++ q (handler s);
  pool_threads : numthreads (handler s) = count_threads (threads s);
}.

Lemma count_threads_app l l' : count_threads (l ++ l') = (count_threads l + count_threads l')%nat.
Proof. unfold count_threads. by rewrite filter_app, length_app. Qed.

Lemma count_threads_cons t l : count_threads (t :: l) = ((if counted t then 1 else 0) + count_threads l)%nat.
Proof. unfold count_threads. rewrite filter_cons. case_decide as E; [by rewrite E|]. by destruct (counted t). Qed.

Lemma count_threads_insert l i t t' : l !! i = Some t ->
  (count_threads (<[i := t']> l) + (if counted t then 1 else 0) = count_threads l + (if counted t' then 1 else 0))%nat.
Proof.
  intros Hi. rewrite (insert_take_drop _ _ _ (lookup_lt_Some _ _ _ Hi)).
  rewrite <- (take_drop_middle l i t Hi) at 3. rewrite !count_threads_app, !count_threads_cons. lia.
Qed.

Lemma count_threads_created n : count_threads (replicate n WorkerCreated) = 0%nat.
Proof. induction n as [|n IH]; [done|]. cbn [replicate]. by rewrite count_threads_cons. Qed.

Lemma accept_ok s function r :
  pool_ok s -> (r = run function (handler s) \/ r = try_run function (handler s)) -> pool_ok (accept s function r).
Proof.
  intros [Hf Ht] Hr. unfold run, try_run, run_noqueue, try_run_noqueue in Hr.
  destruct Hr as [->| ->]; repeat case_bool_decide; unfold accept; cbn [fst snd]; split; simpl;
    rewrite ?count_threads_app, ?count_threads_cons, ?Nat.add_0_r, ?Hf, ?app_assoc; auto.
Qed.

Lemma step_ok s s' : step s s' -> pool_ok s -> pool_ok s'.
Proof.
  intros Hs [Hf Ht].
  destruct Hs as [s f|s f|s i Hi|s i f h Hi Hw|s i f Hi|s i Hi Hw|s i f Hi|s i f Hi|s n Hm|s|s Hn|s n d Hm];
    try (apply accept_ok; [by split|by auto]); split; simpl;
    try pose proof (count_threads_insert _ _ _ WorkerIdle Hi); try pose proof (count_threads_insert _ _ _ (WorkerBusy f) Hi);
    try pose proof (count_threads_insert _ _ _ (TaskRunning f) Hi); try pose proof (count_threads_insert _ _ _ Gone Hi);
    simpl in *; try done; try lia.
  - unfold worker_thread in Hw. destruct (shutdown (handler s)), (q (handler s)) eqn:E; simplify_eq. by rewrite Hf, <- app_assoc.
  - unfold worker_thread in Hw. destruct (shutdown (handler s)), (q (handler s)) eqn:E; simplify_eq. simpl. lia.
  - rewrite count_threads_app, count_threads_created. lia.
Qed.

Lemma reachable_ok s : reachable s -> pool_ok s.
Proof.
  intros (n & d & h & k & E & Hr). assert (pool_ok (initial h k)) as Hi.
  { unfold new_handler in E. repeat case_bool_decide; simplify_eq; split; simpl; try done; by rewrite count_threads_created. }
  clear E. induction Hr; eauto using step_ok.
Qed.

End Pool.
End BackgroundOperationHandler.
Import BackgroundOperationHandler.

(** ** Properties *)

(** The pool runs the tasks it queued, each once and in order.  In every state its threads and callers
    can reach, the tasks taken by workers followed by the tasks still waiting are exactly the tasks that
    were queued, oldest first, and [numthreads] counts the threads that are past their first and before
    their last instruction. *)
Theorem pool_runs_tasks_in_order {T : Type} (s : system (T:=T)) :
  reachable s -> queued s = taken s ++ q (handler s) /\ numthreads (handler s) = count_threads (threads s).
Proof. intros Hr. by destruct (reachable_ok s Hr). Qed.

Definition one_task : system (T:=nat) :=
  mkSystem (mkHandler [] 1 1 1 false) [WorkerBusy 7%nat] [7%nat] [7%nat].

Lemma pool_runs_tasks_in_order_witness :
  queued one_task = taken one_task ++ q (handler one_task) /\ numthreads (handler one_task) = count_threads (threads one_task).
Proof.
  apply pool_runs_tasks_in_order. exists 1%nat, 1%nat, (mkHandler [] 1 1 0 false), 1%nat. split; [reflexivity|].
  eapply rtc_l; [apply (step_run _ 7%nat)|]. eapply rtc_l; [eapply (step_worker_starts _ 0); reflexivity|].
  eapply rtc_l; [eapply (step_worker_takes _ 0); reflexivity|]. apply rtc_refl.
Defined.

(** Queueing is bounded.  With a queue, [try_run] refuses a task exactly when the queue is full and
    otherwise leaves it within its capacity, [run] never refuses and returns only once the queue is
    within its capacity; without one, tasks are refused or run by the caller exactly when the thread limit
    is reached.  A task that is refused or run elsewhere does not touch the queue. *)
Theorem pool_bounds {T : Type} (function : T) (h : BackgroundOperationHandler (T:=T)) :
  let '(a, h') := try_run function h in let '(r, h2) := run function h in
  (queue_capacity h <> 0%nat ->
    (a = Refused <-> (queue_capacity h <= length (q h))%nat) /\
    (a = Queued -> q h' = q h ++ [function] /\ (length (q h') <= queue_capacity h)%nat) /\
    r = Queued /\ q h2 = q h ++ [function] /\ (run_returns h2 = true <-> (length (q h2) <= queue_capacity h2)%nat)) /\
  (queue_capacity h = 0%nat ->
    (a = Refused <-> (thread_capacity h <= numthreads h)%nat) /\ (r = Inline <-> (thread_capacity h <= numthreads h)%nat) /\
    r <> Refused) /\
  (a <> Queued -> h' = h) /\ (r <> Queued -> h2 = h).
Proof.
  unfold try_run, run, run_noqueue, try_run_noqueue, run_returns.
  unfold push. repeat case_bool_decide; cbn [q queue_capacity] in *; rewrite ?length_app in *; cbn [length] in *;
    repeat match goal with |- _ /\ _ => split | |- _ -> _ => intro | |- _ <-> _ => split end;
    rewrite ?bool_decide_eq_true in *; first [done | lia | congruence].
Qed.

(** ** What the pool does not guarantee *)

(** The thread limit is not kept: threads that were created but did not run yet are not counted. *)
Lemma thread_limit_exceeded :
  exists s : system (T:=nat), reachable s /\ thread_capacity (handler s) = 1%nat /\ numthreads (handler s) = 2%nat.
Proof.
  exists (mkSystem (mkHandler [] 0 1 2 false) [TaskRunning 1; TaskRunning 2]%nat [] []). split; [|done].
  exists 1%nat, 0%nat, (mkHandler [] 0 1 0 false), 0%nat. split; [done|].
  eapply rtc_l; [apply (step_run _ 1%nat)|]. eapply rtc_l; [apply (step_run _ 2%nat)|].
  eapply rtc_l; [eapply (step_task_starts _ 0); reflexivity|]. eapply rtc_l; [eapply (step_task_starts _ 1); reflexivity|].
  apply rtc_refl.
Qed.
