(* ===== verification/PoolThreads.v ===== *)
(** * The threads of the pool and what they wait for (src/BackgroundOperationHandler.cc)

    [BackgroundOperationHandler] takes the member functions as atomic steps.  Here a pool with a queue is
    modelled down to its mutex and its two condition variables: a notification wakes a thread that
    sleeps at that moment or nobody.  The detailed pool refines the abstract one, tasks that were queued
    are run, and some callers can be left asleep for ever.  Wake-ups without a notification, which the
    language allows but does not promise, are not modelled. *)

From S2P Require Import Prelude BackgroundOperationHandler.
Import BackgroundOperationHandler.

Module PoolThreads.
Section Threads.
Context {T : Type}.
Abbreviation Handler := (BackgroundOperationHandler (T:=T)).

(** A thread in [worker_thread]: not started; at the loop condition; holding the mutex, having found
    the queue empty and no shutdown; asleep on [worker]; with a task, about to notify [controller]; in
    the task; out of the loop; gone. *)
Inductive worker := Begins | Checks | FoundEmpty | Sleeps | Took (function : T) | Runs (function : T) | Stops | Ended.

(** A thread that called [run] (true) or [try_run] and has pushed its task; at the condition of the
    loop at the end of [run]; asleep on [controller]; back. *)
Inductive caller := Pushed (run_called : bool) | Tests | Blocked | Returned.

(** The destructor: not called; at its loop condition; asleep on [controller]; past the loop; with the
    flag set, about to notify; polling [numthreads]; done. *)
Inductive destructor := Unused | DTests | DBlocked | DDrained | DNotifies | DPolls | Destroyed.

Record state := mkState {
  pool : Handler;
  locked : bool;
  workers : list worker;
  callers : list caller;
  dtor : destructor;
  (* the tasks queued and taken so far, oldest first *)
  queued : list T;
  taken : list T;
}.

Definition set_pool (h : Handler) (s : state) : state := mkState h (locked s) (workers s) (callers s) (dtor s) (queued s) (taken s).
Definition set_locked (b : bool) (s : state) : state := mkState (pool s) b (workers s) (callers s) (dtor s) (queued s) (taken s).
Definition set_worker (i : nat) (w : worker) (s : state) : state :=
  mkState (pool s) (locked s) (<[i := w]> (workers s)) (callers s) (dtor s) (queued s) (taken s).
Definition set_caller (i : nat) (c : caller) (s : state) : state :=
  mkState (pool s) (locked s) (workers s) (<[i := c]> (callers s)) (dtor s) (queued s) (taken s).
Definition set_dtor (d : destructor) (s : state) : state := mkState (pool s) (locked s) (workers s) (callers s) d (queued s) (taken s).
Definition add_caller (c : caller) (s : state) : state :=
  mkState (pool s) (locked s) (workers s) (callers s ++ [c]) (dtor s) (queued s) (taken s).
Definition add_queued (function : T) (s : state) : state :=
  mkState (pool s) (locked s) (workers s) (callers s) (dtor s) (queued s ++ [function]) (taken s).
Definition add_taken (function : T) (s : state) : state :=
  mkState (pool s) (locked s) (workers s) (callers s) (dtor s) (queued s) (taken s ++ [function]).

(** [worker.notify_one()] and [controller.notify_one()] wake one of the threads that sleep, if any. *)
Inductive notify_worker (s : state) : state -> Prop :=
  | wakes_worker i : workers s !! i = Some Sleeps -> notify_worker s (set_worker i Checks s)
  | wakes_no_worker : Sleeps ∉ workers s -> notify_worker s s.

Inductive notify_controller (s : state) : state -> Prop :=
  | wakes_caller i : callers s !! i = Some Blocked -> notify_controller s (set_caller i Tests s)
  | wakes_destructor : dtor s = DBlocked -> notify_controller s (set_dtor DTests s)
  | wakes_nobody : Blocked ∉ callers s -> dtor s <> DBlocked -> notify_controller s s.

(** [worker.notify_all()] *)
Definition wake (w : worker) : worker := match w with Sleeps => Checks | _ => w end.
Definition wake_all (s : state) : state :=
  mkState (pool s) (locked s) (wake <$> workers s) (callers s) (dtor s) (queued s) (taken s).

(** What the threads of the pool, the callers of [run] and [try_run] and the destructor do next.  Steps that
    lock the mutex need it free; only a worker can keep it, between its check and its sleep, since
    [shutdown] is not protected by it. *)
Inductive thread_step : state -> state -> Prop :=
  | worker_begins s i : workers s !! i = Some Begins -> thread_step s (set_worker i Checks (set_pool (thread_starts (pool s)) s))
  | worker_finds_empty s i : workers s !! i = Some Checks -> locked s = false -> worker_thread (pool s) = Waits ->
      thread_step s (set_worker i FoundEmpty (set_locked true s))
  | worker_sleeps s i : workers s !! i = Some FoundEmpty -> thread_step s (set_worker i Sleeps (set_locked false s))
  | worker_takes s i function h : workers s !! i = Some Checks -> locked s = false -> worker_thread (pool s) = Takes function h ->
      thread_step s (set_worker i (Took function) (add_taken function (set_pool h s)))
  | worker_sees_shutdown s i : workers s !! i = Some Checks -> locked s = false -> worker_thread (pool s) = Leaves ->
      thread_step s (set_worker i Stops s)
  | worker_notifies s s' i function : workers s !! i = Some (Took function) -> notify_controller s s' ->
      thread_step s (set_worker i (Runs function) s')
  | worker_done s i function : workers s !! i = Some (Runs function) -> thread_step s (set_worker i Checks s)
  | worker_ends s i : workers s !! i = Some Stops -> thread_step s (set_worker i Ended (set_pool (thread_ends (pool s)) s))
  | caller_notifies s s' i (b : bool) : callers s !! i = Some (Pushed b) -> notify_worker s s' ->
      thread_step s (set_caller i (if b then Tests else Returned) s')
  | caller_tests s i : callers s !! i = Some Tests -> locked s = false ->
      thread_step s (set_caller i (if run_returns (pool s) then Returned else Blocked) s)
  | destructor_tests s : dtor s = DTests -> locked s = false ->
      thread_step s (set_dtor (match q (pool s) with [] => DDrained | _ => DBlocked end) s)
  | destructor_sets_flag s : dtor s = DDrained -> thread_step s (set_dtor DNotifies (set_pool (set_shutdown true (pool s)) s))
  | destructor_notifies s : dtor s = DNotifies -> thread_step s (set_dtor DPolls (wake_all s))
  | destructor_ends s : dtor s = DPolls -> numthreads (pool s) = 0%nat -> thread_step s (set_dtor Destroyed s).

(** Calls from outside; none is made while the pool is destroyed. *)
Inductive call : state -> state -> Prop :=
  | call_run s function h : dtor s = Unused -> locked s = false -> run function (pool s) = (Queued, h) ->
      call s (add_caller (Pushed true) (add_queued function (set_pool h s)))
  | call_try_run s function h : dtor s = Unused -> locked s = false -> try_run function (pool s) = (Queued, h) ->
      call s (add_caller (Pushed false) (add_queued function (set_pool h s)))
  | call_try_run_refused s function h : dtor s = Unused -> locked s = false -> try_run function (pool s) = (Refused, h) ->
      call s (add_caller Returned s)
  | call_destroy s : dtor s = Unused -> call s (set_dtor DTests s).

Definition step (s s' : state) : Prop := thread_step s s' \/ call s s'.

Definition initial (h : Handler) (n : nat) : state := mkState h false (replicate n Begins) [] Unused [] [].

Definition reachable (s : state) : Prop :=
  exists worker_threads queue_depth h n, queue_depth <> 0%nat /\ new_handler worker_threads queue_depth = Ret (h, n) /\
    rtc step (initial h n) s.

(** The threads as [BackgroundOperationHandler] sees them. *)
Definition thread_of (w : worker) : thread (T:=T) :=
  match w with
  | Begins => WorkerCreated
  | Checks | FoundEmpty | Sleeps | Stops => WorkerIdle
  | Took f | Runs f => WorkerBusy f
  | Ended => Gone
  end.

Definition abstract (s : state) : system (T:=T) := mkSystem (pool s) (thread_of <$> workers s) (queued s) (taken s).

End Threads.
Arguments worker : clear implicits.
Arguments state : clear implicits.
End PoolThreads.
Import PoolThreads.

(** ** Lists of threads *)

Lemma sum_insert {A} (f : A -> nat) l i x y : l !! i = Some x ->
  (sum_list_with f (<[i := y]> l) + f x = sum_list_with f l + f y)%nat.
Proof.
  intros Hi. rewrite (insert_take_drop _ _ _ (lookup_lt_Some _ _ _ Hi)).
  rewrite <- (take_drop_middle l i x Hi) at 3. rewrite !sum_list_with_app. simpl. lia.
Qed.

Lemma sum_pos {A} (f : A -> nat) l i x : l !! i = Some x -> (f x <= sum_list_with f l)%nat.
Proof. intros Hi. rewrite <- (take_drop_middle l i x Hi), sum_list_with_app. simpl. lia. Qed.

Lemma exists_new {A} (P : A -> Prop) l i x y : l !! i = Some x -> P y -> Exists P (<[i := y]> l).
Proof. intros Hi Hy. apply Exists_exists. exists y. split; [|done]. apply list_elem_of_lookup. exists i. apply list_lookup_insert_eq. by eapply lookup_lt_Some. Qed.

Lemma exists_old {A} (P : A -> Prop) l i x y : l !! i = Some x -> ~ P x -> Exists P l -> Exists P (<[i := y]> l).
Proof.
  intros Hi Hx (z & (j & Hj)%list_elem_of_lookup & Hz)%Exists_exists. apply Exists_exists. exists z. split; [|done].
  apply list_elem_of_lookup. exists j. rewrite list_lookup_insert_ne; [done|]. intros ->. congruence.
Qed.

Section Threads.
Context {T : Type}.
Implicit Types (s : state T) (w : worker T).
Abbreviation Handler := (BackgroundOperationHandler (T:=T)).

Definition seen_empty w : nat := match w with FoundEmpty => 1 | _ => 0 end.
Definition awake w : Prop := w <> Sleeps.
Definition at_work w : Prop := w <> Stops /\ w <> Ended.
Definition about_to_notify (c : caller) : Prop := exists b, c = Pushed b.

(** *** Notifications *)

Lemma notify_worker_cases s s' : notify_worker s s' ->
  (exists i, workers s !! i = Some Sleeps /\ s' = set_worker i Checks s) \/ (Sleeps ∉ workers s /\ s' = s).
Proof. destruct 1; eauto. Qed.

Lemma notify_controller_cases s s' : notify_controller s s' ->
  (exists i, callers s !! i = Some Blocked /\ s' = set_caller i Tests s) \/ (dtor s = DBlocked /\ s' = set_dtor DTests s) \/ s' = s.
Proof. destruct 1; eauto. Qed.

#[local] Instance sleeps_dec w : Decision (w = Sleeps).
Proof. by destruct w; (left + right). Defined.

#[local] Instance found_empty_dec w : Decision (w = FoundEmpty).
Proof. by destruct w; (left + right). Defined.

#[local] Instance blocked_dec (c : caller) : Decision (c = Blocked).
Proof. by destruct c; (left + right). Defined.

Lemma find_or_absent {A} (x : A) `{!forall y, Decision (y = x)} (l : list A) : (exists i, l !! i = Some x) \/ x ∉ l.
Proof.
  destruct (decide (Exists (fun y => y = x) l)) as [He|He].
  - apply Exists_exists in He as (y & Hy%list_elem_of_lookup & ->). by left.
  - right. intros Hin. apply He, Exists_exists. by exists x.
Qed.

Lemma notify_worker_total s : exists s', notify_worker s s'.
Proof.
  destruct (find_or_absent Sleeps (workers s)) as [[i Hi]|Hn]; eexists; [by eapply wakes_worker|by apply wakes_no_worker].
Qed.

Lemma notify_controller_total s : exists s', notify_controller s s'.
Proof.
  destruct (find_or_absent Blocked (callers s)) as [[i Hi]|Hn]; [eexists; by eapply wakes_caller|].
  assert (dtor s = DBlocked \/ dtor s <> DBlocked) as [Hd|Hd] by (destruct (dtor s); auto); eexists; [by apply wakes_destructor|by apply wakes_nobody].
Qed.

(** ** The invariant *)

Record pool_inv s : Prop := {
  pi_capacity : queue_capacity (pool s) <> 0%nat;
  pi_workers : workers s <> [];
  pi_locked : sum_list_with seen_empty (workers s) = (if locked s then 1 else 0)%nat;
  pi_empty : locked s = true -> q (pool s) = [];
  pi_running : shutdown (pool s) = false -> Forall at_work (workers s);
  pi_shutdown : shutdown (pool s) = match dtor s with DNotifies | DPolls | Destroyed => true | _ => false end;
  pi_drained : match dtor s with DDrained | DNotifies | DPolls | Destroyed => q (pool s) = [] | _ => True end;
  pi_awake : q (pool s) <> [] -> Exists awake (workers s) \/ Exists about_to_notify (callers s);
}.

(** A worker that goes on to something other than its sleep. *)
Lemma set_worker_inv s i w w' : pool_inv s -> workers s !! i = Some w -> seen_empty w = seen_empty w' -> awake w' ->
  (shutdown (pool s) = false -> at_work w') -> pool_inv (set_worker i w' s).
Proof.
  intros [Hc Hw Hl He Hr Hs Hd Ha] Hi Hse Haw Hat. split; simpl; auto.
  - by destruct (workers s), i.
  - pose proof (sum_insert seen_empty _ i w w' Hi). lia.
  - intros Hf. apply Forall_insert; auto.
  - intros _. left. by eapply exists_new.
Qed.

Lemma set_caller_inv s i c c' : pool_inv s -> callers s !! i = Some c -> ~ about_to_notify c -> pool_inv (set_caller i c' s).
Proof. intros [Hc Hw Hl He Hr Hs Hd Ha] Hi Hn. split; simpl; auto. intros Hq. destruct (Ha Hq); [by left|right]. by eapply exists_old. Qed.

Lemma notify_controller_inv s s' : pool_inv s -> notify_controller s s' -> pool_inv s'.
Proof.
  intros Hi [(i & Hc & ->)|[[Hd ->]| ->]]%notify_controller_cases; [|by destruct Hi; split; simpl in *; rewrite Hd in *|done].
  eapply set_caller_inv; [done..|]. by intros [? [=]].
Qed.

Lemma notify_worker_inv s s' : pool_inv s -> notify_worker s s' -> pool_inv s' /\ Exists awake (workers s').
Proof.
  intros Hp [(i & Hi & ->)|[Hn ->]]%notify_worker_cases.
  - split; [|by eapply exists_new]. by eapply set_worker_inv.
  - split; [done|]. pose proof (pi_workers s Hp). destruct (workers s) as [|w ws]; [done|]. left. intros ->. apply Hn. by left.
Qed.

Lemma begin_inv s : pool_inv s -> pool_inv (set_pool (thread_starts (pool s)) s).
Proof. by intros [Hc Hw Hl He Hr Hs Hd Ha]. Qed.

Lemma end_inv s : pool_inv s -> pool_inv (set_pool (thread_ends (pool s)) s).
Proof. by intros [Hc Hw Hl He Hr Hs Hd Ha]. Qed.

(** Pushing a task with a caller that will notify. *)
Lemma push_inv s b function h : pool_inv s -> dtor s = Unused -> locked s = false ->
  h = push function (pool s) -> pool_inv (add_caller (Pushed b) (add_queued function (set_pool h s))).
Proof.
  intros [Hc Hw Hl He Hr Hs Hd Ha] Hu Hf ->. rewrite Hf, Hu in *. split; simpl; rewrite ?Hf, ?Hu; auto; [done|].
  intros _. right. apply Exists_app. right. left. by exists b.
Qed.

Lemma run_queued function (h h' : Handler) : queue_capacity h <> 0%nat -> run function h = (Queued, h') -> h' = push function h.
Proof. intros Hc. unfold run. rewrite bool_decide_eq_false_2 by done. by intros [= <-]. Qed.

Lemma try_run_queued function (h h' : Handler) : queue_capacity h <> 0%nat -> try_run function h = (Queued, h') -> h' = push function h.
Proof. intros Hc. unfold try_run. rewrite bool_decide_eq_false_2 by done. case_bool_decide; [done|]. by intros [= <-]. Qed.

Lemma call_inv s s' : call s s' -> pool_inv s -> pool_inv s'.
Proof.
  intros Hcall Hi. pose proof (pi_capacity s Hi) as Hc. destruct Hcall as [s f h Hu Hl E|s f h Hu Hl E|s f h Hu Hl E|s Hu].
  - apply push_inv; eauto using run_queued.
  - apply push_inv; eauto using try_run_queued.
  - destruct Hi as [? ? ? ? ? ? ? Ha]. split; simpl; auto. intros Hq. destruct (Ha Hq); [by left|right]. apply Exists_app. by left.
  - destruct Hi as [? ? ? ? ? Hs Hd ?]. rewrite Hu in *. by split.
Qed.

Lemma worker_thread_cases (h : Handler) :
  match worker_thread h with
  | Waits => shutdown h = false /\ q h = []
  | Leaves => shutdown h = true
  | Takes f h' => shutdown h = false /\ q h = f :: q h' /\ queue_capacity h' = queue_capacity h /\ shutdown h' = false /\
      numthreads h' = numthreads h
  end.
Proof. unfold worker_thread. destruct (shutdown h) eqn:Es; [done|]. by destruct (q h) eqn:Eq. Qed.

Lemma thread_step_inv s s' : thread_step s s' -> pool_inv s -> pool_inv s'.
Proof.
  intros Hstep Hi. destruct Hstep as [s i Hw|s i Hw Hl E|s i Hw|s i f h Hw Hl E|s i Hw Hl E|s s' i f Hw Hn|s i f Hw|s i Hw
    |s s' i b Hc Hn|s i Hc Hl|s Hd Hl|s Hd|s Hd|s Hd Hz].
  - by apply (set_worker_inv _ i Begins); [apply begin_inv|..].
  - pose proof (worker_thread_cases (pool s)) as Hwt. rewrite E in Hwt. destruct Hwt as [Hsh Hq], Hi as [Hc Hws Hlk He Hr Hs Hd Ha].
    pose proof (sum_insert seen_empty _ i _ FoundEmpty Hw) as Hsum. rewrite Hl in Hlk. split; simpl in *; auto; try lia.
    + by destruct (workers s), i.
    + intros _. apply Forall_insert; [auto|done].
    + done.
  - destruct Hi as [Hc Hws Hlk He Hr Hs Hd Ha]. pose proof (sum_insert seen_empty _ i _ Sleeps Hw) as Hsum.
    pose proof (sum_pos seen_empty _ i _ Hw) as Hp. destruct (locked s) eqn:El; simpl in *; [|lia].
    split; simpl in *; auto; try lia.
    + by destruct (workers s), i.
    + intros Hf. apply Forall_insert; [auto|done].
    + intros Hq. by rewrite He in Hq.
  - pose proof (worker_thread_cases (pool s)) as Hwt. rewrite E in Hwt. destruct Hwt as (Hsh & Hq & Hcap & Hsh' & _).
    apply (set_worker_inv _ i Checks); [|done..]. destruct Hi as [Hc Hws Hlk He Hr Hs Hd Ha].
    rewrite Hl, Hsh in *. split; simpl; rewrite ?Hl, ?Hsh'; auto; try congruence.
    + destruct (dtor s); congruence.
    + intros _. left. apply Exists_exists. exists Checks. split; [|done]. apply list_elem_of_lookup. eauto.
  - pose proof (worker_thread_cases (pool s)) as Hwt. rewrite E in Hwt. apply (set_worker_inv _ i Checks); [done..|].
    by rewrite Hwt.
  - assert (workers s' = workers s) as Ew by by destruct Hn. apply (set_worker_inv _ i (Took f)); [|by rewrite Ew|done..].
    by eapply notify_controller_inv.
  - by apply (set_worker_inv _ i (Runs f)).
  - apply (set_worker_inv _ i Stops); [by apply end_inv|done..|]. simpl. intros Hf.
    pose proof (pi_running s Hi Hf) as Hr. rewrite Forall_lookup in Hr. by destruct (Hr i _ Hw).
  - destruct (notify_worker_inv s s' Hi Hn) as [Hi' He]. destruct Hi' as [? ? ? ? ? ? ? ?]. split; simpl; auto.
  - apply (set_caller_inv _ i Tests); [done..|]. by intros [? [=]].
  - destruct Hi as [Hc Hws Hlk He Hr Hs Hdr Ha]. rewrite Hd in *. split; simpl; auto; by destruct (q (pool s)).
  - destruct Hi as [Hc Hws Hlk He Hr Hs Hdr Ha]. rewrite Hd in *. by split.
  - destruct Hi as [Hc Hws Hlk He Hr Hs Hdr Ha]. rewrite Hd in *. split; simpl; auto.
    + by destruct (workers s).
    + rewrite <- Hlk. clear. induction (workers s) as [|[] ws IH]; csimpl; congruence.
    + by rewrite Hs.
    + by rewrite Hdr.
  - destruct Hi as [Hc Hws Hlk He Hr Hs Hdr Ha]. rewrite Hd in *. by split.
Qed.

Lemma step_inv s s' : step s s' -> pool_inv s -> pool_inv s'.
Proof. intros [Hs|Hc]; [by apply thread_step_inv|by apply call_inv]. Qed.

Lemma initial_inv worker_threads queue_depth (h : Handler) n : queue_depth <> 0%nat ->
  new_handler worker_threads queue_depth = Ret (h, n) -> pool_inv (initial h n).
Proof.
  intros Hq. unfold new_handler. rewrite bool_decide_eq_true_2 by done. case_bool_decide; [done|]. intros [= <- <-].
  split; simpl; auto; try done.
  - by destruct worker_threads.
  - induction worker_threads as [|k IH]; [done|]. destruct k; [done|]. by apply IH.
  - intros _. apply Forall_replicate. done.
Qed.

Lemma reachable_inv s : reachable s -> pool_inv s.
Proof. intros (n & d & h & k & Hd & E & Hr). pose proof (initial_inv n d h k Hd E) as Hi. induction Hr; eauto using step_inv. Qed.

(** ** Refinement *)

Lemma abstract_set_worker s i w w' : workers s !! i = Some w -> thread_of w = thread_of w' -> abstract (set_worker i w' s) = abstract s.
Proof.
  intros Hi E. unfold abstract. simpl. f_equal. rewrite list_fmap_insert, <- E. apply list_insert_id. by rewrite list_lookup_fmap, Hi.
Qed.

Lemma abstract_wake_all s : abstract (wake_all s) = abstract s.
Proof. unfold abstract. simpl. f_equal. rewrite <- list_fmap_compose. apply list_fmap_ext. by intros ? [] _. Qed.

Lemma abstract_notify s s' : notify_worker s s' \/ notify_controller s s' -> abstract s' = abstract s.
Proof. intros [[(i & Hi & ->)|[_ ->]]%notify_worker_cases|Hn]; [by eapply abstract_set_worker|done|by destruct Hn]. Qed.

Lemma thread_lookup s i w : workers s !! i = Some w -> threads (abstract s) !! i = Some (thread_of w).
Proof. intros Hi. simpl. by rewrite list_lookup_fmap, Hi. Qed.

(** Every step is one of the abstract pool, or none. *)
Definition simulates s s' : Prop := abstract s' = abstract s \/ BackgroundOperationHandler.step (abstract s) (abstract s').

Lemma call_simulates s s' : call s s' -> simulates s s'.
Proof.
  destruct 1 as [s f h Hu Hl E|s f h Hu Hl E|s f h Hu Hl E|s Hu]; [right|right|left|by left].
  - pose proof (step_run (abstract s) f) as Hr. unfold accept in Hr. simpl in Hr. rewrite E in Hr. exact Hr.
  - pose proof (step_try_run (abstract s) f) as Hr. unfold accept in Hr. simpl in Hr. rewrite E in Hr. exact Hr.
  - done.
Qed.

(** What a worker does, seen from the abstract pool. *)
Lemma worker_simulates s i w w' s' : workers s !! i = Some w -> workers s' = workers s ->
  BackgroundOperationHandler.step (abstract s) (mkSystem (pool s') (<[i := thread_of w']> (threads (abstract s))) (queued s') (taken s')) ->
  simulates s (set_worker i w' s').
Proof. intros Hi Ew Hstep. right. unfold abstract, set_worker in *. simpl in *. by rewrite Ew, list_fmap_insert. Qed.

Lemma thread_simulates s s' : pool_inv s -> thread_step s s' -> simulates s s'.
Proof.
  intros Hp Hs. destruct Hs as [s i Hw|s i Hw Hl E|s i Hw|s i f h Hw Hl E|s i Hw Hl E|s s' i f Hw Hn|s i f Hw|s i Hw
    |s s' i b Hc Hn|s i Hc Hl|s Hd Hl|s Hd|s Hd|s Hd Hz];
    try (by left); try (left; by eapply (abstract_set_worker (set_locked _ _))); try (left; by eapply abstract_set_worker);
    try (pose proof (thread_lookup s i _ Hw) as Ht).
  - eapply worker_simulates; [done..|]. by apply (step_worker_starts (abstract s)).
  - eapply worker_simulates; [done..|]. by apply (step_worker_takes (abstract s)).
  - assert (workers s' = workers s) as Ew by by destruct Hn.
    left. rewrite (abstract_set_worker s' i (Took f)) by (by rewrite ?Ew). apply abstract_notify. by right.
  - eapply worker_simulates; [done..|]. by apply (step_worker_done (abstract s) i f).
  - eapply worker_simulates; [done..|]. apply (step_worker_leaves (abstract s)); [done|].
    unfold worker_thread. simpl. destruct (shutdown (pool s)) eqn:Es; [done|].
    pose proof (pi_running s Hp Es) as Hr. rewrite Forall_lookup in Hr. by destruct (Hr i _ Hw).
  - left. transitivity (abstract s'); [done|]. apply abstract_notify. by left.
  - right. apply step_destroy.
  - left. apply abstract_wake_all.
Qed.

Lemma refines s s' : pool_inv s -> step s s' -> simulates s s'.
Proof. intros Hp [Hs|Hs]; [by apply thread_simulates|by apply call_simulates]. Qed.

Lemma abstract_initial (h : Handler) n : abstract (initial h n) = BackgroundOperationHandler.initial h n.
Proof. unfold abstract, BackgroundOperationHandler.initial. simpl. by rewrite fmap_replicate. Qed.

Lemma reachable_abstract s : reachable s -> BackgroundOperationHandler.reachable (abstract s).
Proof.
  intros (n & d & h & k & Hd & E & Hr). exists n, d, h, k. split; [done|]. rewrite <- abstract_initial.
  pose proof (initial_inv n d h k Hd E) as Hi. clear E. induction Hr as [s|s s1 s2 H1 Hr IH]; [done|].
  specialize (IH (step_inv _ _ H1 Hi)). destruct (refines _ _ Hi H1) as [Ea|Ha]; [by rewrite <- Ea|by eapply rtc_l].
Qed.

(** ** Termination *)

Definition worker_work w : nat :=
  match w with Begins => 3 | Checks => 2 | FoundEmpty => 1 | Sleeps => 0 | Took _ => 5 | Runs _ => 3 | Stops => 1 | Ended => 0 end.
Definition caller_work (c : caller) : nat := match c with Pushed _ => 4 | Tests => 1 | _ => 0 end.
Definition destructor_work (n : nat) (d : destructor) : nat :=
  match d with
  | DTests => 2 * n + 5 | DBlocked => 2 * n + 4 | DDrained => 2 * n + 3 | DNotifies => 2 * n + 2 | DPolls => 1 | Unused | Destroyed => 0
  end.

(** Bounds the steps the threads can still make by themselves. *)
Definition work_left s : nat :=
  4 * length (q (pool s)) + sum_list_with worker_work (workers s) + sum_list_with caller_work (callers s) +
  destructor_work (length (workers s)) (dtor s).

Lemma work_set_worker s i w w' : workers s !! i = Some w ->
  (work_left (set_worker i w' s) + worker_work w = work_left s + worker_work w')%nat.
Proof. intros Hi. unfold work_left. simpl. rewrite length_insert. pose proof (sum_insert worker_work _ i w w' Hi). lia. Qed.

Lemma work_set_caller s i c c' : callers s !! i = Some c ->
  (work_left (set_caller i c' s) + caller_work c = work_left s + caller_work c')%nat.
Proof. intros Hi. unfold work_left. simpl. pose proof (sum_insert caller_work _ i c c' Hi). lia. Qed.

Lemma work_notify_worker s s' : notify_worker s s' -> (work_left s' <= work_left s + 2)%nat.
Proof. intros [(i & Hi & ->)|[_ ->]]%notify_worker_cases; [|lia]. pose proof (work_set_worker s i _ Checks Hi). simpl in *. lia. Qed.

Lemma work_notify_controller s s' : notify_controller s s' -> (work_left s' <= work_left s + 1)%nat.
Proof.
  intros [(i & Hi & ->)|[[Hd ->]| ->]]%notify_controller_cases; [| |lia].
  - pose proof (work_set_caller s i _ Tests Hi). simpl in *. lia.
  - unfold work_left. simpl. rewrite Hd. simpl. lia.
Qed.

Lemma work_wake_all s : (work_left (wake_all s) <= work_left s + 2 * length (workers s))%nat.
Proof.
  unfold work_left. simpl. rewrite length_fmap.
  assert (sum_list_with worker_work (wake <$> workers s) <= sum_list_with worker_work (workers s) + 2 * length (workers s))%nat; [|lia].
  induction (workers s) as [|[] ws IH]; csimpl; lia.
Qed.

Lemma worker_decreases s0 s i w w' : workers s0 !! i = Some w ->
  (work_left s0 + worker_work w' < work_left s + worker_work w)%nat -> (work_left (set_worker i w' s0) < work_left s)%nat.
Proof. intros Hi. pose proof (work_set_worker s0 i w w' Hi). lia. Qed.

Lemma caller_decreases s0 s i c c' : callers s0 !! i = Some c ->
  (work_left s0 + caller_work c' < work_left s + caller_work c)%nat -> (work_left (set_caller i c' s0) < work_left s)%nat.
Proof. intros Hi. pose proof (work_set_caller s0 i c c' Hi). lia. Qed.

Lemma destructor_decreases d s0 s :
  (work_left s0 + destructor_work (length (workers s0)) d < work_left s + destructor_work (length (workers s0)) (dtor s0))%nat ->
  (work_left (set_dtor d s0) < work_left s)%nat.
Proof. unfold work_left at 1 3. simpl. lia. Qed.

Lemma work_decreases s s' : thread_step s s' -> (work_left s' < work_left s)%nat.
Proof.
  destruct 1 as [s i Hw|s i Hw Hl E|s i Hw|s i f h Hw Hl E|s i Hw Hl E|s s' i f Hw Hn|s i f Hw|s i Hw|s s' i b Hc Hn|s i Hc Hl
    |s Hd Hl|s Hd|s Hd|s Hd Hz].
  - eapply worker_decreases; [exact Hw|]. change (work_left (set_pool _ s)) with (work_left s). simpl. lia.
  - eapply worker_decreases; [exact Hw|]. change (work_left (set_locked _ s)) with (work_left s). simpl. lia.
  - eapply worker_decreases; [exact Hw|]. change (work_left (set_locked _ s)) with (work_left s). simpl. lia.
  - eapply worker_decreases; [exact Hw|]. pose proof (worker_thread_cases (pool s)) as Hwt. rewrite E in Hwt.
    destruct Hwt as (_ & Hq & _). unfold work_left. simpl. rewrite Hq. simpl. lia.
  - eapply worker_decreases; [exact Hw|]. simpl. lia.
  - assert (workers s' = workers s) as Ew by by destruct Hn. pose proof (work_notify_controller s s' Hn).
    eapply worker_decreases; [by rewrite Ew|]. simpl. lia.
  - eapply worker_decreases; [exact Hw|]. simpl. lia.
  - eapply worker_decreases; [exact Hw|]. change (work_left (set_pool _ s)) with (work_left s). simpl. lia.
  - assert (callers s' = callers s) as Ec by by destruct Hn. pose proof (work_notify_worker s s' Hn).
    eapply caller_decreases; [by rewrite Ec|]. destruct b; simpl; lia.
  - eapply caller_decreases; [exact Hc|]. destruct (run_returns (pool s)); simpl; lia.
  - apply destructor_decreases. rewrite Hd. destruct (q (pool s)); simpl; lia.
  - apply destructor_decreases. simpl. rewrite Hd. simpl. change (work_left (set_pool _ s)) with (work_left s). lia.
  - apply destructor_decreases. pose proof (work_wake_all s). simpl. rewrite length_fmap, Hd. simpl. lia.
  - apply destructor_decreases. rewrite Hd. simpl. lia.
Qed.

Lemma thread_steps_end s : Acc (flip thread_step) s.
Proof.
  remember (work_left s) as n eqn:E. revert s E. induction (lt_wf n) as [n _ IH]. intros s ->. constructor. intros s' Hs.
  by eapply IH; [apply work_decreases|].
Qed.

(** ** Progress *)

(** The threads rest: none of them can go on by itself. *)
Definition resting s : Prop := forall s', ~ thread_step s s'.

Lemma resting_worker s i w : pool_inv s -> resting s -> shutdown (pool s) = false -> workers s !! i = Some w -> w = Sleeps.
Proof.
  intros Hp Hrest Hf Hi.
  assert (locked s = false) as Hl.
  { destruct (locked s) eqn:El; [|done]. exfalso. pose proof (pi_locked s Hp) as Hs. rewrite El in Hs.
    destruct (find_or_absent FoundEmpty (workers s)) as [[j Hj]|Hn]; [by apply (Hrest _ (worker_sleeps s j Hj))|].
    revert Hs Hn. clear. induction (workers s) as [|w ws IH]; simpl; [done|]. intros Hs Hn.
    rewrite not_elem_of_cons in Hn. destruct Hn as [Hw Hn]. destruct w; simpl in *; auto. }
  pose proof (pi_running s Hp Hf) as Hr. rewrite Forall_lookup in Hr. destruct w; try done; exfalso.
  - by apply (Hrest _ (worker_begins s i Hi)).
  - destruct (worker_thread (pool s)) as [| |f h] eqn:E.
    + by apply (Hrest _ (worker_finds_empty s i Hi Hl E)).
    + by apply (Hrest _ (worker_sees_shutdown s i Hi Hl E)).
    + by apply (Hrest _ (worker_takes s i f h Hi Hl E)).
  - by apply (Hrest _ (worker_sleeps s i Hi)).
  - destruct (notify_controller_total s) as [s' Hn]. by apply (Hrest _ (worker_notifies s s' i function Hi Hn)).
  - by apply (Hrest _ (worker_done s i function Hi)).
  - by destruct (Hr i _ Hi).
  - by destruct (Hr i _ Hi).
Qed.

Lemma resting_unlocked s : pool_inv s -> Forall (fun w => w = Sleeps) (workers s) -> locked s = false.
Proof.
  intros Hp Hs. pose proof (pi_locked s Hp) as Hl. destruct (locked s); [|done]. exfalso. revert Hl.
  induction Hs as [|w ws -> Hs IH]; simpl in *; [done|]. by apply IH.
Qed.

Lemma resting_caller s i c : locked s = false -> resting s -> callers s !! i = Some c -> c = Blocked \/ c = Returned.
Proof.
  intros Hl Hrest Hi. destruct c as [b| | |]; auto; exfalso.
  - destruct (notify_worker_total s) as [s' Hn]. by apply (Hrest _ (caller_notifies s s' i b Hi Hn)).
  - by apply (Hrest _ (caller_tests s i Hi Hl)).
Qed.

(** Once the threads rest, everything that was queued has been run. *)
Lemma resting_drained s : pool_inv s -> resting s -> dtor s = Unused ->
  Forall (fun w => w = Sleeps) (workers s) /\ Forall (fun c => c = Blocked \/ c = Returned) (callers s) /\ q (pool s) = [].
Proof.
  intros Hp Hrest Hu. assert (shutdown (pool s) = false) as Hf by (rewrite (pi_shutdown s Hp), Hu; done).
  assert (Forall (fun w => w = Sleeps) (workers s)) as Hw by (apply Forall_lookup; eauto using resting_worker).
  assert (Forall (fun c => c = Blocked \/ c = Returned) (callers s)) as Hc.
  { apply Forall_lookup. intros i c. apply resting_caller; [by apply resting_unlocked|done]. }
  split_and!; [done..|]. destruct (q (pool s)) as [|f q'] eqn:Eq; [done|]. exfalso.
  destruct (pi_awake s Hp) as [Ha|Ha]; [by rewrite Eq|..]; apply Exists_exists in Ha as (x & Hin & Hx).
  - rewrite Forall_forall in Hw. by apply Hx, Hw.
  - rewrite Forall_forall in Hc. destruct Hx as [b ->]. by destruct (Hc _ Hin).
Qed.

Lemma thread_steps_kept s s' : rtc thread_step s s' -> pool_inv s -> pool_inv s' /\ queued s' = queued s /\ (dtor s = Unused -> dtor s' = Unused).
Proof.
  induction 1 as [s|s s1 s2 H1 Hr IH]; [done|]. intros Hp. destruct (IH (thread_step_inv _ _ H1 Hp)) as (Hp2 & Hq & Hd).
  assert (queued s1 = queued s /\ (dtor s = Unused -> dtor s1 = Unused)) as [Hq1 Hd1].
  { destruct H1; simpl; auto; try (split; [done|congruence]);
      match goal with Hn : notify_controller _ _ |- _ => destruct Hn | Hn : notify_worker _ _ |- _ => destruct Hn end; simpl; split; auto; congruence. }
  split_and!; [done|congruence|auto].
Qed.

Lemma resting_intro s : Forall (fun w => w = Sleeps) (workers s) -> Forall (fun c => c = Blocked \/ c = Returned) (callers s) ->
  dtor s = Unused \/ dtor s = DPolls /\ numthreads (pool s) <> 0%nat -> resting s.
Proof.
  rewrite !Forall_lookup. intros Hw Hc Hd s' Hs.
  destruct Hs; repeat match goal with
    | Hi : workers _ !! _ = Some _ |- _ => apply Hw in Hi
    | Hi : callers _ !! _ = Some _ |- _ => apply Hc in Hi as [Hi|Hi]
    end; try done; destruct Hd as [Hd|[Hd ?]]; congruence.
Qed.

Lemma reachable_pool_ok s : reachable s -> pool_ok (abstract s).
Proof. intros Hr. by apply reachable_ok, reachable_abstract. Qed.

Lemma reachable_step s s' : reachable s -> step s s' -> reachable s'.
Proof. intros (n & d & h & k & Hd & E & Hr) Hs. exists n, d, h, k. split_and!; [done..|]. by eapply rtc_r. Qed.

Lemma reachable_threads s s' : reachable s -> rtc thread_step s s' -> reachable s'.
Proof. intros Hr Hs. induction Hs; [done|]. apply IHHs. eapply reachable_step; [done|by left]. Qed.

(** The step in which the destructor returns. *)
Lemma destroyed_step s s' : thread_step s s' -> dtor s <> Destroyed -> dtor s' = Destroyed ->
  numthreads (pool s) = 0%nat /\ dtor s = DPolls /\ s' = set_dtor Destroyed s.
Proof.
  intros Hs Hn Hd. destruct Hs; simpl in *; try congruence; try done;
    try match goal with Hn : notify_controller _ _ |- _ => destruct Hn | Hn : notify_worker _ _ |- _ => destruct Hn end; simpl in *; try congruence.
  by destruct (q (pool s)).
Qed.

Lemma no_counted_thread (ts : list (thread (T:=T))) : count_threads ts = 0%nat -> Forall (fun t => counted t = false) ts.
Proof.
  induction ts as [|t ts IH]; [constructor|]. rewrite count_threads_cons. intros E. destruct (counted t) eqn:Ec; simpl in E; [lia|].
  constructor; [done|]. by apply IH.
Qed.
End Threads.

(** ** Properties *)

(** C38: The pool with its mutex and condition variables does what the pool of atomic member functions does.
    Every state it can reach is, forgetting who sleeps and who is about to notify whom, a state of that pool,
    and each of its steps is one of that pool or changes nothing there: so the order of the tasks, the count of the
    threads and the bound of the queue hold for the threads as they are. *)
Theorem pool_refinement {T : Type} (s s' : state T) : reachable s -> step s s' ->
  BackgroundOperationHandler.reachable (abstract s) /\
  (abstract s' = abstract s \/ BackgroundOperationHandler.step (abstract s) (abstract s')).
Proof. intros Hr Hs. split; [by apply reachable_abstract|]. apply refines; [by apply reachable_inv|done]. Qed.

(** C37: Queued tasks are run.  From any state that the constructor, callers of [run] and [try_run] and the
    threads can reach before the pool is destroyed, the threads by themselves come to rest after finitely
    many steps, however the scheduler and the notifications choose, as long as the tasks return; and
    whenever they rest, all workers sleep, the queue is empty and every task queued has been taken and
    finished, in the order of the queue. *)
Theorem pool_liveness {T : Type} (s : state T) : reachable s -> dtor s = Unused ->
  Acc (flip thread_step) s /\
  forall s', rtc thread_step s s' -> resting s' ->
    Forall (fun w => w = Sleeps) (workers s') /\ q (pool s') = [] /\ taken s' = queued s.
Proof.
  intros Hr Hu. split; [apply thread_steps_end|]. intros s' Hs Hrest.
  destruct (thread_steps_kept s s' Hs (reachable_inv s Hr)) as (Hp & Hq & Hd).
  destruct (resting_drained s' Hp Hrest (Hd Hu)) as (Hw & _ & Hempty). split_and!; [done..|].
  destruct (reachable_pool_ok s' (reachable_threads _ _ Hr Hs)) as [Hf _].
  simpl in Hf. by rewrite Hempty, app_nil_r, Hq in Hf.
Qed.

(** When the destructor returns, the queue is empty, every task has been taken, and the only threads left are those that have
    not begun. *)
Lemma pool_destruction {T : Type} (s s' : state T) : reachable s -> thread_step s s' -> dtor s <> Destroyed -> dtor s' = Destroyed ->
  q (pool s') = [] /\ taken s' = queued s' /\ Forall (fun w => w = Begins \/ w = Ended) (workers s').
Proof.
  intros Hr Hs Hn Hd. destruct (destroyed_step s s' Hs Hn Hd) as (Hz & Hp & ->). pose proof (pi_drained s (reachable_inv s Hr)) as Hq.
  rewrite Hp in Hq. destruct (reachable_pool_ok s Hr) as [Hf Ht]. simpl in *. rewrite Hq, app_nil_r in Hf. split_and!; [done..|].
  assert (Forall (fun t => counted t = false) (thread_of <$> workers s)) as Hc by (apply no_counted_thread; lia).
  rewrite Forall_fmap in Hc. eapply Forall_impl; [exact Hc|]. intros []; simpl; auto; done.
Qed.

(** ** Executions *)

(** Steps of the threads, with what they notify. *)
Ltac reduce_state :=
  match goal with |- rtc ?R ?s ?t => let s' := eval vm_compute in s in change (rtc R s' t) end.
Ltac thread_does tac := eapply rtc_l; [left; tac|]; reduce_state.
Ltac called tac := eapply rtc_l; [right; tac|]; reduce_state.
Ltac by_itself tac := eapply rtc_l; [tac|]; reduce_state.
Ltac nobody_waits := first [apply wakes_no_worker; set_solver | apply wakes_nobody; [set_solver|done]].
Ltac caller_pushed i := thread_does ltac:(eapply (caller_notifies _ _ i); [reflexivity|nobody_waits]).
Ltac worker_turn := thread_does ltac:(by eapply (worker_takes _ 0)).
Ltac worker_wakes i := thread_does ltac:(eapply (worker_notifies _ _ 0); [reflexivity|by apply (wakes_caller _ i)]).

(** A pool with one worker and one place in its queue that was given two tasks. *)
Definition two_tasks : state nat :=
  mkState (mkHandler [1; 2]%nat 1 1 0 false) false [Begins] [Pushed true; Pushed true] Unused [1; 2]%nat [].

Lemma two_tasks_reachable : reachable two_tasks.
Proof.
  exists 1%nat, 1%nat, (mkHandler [] 1 1 0 false), 1%nat. split_and!; [done..|].
  called ltac:(by eapply (call_run _ 1%nat)). called ltac:(by eapply (call_run _ 2%nat)). apply rtc_refl.
Qed.

(** The worker takes both tasks. *)
Definition two_done : state nat :=
  mkState (mkHandler [] 1 1 1 false) false [Sleeps] [Returned; Returned] Unused [1; 2]%nat [1; 2]%nat.

Lemma two_tasks_run : rtc thread_step two_tasks two_done.
Proof.
  by_itself ltac:(eapply (caller_notifies _ _ 0); [reflexivity|nobody_waits]).
  by_itself ltac:(eapply (caller_notifies _ _ 1); [reflexivity|nobody_waits]).
  by_itself ltac:(by eapply (worker_begins _ 0)). by_itself ltac:(by eapply (worker_takes _ 0)).
  by_itself ltac:(eapply (worker_notifies _ _ 0); [reflexivity|nobody_waits]).
  by_itself ltac:(by eapply (caller_tests _ 0)). by_itself ltac:(by eapply (caller_tests _ 1)).
  by_itself ltac:(by eapply (worker_done _ 0)). by_itself ltac:(by eapply (worker_takes _ 0)).
  by_itself ltac:(eapply (worker_notifies _ _ 0); [reflexivity|nobody_waits]).
  by_itself ltac:(by eapply (worker_done _ 0)). by_itself ltac:(by eapply (worker_finds_empty _ 0)).
  by_itself ltac:(by eapply (worker_sleeps _ 0)). apply rtc_refl.
Qed.

Lemma two_done_rests : resting two_done.
Proof. apply resting_intro; [by repeat constructor|repeat constructor; by right|by left]. Qed.

Lemma pool_liveness_witness : taken two_done = [1; 2]%nat /\ q (pool two_done) = [].
Proof.
  destruct (pool_liveness two_tasks two_tasks_reachable eq_refl) as [_ Hrest].
  destruct (Hrest two_done two_tasks_run two_done_rests) as (_ & Hq & Ht). by split.
Defined.

Lemma pool_refinement_witness : BackgroundOperationHandler.reachable (abstract two_tasks) /\
  exists s', step two_tasks s' /\ (abstract s' = abstract two_tasks \/ BackgroundOperationHandler.step (abstract two_tasks) (abstract s')).
Proof.
  set (s' := set_worker 0 Checks (set_pool (thread_starts (pool two_tasks)) two_tasks)).
  assert (step two_tasks s') as Hs by (left; by apply (worker_begins two_tasks 0)).
  destruct (pool_refinement two_tasks s' two_tasks_reachable Hs) as [Hr Hsim]. split; [exact Hr|]. exists s'. by split.
Defined.

(** ** What the condition variables do not guarantee *)

(** [run] may never return: each task that is taken notifies one caller, and the notification is spent
    when it meets a caller while the queue is still too long.  Here four callers block before a single worker begins; when
    it has run all tasks, two of them sleep on although the queue is empty, and nothing will wake them but new tasks. *)
Lemma run_waits_for_ever :
  exists s : state nat, reachable s /\ resting s /\ q (pool s) = [] /\ queue_capacity (pool s) = 1%nat /\
    callers s = [Returned; Returned; Blocked; Blocked].
Proof.
  exists (mkState (mkHandler [] 1 1 1 false) false [Sleeps] [Returned; Returned; Blocked; Blocked] Unused [1; 2; 3; 4]%nat [1; 2; 3; 4]%nat).
  split_and!; [|apply resting_intro; [by repeat constructor|repeat constructor; by auto|by left]|done..].
  exists 1%nat, 1%nat, (mkHandler [] 1 1 0 false), 1%nat. split_and!; [done..|].
  called ltac:(by eapply (call_run _ 1%nat)). called ltac:(by eapply (call_run _ 2%nat)).
  called ltac:(by eapply (call_run _ 3%nat)). called ltac:(by eapply (call_run _ 4%nat)).
  caller_pushed 0%nat. caller_pushed 1%nat. caller_pushed 2%nat. caller_pushed 3%nat.
  thread_does ltac:(by eapply (caller_tests _ 0)). thread_does ltac:(by eapply (caller_tests _ 1)).
  thread_does ltac:(by eapply (caller_tests _ 2)). thread_does ltac:(by eapply (caller_tests _ 3)).
  thread_does ltac:(by eapply (worker_begins _ 0)).
  worker_turn. worker_wakes 0%nat. thread_does ltac:(by eapply (caller_tests _ 0)). thread_does ltac:(by eapply (worker_done _ 0)).
  worker_turn. worker_wakes 0%nat. thread_does ltac:(by eapply (caller_tests _ 0)). thread_does ltac:(by eapply (worker_done _ 0)).
  worker_turn. worker_wakes 0%nat. thread_does ltac:(by eapply (caller_tests _ 0)). thread_does ltac:(by eapply (worker_done _ 0)).
  worker_turn. worker_wakes 1%nat. thread_does ltac:(by eapply (caller_tests _ 1)). thread_does ltac:(by eapply (worker_done _ 0)).
  thread_does ltac:(by eapply (worker_finds_empty _ 0)). thread_does ltac:(by eapply (worker_sleeps _ 0)). apply rtc_refl.
Qed.

(** The destructor may never return: [shutdown] is set and notified without the mutex, so a worker that has
    just seen it clear goes to sleep after the notification. *)
Lemma destructor_waits_for_ever :
  exists s : state nat, reachable s /\ resting s /\ dtor s = DPolls /\ shutdown (pool s) = true /\ workers s = [Sleeps].
Proof.
  exists (mkState (mkHandler [] 1 1 1 true) false [Sleeps] [] DPolls [] []).
  split_and!; [|apply resting_intro; [by repeat constructor|constructor|by right]|done..].
  exists 1%nat, 1%nat, (mkHandler [] 1 1 0 false), 1%nat. split_and!; [done..|].
  thread_does ltac:(by eapply (worker_begins _ 0)). called ltac:(by apply call_destroy).
  thread_does ltac:(by apply destructor_tests). thread_does ltac:(by eapply (worker_finds_empty _ 0)).
  thread_does ltac:(by apply destructor_sets_flag). thread_does ltac:(by apply destructor_notifies).
  thread_does ltac:(by eapply (worker_sleeps _ 0)). apply rtc_refl.
Qed.

(** The destructor may return before a thread has begun, which then works on the destroyed pool. *)
Lemma destroyed_before_begin :
  exists s : state nat, reachable s /\ dtor s = Destroyed /\ workers s = [Begins].
Proof.
  exists (mkState (mkHandler [] 1 1 0 true) false [Begins] [] Destroyed [] []). split_and!; [|done..].
  exists 1%nat, 1%nat, (mkHandler [] 1 1 0 false), 1%nat. split_and!; [done..|].
  called ltac:(by apply call_destroy).
  thread_does ltac:(by apply destructor_tests). thread_does ltac:(by apply destructor_sets_flag).
  thread_does ltac:(by apply destructor_notifies). thread_does ltac:(by apply destructor_ends). apply rtc_refl.
Qed.
