(* ===== verification/Destruction.v ===== *)
(** * Destroying a cluster while its statistics are updated (include/DestructionMutex.hh, src/KineticCluster.cc)

    Updates of the statistics are tasks of the shared thread pool that point to the cluster object; they may
    start when it is gone.  Object and tasks share a [DestructionMutex], which the destructor marks and
    which cannot be locked from then on.  [KineticCluster::mutex] protects the statistics: [stats] holds it while it gives an update to
    the pool, which may make it wait or run the update itself, and the update takes it to store its
    results.  The pool is that of BackgroundOperationHandler.v. *)

From S2P Require Import Prelude CppString Utility Kinetic Simulator Callbacks ClusterOperation Isa Redundancy StripeOperation.
From S2P Require Import Cluster BackgroundOperationHandler.

Module Destruction.

(** What the pool runs: the updates of this cluster by their number, and whatever else the library gives it. *)
Inductive job := Update (i : nat) | Other.

(** Who locks a [DestructionMutex]: an update, and the destructor. *)
Inductive actor := Task (i : nat) | Owner.

#[export] Instance job_eq_dec : EqDecision job.
Proof. solve_decision. Defined.

#[export] Instance actor_eq_dec : EqDecision actor.
Proof. solve_decision. Defined.

(** [mutex], by the actor that holds it. *)
Record DestructionMutex := mkDestructionMutex {
  _destructed : bool;
  mutex : option actor;
}.

Definition new_mutex : DestructionMutex := mkDestructionMutex false None.

(** [mutex.lock()] returns when nobody holds it. *)
Definition lock_mutex (a : actor) (m : DestructionMutex) : option DestructionMutex :=
  match mutex m with None => Some (mkDestructionMutex (_destructed m) (Some a)) | Some _ => None end.

Definition unlock (m : DestructionMutex) : DestructionMutex := mkDestructionMutex (_destructed m) None.

(** The rest of [lock]: whether it returns or unlocks and throws. *)
Definition lock_test (m : DestructionMutex) : bool * DestructionMutex :=
  if _destructed m then (false, unlock m) else (true, m).

(** The rest of [setDestructed]. *)
Definition set_flag (m : DestructionMutex) : DestructionMutex := mkDestructionMutex true (mutex m).

(** What an update has found out: whether there are indicator keys, the logs of the drives that answered, and how many did not. *)
Record measurement := mkMeasurement {
  indicator : bool;
  logs : list DriveLog;
  num_failed : Z;
}.

(** A call of [updateSnapshot]: given to the pool or about to begin, behind [mutex.lock()] of the [DestructionMutex], behind its [lock()],
    at the lock of the cluster's mutex with its results, returned, refused by an exception, ended by another one, and running on
    an object that is gone. *)
Inductive update_phase := Scheduled | Locked | Inside | Measured (x : measurement) | Done | Refused | Failed | Crashed.

(** A call of [stats]: before the lock; in [run] with the update in the queue; running update [i] in [run]; behind [run]; returned. *)
Inductive caller_phase := Calling | Pushed | Running (i : nat) | Accepted | Returned.

(** [~KineticCluster]: not yet called, inside [setDestructed], behind it, and with the members destroyed. *)
Inductive owner_phase := Alive | Marking | Marked | Gone.

#[export] Instance caller_phase_eq_dec : EqDecision caller_phase.
Proof. solve_decision. Defined.

(** ** The parts of [updateSnapshot] and [stats] *)

Section Parts.
Context `{Env D} `{StatusInt}.

(** [updateSnapshot] up to the lock of the cluster's mutex: its requests to the drives. *)
Definition measure : M (KineticCluster D) measurement :=
  c ← get;
  '(indicator_status, o) ← run_operation (fresh_operation c)
    (ClusterRangeOp (connections c) (makeIndicatorKey (id c)) (makeIndicatorKey (id c ++ str "~")) 1;;
     ClusterRangeOp_execute (all_keys_quorum c));
  let indicator := bool_decide (indicator_status = OK) && negb (bool_decide (ClusterRangeOp_getKeys 1 (operations o) = [])) in
  c ← get;
  '(cbs, _) ← run_operation (fresh_operation c)
    (ClusterLogOp (connections c) [LOG_CAPACITIES; LOG_STATISTICS] (connections c) 0;; ClusterLogOp_execute);
  logs ← lift (mapM (fun cb => deref (cb_log cb)) (filter (fun cb => cb_ok cb = true) cbs));
  mret (mkMeasurement indicator logs (Z.of_nat (length (filter (fun cb => cb_ok cb = false) cbs)))).

(** The rest, under the mutex. *)
Definition store_snapshot (x : measurement) : M (KineticCluster D) unit :=
  let total f := u64 (foldr (fun l acc => f l + acc) 0 (logs x)) in
  let read_ops := total (sum_statistics (str "GET_RESPONSE") stat_count) in
  let read_bytes := total (sum_statistics (str "GET_RESPONSE") stat_bytes) in
  let write_ops := total (sum_statistics (str "PUT") stat_count) in
  let write_bytes := total (sum_statistics (str "PUT") stat_bytes) in
  t ← now;
  modify (fun c =>
    let s := statistics_snapshot c in
    set_snapshot (mkClusterStats
      (total log_nominal_capacity_in_bytes)
      (total (fun l => log_nominal_capacity_in_bytes l - log_bytes_used l))
      read_ops read_bytes write_ops write_bytes
      (io_end s) t
      (u64 (read_ops - read_ops_total s)) (u64 (read_bytes - read_bytes_total s))
      (u64 (write_ops - write_ops_total s)) (u64 (write_bytes - write_bytes_total s))
      (mkClusterStatus (indicator x) (drives_total (health s)) (num_failed x) (redundancy_factor (health s))
        (connected (health s)) (location (health s)))) c).

(** [stats] decides under the mutex ... *)
Definition must_schedule : M (KineticCluster D) bool :=
  t ← now; c ← get; mret (2 <? to_seconds (t - statistics_scheduled c)).

(** ... and notes the time when [run] has returned. *)
Definition set_scheduled : M (KineticCluster D) unit :=
  t ← now;
  modify (fun c => mkCluster (identity c) (instanceIdentity c) (chunkCapacity c) (operation_timeout c) (connections c)
    (cl_redundancy c) (cluster_limits c) t (statistics_snapshot c) (cl_env c)).
End Parts.

(** ** The system *)

Section System.
Context `{Env D} `{StatusInt}.

Abbreviation pool_state := (BackgroundOperationHandler.system (T:=job)).

(** [cmutex] is [KineticCluster::mutex], by the call of [stats] that holds it; updates hold it within one step. *)
Record system := mkSystem {
  object : option (KineticCluster D);
  cmutex : option nat;
  dmutex : DestructionMutex;
  pool : pool_state;
  updates : list update_phase;
  callers : list caller_phase;
  owner : owner_phase;
}.

(** A thread of the pool with a task it has begun. *)
Definition runs (function : job) (t : BackgroundOperationHandler.thread (T:=job)) : Prop :=
  t = BackgroundOperationHandler.WorkerBusy function \/ t = BackgroundOperationHandler.TaskRunning function.

(** Update [i] has been called: by a thread of the pool, or by [stats]. *)
Definition executing (s : system) (i : nat) : Prop :=
  (exists j t, BackgroundOperationHandler.threads (pool s) !! j = Some t /\ runs (Update i) t) \/
  exists j, callers s !! j = Some (Running i).

(** Whether a call of [updateSnapshot] has ended. *)
Definition ended (p : update_phase) : bool := match p with Done | Refused | Failed | Crashed => true | _ => false end.

(** The tasks in the queue and in the threads of the pool. *)
Definition jobs (p : pool_state) : list job :=
  BackgroundOperationHandler.q (BackgroundOperationHandler.handler p) ++
  omap (fun t => match t with
    | BackgroundOperationHandler.WorkerBusy f | BackgroundOperationHandler.TaskCreated f | BackgroundOperationHandler.TaskRunning f => Some f
    | _ => None
    end) (BackgroundOperationHandler.threads p).

(** Changes of parts of the state. *)
Definition set_update (s : system) (i : nat) (p : update_phase) (m : DestructionMutex) : system :=
  mkSystem (object s) (cmutex s) m (pool s) (<[i := p]> (updates s)) (callers s) (owner s).
Definition set_caller (s : system) (j : nat) (p : caller_phase) (c : option (KineticCluster D)) (holder : option nat) : system :=
  mkSystem c holder (dmutex s) (pool s) (updates s) (<[j := p]> (callers s)) (owner s).
Definition set_object (s : system) (c : option (KineticCluster D)) : system :=
  mkSystem c (cmutex s) (dmutex s) (pool s) (updates s) (callers s) (owner s).
Definition set_owner (s : system) (p : owner_phase) (c : option (KineticCluster D)) (m : DestructionMutex) : system :=
  mkSystem c (cmutex s) m (pool s) (updates s) (callers s) p.

(** [updateSnapshot], by the thread that runs it. *)
Inductive update_step : system -> system -> Prop :=
  | step_lock s i m : updates s !! i = Some Scheduled -> executing s i -> lock_mutex (Task i) (dmutex s) = Some m ->
      update_step s (set_update s i Locked m)
  | step_enter s i m : updates s !! i = Some Locked -> lock_test (dmutex s) = (true, m) -> update_step s (set_update s i Inside m)
  | step_refuse s i m : updates s !! i = Some Locked -> lock_test (dmutex s) = (false, m) -> update_step s (set_update s i Refused m)
  (* the requests; the guard unlocks if they throw *)
  | step_measure s i c x c' : updates s !! i = Some Inside -> object s = Some c -> measure c = (Ret x, c') ->
      update_step s (set_update (set_object s (Some c')) i (Measured x) (dmutex s))
  | step_throw s i c r c' : updates s !! i = Some Inside -> object s = Some c -> measure c = (r, c') -> (forall x, r <> Ret x) ->
      update_step s (set_update (set_object s (Some c')) i Failed (unlock (dmutex s)))
  (* locking a [std::mutex] that the same thread holds is undefined behaviour; here it waits. Both guards unlock at the end *)
  | step_store s i x c r c' : updates s !! i = Some (Measured x) -> cmutex s = None -> object s = Some c -> store_snapshot x c = (r, c') ->
      update_step s (set_update (set_object s (Some c')) i Done (unlock (dmutex s)))
  | step_crash s i p : updates s !! i = Some p -> p = Inside \/ (exists x, p = Measured x) -> object s = None ->
      update_step s (set_update s i Crashed (dmutex s)).

(** [stats], by the thread that called it. *)
Inductive caller_step : system -> system -> Prop :=
  | step_recent s j c c' : callers s !! j = Some Calling -> cmutex s = None -> object s = Some c -> must_schedule c = (Ret false, c') ->
      caller_step s (set_caller s j Returned (Some c') None)
  | step_run s j c c' : callers s !! j = Some Calling -> cmutex s = None -> object s = Some c -> must_schedule c = (Ret true, c') ->
      let i := length (updates s) in
      let r := BackgroundOperationHandler.run (Update i) (BackgroundOperationHandler.handler (pool s)) in
      let p := match fst r with
        | BackgroundOperationHandler.Queued => Pushed
        | BackgroundOperationHandler.Inline => Running i
        | _ => Accepted
        end in
      caller_step s (mkSystem (Some c') (Some j) (dmutex s) (BackgroundOperationHandler.accept (pool s) (Update i) r)
        (updates s ++ [Scheduled]) (<[j := p]> (callers s)) (owner s))
  | step_queued s j : callers s !! j = Some Pushed ->
      BackgroundOperationHandler.run_returns (BackgroundOperationHandler.handler (pool s)) = true ->
      caller_step s (set_caller s j Accepted (object s) (cmutex s))
  | step_ran s j i : callers s !! j = Some (Running i) -> updates s !! i = Some Done ->
      caller_step s (set_caller s j Accepted (object s) (cmutex s))
  | step_rethrow s j i p : callers s !! j = Some (Running i) -> updates s !! i = Some p -> p = Refused \/ p = Failed ->
      caller_step s (set_caller s j Returned (object s) None)
  | step_return s j c r c' : callers s !! j = Some Accepted -> object s = Some c -> set_scheduled c = (r, c') ->
      caller_step s (set_caller s j Returned (Some c') None).

(** The thread of the destructor: it runs when no other user of the object is left. *)
Inductive destructor_step : system -> system -> Prop :=
  | step_mark s m : owner s = Alive -> Forall (fun p => p = Returned) (callers s) -> lock_mutex Owner (dmutex s) = Some m ->
      destructor_step s (set_owner s Marking (object s) m)
  | step_marked s : owner s = Marking -> destructor_step s (set_owner s Marked (object s) (unlock (set_flag (dmutex s))))
  | step_gone s : owner s = Marked -> destructor_step s (set_owner s Gone None (dmutex s)).

(** Users of the object: the constructor offers an update to the pool; [stats] is called, and other members, which do what they do. *)
Inductive user_step : system -> system -> Prop :=
  | step_construct s : owner s = Alive -> updates s = [] -> callers s = [] ->
      let r := BackgroundOperationHandler.try_run (Update 0) (BackgroundOperationHandler.handler (pool s)) in
      user_step s (mkSystem (object s) (cmutex s) (dmutex s) (BackgroundOperationHandler.accept (pool s) (Update 0) r)
        (match fst r with BackgroundOperationHandler.Refused => [] | _ => [Scheduled] end) (callers s) (owner s))
  | step_stats s : owner s = Alive ->
      user_step s (mkSystem (object s) (cmutex s) (dmutex s) (pool s) (updates s) (callers s ++ [Calling]) (owner s))
  | step_use s c c' : owner s = Alive -> object s = Some c -> user_step s (set_object s (Some c')).

(** The pool: other tasks come and go, threads start, take tasks and leave; a thread that runs an update of this cluster does so until
    the update has ended. *)
Inductive pool_step : system -> system -> Prop :=
  | step_pool s p : BackgroundOperationHandler.step (pool s) p ->
      (forall i, Update i ∈ jobs p -> Update i ∈ jobs (pool s)) ->
      (forall j t i x, BackgroundOperationHandler.threads (pool s) !! j = Some t -> runs (Update i) t -> updates s !! i = Some x -> ended x = false ->
        BackgroundOperationHandler.threads p !! j = Some t) ->
      pool_step s (mkSystem (object s) (cmutex s) (dmutex s) p (updates s) (callers s) (owner s)).

Definition step (s s' : system) : Prop :=
  update_step s s' \/ caller_step s s' \/ destructor_step s s' \/ user_step s s' \/ pool_step s s'.

Definition initial (c : KineticCluster D) (p : pool_state) : system := mkSystem (Some c) None new_mutex p [] [] Alive.

Definition reachable (s : system) : Prop := exists c p, (forall i, Update i ∉ jobs p) /\ rtc step (initial c p) s.
End System.
Arguments system : clear implicits.
End Destruction.
Import Destruction.

(** The parts are the whole. *)
Lemma updateSnapshot_parts `{Env D} `{StatusInt} (c : KineticCluster D) : updateSnapshot c = (measure ≫= store_snapshot) c.
Proof.
  unfold updateSnapshot, measure. rewrite !bind_assoc. mstep.
  match goal with |- (?m ≫= ?f) ?s = (?m ≫= ?g) ?s => rewrite !(bind_unfold m); destruct (m s) as [[[status o]| | |] c1]; try done end.
  rewrite ?bind_assoc. mstep.
  match goal with |- (?m ≫= ?f) ?s = (?m ≫= ?g) ?s => rewrite !(bind_unfold m); destruct (m s) as [[[cbs o2]| | |] c2]; try done end.
  rewrite ?bind_assoc. unfold lift. rewrite !bind_unfold. by destruct (mapM _ _).
Qed.

Lemma stats_parts `{Env D} `{StatusInt} (c : KineticCluster D) :
  stats c = (b ← must_schedule; when b set_scheduled;; c ← get; mret (statistics_snapshot c, b)) c.
Proof.
  assert (forall A (f : Z -> M (KineticCluster D) A) c, (now ≫= f) c = f (env_now (cl_env c)).1 (with_env (env_now (cl_env c)).2 (cl_redundancy c) c)) as Hnow
    by (intros; unfold now; rewrite bind_unfold; by destruct (env_now _)).
  unfold stats, must_schedule. rewrite !bind_assoc, !Hnow. mstep.
  destruct (_ <? _); cbn [when]; [|done]. unfold set_scheduled. by rewrite !bind_assoc, !Hnow.
Qed.

(** ** Invariants *)

Section Invariant.
Context `{Env D} `{StatusInt}.
Implicit Types s : system D.

(** Who must hold the [DestructionMutex], and who may use the object. *)
Definition holds (p : update_phase) : bool := match p with Locked | Inside | Measured _ => true | _ => false end.
Definition inside (p : update_phase) : bool := match p with Inside | Measured _ => true | _ => false end.

(** Which calls of [stats] hold the mutex of the cluster. *)
Definition in_run (p : caller_phase) : bool := match p with Pushed | Running _ | Accepted => true | _ => false end.

Record locks_ok s : Prop := {
  lo_tasks : forall i p, updates s !! i = Some p -> holds p = true <-> mutex (dmutex s) = Some (Task i);
  lo_holder : forall i, mutex (dmutex s) = Some (Task i) -> is_Some (updates s !! i);
  lo_owner : owner s = Marking <-> mutex (dmutex s) = Some Owner;
  lo_flag : _destructed (dmutex s) = true <-> owner s = Marked \/ owner s = Gone;
  lo_inside : forall i p, updates s !! i = Some p -> inside p = true -> _destructed (dmutex s) = false;
  lo_object : object s = None <-> owner s = Gone;
  lo_crashed : forall i, updates s !! i <> Some Crashed;
}.

Record calls_ok s : Prop := {
  ca_phases : forall j p, callers s !! j = Some p -> in_run p = true <-> cmutex s = Some j;
  ca_holder : forall j, cmutex s = Some j -> is_Some (callers s !! j);
  ca_alive : forall j p, callers s !! j = Some p -> p <> Returned -> owner s = Alive;
  ca_inline : forall j i, callers s !! j = Some (Running i) -> exists p, updates s !! i = Some p /\ p <> Done;
}.

(** One of a list moves on while the others stay where they are. *)
Lemma one_moves {A} (l : list A) i p p' j q : l !! i = Some p -> <[i := p']> l !! j = Some q ->
  (j = i /\ q = p') \/ (j <> i /\ l !! j = Some q).
Proof.
  intros Hi Hj. destruct (decide (j = i)) as [->|Hne].
  - rewrite list_lookup_insert_eq in Hj by (by eapply lookup_lt_Some). left. by simplify_eq.
  - rewrite list_lookup_insert_ne in Hj by done. by right.
Qed.

Lemma insert_is_Some {A} (l : list A) i x j : is_Some (l !! j) -> is_Some (<[i := x]> l !! j).
Proof. rewrite !lookup_lt_is_Some, length_insert. done. Qed.

Lemma one_more {A} (l : list A) x j p : (l ++ [x]) !! j = Some p -> l !! j = Some p \/ (j = length l /\ p = x).
Proof. intros [Hj|[Hj Hp]]%lookup_app_Some; [by left|]. right. apply list_lookup_singleton_Some in Hp as [? <-]. split; [lia|done]. Qed.

(** An update moves on, with what it does to the flag and the mutex. *)
Lemma update_locks s i p p' ob m : locks_ok s -> updates s !! i = Some p -> is_Some ob -> is_Some (object s) -> p' <> Crashed ->
  _destructed m = _destructed (dmutex s) ->
  mutex m = (if holds p' then Some (Task i) else None) -> mutex (dmutex s) = (if holds p then Some (Task i) else None) ->
  (inside p' = true -> _destructed m = false) ->
  locks_ok (mkSystem ob (cmutex s) m (pool s) (<[i := p']> (updates s)) (callers s) (owner s)).
Proof.
  intros [H1 H2 H3 H4 H5 H6 H7] Hi Hob Hs Hp' Hf Hm Hmu Hin. split; cbn; rewrite ?Hf, ?Hm in *; try done.
  - intros j q Hj. destruct (one_moves _ _ _ _ _ _ Hi Hj) as [[-> ->]|[Hne Hj']]; [by destruct (holds p')|].
    rewrite (H1 j q Hj'), Hmu. destruct (holds p), (holds p'); naive_solver.
  - intros j Hj. destruct (holds p'); [|done]. injection Hj as <-. apply insert_is_Some. by exists p.
  - rewrite H3, Hmu. destruct (holds p), (holds p'); done.
  - intros j q Hj Hq. destruct (one_moves _ _ _ _ _ _ Hi Hj) as [[-> ->]|[Hne Hj']]; [by apply Hin|by eapply H5].
  - rewrite <- H6. destruct ob, (object s); try done; by destruct Hob, Hs.
  - intros j Hj. destruct (one_moves _ _ _ _ _ _ Hi Hj) as [[-> ?]|[Hne Hj']]; [congruence|by eapply H7].
Qed.

Lemma object_there s i p : locks_ok s -> updates s !! i = Some p -> inside p = true -> is_Some (object s).
Proof.
  intros Hok Hi Hp. destruct (object s) eqn:E; [by eexists|]. apply (lo_object s Hok) in E.
  pose proof (lo_inside s Hok i p Hi Hp) as Hf. rewrite (proj2 (lo_flag s Hok)) in Hf; [done|by right].
Qed.

(** Updates that hold nothing and wait for the lock may find the object gone. *)
Lemma waiting_locks s i p p' m : locks_ok s -> updates s !! i = Some p -> p' <> Crashed -> inside p' = false ->
  _destructed m = _destructed (dmutex s) ->
  mutex m = (if holds p' then Some (Task i) else None) -> mutex (dmutex s) = (if holds p then Some (Task i) else None) ->
  locks_ok (set_update s i p' m).
Proof.
  intros [H1 H2 H3 H4 H5 H6 H7] Hi Hp' Hin Hf Hm Hmu. split; cbn; rewrite ?Hf, ?Hm in *; try done.
  - intros j q Hj. destruct (one_moves _ _ _ _ _ _ Hi Hj) as [[-> ->]|[Hne Hj']]; [by destruct (holds p')|].
    rewrite (H1 j q Hj'), Hmu. destruct (holds p), (holds p'); naive_solver.
  - intros j Hj. destruct (holds p'); [|done]. injection Hj as <-. apply insert_is_Some. by exists p.
  - rewrite H3, Hmu. destruct (holds p), (holds p'); done.
  - intros j q Hj Hq. destruct (one_moves _ _ _ _ _ _ Hi Hj) as [[-> ->]|[Hne Hj']]; [by rewrite Hin in Hq|by eapply H5].
  - intros j Hj. destruct (one_moves _ _ _ _ _ _ Hi Hj) as [[-> ?]|[Hne Hj']]; [congruence|by eapply H7].
Qed.

Lemma holding s i p : locks_ok s -> updates s !! i = Some p -> holds p = true -> mutex (dmutex s) = Some (Task i).
Proof. intros Hok Hi Hp. by apply (lo_tasks s Hok i p Hi). Qed.

Lemma update_step_locks s s' : locks_ok s -> update_step s s' -> locks_ok s'.
Proof.
  intros Hok E.
  destruct E as [s i m Hi _ Hm|s i m Hi Hm|s i m Hi Hm|s i c x c' Hi Hc Em|s i c r c' Hi Hc Em Hr|s i x c r c' Hi Hcm Hc Es|s i p Hi Hp Hn].
  - unfold lock_mutex in Hm. destruct (mutex (dmutex s)) eqn:Emu; [done|]. injection Hm as <-. by eapply waiting_locks.
  - pose proof (holding s i _ Hok Hi eq_refl) as Hmu. unfold lock_test in Hm. destruct (_destructed (dmutex s)) eqn:Ef; [done|]. injection Hm as <-.
    assert (is_Some (object s)) as Ho.
    { destruct (object s) eqn:Eo; [by eexists|]. apply (lo_object s Hok) in Eo. rewrite (proj2 (lo_flag s Hok)) in Ef; [done|by right]. }
    eapply (update_locks s); [exact Hok|exact Hi|exact Ho|exact Ho|done..].
  - pose proof (holding s i _ Hok Hi eq_refl) as Hmu. unfold lock_test in Hm. destruct (_destructed (dmutex s)) eqn:Ef; [|done]. injection Hm as <-.
    by eapply waiting_locks.
  - pose proof (holding s i _ Hok Hi eq_refl) as Hmu. pose proof (lo_inside s Hok i _ Hi eq_refl) as Hf.
    eapply (update_locks s); [exact Hok|exact Hi|by eexists|rewrite Hc; by eexists|done..].
  - pose proof (holding s i _ Hok Hi eq_refl) as Hmu. eapply (update_locks s); [exact Hok|exact Hi|by eexists|rewrite Hc; by eexists|done..].
  - pose proof (holding s i _ Hok Hi eq_refl) as Hmu. eapply (update_locks s); [exact Hok|exact Hi|by eexists|rewrite Hc; by eexists|done..].
  - exfalso. destruct (object_there s i p Hok Hi) as [c Hc]; [by destruct Hp as [->|[x ->]]|congruence].
Qed.

Lemma destructor_step_locks s s' : locks_ok s -> destructor_step s s' -> locks_ok s'.
Proof.
  intros [H1 H2 H3 H4 H5 H6 H7] E. destruct E as [s m Ho Hca Hm|s Ho|s Ho]; rewrite Ho in *.
  - unfold lock_mutex in Hm. destruct (mutex (dmutex s)) as [|] eqn:Emu; [done|]. injection Hm as <-.
    split; cbn; try done.
    + intros i p Hi. rewrite (H1 i p Hi). by split.
    + rewrite H4. split; by intros [].
    + by rewrite H6.
  - assert (mutex (dmutex s) = Some Owner) as Emu by by apply H3. rewrite Emu in *. split; cbn; try done.
    + intros i p Hi. rewrite (H1 i p Hi). by split.
    + split; [by left|done].
    + intros i p Hi Hp. exfalso. assert (holds p = true) as Hh by (by destruct p). by apply (H1 i p Hi) in Hh.
    + by rewrite H6.
  - split; cbn; try done; [|].
    + rewrite <- H3. by split.
    + rewrite H4. split; [by right|by left].
Qed.

(** Another object in its place, and an update more. *)
Lemma object_locks s s' l : locks_ok s -> dmutex s' = dmutex s -> owner s' = owner s -> (object s' = None <-> object s = None) ->
  updates s' = updates s ++ l -> Forall (fun p => p = Scheduled) l -> locks_ok s'.
Proof.
  intros [H1 H2 H3 H4 H5 H6 H7] Em Eo Eob Eu Hl.
  assert (forall i p, updates s' !! i = Some p -> updates s !! i = Some p \/ (p = Scheduled /\ (length (updates s) <= i)%nat)) as Hup.
  { intros i p. rewrite Eu. intros [?|[Hge Hp]]%lookup_app_Some; [by left|]. right. rewrite Forall_lookup in Hl. by specialize (Hl _ _ Hp). }
  split; rewrite ?Em, ?Eo, ?Eob; try done.
  - intros i p [Hi|[-> Hge]]%Hup; [by apply H1|]. split; [done|]. intros [q Hq]%H2. apply lookup_lt_Some in Hq. lia.
  - intros i [q Hq]%H2. exists q. rewrite Eu. by apply lookup_app_l_Some.
  - intros i p [Hi|[-> Hge]]%Hup; [by eapply H5|done].
  - intros i [Hi|[? _]]%Hup; [by eapply H7|done].
Qed.

Lemma other_step_locks s s' : locks_ok s -> caller_step s s' \/ user_step s s' \/ pool_step s s' -> locks_ok s'.
Proof.
  assert (forall (o o' : option (KineticCluster D)) c c', o = Some c -> o' = Some c' -> o' = None <-> o = None) as Hobj by (by intros ? ? ? ? -> ->).
  intros Hok [E|[E|E]].
  - destruct E as [s j c c' Hj Hm Hc Em|s j c c' Hj Hm Hc Em i r p|s j Hj Hr|s j i Hj Hi|s j i p Hj Hi Hp|s j c r c' Hj Hc Em];
      try (apply (object_locks s _ []); [done..| |by rewrite app_nil_r|done]; first [done|by eapply Hobj]).
    apply (object_locks s _ [Scheduled]); [done..|by eapply Hobj|done|by constructor].
  - destruct E as [s Ho Hu Hca r|s Ho|s c c' Ho Hc]; try (apply (object_locks s _ []); [done..| |by rewrite app_nil_r|done]; first [done|by eapply Hobj]).
    apply (object_locks s _ (match fst r with BackgroundOperationHandler.Refused => [] | _ => [Scheduled] end)); try done.
    + cbn. by rewrite Hu.
    + by destruct (fst r); constructor.
  - destruct E. by apply (object_locks s _ []); rewrite ?app_nil_r.
Qed.

Lemma reachable_locks s s' : locks_ok s -> step s s' -> locks_ok s'.
Proof.
  intros Hok [E|[E|[E|E]]]; [by eapply update_step_locks| |by eapply destructor_step_locks|]; eapply other_step_locks; eauto.
Qed.

(** Calls of [stats] whose updates, holder and owner stay. *)
Lemma same_calls s s' : calls_ok s -> callers s' = callers s -> cmutex s' = cmutex s -> (owner s = Alive -> owner s' = Alive) ->
  (forall i p, updates s !! i = Some p -> exists p', updates s' !! i = Some p' /\ (p' = Done -> p = Done \/ cmutex s = None)) -> calls_ok s'.
Proof.
  intros [H1 H2 H3 H4] Ec Em Eo Eu. split; rewrite ?Ec, ?Em; try done.
  - intros j p Hj Hp. by eapply Eo, H3.
  - intros j i Hj. destruct (H4 j i Hj) as (p & Hi & Hp). destruct (Eu i p Hi) as (p' & Hi' & Hd). exists p'. split; [done|].
    intros [->|Hn]%Hd; [done|]. pose proof (proj1 (H1 j _ Hj) eq_refl). congruence.
Qed.

(** A call moves on. *)
Lemma call_moves s s' j p p' holder l : calls_ok s -> callers s !! j = Some p -> p <> Returned ->
  callers s' = <[j := p']> (callers s) -> cmutex s' = holder -> owner s' = owner s -> updates s' = updates s ++ l ->
  holder = (if in_run p' then Some j else None) -> cmutex s = (if in_run p then Some j else None) ->
  (forall i, p' = Running i -> exists x, updates s' !! i = Some x /\ x <> Done) -> calls_ok s'.
Proof.
  intros [H1 H2 H3 H4] Hj Hp Ec Em Eo Eu Hh Hs Hin. split; rewrite ?Ec, ?Em, ?Eo.
  - intros j' q Hj'. destruct (one_moves _ _ _ _ _ _ Hj Hj') as [[-> ->]|[Hne Hj2]]; [by rewrite Hh; destruct (in_run p')|].
    rewrite (H1 j' q Hj2), Hh, Hs. destruct (in_run p), (in_run p'); split; congruence.
  - intros j'. rewrite Hh. destruct (in_run p'); [|done]. intros [= <-]. apply insert_is_Some. by exists p.
  - intros j' q Hj' Hq. destruct (one_moves _ _ _ _ _ _ Hj Hj') as [[-> ->]|[Hne Hj2]]; [by eapply H3|by eapply H3].
  - intros j' i Hj'. destruct (one_moves _ _ _ _ _ _ Hj Hj') as [[-> Hr]|[Hne Hj2]]; [by apply Hin|].
    destruct (H4 j' i Hj2) as (x & Hi & Hx). exists x. split; [|done]. rewrite Eu. by apply lookup_app_l_Some.
Qed.

Lemma reachable_calls s s' : calls_ok s -> step s s' -> calls_ok s'.
Proof.
  intros Hok [E|[E|[E|[E|E]]]].
  - assert (forall s0 i p p' ob m, updates s0 !! i = Some p -> (p' = Done -> cmutex s0 = None) -> calls_ok s0 ->
      calls_ok (mkSystem ob (cmutex s0) m (pool s0) (<[i := p']> (updates s0)) (callers s0) (owner s0))) as Hup.
    { intros s0 i p p' ob m Hi Hd Hok0. apply (same_calls s0); try done. cbn. intros i' q Hq. destruct (decide (i' = i)) as [->|].
      - exists p'. rewrite list_lookup_insert_eq by (by eapply lookup_lt_Some). split; [done|]. auto.
      - exists q. rewrite list_lookup_insert_ne by done. auto. }
    destruct E as [s|s|s|s|s|s|s]; (eapply (Hup s); [eassumption| |exact Hok]); done.
  - assert (forall j p, callers s !! j = Some p -> cmutex s = None -> cmutex s = (if in_run p then Some j else None)) as Hfree.
    { intros j p Hj Hm. destruct (in_run p) eqn:Er; [|done]. by apply (ca_phases s Hok j p Hj). }
    assert (forall j p, callers s !! j = Some p -> in_run p = true -> cmutex s = (if in_run p then Some j else None)) as Hheld.
    { intros j p Hj Hr. rewrite Hr. by apply (ca_phases s Hok j p Hj). }
    destruct E as [s j c c' Hj Hm Hc Em|s j c c' Hj Hm Hc Em i r p|s j Hj Hr|s j i Hj Hi|s j i p Hj Hi Hp|s j c r c' Hj Hc Em].
    + eapply (call_moves s _ j _ Returned None []); try done; first [by rewrite app_nil_r|by apply Hfree].
    + eapply (call_moves s _ j _ p (Some j) [Scheduled]); try done; [by unfold p; destruct (fst r)|].
      intros i' Ei. exists Scheduled. split; [|done]. assert (i' = i) as -> by (unfold p in Ei; destruct (fst r); by simplify_eq).
      cbn. by rewrite lookup_app_r, Nat.sub_diag by (unfold i; lia).
    + eapply (call_moves s _ j _ Accepted (cmutex s) []); try done; first [by rewrite app_nil_r|by rewrite (Hheld j _ Hj)|by apply Hheld].
    + eapply (call_moves s _ j _ Accepted (cmutex s) []); try done; first [by rewrite app_nil_r|by rewrite (Hheld j _ Hj)|by apply Hheld].
    + eapply (call_moves s _ j _ Returned None []); try done; first [by rewrite app_nil_r|by apply Hheld].
    + eapply (call_moves s _ j _ Returned None []); try done; first [by rewrite app_nil_r|by apply Hheld].
  - destruct E as [s m Ho Hca Hm|s Ho|s Ho]; destruct Hok as [H1 H2 H3 H4]; split; cbn; try done; intros j p Hj Hp.
    + rewrite Forall_lookup in Hca. by specialize (Hca j p Hj).
    + specialize (H3 j p Hj Hp). congruence.
    + specialize (H3 j p Hj Hp). congruence.
  - destruct E as [s Ho Hu Hca r|s Ho|s c c' Ho Hc].
    + apply (same_calls s); try done. intros i p Hi. by rewrite Hu in Hi.
    + destruct Hok as [H1 H2 H3 H4]. split; cbn; try done.
      * intros j p [Hj|[-> ->]]%one_more; [by apply H1|]. split; [done|]. intros [q Hq]%H2. apply lookup_lt_Some in Hq. lia.
      * intros j [q Hq]%H2. exists q. by apply lookup_app_l_Some.
      * intros j i [Hj|[_ ?]]%one_more; [by eapply H4|done].
    + apply (same_calls s); try done. intros i p Hi. exists p. auto.
  - destruct E as [s p' Hp Hn Hk]. apply (same_calls s); try done. intros i p Hi. exists p. auto.
Qed.

Lemma destruction_reachable s : reachable s -> locks_ok s /\ calls_ok s.
Proof.
  intros (c & p & _ & Hr). assert (locks_ok (initial c p) /\ calls_ok (initial c p)) as Hi by (split; split; cbn; try done; naive_solver).
  induction Hr as [s|s1 s2 s3 E _ IH]; [done|]. apply IH. destruct Hi as [Hl Hc]. split; [by eapply reachable_locks|by eapply reachable_calls].
Qed.
End Invariant.

(** ** Progress *)

Section Progress.
Context `{Env D} `{StatusInt}.
Implicit Types s : system D.

#[export] Instance runs_dec f t : Decision (runs f t).
Proof.
  unfold runs. destruct t as [| |g|g|g|]; try (right; by intros [?|?]); destruct (decide (g = f)) as [->|]; first [left; solve [auto]|right; intros [?|?]; simplify_eq].
Defined.

Lemma executing_exists s i : executing s i <->
  Exists (runs (Update i)) (BackgroundOperationHandler.threads (pool s)) \/ Exists (fun p => p = Running i) (callers s).
Proof.
  unfold executing. rewrite !Exists_exists. setoid_rewrite list_elem_of_lookup. naive_solver.
Qed.

#[export] Instance executing_dec s i : Decision (executing s i).
Proof.
  destruct (decide (Exists (runs (Update i)) (BackgroundOperationHandler.threads (pool s)) \/ Exists (fun p => p = Running i) (callers s))) as [Hd|Hd];
    [left|right]; by rewrite executing_exists.
Defined.

Definition is_scheduled (p : update_phase) : bool := match p with Scheduled => true | _ => false end.

(** The steps that are left to the updates that were called, and to the destructor. *)
Definition left_of (p : update_phase) : nat :=
  match p with Scheduled => 4 | Locked => 3 | Inside => 2 | Measured _ => 1 | Done | Refused | Failed | Crashed => 0 end.
Definition left_of_owner (o : owner_phase) : nat := match o with Alive => 3 | Marking => 2 | Marked => 1 | Gone => 0 end.
Definition work s : nat := sum_list (left_of <$> updates s) + left_of_owner (owner s).

Lemma sum_moves (l : list update_phase) i p p' : l !! i = Some p -> (left_of p' < left_of p)%nat ->
  (sum_list (left_of <$> <[i := p']> l) < sum_list (left_of <$> l))%nat.
Proof.
  intros Hi Hlt. rewrite (insert_take_drop _ _ _ (lookup_lt_Some _ _ _ Hi)). rewrite <- (take_drop_middle l i p Hi) at 3.
  rewrite !fmap_app, !sum_list_with_app, !fmap_cons. cbn. lia.
Qed.

(** Steps of the updates and of the destructor. *)
Definition inner_step s s' : Prop := update_step s s' \/ destructor_step s s'.

Lemma inner_step_work s s' : inner_step s s' -> (work s' < work s)%nat.
Proof.
  unfold work. intros [E|E].
  - destruct E; cbn; apply Nat.add_lt_mono_r; (eapply sum_moves; [eassumption|]); cbn; try lia. destruct H2 as [->|[x ->]]; cbn; lia.
  - destruct E as [s m Ho _ _|s Ho|s Ho]; cbn; rewrite Ho; cbn; lia.
Qed.

(** They leave the calls, the pool and the mutex of the cluster alone. *)
Lemma inner_step_frame s s' : inner_step s s' -> callers s' = callers s /\ pool s' = pool s /\ cmutex s' = cmutex s.
Proof. intros [E|E]; by destruct E. Qed.

(** No call of [stats] is under way. *)
Definition quiet s : Prop := Forall (fun p => p = Returned) (callers s).

Lemma quiet_free s : calls_ok s -> quiet s -> cmutex s = None.
Proof.
  intros Hok Hq. destruct (cmutex s) as [j|] eqn:E; [|done]. destruct (ca_holder s Hok j E) as [p Hp].
  pose proof (proj2 (ca_phases s Hok j p Hp) E) as Hr. unfold quiet in Hq. rewrite Forall_lookup in Hq. by rewrite (Hq j p Hp) in Hr.
Qed.

(** Everything that was called has come to its end. *)
Definition settled s : Prop := owner s = Gone /\
  forall i p, updates s !! i = Some p -> ended p = true \/ (p = Scheduled /\ ~ executing s i).

Lemma inner_progress s : locks_ok s -> calls_ok s -> quiet s -> settled s \/ exists s', inner_step s s'.
Proof.
  intros Hok Hca Hq. pose proof (quiet_free s Hca Hq) as Hcm. destruct (mutex (dmutex s)) as [[i|]|] eqn:Hm.
  - right. destruct (lo_holder s Hok i Hm) as [p Hp]. pose proof (proj2 (lo_tasks s Hok i p Hp) Hm) as Hh. destruct p as [| | |x| | | |]; try done.
    + destruct (lock_test (dmutex s)) as [[] m] eqn:Et; eexists; left; [by eapply step_enter|by eapply step_refuse].
    + destruct (object_there s i _ Hok Hp eq_refl) as [c Hc]. destruct (measure c) as [[x|e| |] c'] eqn:Em;
        eexists; left; [by eapply step_measure|by eapply step_throw..].
    + destruct (object_there s i _ Hok Hp eq_refl) as [c Hc]. destruct (store_snapshot x c) as [r c'] eqn:Es.
      eexists. left. by eapply step_store.
  - right. eexists. right. apply step_marked. by apply (lo_owner s Hok).
  - destruct (list_find (fun i => executing s i /\ is_scheduled <$> updates s !! i = Some true) (seq 0 (length (updates s)))) as [[j i]|] eqn:Ef.
    + apply list_find_Some in Ef as (_ & (Hex & (p & Hi & Ep)%fmap_Some) & _). assert (p = Scheduled) as -> by (by destruct p). right. eexists. left. eapply step_lock; [done..|]. unfold lock_mutex. by rewrite Hm.
    + destruct (owner s) eqn:Ho.
      * right. eexists. right. eapply step_mark; [done..|]. unfold lock_mutex. by rewrite Hm.
      * exfalso. apply (lo_owner s Hok) in Ho. congruence.
      * right. eexists. right. by apply step_gone.
      * left. split; [done|]. intros i p Hp. apply list_find_None in Ef. rewrite Forall_forall in Ef.
        specialize (Ef i ltac:(apply elem_of_seq; apply lookup_lt_Some in Hp; lia)).
        pose proof (lo_tasks s Hok i p Hp) as Hh. rewrite Hm in Hh.
        destruct p; try (by left); [right; split; [done|intros Hx; apply Ef; by rewrite Hp]|..]; by destruct Hh as [Hh _]; specialize (Hh eq_refl).
Qed.

Lemma inner_step_ok s s' : locks_ok s -> calls_ok s -> quiet s -> inner_step s s' -> locks_ok s' /\ calls_ok s' /\ quiet s'.
Proof.
  intros Hok Hca Hq E. assert (step s s') as Es by (destruct E; [by left|by right; right; left]).
  split; [by eapply reachable_locks|]. split; [by eapply reachable_calls|].
  unfold quiet. by destruct (inner_step_frame s s' E) as (-> & _).
Qed.

Lemma inner_ends s : locks_ok s -> calls_ok s -> quiet s -> exists s', rtc inner_step s s' /\ locks_ok s' /\ settled s'.
Proof.
  remember (work s) as n eqn:Hn. revert s Hn. induction (lt_wf n) as [n _ IH]. intros s -> Hok Hca Hq.
  destruct (inner_progress s Hok Hca Hq) as [Hs|[s1 E]]; [by exists s|].
  destruct (inner_step_ok s s1 Hok Hca Hq E) as (Hok1 & Hca1 & Hq1).
  destruct (IH _ (inner_step_work s s1 E) s1 eq_refl Hok1 Hca1 Hq1) as (s' & Hr & Hs'). exists s'. split; [by eapply rtc_l|done].
Qed.

Lemma inner_steps_bound n s s' : nsteps inner_step n s s' -> (n <= 4 * length (updates s) + 3)%nat.
Proof.
  intros Hn. assert (n + work s' <= work s)%nat as Hw.
  { induction Hn as [s|n s s1 s' E _ IH]; [lia|]. pose proof (inner_step_work s s1 E). lia. }
  assert (sum_list (left_of <$> updates s) <= 4 * length (updates s))%nat as Hu.
  { clear. induction (updates s) as [|p l IH]; [cbn; lia|]. rewrite fmap_cons. cbn. destruct p; cbn; lia. }
  unfold work in *. destruct (owner s); cbn in *; lia.
Qed.

(** A call of [stats] that cannot go on by itself: it waits for room in the queue, or for the update that it runs. *)
Definition waits s (j : nat) : Prop :=
  (callers s !! j = Some Pushed /\ BackgroundOperationHandler.run_returns (BackgroundOperationHandler.handler (pool s)) = false) \/
  exists i p, callers s !! j = Some (Running i) /\ updates s !! i = Some p /\ ended p = false.

Lemma return_step s j : calls_ok s -> locks_ok s -> callers s !! j = Some Accepted ->
  exists s', caller_step s s' /\ cmutex s' = None /\ callers s' !! j = Some Returned.
Proof.
  intros Hca Hok Hj. pose proof (ca_alive s Hca j _ Hj ltac:(done)) as Ho. destruct (object s) as [c|] eqn:Ec.
  2: { apply (lo_object s Hok) in Ec. congruence. }
  destruct (set_scheduled c) as [r c'] eqn:Es. eexists. split; [by eapply step_return|]. split; [done|].
  cbn. rewrite list_lookup_insert_eq; [done|]. by eapply lookup_lt_Some.
Qed.

(** A call that holds the mutex and need not wait gives it back by its own steps. *)
Lemma stats_returns s j : calls_ok s -> locks_ok s -> cmutex s = Some j -> ~ waits s j ->
  exists s', rtc caller_step s s' /\ cmutex s' = None /\ callers s' !! j = Some Returned.
Proof.
  intros Hca Hok Hm Hw. destruct (ca_holder s Hca j Hm) as [p Hj]. pose proof (proj2 (ca_phases s Hca j p Hj) Hm) as Hr.
  assert (forall s1, caller_step s s1 -> callers s1 !! j = Some Accepted ->
    exists s', rtc caller_step s s' /\ cmutex s' = None /\ callers s' !! j = Some Returned) as Hnext.
  { intros s1 E Hj1. assert (step s s1) as Es by (by right; left).
    destruct (return_step s1 j) as (s2 & E2 & Hs2); [by eapply reachable_calls|by eapply reachable_locks|done|].
    exists s2. split; [by eapply rtc_l, rtc_once|done]. }
  assert (j < length (callers s))%nat as Hlt by by eapply lookup_lt_Some.
  destruct p as [| |i| |]; try done.
  - destruct (BackgroundOperationHandler.run_returns (BackgroundOperationHandler.handler (pool s))) eqn:Er; [|by destruct Hw; left].
    eapply Hnext; [by apply step_queued|]. cbn. by rewrite list_lookup_insert_eq.
  - destruct (ca_inline s Hca j i Hj) as (p & Hi & Hp). destruct (ended p) eqn:Ee; [|by destruct Hw; right; exists i, p].
    assert (p = Refused \/ p = Failed) as Hp'.
    { destruct p; try done; [by left|by right|]. by destruct (lo_crashed s Hok i). }
    eexists. split; [apply rtc_once; by eapply step_rethrow|]. split; [done|]. cbn. by rewrite list_lookup_insert_eq.
  - destruct (return_step s j Hca Hok Hj) as (s' & E & Hs'). exists s'. split; [by apply rtc_once|done].
Qed.
End Progress.

(** ** What waits for ever *)

Section Deadlock.
Context `{Env D} `{StatusInt}.
Implicit Types s : system D.

(** A call of [stats] runs its update, and the update wants the mutex that the call holds. *)
Definition stats_waits_for_itself s (i j : nat) : Prop :=
  callers s !! j = Some (Running i) /\ exists x, updates s !! i = Some (Measured x).

(** The only thread of the pool runs an update that wants the mutex of a call of [stats] that waits for room in the queue. *)
Definition stats_waits_for_worker s (i j : nat) : Prop :=
  BackgroundOperationHandler.threads (pool s) = [BackgroundOperationHandler.WorkerBusy (Update i)] /\
  (exists x, updates s !! i = Some (Measured x)) /\ callers s !! j = Some Pushed /\
  let h := BackgroundOperationHandler.handler (pool s) in
  BackgroundOperationHandler.queue_capacity h <> 0%nat /\
  (BackgroundOperationHandler.queue_capacity h < length (BackgroundOperationHandler.q h))%nat.

(** An update that waits for the mutex of a cluster stays where it is while the mutex is held. *)
Lemma measured_stays s s' i j x : locks_ok s -> calls_ok s -> cmutex s = Some j -> updates s !! i = Some (Measured x) -> step s s' ->
  updates s' !! i = Some (Measured x).
Proof.
  intros Hok Hca Hm Hi E. assert (owner s = Alive) as Ho.
  { destruct (ca_holder s Hca j Hm) as [p Hp]. apply (ca_alive s Hca j p Hp). pose proof (proj2 (ca_phases s Hca j p Hp) Hm) as Hr. by intros ->. }
  assert (forall i' p, updates s !! i' = Some p -> holds p = true -> i' = i) as Hone.
  { intros i' p Hp Hh. apply (lo_tasks s Hok i' p Hp) in Hh. pose proof (proj1 (lo_tasks s Hok i _ Hi) eq_refl). congruence. }
  assert (forall i' p p', updates s !! i' = Some p -> i' <> i -> <[i' := p']> (updates s) !! i = Some (Measured x)) as Hoth
    by (intros i' p p' _ Hne; by rewrite list_lookup_insert_ne).
  destruct E as [E|[E|[E|[E|E]]]].
  - assert (mutex (dmutex s) = Some (Task i)) as Hmu by by apply (lo_tasks s Hok i _ Hi).
    destruct E as [s i' m Hi' _ Hl|s i' m Hi' Hl|s i' m Hi' Hl|s i' c y c' Hi' Hc Em|s i' c r c' Hi' Hc Em Hr|s i' y c r c' Hi' Hcm Hc Es|s i' p Hi' Hp Hn].
    + unfold lock_mutex in Hl. by rewrite Hmu in Hl.
    + specialize (Hone i' _ Hi' eq_refl) as ->. congruence.
    + specialize (Hone i' _ Hi' eq_refl) as ->. congruence.
    + specialize (Hone i' _ Hi' eq_refl) as ->. congruence.
    + specialize (Hone i' _ Hi' eq_refl) as ->. congruence.
    + congruence.
    + apply (lo_object s Hok) in Hn. congruence.
  - destruct E; cbn; try done. by apply lookup_app_l_Some.
  - by destruct E.
  - destruct E as [s _ Hu|s|s]; cbn; try done. by rewrite Hu in Hi.
  - by destruct E.
Qed.

Lemma step_invariants s s' : locks_ok s /\ calls_ok s -> step s s' -> locks_ok s' /\ calls_ok s'.
Proof. intros [Hok Hca] E. split; [by eapply reachable_locks|by eapply reachable_calls]. Qed.

(** A call that runs an update goes on only when the update has ended; the others cannot touch it. *)
Lemma running_stays s s' i j p : callers s !! j = Some (Running i) -> updates s !! i = Some p -> ended p = false -> step s s' ->
  callers s' !! j = Some (Running i).
Proof.
  intros Hj Hi Hp E.
  assert (forall j' q q', callers s !! j' = Some q -> q <> Running i -> <[j' := q']> (callers s) !! j = Some (Running i)) as Hoth.
  { intros j' q q' Hq Hne. rewrite list_lookup_insert_ne; [done|]. intros ->. congruence. }
  destruct E as [E|[E|[E|[E|E]]]]; [by destruct E| |by destruct E| |by destruct E].
  - destruct E as [s j' c c' Hj' Hm Hc Em|s j' c c' Hj' Hm Hc Em i' r q|s j' Hj' Hr|s j' i' Hj' Hi'|s j' i' q Hj' Hi' Hq|s j' c r c' Hj' Hc Em]; cbn;
      (eapply Hoth; [eassumption|]); intros Heq; simplify_eq; try done. by destruct Hq as [->| ->].
  - destruct E; cbn; [done| |done]. by apply lookup_app_l_Some.
Qed.

(** Once both are there, the call of [stats] never returns, nor does the update: whatever else happens. *)
Lemma stats_waits_for_itself_forever s s' i j : reachable s -> stats_waits_for_itself s i j -> rtc step s s' ->
  stats_waits_for_itself s' i j /\ owner s' = Alive.
Proof.
  intros Hr Hd Hs. apply destruction_reachable in Hr. induction Hs as [s|s1 s2 s3 E _ IH].
  - destruct Hr as [Hok Hca]. split; [done|]. destruct Hd as [Hj _]. by eapply (ca_alive s Hca j).
  - apply IH; [by eapply step_invariants|]. destruct Hr as [Hok Hca], Hd as [Hj [x Hi]].
    split; [by eapply running_stays|]. exists x. eapply measured_stays; [done..| |done|done]. by apply (ca_phases s1 Hca j _ Hj).
Qed.

(** The other one ends only if the pool is given another configuration or another thread. *)
Lemma stats_waits_for_worker_step s s' i j : reachable s -> stats_waits_for_worker s i j -> step s s' ->
  BackgroundOperationHandler.queue_capacity (BackgroundOperationHandler.handler (pool s')) =
    BackgroundOperationHandler.queue_capacity (BackgroundOperationHandler.handler (pool s)) ->
  length (BackgroundOperationHandler.threads (pool s')) = length (BackgroundOperationHandler.threads (pool s)) ->
  stats_waits_for_worker s' i j.
Proof.
  intros [Hok Hca]%destruction_reachable (Ht & [x Hi] & Hj & Hcap & Hfull) E Ecap Elen.
  assert (cmutex s = Some j) as Hm by by apply (ca_phases s Hca j _ Hj).
  assert (exists y, updates s' !! i = Some (Measured y)) as Hi' by (exists x; by eapply measured_stays).
  assert (BackgroundOperationHandler.run_returns (BackgroundOperationHandler.handler (pool s)) = false) as Hrun
    by (unfold BackgroundOperationHandler.run_returns; apply bool_decide_eq_false; lia).
  unfold stats_waits_for_worker. destruct E as [E|[E|[E|[E|E]]]].
  - destruct E; by split_and!.
  - destruct E as [s j' c c' Hj' Hm' Hc Em|s j' c c' Hj' Hm' Hc Em i' r p|s j' Hj' Hr|s j' i' Hj' Hi0|s j' i' p Hj' Hi0 Hp|s j' c r c' Hj' Hc Em];
      try congruence; (destruct (decide (j' = j)) as [->|Hne]; [congruence|]); cbn in *; split_and!; try done; by rewrite list_lookup_insert_ne.
  - destruct E; by split_and!.
  - destruct E as [s _ Hu Hcs|s|s]; cbn in *; [by rewrite Hcs in Hj| |by split_and!]. split_and!; try done. by apply lookup_app_l_Some.
  - destruct E as [s p E Hnew Hbusy]. cbn in *. set (h := BackgroundOperationHandler.handler (pool s)) in *.
    specialize (Hbusy 0%nat (BackgroundOperationHandler.WorkerBusy (Update i)) i (Measured x)). rewrite Ht in Hbusy.
    specialize (Hbusy eq_refl (or_introl eq_refl) Hi eq_refl).
    assert (BackgroundOperationHandler.threads p = [BackgroundOperationHandler.WorkerBusy (Update i)]) as Ht'.
    { rewrite Ht in Elen. destruct (BackgroundOperationHandler.threads p) as [|t [|]]; try done. cbn in Hbusy. by injection Hbusy as ->. }
    split_and!; [done..|by rewrite Ecap|]. rewrite Ecap. eapply Nat.lt_le_trans; [exact Hfull|].
    assert (forall k t, BackgroundOperationHandler.threads (pool s) !! k = Some t -> t = BackgroundOperationHandler.WorkerBusy (Update i)) as Honly.
    { intros k t. rewrite Ht. intros Hk. by apply list_lookup_singleton_Some in Hk as [_ <-]. }
    destruct E as [b f|b f|b k Hk|b k f h' Hk Hw|b k f Hk|b k Hk Hw|b k f Hk|b k f Hk|b n Hst|b|b Hz|b n d Hst]; cbn; try done.
    + unfold BackgroundOperationHandler.run. fold h. rewrite bool_decide_eq_false_2 by done. cbn. rewrite length_app. lia.
    + unfold BackgroundOperationHandler.try_run. fold h. rewrite bool_decide_eq_false_2 by done. rewrite bool_decide_eq_true_2 by lia. done.
    + by apply Honly in Hk.
Qed.
End Deadlock.

(** ** Properties *)

(** C29: No update touches a cluster that is gone, and the destructor ends.  In every reachable state, however updates are
    scheduled, started and held up, whatever they do and whether the pool queues them, starts threads or lets [stats] run
    them: no update runs, or will ever run, on a destroyed object; while an update is behind the [DestructionMutex] the object is there and the
    destructor has not begun, and updates that come later are refused; only one of the updates and the destructor is in its
    critical section.  While a call of [stats] is under way the object is there, and only one holds the cluster's mutex; it gives the mutex
    back by its own steps unless it waits for room in the queue or for an update that it runs itself.  (Such calls may
    wait for ever: [stats_waits_for_itself_forever], [stats_waits_for_worker_step].)  When no call of [stats] is under
    way, nothing waits for ever: the updates that were called and the destructor take at most four and three steps each,
    whoever goes first, and end with the object destroyed and every update that was called done, failed or refused. *)
Theorem cluster_outlives_updates `{Env D} `{StatusInt} (s : system D) :
  reachable s ->
  (forall i, updates s !! i <> Some Crashed) /\
  (forall i p, updates s !! i = Some p -> inside p = true -> is_Some (object s) /\ owner s = Alive) /\
  (forall i j p q, updates s !! i = Some p -> updates s !! j = Some q -> holds p = true -> holds q = true -> i = j /\ owner s <> Marking) /\
  (forall j p, callers s !! j = Some p -> p <> Returned -> is_Some (object s) /\ owner s = Alive) /\
  (forall j p, callers s !! j = Some p -> in_run p = true -> cmutex s = Some j /\
    (waits s j \/ exists s', rtc caller_step s s' /\ cmutex s' = None /\ callers s' !! j = Some Returned)) /\
  (quiet s ->
    (exists s', rtc inner_step s s' /\ object s' = None /\
      forall i p, updates s' !! i = Some p -> (p = Done \/ p = Failed \/ p = Refused) \/ (p = Scheduled /\ ~ executing s' i)) /\
    forall n s', nsteps inner_step n s s' -> (n <= 4 * length (updates s) + 3)%nat).
Proof.
  intros [Hok Hca]%destruction_reachable.
  assert (forall o, o = Alive -> owner s = o -> is_Some (object s)) as Hobj.
  { intros o -> Ho. destruct (object s) eqn:E; [by eexists|]. apply (lo_object s Hok) in E. congruence. }
  split_and!.
  - apply (lo_crashed s Hok).
  - intros i p Hi Hp. split; [by eapply object_there|]. pose proof (lo_inside s Hok i p Hi Hp) as Hf.
    assert (mutex (dmutex s) = Some (Task i)) as Hm by (apply (lo_tasks s Hok i p Hi); by destruct p).
    destruct (owner s) eqn:Ho; [done|..].
    + apply (lo_owner s Hok) in Ho. congruence.
    + rewrite (proj2 (lo_flag s Hok)) in Hf by (by left). done.
    + rewrite (proj2 (lo_flag s Hok)) in Hf by (by right). done.
  - intros i j p q Hi Hj Hp Hq. apply (lo_tasks s Hok i p Hi) in Hp. apply (lo_tasks s Hok j q Hj) in Hq.
    split; [congruence|]. intros Ho%(lo_owner s Hok). congruence.
  - intros j p Hj Hp. pose proof (ca_alive s Hca j p Hj Hp) as Ho. split; [by eapply Hobj|done].
  - intros j p Hj Hr. pose proof (proj1 (ca_phases s Hca j p Hj) Hr) as Hm. split; [done|].
    assert (Decision (waits s j)) as [Hw|Hw]; [|by left|right; by apply stats_returns].
    unfold waits. rewrite Hj. destruct p as [| |i| |]; try done.
    + destruct (BackgroundOperationHandler.run_returns (BackgroundOperationHandler.handler (pool s))) eqn:E; [right|left; by left].
      intros [[_ ?]|(i & q & ? & _)]; [congruence|done].
    + destruct (updates s !! i) as [q|] eqn:Ei; [destruct (ended q) eqn:Eq|].
      * right. intros [[? _]|(i' & q' & [= <-] & Hq & Hend)]; [done|]. congruence.
      * left. right. by exists i, q.
      * right. intros [[? _]|(i' & q' & [= <-] & Hq & _)]; [done|]. congruence.
    + right. intros [[? _]|(i' & q' & ? & _)]; done.
  - intros Hq. split; [|intros n s' Hn; by eapply inner_steps_bound].
    destruct (inner_ends s Hok Hca Hq) as (s' & Hr & Hok' & Ho & Hf). exists s'. split; [done|].
    split; [by apply (lo_object s' Hok')|]. intros i p Hp. destruct (Hf i p Hp) as [He|[-> Hn]]; [left|by right].
    destruct p; try done; [by left|by right; right|by right; left|]. by destruct (lo_crashed s' Hok' i).
Qed.

Module Destruction_example.
Import Simulator.

(** A cluster some time after it was made. *)
Definition clock_late : sim := mkSim (sim_drives (fresh 3)) (20 * ns_per_s) 0.
Definition cluster : KineticCluster sim := with_env clock_late Example_.provider Example_.cluster.

(** What an update of it finds out, and the cluster then and after a call of [stats] has looked at the clock. *)
Definition measured : measurement := match (@measure _ sim_env sim_status_int cluster).1 with Ret x => x | _ => mkMeasurement false [] 0 end.
Definition measured_cluster : KineticCluster sim := (@measure _ sim_env sim_status_int cluster).2.

(** A pool with one thread and a queue for one task, and a pool that is turned off. *)
Definition one_thread (q queued taken : list job) (started : nat) (t : BackgroundOperationHandler.thread (T:=job)) : BackgroundOperationHandler.system (T:=job) :=
  BackgroundOperationHandler.mkSystem (BackgroundOperationHandler.mkHandler q 1 1 started false) [t] queued taken.
Definition no_threads : BackgroundOperationHandler.system (T:=job) :=
  BackgroundOperationHandler.mkSystem (BackgroundOperationHandler.mkHandler [] 0 0 0 false) [] [] [].

(** The system while nobody destroys the cluster. *)
Definition state (c : KineticCluster sim) (cm : option nat) (holder : option actor) (p : BackgroundOperationHandler.system (T:=job)) (l : list update_phase)
    (calls : list caller_phase) : system sim :=
  mkSystem (Some c) cm (mkDestructionMutex false holder) p l calls Alive.

Abbreviation sim_step := (@step _ sim_env sim_status_int).
Abbreviation sim_reachable := (@reachable _ sim_env sim_status_int).

Lemma pool_moves c cm holder p p' l calls : BackgroundOperationHandler.step p p' ->
  (forall i, Update i ∈ jobs p' -> Update i ∈ jobs p) ->
  (BackgroundOperationHandler.threads p' = BackgroundOperationHandler.threads p \/
   Forall (fun t => forall i, ~ runs (Update i) t) (BackgroundOperationHandler.threads p)) ->
  sim_step (state c cm holder p l calls) (state c cm holder p' l calls).
Proof.
  intros E Hj Ht. right. right. right. right. apply (step_pool (state c cm holder p l calls)); [done..|].
  intros j t i x Hjt Hr _ _. cbn in *. destruct Ht as [->|Ht]; [done|]. rewrite Forall_lookup in Ht. by destruct (Ht j t Hjt i).
Qed.

(** The constructor gives an update to the pool, and the thread of the pool runs it. *)
Lemma update_inside : sim_reachable (state cluster None (Some (Task 0)) (one_thread [] [Update 0] [Update 0] 1
  (BackgroundOperationHandler.WorkerBusy (Update 0))) [Inside] []).
Proof.
  exists cluster, (one_thread [] [] [] 0 BackgroundOperationHandler.WorkerCreated). split; [by intros i Hi%not_elem_of_nil|].
  eapply rtc_l; [right; right; right; left; by apply step_construct|].
  eapply rtc_l.
  { apply (pool_moves cluster None None (one_thread [Update 0] [Update 0] [] 0 BackgroundOperationHandler.WorkerCreated)
      (one_thread [Update 0] [Update 0] [] 1 BackgroundOperationHandler.WorkerIdle) [Scheduled] []).
    - exact (BackgroundOperationHandler.step_worker_starts (one_thread [Update 0] [Update 0] [] 0 BackgroundOperationHandler.WorkerCreated) 0 eq_refl).
    - done.
    - right. apply Forall_singleton. by intros i [?|?]. }
  eapply rtc_l.
  { apply (pool_moves cluster None None _ (one_thread [] [Update 0] [Update 0] 1 (BackgroundOperationHandler.WorkerBusy (Update 0))) [Scheduled] []).
    - exact (BackgroundOperationHandler.step_worker_takes (one_thread [Update 0] [Update 0] [] 1 BackgroundOperationHandler.WorkerIdle) 0 _ _ eq_refl eq_refl).
    - done.
    - right. apply Forall_singleton. by intros i [?|?]. }
  eapply rtc_l; [left; eapply (step_lock _ 0); [done| |done]; left; exists 0%nat; eexists; split; [done|by left]|].
  eapply rtc_l; [left; by eapply (step_enter _ 0)|]. apply rtc_refl.
Qed.

Lemma measure_cluster : @measure _ sim_env sim_status_int cluster = (Ret measured, measured_cluster).
Proof. vm_compute. reflexivity. Qed.
End Destruction_example.

(** The constructor has scheduled an update; it is running when the destructor is called. *)
Lemma cluster_outlives_updates_witness :
  let s := Destruction_example.state Destruction_example.cluster None (Some (Task 0))
    (Destruction_example.one_thread [] [Update 0] [Update 0] 1 (BackgroundOperationHandler.WorkerBusy (Update 0))) [Inside] [] in
  exists s', rtc (@inner_step _ Simulator.sim_env Simulator.sim_status_int) s s' /\ object s' = None.
Proof.
  intros s. destruct (@cluster_outlives_updates _ Simulator.sim_env Simulator.sim_status_int s Destruction_example.update_inside)
    as (_ & _ & _ & _ & _ & Hq).
  destruct Hq as [(s' & Hs & Ho & _) _]; [constructor|]. exists s'. split; [exact Hs|exact Ho].
Defined.

(** ** Both ways to wait for ever can happen *)

(** With a pool that is turned off (or whose threads are all busy), [stats] runs the update itself, under the mutex the update takes. *)
Lemma stats_waits_for_itself_happens :
  exists s, @reachable _ Simulator.sim_env Simulator.sim_status_int s /\ stats_waits_for_itself s 0 0.
Proof.
  exists (Destruction_example.state Destruction_example.measured_cluster (Some 0%nat) (Some (Task 0)) Destruction_example.no_threads
    [Measured Destruction_example.measured] [Running 0]).
  split; [|by split; [|eexists]]. exists Destruction_example.cluster, Destruction_example.no_threads. split; [by intros i Hi%not_elem_of_nil|].
  eapply rtc_l; [right; right; right; left; by apply step_stats|].
  eapply rtc_l; [right; left; eapply (step_run _ 0 Destruction_example.cluster Destruction_example.cluster); [done..|vm_compute; reflexivity]|].
  eapply rtc_l; [left; eapply (step_lock _ 0); [done| |done]; right; by exists 0%nat|].
  eapply rtc_l; [left; by eapply (step_enter _ 0)|].
  eapply rtc_l; [left; eapply (step_measure _ 0); [done|done|apply Destruction_example.measure_cluster]|]. apply rtc_refl.
Qed.

(** With one thread and a full queue, [stats] waits for room under the mutex that the thread wants. *)
Lemma stats_waits_for_worker_happens :
  exists s, @reachable _ Simulator.sim_env Simulator.sim_status_int s /\ stats_waits_for_worker s 0 0.
Proof.
  destruct Destruction_example.update_inside as (c & p & Hp & Hr).
  exists (Destruction_example.state Destruction_example.measured_cluster (Some 0%nat) (Some (Task 0))
    (Destruction_example.one_thread [Other; Update 1] [Update 0; Other; Update 1] [Update 0] 1 (BackgroundOperationHandler.WorkerBusy (Update 0)))
    [Measured Destruction_example.measured; Scheduled] [Pushed]).
  split. 2: { split; [done|]. split; [by eexists|]. split; [done|]. cbn. lia. }
  exists c, p. split; [done|]. etrans; [exact Hr|].
  eapply rtc_l; [left; eapply (step_measure _ 0); [done|done|apply Destruction_example.measure_cluster]|].
  eapply rtc_l.
  { apply (Destruction_example.pool_moves Destruction_example.measured_cluster None (Some (Task 0)) _
      (Destruction_example.one_thread [Other] [Update 0; Other] [Update 0] 1 (BackgroundOperationHandler.WorkerBusy (Update 0)))
      [Measured Destruction_example.measured] []).
    - exact (BackgroundOperationHandler.step_run (Destruction_example.one_thread [] [Update 0] [Update 0] 1
        (BackgroundOperationHandler.WorkerBusy (Update 0))) Other).
    - intros i. cbn. rewrite !elem_of_cons. intros [?|[?|?]]; [done|auto|auto].
    - by left. }
  eapply rtc_l; [right; right; right; left; by apply step_stats|].
  eapply rtc_l; [right; left; eapply (step_run _ 0 Destruction_example.measured_cluster Destruction_example.measured_cluster);
    [done..|vm_compute; reflexivity]|]. apply rtc_refl.
Qed.
