(* ===== verification/Double.v ===== *)
(** * Floating-point numbers

    The cache computes thresholds in [double]s.  They are the binary64 numbers of the Standard
    Library's executable specification of IEEE 754, with its rounding; nothing is approximated. *)

From Stdlib Require Import SpecFloat.
From S2P Require Import Prelude CppString.

Definition double : Set := spec_float.

Definition dmul : double -> double -> double := SFmul 53 1024.
Definition ddiv : double -> double -> double := SFdiv 53 1024.
Definition dsub : double -> double -> double := SFsub 53 1024.

(** [a < b] *)
Definition dltb : double -> double -> bool := SFltb.

(** Conversion of an integer. *)
Definition of_int (z : Z) : double := binary_normalize 53 1024 z 0 false.

(** The literal [n / d] for a decimal fraction: the nearest double. *)
Definition literal (n d : Z) : double := ddiv (of_int n) (of_int d).

(** Conversion to [size_t]: the fraction is dropped; undefined out of range. *)
Definition to_size (x : double) : outcome Z :=
  match x with
  | S754_zero _ => Ret 0
  | S754_finite s m e =>
      let n := match e with
               | Z0 => Zpos m
               | Zpos _ => Zpos m * 2 ^ e
               | Zneg p => Zpos m / 2 ^ Zpos p
               end in
      if s then (if n =? 0 then Ret 0 else UB) else if n <? 2 ^ 64 then Ret n else UB
  | S754_infinity _ | S754_nan => UB
  end.

(** The textbook case: the product is rounded up, past the literal. *)
Example rounding : dltb (literal 7 10) (dmul (of_int 7) (literal 1 10)) = true /\
  to_size (dmul (of_int 10) (literal 7 10)) = Ret 7 /\ to_size (literal 29 10) = Ret 2.
Proof. by vm_compute. Qed.

(** No number that is not negative is below zero. *)
Definition not_negative (x : double) : bool :=
  match x with S754_finite s _ _ | S754_infinity s => negb s | _ => true end.

Lemma round_not_negative m e l : not_negative (binary_round_aux 53 1024 false m e l) = true.
Proof.
  unfold binary_round_aux. destruct (shr_fexp 53 1024 m e l) as [mrs e']. destruct (shr_fexp _ _ _ e' _) as [mrs' e''].
  destruct (shr_m mrs'); [done| |done]. by destruct (_ <=? _).
Qed.

Lemma of_int_not_negative z : 0 <= z -> not_negative (of_int z) = true.
Proof.
  intros Hz. unfold of_int, binary_normalize. destruct z as [|p|p]; [done| |lia].
  unfold binary_round. destruct (shl_align _ _ _). apply round_not_negative.
Qed.

Lemma dmul_not_negative x y : not_negative x = true -> not_negative y = true -> not_negative (dmul x y) = true.
Proof.
  destruct x as [sx|sx| |sx mx ex], y as [sy|sy| |sy my ey]; try destruct sx; try destruct sy; cbn [not_negative negb]; try done.
  intros _ _. apply round_not_negative.
Qed.

Lemma not_below_zero x : not_negative x = true -> dltb x (of_int 0) = false.
Proof. by destruct x as [sx|[]| |[] mx ex]. Qed.

(** ** Printing *)

(** [stream << x] with the default precision of six digits: the notation of [%g]. *)

Fixpoint drop_trailing_zeros (s : bytes) : bytes :=
  match s with
  | [] => []
  | c :: s' => match drop_trailing_zeros s' with
               | [] => if bool_decide (c = "0"%char) then [] else [c]
               | s'' => c :: s''
               end
  end.

(** The nearest integer to a fraction, the even one of two. *)
Definition round_even (n d : Z) : Z :=
  let q := n / d in
  let r := 2 * (n mod d) in
  if (r <? d) || ((r =? d) && Z.even q) then q else q + 1.

(** The decimal exponent of a positive fraction. *)
Fixpoint exponent_below (fuel : nat) (n d : Z) : Z :=
  match fuel with
  | O => 0
  | S fuel' => if d <=? n then 0 else exponent_below fuel' (n * 10) d - 1
  end.
Definition exponent (n d : Z) : Z :=
  if d <=? n then Z.of_nat (length (dec (n / d))) - 1 else exponent_below 400 n d.

(** Six significant digits and the exponent after rounding to them. *)
Definition six_digits (n d : Z) : bytes * Z :=
  let x := exponent n d in
  let m := if x <=? 5 then round_even (n * 10 ^ (5 - x)) d else round_even n (d * 10 ^ (x - 5)) in
  if m =? 10 ^ 6 then (dec (10 ^ 5), x + 1) else (dec m, x).

Definition point (whole fraction : bytes) : bytes :=
  match drop_trailing_zeros fraction with [] => whole | f => whole ++ str "." ++ f end.

Definition show_fraction (n d : Z) : bytes :=
  let '(ds, x) := six_digits n d in
  if (x <? -4) || (6 <=? x) then
    point (take 1 ds) (drop 1 ds) ++ (if x <? 0 then str "e-" else str "e+") ++ pad0 2 (dec (Z.abs x))
  else if x <? 0 then point (str "0") (replicate (Z.to_nat (- x - 1)) "0"%char ++ ds)
  else point (take (Z.to_nat (x + 1)) ds) (drop (Z.to_nat (x + 1)) ds).

(** The only nan the source prints is [0.0 / 0.0], which is negative on x86. *)
Definition show_double (x : double) : bytes :=
  match x with
  | S754_zero s => if s then str "-0" else str "0"
  | S754_infinity s => if s then str "-inf" else str "inf"
  | S754_nan => str "-nan"
  | S754_finite s m e =>
      (if s then str "-" else []) ++
      (if e <? 0 then show_fraction (Zpos m) (2 ^ (- e)) else show_fraction (Zpos m * 2 ^ e) 1)
  end.

Example show_double_samples :
  show_double (literal 1 10) = str "0.1" /\ show_double (literal 3 1) = str "3" /\ show_double (literal 2 3) = str "0.666667" /\
  show_double (literal 123456789 1) = str "1.23457e+08" /\ show_double (literal 1 100000) = str "1e-05" /\
  show_double (literal 9999995 10) = str "1e+06" /\ show_double (literal 12345 1000) = str "12.345" /\
  show_double (ddiv (of_int 1) (of_int 0)) = str "inf".
Proof. by vm_compute. Qed.

(** ** Single precision *)

(** Conversion to [float]: rounded to 24 bits. *)
Definition to_float (x : double) : double :=
  match x with
  | S754_finite s m e => binary_round 24 128 s m e
  | _ => x
  end.

(** [stream << std::fixed << std::setprecision(1) << x] *)
Definition show_fixed1 (x : double) : bytes :=
  match x with
  | S754_infinity s => if s then str "-inf" else str "inf"
  | S754_nan => str "-nan"
  | S754_zero s => if s then str "-0.0" else str "0.0"
  | S754_finite s m e =>
      let tenths := if e <? 0 then round_even (Zpos m * 10) (2 ^ (- e)) else Zpos m * 2 ^ e * 10 in
      (if s then str "-" else []) ++ dec (tenths / 10) ++ str "." ++ dec (tenths mod 10)
  end.

Example show_fixed1_samples :
  show_fixed1 (to_float (literal 2500 101)) = str "24.8" /\ show_fixed1 (to_float (literal 1 4)) = str "0.2" /\
  show_fixed1 (to_float (ddiv (of_int 10) (ddiv (of_int 1) (of_int 1000)))) = str "10000.0" /\
  show_fixed1 (to_float (literal 167772170 10)) = str "16777216.0" /\ show_fixed1 (of_int 0) = str "0.0".
Proof. by vm_compute. Qed.
