(* ===== verification/KineticIo.v ===== *)
(** * The state of the library (src/KineticIoSingleton.cc)

    One object holds what all files share: the block cache, the thread pool and the configured
    read-ahead window.  The model adds the memory they live in: the blocks and the file objects, by
    address, and the system behind the clusters.  Addresses of blocks also name the items of the
    cache: an item and its block are created together and stay together. *)

From S2P Require Import Prelude CppString Utility Kinetic Cluster ClusterInterface DataBlock PrefetchOracle BackgroundOperationHandler.
Import DataBlock PrefetchOracle BackgroundOperationHandler.

Abbreviation block_ptr := positive (only parsing).
Abbreviation file_ptr := positive (only parsing).

(** ** The data cache (include/DataCache.hh) *)

Module Cache.

Record CacheItem := mkItem {
  owners : gset file_ptr;
  data : block_ptr;
  last_access : Z;
}.

(** An iterator is the address of the block of the item it refers to, which is also what the
    comparison of iterators compares. *)
Record DataCache := mkCache {
  capacity : Z;
  current_size : Z;
  unused_size : Z;
  cache : list CacheItem;
  unused_items : list CacheItem;
  lookup : gmap bytes block_ptr;
  owner_tables : gmap file_ptr (gset block_ptr);
}.

End Cache.

(** ** File objects (include/FileIo.hh) *)

Module File.

Record FileIo {Cl : Type} := mkFile {
  cluster : Cl;
  prefetchOracle : PrefetchOracle;
  eof_blocknumber : Z;
  eof_verification_time : Z;
  exceptions : list exn;
  opened : bool;
  path : bytes;
}.
Arguments FileIo : clear implicits.
Arguments mkFile {Cl} _ _ _ _ _ _ _.

End File.

(** ** Background tasks *)

(** The functions handed to the thread pool, with the pointers they hold on to. *)
Inductive task :=
  | CacheFlush (data : block_ptr)
  | FileFlush (this : file_ptr) (data : block_ptr)
  | Readahead (data : block_ptr).

Definition task_data (t : task) : block_ptr :=
  match t with CacheFlush data | FileFlush _ data | Readahead data => data end.

Module KineticIo.

Record KineticIo {W Cl : Type} := mkKio {
  dataCache : Cache.DataCache;
  threadPool : BackgroundOperationHandler (T:=task);
  (* tasks that run in threads of their own or were taken from the queue *)
  running : list task;
  readahead_window_size : nat;
  blocks : gmap block_ptr (DataBlock Cl);
  files : gmap file_ptr (File.FileIo Cl);
  (* shared pointers to blocks in local variables of operations *)
  locals : list block_ptr;
  world : W;
}.
Arguments KineticIo : clear implicits.
Arguments mkKio {W Cl} _ _ _ _ _ _ _ _.

Section State.
Context {W Cl : Type}.
Implicit Types k : KineticIo W Cl.

Definition set_cache (f : Cache.DataCache -> Cache.DataCache) k : KineticIo W Cl :=
  mkKio (f (dataCache k)) (threadPool k) (running k) (readahead_window_size k) (blocks k) (files k) (locals k) (world k).
Definition set_blocks (f : gmap block_ptr (DataBlock Cl) -> gmap block_ptr (DataBlock Cl)) k : KineticIo W Cl :=
  mkKio (dataCache k) (threadPool k) (running k) (readahead_window_size k) (f (blocks k)) (files k) (locals k) (world k).
Definition set_files (f : gmap file_ptr (File.FileIo Cl) -> gmap file_ptr (File.FileIo Cl)) k : KineticIo W Cl :=
  mkKio (dataCache k) (threadPool k) (running k) (readahead_window_size k) (blocks k) (f (files k)) (locals k) (world k).
Definition set_locals (f : list block_ptr -> list block_ptr) k : KineticIo W Cl :=
  mkKio (dataCache k) (threadPool k) (running k) (readahead_window_size k) (blocks k) (files k) (f (locals k)) (world k).
Definition set_world (w : W) k : KineticIo W Cl :=
  mkKio (dataCache k) (threadPool k) (running k) (readahead_window_size k) (blocks k) (files k) (locals k) w.
Definition set_pool (p : BackgroundOperationHandler (T:=task)) (started : list task) k : KineticIo W Cl :=
  mkKio (dataCache k) p (running k ++ started) (readahead_window_size k) (blocks k) (files k) (locals k) (world k).

Abbreviation Mk := (M (KineticIo W Cl)).

(** Operations of a block run on the block and the system. *)
Definition on_block {A} (p : block_ptr) (m : M (DataBlock Cl * W) A) : Mk A := fun k =>
  match blocks k !! p with
  | Some b => let '(o, (b', w')) := m (b, world k) in (o, set_world w' (set_blocks (insert p b') k))
  | None => (UB, k)
  end.

Definition on_world {A} (m : M W A) : Mk A := zoom world set_world m.

(** The members of a file object. *)
Definition the_file (f : file_ptr) : Mk (File.FileIo Cl) := k ← get; lift (deref (files k !! f)).
Definition set_file (f : file_ptr) (g : File.FileIo Cl -> File.FileIo Cl) : Mk unit := modify (set_files (alter g f)).

Definition is_dirty (p : block_ptr) : Mk bool := k ← get; b ← lift (deref (blocks k !! p)); mret (dirty b).

(** [unique()]: no pointer but the one in the cache. *)
Definition pointers k : list block_ptr :=
  locals k ++ (task_data <$> q (threadPool k)) ++ (task_data <$> running k).
Definition unique (p : block_ptr) : Mk bool := gets (fun k => bool_decide (p ∉ pointers k)).

(** [kio().threadpool().try_run(...)] *)
Definition pool_try_run (t : task) : Mk bool :=
  k ← get;
  let '(a, p) := try_run t (threadPool k) in
  modify (set_pool p (match a with NewThread => [t] | _ => [] end));;
  mret (match a with Refused => false | _ => true end).

(** A local variable that holds a pointer for the duration of [m]. *)
Definition with_local {A} (p : block_ptr) (m : Mk A) : Mk A := fun k =>
  let '(o, k') := m (set_locals (cons p) k) in (o, set_locals (drop 1) k').

End State.
End KineticIo.
