(* ===== verification/DataCache.v ===== *)
(** * The block cache (src/DataCache.cc)

    A list of blocks in order of use, a table to look them up by key, a table of the blocks each
    file object has used, and a pool of blocks kept for re-use.  The member functions run under the
    cache mutex, so each is one step of the state; [flush] flushes outside of it.

    A [std::set] of iterators is ordered by address; the model visits it in the order of [elements],
    and no result depends on it. *)

From S2P Require Import Prelude CppString Utility Kinetic Cluster ClusterInterface DataBlock.
From S2P Require Import PrefetchOracle BackgroundOperationHandler Double KineticIo.
Import KineticIo.

Module DataCache.
Import Cache BackgroundOperationHandler.

Definition new_cache (capacity : Z) : DataCache := mkCache capacity 0 0 [] [] ∅ ∅.

Definition changeConfiguration (cap : Z) (c : DataCache) : DataCache :=
  mkCache cap (current_size c) (unused_size c) (cache c) (unused_items c) (lookup c) (owner_tables c).

Definition utilization (c : DataCache) : double := ddiv (of_int (current_size c)) (of_int (capacity c)).

(** ** Members of the state *)

Definition set_sizes (current unused : Z) (c : DataCache) : DataCache :=
  mkCache (capacity c) current unused (cache c) (unused_items c) (lookup c) (owner_tables c).
Definition set_lists (l l' : list CacheItem) (c : DataCache) : DataCache :=
  mkCache (capacity c) (current_size c) (unused_size c) l l' (lookup c) (owner_tables c).
Definition set_lookup (f : gmap bytes block_ptr -> gmap bytes block_ptr) (c : DataCache) : DataCache :=
  mkCache (capacity c) (current_size c) (unused_size c) (cache c) (unused_items c) (f (lookup c)) (owner_tables c).
Definition set_owners (f : gmap file_ptr (gset block_ptr) -> gmap file_ptr (gset block_ptr)) (c : DataCache) : DataCache :=
  mkCache (capacity c) (current_size c) (unused_size c) (cache c) (unused_items c) (lookup c) (f (owner_tables c)).

(** [owner_tables[owner].insert(it)] and [owner_tables[owner].erase(it)]; both create the entry. *)
Definition table_insert (it : block_ptr) (owner : file_ptr) (t : gmap file_ptr (gset block_ptr)) : gmap file_ptr (gset block_ptr) :=
  <[owner := {[it]} ∪ default ∅ (t !! owner)]> t.
Definition table_erase (it : block_ptr) (owner : file_ptr) (t : gmap file_ptr (gset block_ptr)) : gmap file_ptr (gset block_ptr) :=
  <[owner := default ∅ (t !! owner) ∖ {[it]}]> t.

Definition is_item (it : block_ptr) (i : CacheItem) : bool := bool_decide (data i = it).
Definition find_item (it : block_ptr) (l : list CacheItem) : option CacheItem := List.find (is_item it) l.
Definition without (it : block_ptr) (l : list CacheItem) : list CacheItem := filter (fun i => is_item it i = false) l.

(** The element after the one [it] refers to; [None] is the end of the list. *)
Fixpoint next_of (it : block_ptr) (l : list CacheItem) : option block_ptr :=
  match l with
  | i :: ((i' :: _) as l') => if is_item it i then Some (data i') else next_of it l'
  | _ => None
  end.

Definition erase_owner (owner : file_ptr) (i : CacheItem) : CacheItem := mkItem (owners i ∖ {[owner]}) (data i) (last_access i).

Definition update_item (it : block_ptr) (f : CacheItem -> CacheItem) (l : list CacheItem) : list CacheItem :=
  (fun i => if is_item it i then f i else i) <$> l.

Section Cache.
Context {W Cl : Type} `{ClusterInterface W Cl}.
Abbreviation Mk := (M (KineticIo W Cl)).

Definition the_cache : Mk DataCache := gets dataCache.
Definition change (f : DataCache -> DataCache) : Mk unit := modify (set_cache f).

(** [*it] of an element of the cache list. *)
Definition item (it : block_ptr) : Mk CacheItem := c ← the_cache; lift (deref (find_item it (cache c))).

(** ** Removing items *)

Definition remove_item (it : block_ptr) : Mk (option block_ptr) :=
  i ← item it;
  change (set_owners (fun t => foldr (table_erase it) t (elements (owners i))));;
  identity ← on_block it DataBlock.getIdentity;
  change (set_lookup (delete identity));;
  cap ← on_block it DataBlock.capacity;
  change (fun c => set_sizes (u64 (current_size c - cap)) (unused_size c) c);;
  c ← the_cache;
  let next_it := next_of it (cache c) in
  if dltb (dmul (literal 1 10) (of_int (capacity c))) (of_int (unused_size c)) then
    change (fun c => set_lists (without it (cache c)) (unused_items c) c);;
    mret next_it
  else
    cap ← on_block it DataBlock.capacity;
    change (fun c => set_sizes (current_size c) (u64 (unused_size c + cap)) c);;
    change (fun c => set_lists (without it (cache c)) (i :: unused_items c) c);;
    mret next_it.

Fixpoint drop_items (owner : file_ptr) (force : bool) (its : list block_ptr) : Mk unit :=
  match its with
  | [] => mret tt
  | it :: its' =>
      item it;;
      change (fun c => set_lists (update_item it (erase_owner owner) (cache c)) (unused_items c) c);;
      when force (remove_item it;; mret tt);;
      drop_items owner force its'
  end.

(** [drop]; the elements of a set that is not in the table are none. *)
Definition drop_owner (owner : file_ptr) (force : bool) : Mk unit :=
  c ← the_cache;
  drop_items owner force (elements (default ∅ (owner_tables c !! owner)));;
  change (set_owners (delete owner)).

(** ** Flushing *)

(** How often a block starts over when others write it at the same time. *)
Variable restarts : nat.

Definition flush_if_dirty (it : block_ptr) : Mk unit :=
  d ← is_dirty it; when d (on_block it (DataBlock.flush restarts)).

Fixpoint flush_all (its : list block_ptr) : Mk unit :=
  match its with
  | [] => mret tt
  | it :: its' => flush_if_dirty it;; flush_all its'
  end.

(** [blocks] holds on to the blocks while they are flushed. *)
Definition flush (owner : file_ptr) : Mk unit :=
  c ← the_cache;
  let blocks := elements (default ∅ (owner_tables c !! owner)) in
  foldr with_local (flush_all blocks) blocks.

(** ** Making room *)

(** The loops of [try_shrink] run backwards from the last element and leave the first alone.  The first
    loop continues with the element before the one it removed. *)
Fixpoint shrink_loop (expired : Z) (num_items : double) (count_items : Z) (its : list block_ptr) : Mk unit :=
  match its with
  | [] => mret tt
  | it :: its' =>
      if dltb (of_int count_items) num_items then
        i ← item it;
        d ← is_dirty it;
        u ← unique it;
        (if (bool_decide (owners i = ∅) || (last_access i <? expired)) && negb d && u
         then remove_item it;; mret tt
         else when (d && (last_access i <? expired)) (pool_try_run (CacheFlush it);; mret tt));;
        shrink_loop expired num_items (count_items + 1) its'
      else mret tt
  end.

(** The other loops decrement the iterator of the element they have just removed: it refers to an element
    that is destroyed, or to the first one of the other list. *)
Fixpoint force_clean (its : list block_ptr) : Mk unit :=
  match its with
  | [] => mret tt
  | it :: its' =>
      c ← the_cache;
      if capacity c <? current_size c then
        u ← unique it;
        d ← is_dirty it;
        if u && negb d then remove_item it;; lift UB else force_clean its'
      else mret tt
  end.

(** The exception of a block that cannot be flushed is caught. *)
Definition try_flush (it : block_ptr) : Mk bool :=
  try_catch (flush_if_dirty it;; mret true) (fun _ => mret false).

Fixpoint force_flush (its : list block_ptr) : Mk unit :=
  match its with
  | [] => mret tt
  | it :: its' =>
      c ← the_cache;
      if capacity c <? current_size c then
        u ← unique it;
        if (u : bool) then
          flushed ← try_flush it;
          if (flushed : bool) then remove_item it;; lift UB else force_flush its'
        else force_flush its'
      else mret tt
  end.

(** The elements the loops visit: all but the first, from the last one. *)
Definition from_the_end (c : DataCache) : list block_ptr := reverse (data <$> tail (cache c)).

Definition expired_after : Z := 5 * ns_per_s.

Definition try_shrink : Mk unit :=
  now ← on_world (ci_now (Cl:=Cl));
  let expired := now - expired_after in
  c ← the_cache;
  back ← lift (deref (last (cache c)));
  cap ← on_block (data back) DataBlock.capacity;
  if cap =? 0 then lift UB else
  let num_items := dmul (of_int (current_size c / cap)) (literal 1 10) in
  shrink_loop expired num_items 0 (from_the_end c);;
  c ← the_cache;
  when (capacity c <? current_size c)
    (force_clean (from_the_end c);;
     c ← the_cache;
     force_flush (from_the_end c)).

(** ** Looking up and adding blocks *)

Definition getDataKey (owner : file_ptr) (blocknumber : Z) (mode : DataBlock.Mode) : Mk block_ptr :=
  f ← the_file owner;
  cid ← gets (fun k => ci_id (File.cluster f) (world k));
  instance ← gets (fun k => ci_instanceId (File.cluster f) (world k));
  let data_key := makeDataKey cid (File.path f) blocknumber in
  let cache_key := data_key ++ instance in
  c ← the_cache;
  match lookup c !! cache_key with
  | Some it =>
      i ← item it;
      change (fun c => set_lists (i :: without it (cache c)) (unused_items c) c);;
      change (set_owners (table_insert it owner));;
      now ← on_world (ci_now (Cl:=Cl));
      change (fun c => set_lists (update_item it (fun i => mkItem ({[owner]} ∪ owners i) (data i) now) (cache c)) (unused_items c) c);;
      mret it
  | None =>
      when (dltb (dmul (of_int (capacity c)) (literal 7 10)) (of_int (current_size c))) try_shrink;;
      c ← the_cache;
      it ← match unused_items c with
           | i :: unused' =>
               cap ← on_block (data i) DataBlock.capacity;
               change (fun c => set_sizes (current_size c) (u64 (unused_size c - cap)) c);;
               on_block (data i) (DataBlock.reassign (File.cluster f) data_key mode);;
               now ← on_world (ci_now (Cl:=Cl));
               change (fun c => set_lists (mkItem {[owner]} (data i) now :: cache c) unused' c);;
               mret (data i)
           | [] =>
               b ← on_world (DataBlock.new_block (Some (File.cluster f)) data_key mode);
               now ← on_world (ci_now (Cl:=Cl));
               it ← gets (fun k => fresh (dom (blocks k)));
               modify (set_blocks (insert it b));;
               change (fun c => set_lists (mkItem {[owner]} it now :: cache c) [] c);;
               mret it
           end;
      cap ← on_block it DataBlock.capacity;
      change (fun c => set_sizes (u64 (current_size c + cap)) (unused_size c) c);;
      change (set_lookup (insert cache_key it));;
      change (set_owners (table_insert it owner));;
      mret it
  end.

End Cache.
End DataCache.

(** ** Lemmas *)

Import Cache BackgroundOperationHandler.
#[local] Arguments u64 : simpl never.

Section Facts.
Context `{ClusterFacts W Cl}.
Implicit Types (k : KineticIo W Cl) (b : DataBlock.DataBlock Cl) (i : CacheItem) (it : block_ptr).

(** What the cache calls a block. *)
Definition identity b : bytes := DataBlock.key b ++ store_instance (DataBlock.cluster b).

(** The memory the blocks of a list of items take. *)
Definition block_cap (bs : gmap block_ptr (DataBlock.DataBlock Cl)) it : Z :=
  match bs !! it with Some b => cap b | None => 0 end.
Definition total (bs : gmap block_ptr (DataBlock.DataBlock Cl)) (its : list block_ptr) : Z :=
  foldr (fun it n => block_cap bs it + n) 0 its.
#[local] Arguments total : simpl never.

Definition cached k : list block_ptr := data <$> cache (dataCache k).
Definition unused k : list block_ptr := data <$> unused_items (dataCache k).

(** The tables of the cache describe its list: every item has one block, the lookup table finds exactly
    the blocks of the list under their names, an owner's table holds exactly the items the owner is
    recorded with, and the sizes are those of the blocks, as far as the integers can hold them. *)
Record cache_wf k : Prop := {
  wf_nodup : NoDup (cached k ++ unused k);
  wf_blocks : forall it, it ∈ cached k ++ unused k -> is_Some (blocks k !! it);
  wf_lookup : forall name it, lookup (dataCache k) !! name = Some it <->
    it ∈ cached k /\ exists b, blocks k !! it = Some b /\ identity b = name;
  wf_tables : forall owner it, it ∈ default ∅ (owner_tables (dataCache k) !! owner) <->
    exists i, i ∈ cache (dataCache k) /\ data i = it /\ owner ∈ owners i;
  wf_current : current_size (dataCache k) = u64 (total (blocks k) (cached k));
  wf_unused : unused_size (dataCache k) = u64 (total (blocks k) (unused k));
}.

(** Blocks have a size, and all together fit into memory. *)
Record cache_ok k : Prop := {
  ok_wf :> cache_wf k;
  ok_blocks : forall it, it ∈ cached k ++ unused k -> exists b, blocks k !! it = Some b /\ 0 < cap b;
  ok_total : total (blocks k) (cached k) + total (blocks k) (unused k) < 2 ^ 64;
}.

(** *** Running operations of blocks *)

Lemma on_block_ret {A} it (m : M (DataBlock.DataBlock Cl * W) A) k b a b' w' :
  blocks k !! it = Some b -> m (b, world k) = (Ret a, (b', w')) ->
  on_block it m k = (Ret a, set_world w' (set_blocks (insert it b') k)).
Proof. intros E Em. unfold on_block. by rewrite E, Em. Qed.

Lemma set_same k it b : blocks k !! it = Some b -> set_world (world k) (set_blocks (insert it b) k) = k.
Proof. intros E. destruct k. unfold set_world, set_blocks. simpl in *. by rewrite insert_id. Qed.

Lemma on_block_pure {A} it (m : M (DataBlock.DataBlock Cl * W) A) k b a :
  blocks k !! it = Some b -> m (b, world k) = (Ret a, (b, world k)) -> on_block it m k = (Ret a, k).
Proof. intros E Em. rewrite (on_block_ret it m k b a b (world k)) by done. by rewrite set_same. Qed.

Lemma on_block_capacity it k b : blocks k !! it = Some b -> on_block it DataBlock.capacity k = (Ret (cap b), k).
Proof. intros E. eapply on_block_pure; [done|]. apply capacity_spec. Qed.

Lemma on_block_identity it k b : blocks k !! it = Some b -> on_block it DataBlock.getIdentity k = (Ret (identity b), k).
Proof.
  intros E. eapply on_block_pure; [done|]. unfold DataBlock.getIdentity, DataBlock.block. mstep. cbn [fst snd].
  by rewrite instance_store.
Qed.

(** The clock was read, some times. *)
Definition ticked (w w' : W) : Prop := rtc (fun w w' => exists t, ci_now (Cl:=Cl) w = (Ret t, w')) w w'.

#[local] Instance ticked_preorder : PreOrder ticked.
Proof. apply rtc_po. Qed.

Lemma on_now k : exists t w', on_world (ci_now (Cl:=Cl)) k = (Ret t, set_world w' k) /\ ticked (world k) w'.
Proof.
  destruct (now_returns (world k)) as (t & w' & E). exists t, w'. split; [|apply rtc_once; by exists t].
  unfold on_world, zoom. by rewrite E.
Qed.

(** An empty cache is in order. *)
Lemma new_cache_ok k n : dataCache k = DataCache.new_cache n -> cache_ok k.
Proof.
  intros E. assert (forall it, it ∉ cached k ++ unused k) as Hn by (intros it; unfold cached, unused; rewrite E; apply not_elem_of_nil).
  assert (forall it, it ∉ cached k) as Hc by (intros it Hit; apply (Hn it), elem_of_app; by left).
  split; [split|..]; try (by intros it Hit; destruct (Hn it)); unfold cached, unused in *; rewrite ?E in *; try done; cbn.
  - constructor.
  - intros name it. rewrite lookup_empty. split; [done|]. by intros [?%Hc _].
  - intros owner it. rewrite lookup_empty. simpl. split; [set_solver|]. intros (i & Hi & _). by apply not_elem_of_nil in Hi.
Qed.

(** *** Lists of items *)

Lemma find_item_spec i (l : list CacheItem) :
  NoDup (data <$> l) -> i ∈ l -> DataCache.find_item (data i) l = Some i.
Proof.
  unfold DataCache.find_item. induction l as [|j l IH]; intros Hn Hi; [by apply not_elem_of_nil in Hi|].
  apply NoDup_cons in Hn as [Hj Hn]. cbn. unfold DataCache.is_item at 1. case_bool_decide as E.
  - apply elem_of_cons in Hi as [->|Hi]; [done|]. destruct Hj. rewrite E. by apply list_elem_of_fmap_2.
  - apply elem_of_cons in Hi as [->|Hi]; [done|]. by apply IH.
Qed.

Lemma elem_of_without it i (l : list CacheItem) : i ∈ DataCache.without it l <-> i ∈ l /\ data i <> it.
Proof.
  unfold DataCache.without. rewrite list_elem_of_filter. unfold DataCache.is_item. case_bool_decide; naive_solver.
Qed.

Lemma without_absent it (l : list CacheItem) : it ∉ data <$> l -> DataCache.without it l = l.
Proof.
  induction l as [|j l IH]; intros Hn; [done|]. cbn in Hn. apply not_elem_of_cons in Hn as [Hj Hn].
  unfold DataCache.without. rewrite filter_cons, decide_True by (by apply bool_decide_eq_false_2).
  f_equal. by apply IH.
Qed.

Lemma without_split l1 i l2 :
  NoDup (data <$> l1 ++ i :: l2) -> DataCache.without (data i) (l1 ++ i :: l2) = l1 ++ l2.
Proof.
  intros Hn. rewrite fmap_app, fmap_cons in Hn. apply NoDup_app in Hn as (_ & Hd & [Hi _]%NoDup_cons).
  unfold DataCache.without. rewrite filter_app, filter_cons. rewrite decide_False.
  2: { intros E. by apply bool_decide_eq_false in E. }
  f_equal.
  - apply without_absent. intros Hin. apply (Hd _ Hin). constructor.
  - by apply without_absent.
Qed.

Lemma total_cons bs it l : total bs (it :: l) = block_cap bs it + total bs l.
Proof. done. Qed.

Lemma total_app bs l l' : total bs (l ++ l') = total bs l + total bs l'.
Proof. induction l as [|x l IH]; [done|]. rewrite <- app_comm_cons, !total_cons, IH. lia. Qed.

Lemma total_nonneg bs l : (forall it, it ∈ l -> 0 <= block_cap bs it) -> 0 <= total bs l.
Proof.
  intros Hl. induction l as [|x l IH]; [done|]. rewrite total_cons. specialize (Hl x) as Hx.
  assert (0 <= total bs l) by (apply IH; intros; apply Hl; by constructor). specialize (Hx ltac:(constructor)). lia.
Qed.

Lemma total_ext bs bs' l : (forall it, it ∈ l -> block_cap bs it = block_cap bs' it) -> total bs l = total bs' l.
Proof.
  intros Hl. induction l as [|x l IH]; [done|]. rewrite !total_cons, (Hl x) by constructor. f_equal. apply IH. intros. apply Hl. by constructor.
Qed.

(** *** Removing an item *)

Lemma table_erase_foldr it (os : list file_ptr) t owner it' :
  it' ∈ default ∅ (foldr (DataCache.table_erase it) t os !! owner) <->
  it' ∈ default ∅ (t !! owner) /\ ~ (it' = it /\ owner ∈ os).
Proof.
  induction os as [|o os IH]; cbn [foldr]; [set_solver|]. unfold DataCache.table_erase at 1.
  destruct (decide (o = owner)) as [->|Hne].
  - rewrite lookup_insert_eq. cbn [default from_option id]. set_solver.
  - rewrite lookup_insert_ne by done. rewrite IH. set_solver.
Qed.

(** The cache after [remove_item] of an item. *)
Definition removed k i name (keep : bool) : DataCache :=
  let c := dataCache k in
  let n := block_cap (blocks k) (data i) in
  mkCache (capacity c) (u64 (current_size c - n)) (if keep then u64 (unused_size c + n) else unused_size c)
    (DataCache.without (data i) (cache c)) (if keep then i :: unused_items c else unused_items c)
    (delete name (lookup c)) (foldr (DataCache.table_erase (data i)) (owner_tables c) (elements (owners i))).

Lemma cached_cap k it : cache_ok k -> it ∈ cached k ++ unused k -> 0 < block_cap (blocks k) it.
Proof. intros Hok Hi. destruct (ok_blocks k Hok it Hi) as (b & Hb & Hc). unfold block_cap. by rewrite Hb. Qed.

Lemma totals_nonneg k : cache_ok k -> 0 <= total (blocks k) (cached k) /\ 0 <= total (blocks k) (unused k).
Proof.
  intros Hok. split; apply total_nonneg; intros it Hi; apply Z.lt_le_incl, cached_cap; rewrite ?elem_of_app; auto.
Qed.

Lemma ok_current k : cache_ok k -> current_size (dataCache k) = total (blocks k) (cached k).
Proof. intros Hok. destruct (totals_nonneg k Hok). rewrite (wf_current k (ok_wf k Hok)). pose proof (ok_total k Hok). apply u64_small. lia. Qed.

Lemma ok_unused k : cache_ok k -> unused_size (dataCache k) = total (blocks k) (unused k).
Proof. intros Hok. destruct (totals_nonneg k Hok). rewrite (wf_unused k (ok_wf k Hok)). pose proof (ok_total k Hok). apply u64_small. lia. Qed.

Lemma ok_lookup k : cache_ok k -> forall name it, lookup (dataCache k) !! name = Some it <->
  it ∈ cached k /\ exists b, blocks k !! it = Some b /\ identity b = name.
Proof. intros Hok. apply (wf_lookup k (ok_wf k Hok)). Qed.

(** Taking an item out of the list. *)
Lemma take_out k i : cache_wf k -> i ∈ cache (dataCache k) -> exists l1 l2,
  cache (dataCache k) = l1 ++ i :: l2 /\ DataCache.without (data i) (cache (dataCache k)) = l1 ++ l2 /\
  total (blocks k) (cached k) = block_cap (blocks k) (data i) + total (blocks k) (data <$> l1 ++ l2).
Proof.
  intros Hwf Hi. destruct (list_elem_of_split _ _ Hi) as (l1 & l2 & E). exists l1, l2.
  pose proof (wf_nodup k Hwf) as Hn. apply NoDup_app in Hn as (Hn & _ & _). unfold cached in *. rewrite E in *.
  split_and!; [done|by apply without_split|]. rewrite !fmap_app, fmap_cons, !total_app, total_cons. lia.
Qed.

(** The same state with other owner tables: those of [drop] are out of date while it runs. *)
Definition with_tables (t : gmap file_ptr (gset block_ptr)) k : KineticIo W Cl := set_cache (DataCache.set_owners (fun _ => t)) k.

Lemma with_same_tables k : with_tables (owner_tables (dataCache k)) k = k.
Proof. destruct k as [[]]. done. Qed.

Lemma remove_item_run_tables k t i b :
  cache_wf (with_tables t k) -> i ∈ cache (dataCache k) -> blocks k !! data i = Some b ->
  exists next keep, DataCache.remove_item (data i) k = (Ret next, set_cache (fun _ => removed k i (identity b) keep) k).
Proof.
  intros Hwf Hi Hb. pose proof (wf_nodup _ Hwf) as Hn. apply NoDup_app in Hn as (Hn & _ & _).
  assert (block_cap (blocks k) (data i) = cap b) as Hcap by (unfold block_cap; by rewrite Hb).
  unfold DataCache.remove_item, DataCache.item, DataCache.change, DataCache.the_cache. mstep.
  rewrite find_item_spec by done. cbn [deref]. mstep.
  erewrite (bind_ret (on_block _ _)) by (apply on_block_identity; exact Hb). mstep.
  erewrite (bind_ret (on_block _ _)) by (apply on_block_capacity; exact Hb). mstep.
  match goal with |- context [DataCache.next_of ?a ?l] => exists (DataCache.next_of a l) end.
  destruct (dltb _ _).
  - exists false. unfold removed. rewrite Hcap. by mstep.
  - exists true. unfold removed. rewrite Hcap. mstep. erewrite (bind_ret (on_block _ _)) by (apply on_block_capacity; exact Hb). by mstep.
Qed.

Lemma remove_item_run k i b :
  cache_wf k -> i ∈ cache (dataCache k) -> blocks k !! data i = Some b ->
  exists next keep, DataCache.remove_item (data i) k = (Ret next, set_cache (fun _ => removed k i (identity b) keep) k).
Proof. intros Hwf. apply (remove_item_run_tables k (owner_tables (dataCache k))). by rewrite with_same_tables. Qed.

(** Items of different places have different blocks. *)
Lemma inj_items k i j : cache_wf k -> i ∈ cache (dataCache k) -> j ∈ cache (dataCache k) -> data i = data j -> i = j.
Proof.
  intros Hwf Hi Hj E. destruct (take_out k i Hwf Hi) as (l1 & l2 & El & Ew & _).
  assert (~ j ∈ l1 ++ l2) as Hn by (rewrite <- Ew; by intros [_ ?]%elem_of_without).
  rewrite El in Hj. set_solver.
Qed.

(** The items that are left, and what they take. *)
Lemma removed_items k i name keep :
  cache_wf k -> i ∈ cache (dataCache k) -> let k' := set_cache (fun _ => removed k i name keep) k in
  (forall x, x ∈ cached k' <-> x ∈ cached k /\ x <> data i) /\ cached k' ++ unused k' ⊆ cached k ++ unused k /\
  NoDup (cached k' ++ unused k') /\
  total (blocks k) (cached k') = total (blocks k) (cached k) - block_cap (blocks k) (data i) /\
  total (blocks k) (unused k') = total (blocks k) (unused k) + (if keep then block_cap (blocks k) (data i) else 0).
Proof.
  intros Hwf Hi k'. destruct (take_out k i Hwf Hi) as (l1 & l2 & El & Ew & Htot). pose proof (wf_nodup k Hwf) as Hn.
  unfold k', cached, unused, removed in *. cbn. rewrite Ew. rewrite El in *. rewrite fmap_app, fmap_cons in Hn.
  assert (NoDup ((data <$> l1 ++ l2) ++ data i :: (data <$> unused_items (dataCache k)))) as Hn'.
  { assert (Permutation ((data <$> l1 ++ l2) ++ data i :: (data <$> unused_items (dataCache k)))
      (((data <$> l1) ++ data i :: (data <$> l2)) ++ (data <$> unused_items (dataCache k)))) as ->; [|done].
    rewrite !fmap_app, <- !app_assoc. cbn. by rewrite !Permutation_middle. }
  assert (data i ∉ data <$> l1 ++ l2) as Hni.
  { apply NoDup_app in Hn' as (_ & Hd & _). intros Hin. apply (Hd _ Hin). constructor. }
  split_and!.
  - intros x. rewrite !fmap_app, fmap_cons in *. split; [|set_solver]. intros Hx. split; [set_solver|]. intros ->. by apply Hni.
  - rewrite !fmap_app, fmap_cons. destruct keep; set_solver.
  - destruct keep; [done|]. rewrite NoDup_app in *. destruct Hn' as (H1' & H2' & [_ H3']%NoDup_cons). split_and!; try done.
    intros x Hx Hx'. apply (H2' x Hx). by constructor.
  - lia.
  - destruct keep; rewrite ?fmap_cons, ?total_cons; lia.
Qed.

Lemma removed_wf k i b keep :
  cache_wf k -> i ∈ cache (dataCache k) -> blocks k !! data i = Some b ->
  cache_wf (set_cache (fun _ => removed k i (identity b) keep) k).
Proof.
  intros Hwf Hi Hb. destruct (removed_items k i (identity b) keep Hwf Hi) as (Hin & Hsub & Hnd & Htc & Htu).
  pose proof Hwf as [Hn Hbl Hl Ht Hc Hu].
  set (k' := set_cache _ k) in *. split; [done|by intros it Hit; apply Hbl, Hsub|..].
  - intros name it. rewrite Hin. cbn. rewrite lookup_delete_Some, Hl. split.
    + intros (Hne & Hit & b' & Hb' & Hid). split; [|by exists b']. split; [done|]. intros ->. congruence.
    + intros ([Hit Hne] & b' & Hb' & Hid). split_and!; [|done|by exists b']. intros <-. apply Hne.
      assert (lookup (dataCache k) !! identity b = Some (data i)) as E1 by (apply Hl; split; [by apply list_elem_of_fmap_2|by exists b]).
      assert (lookup (dataCache k) !! identity b = Some it) as E2 by (apply Hl; split; [done|by exists b']). congruence.
  - intros owner it. cbn. rewrite table_erase_foldr, Ht, elem_of_elements. split.
    + intros [(j & Hj & <- & Ho) Hne]. exists j. split_and!; try done. apply elem_of_without. split; [done|]. intros E. apply Hne.
      split; [done|]. assert (j = i) as ->; [|done]. apply (inj_items k); [done|done|done|done].
    + intros (j & [Hj Hne]%elem_of_without & <- & Ho). split; [by exists j|]. by intros [E _].
  - change (blocks k') with (blocks k). rewrite Htc. cbn. by rewrite Hc, u64_sub_l.
  - change (blocks k') with (blocks k). rewrite Htu. cbn. rewrite Hu. destruct keep; [apply u64_add_l|by rewrite Z.add_0_r].
Qed.

Lemma removed_ok k i b keep :
  cache_ok k -> i ∈ cache (dataCache k) -> blocks k !! data i = Some b ->
  cache_ok (set_cache (fun _ => removed k i (identity b) keep) k).
Proof.
  intros Hok Hi Hb. destruct (removed_items k i (identity b) keep (ok_wf k Hok) Hi) as (_ & Hsub & _ & Htc & Htu).
  pose proof (cached_cap k (data i) Hok ltac:(apply elem_of_app; left; by apply list_elem_of_fmap_2)) as Hci.
  split; [apply removed_wf; [apply Hok|done..]|intros it Hit; by apply (ok_blocks k Hok), Hsub|].
  set (k' := set_cache _ k) in *. change (blocks k') with (blocks k). pose proof (ok_total k Hok). rewrite Htc, Htu. destruct keep; lia.
Qed.

(** *** Making room *)

Lemma cache_wf_ext k k' : dataCache k' = dataCache k -> blocks k' = blocks k -> cache_wf k -> cache_wf k'.
Proof.
  intros Ec Eb [H1' H2' H3' H4' H5' H6']. unfold cached, unused in *.
  split; unfold cached, unused; rewrite ?Ec, ?Eb; done.
Qed.

Lemma cache_ok_ext k k' : dataCache k' = dataCache k -> blocks k' = blocks k -> cache_ok k -> cache_ok k'.
Proof.
  intros Ec Eb [H1' H2' H3']. split; [by apply (cache_wf_ext k)|..]; unfold cached, unused in *; rewrite ?Ec, ?Eb; done.
Qed.

(** An item whose block has no changes and that nobody points to. *)
Definition disposable k i : Prop :=
  (exists b, blocks k !! data i = Some b /\ DataBlock.dirty b = false) /\ data i ∉ pointers k.

(** The configuration that a look-up leaves alone. *)
Definition same_env k k' : Prop :=
  readahead_window_size k' = readahead_window_size k /\ queue_capacity (threadPool k') = queue_capacity (threadPool k) /\
  locals k' = locals k.

(** What making room may change: items that can be disposed of are gone, the first one never is. *)
Record shrunk k k' : Prop := {
  sh_wf : cache_wf k';
  sh_ok : cache_ok k -> cache_ok k';
  sh_blocks : blocks k' = blocks k;
  sh_files : files k' = files k;
  sh_world : world k' = world k;
  sh_pointers : pointers k ⊆ pointers k';
  sh_capacity : capacity (dataCache k') = capacity (dataCache k);
  sh_cache : sublist (cache (dataCache k')) (cache (dataCache k));
  sh_head : head (cache (dataCache k')) = head (cache (dataCache k));
  sh_kept : forall i, i ∈ cache (dataCache k) -> disposable k i \/ i ∈ cache (dataCache k');
  sh_total : cache_ok k -> total (blocks k') (cached k') + total (blocks k') (unused k') <= total (blocks k) (cached k) + total (blocks k) (unused k);
  sh_current : cache_ok k -> current_size (dataCache k') <= current_size (dataCache k);
  sh_env : same_env k k';
}.

Lemma shrunk_refl k : cache_wf k -> shrunk k k.
Proof. intros Hwf. split; try done. auto. Qed.

Lemma same_env_trans k1 k2 k3 : same_env k1 k2 -> same_env k2 k3 -> same_env k1 k3.
Proof. unfold same_env. intros (-> & -> & ->) (-> & -> & ->). done. Qed.

Lemma shrunk_trans k1 k2 k3 : shrunk k1 k2 -> shrunk k2 k3 -> shrunk k1 k3.
Proof.
  intros [] []. split; auto; try congruence; try (etrans; eassumption); [|intros; etrans; eauto..|by eapply same_env_trans].
  intros i Hi. destruct (sh_kept0 i Hi) as [?|Hi2]; [by left|]. destruct (sh_kept1 i Hi2) as [[Hd Hp]|?]; [|by right].
  left. split; [by rewrite <- sh_blocks0|]. intros Hin. apply Hp. by apply sh_pointers0.
Qed.

Lemma sublist_without it (l : list CacheItem) : sublist (DataCache.without it l) l.
Proof. apply sublist_filter. Qed.

Lemma removed_shrunk k i b keep :
  cache_wf k -> i ∈ cache (dataCache k) -> blocks k !! data i = Some b ->
  disposable k i -> i ∈ tail (cache (dataCache k)) ->
  shrunk k (set_cache (fun _ => removed k i (identity b) keep) k).
Proof.
  intros Hwf Hi Hb Hd Ht. destruct (take_out k i Hwf Hi) as (l1 & l2 & El & Ew & _).
  destruct (removed_items k i (identity b) keep Hwf Hi) as (_ & _ & _ & Htc & Htu).
  pose proof (removed_ok k i b keep) as Hok. pose proof (removed_wf k i b keep Hwf Hi Hb) as Hwf'.
  assert (cache_ok k -> 0 < block_cap (blocks k) (data i)) as Hci.
  { intros Hk. apply (cached_cap k (data i) Hk). apply elem_of_app. left. by apply list_elem_of_fmap_2. }
  set (k' := set_cache _ k) in *. change (blocks k') with (blocks k) in *. split; try done.
  - intros Hk. by apply Hok.
  - apply sublist_without.
  - unfold k', removed. cbn. rewrite Ew. pose proof (wf_nodup k Hwf) as (Hn & _ & _)%NoDup_app. unfold cached in Hn. rewrite El in *.
    destruct l1 as [|j l1]; [|done]. cbn in Ht, Hn. apply NoDup_cons in Hn as [Hn _]. destruct Hn. by apply list_elem_of_fmap_2.
  - intros j Hj. destruct (decide (data j = data i)) as [E|Hne].
    + left. unfold disposable. by rewrite E.
    + right. apply elem_of_without. done.
  - intros Hk. specialize (Hci Hk). change (blocks k') with (blocks k). rewrite Htc, Htu. destruct keep; lia.
  - intros Hk. specialize (Hci Hk). rewrite (ok_current k' (Hok Hk Hi Hb)). change (blocks k') with (blocks k). rewrite Htc, (ok_current k Hk). lia.
Qed.

Lemma pool_try_run_run t k : exists a p, pool_try_run t k = (Ret a, p) /\
  dataCache p = dataCache k /\ blocks p = blocks k /\ files p = files k /\ world p = world k /\ pointers k ⊆ pointers p /\
  same_env k p.
Proof.
  unfold pool_try_run. mstep. destruct (try_run t (threadPool k)) as [a p] eqn:E. mstep.
  eexists _, _. split; [done|]. unfold try_run, push in E. unfold pointers, same_env, set_pool. cbn.
  split_and!; try done; repeat case_bool_decide; simplify_eq; cbn; rewrite ?fmap_app; set_solver.
Qed.

Lemma item_run k i : cache_wf k -> i ∈ cache (dataCache k) -> DataCache.item (data i) k = (Ret i, k).
Proof.
  intros Hwf Hi. unfold DataCache.item, DataCache.the_cache. mstep. rewrite find_item_spec; [done| |done].
  by pose proof (wf_nodup k Hwf) as (? & _ & _)%NoDup_app.
Qed.

Lemma is_dirty_run k it b : blocks k !! it = Some b -> is_dirty it k = (Ret (DataBlock.dirty b), k).
Proof. intros E. unfold is_dirty. mstep. by rewrite E. Qed.

Lemma item_block k i : cache_wf k -> i ∈ cache (dataCache k) -> exists b, blocks k !! data i = Some b.
Proof. intros Hwf Hi. apply (wf_blocks k Hwf (data i)). apply elem_of_app. left. by apply list_elem_of_fmap_2. Qed.

Lemma elem_of_tail {A} (x : A) l : x ∈ tail l -> x ∈ l.
Proof. destruct l; [done|]. by constructor. Qed.

Lemma NoDup_fmap_tail_data k : cache_wf k -> NoDup (data <$> tail (cache (dataCache k))).
Proof.
  intros Hwf. pose proof (wf_nodup k Hwf) as (Hn & _ & _)%NoDup_app. unfold cached in Hn.
  destruct (cache (dataCache k)); [constructor|]. by apply NoDup_cons in Hn as [_ ?].
Qed.

(** One item of the first loop. *)
Definition shrink_item (remove flush : bool) i : M (KineticIo W Cl) unit :=
  d ← is_dirty (data i); u ← unique (data i);
  if remove && negb d && u then DataCache.remove_item (data i);; mret tt
  else when (d && flush) (pool_try_run (CacheFlush (data i));; mret tt).

Lemma shrink_item_run remove flush k i :
  cache_wf k -> i ∈ tail (cache (dataCache k)) ->
  exists k', shrink_item remove flush i k = (Ret tt, k') /\ shrunk k k' /\
    forall j, j ∈ tail (cache (dataCache k)) -> data j <> data i -> j ∈ tail (cache (dataCache k')).
Proof.
  intros Hwf Ht. pose proof (elem_of_tail _ _ Ht) as Hi. destruct (item_block k i Hwf Hi) as [b Hb].
  unfold shrink_item. rewrite (bind_ret _ _ _ _ _ (is_dirty_run k (data i) b Hb)). unfold unique. mstep.
  destruct (remove && negb (DataBlock.dirty b) && bool_decide (data i ∉ pointers k)) eqn:E.
  - bool_to_prop. destruct (remove_item_run k i b Hwf Hi Hb) as (next & keep & Er). rewrite (bind_ret _ _ _ _ _ Er).
    eexists. split; [done|]. split.
    + apply removed_shrunk; try done. split; [by exists b|done].
    + intros j Hj Hne. cbn. destruct (cache (dataCache k)) as [|h l] eqn:El; [done|]. cbn in Hj, Ht.
      unfold DataCache.without. rewrite filter_cons. case_decide as Hh.
      * cbn. apply list_elem_of_filter. split; [by apply bool_decide_eq_false|done].
      * apply not_false_iff_true, bool_decide_eq_true in Hh. pose proof (wf_nodup k Hwf) as (Hn & _ & _)%NoDup_app.
        unfold cached in Hn. rewrite El in Hn. apply NoDup_cons in Hn as [Hn _]. destruct Hn. rewrite Hh. by apply list_elem_of_fmap_2.
  - destruct (DataBlock.dirty b && flush); [|exists k; split; [done|]; split; [by apply shrunk_refl|done]].
    cbn [when]. destruct (pool_try_run_run (CacheFlush (data i)) k) as (a & p & Ep & Hc & Hb' & Hf & Hw & Hp & Henv).
    rewrite (bind_ret _ _ _ _ _ Ep). exists p. split; [done|]. split; [|by rewrite Hc].
    split; rewrite ?Hc, ?Hb'; try done; [by apply (cache_wf_ext k)|by apply cache_ok_ext|auto|]. unfold cached, unused. by rewrite Hc.
Qed.

(** The first loop. *)
Lemma shrink_loop_run expired num_items its : forall count k,
  cache_wf k -> NoDup its -> (forall it, it ∈ its -> it ∈ data <$> tail (cache (dataCache k))) ->
  exists k', DataCache.shrink_loop expired num_items count its k = (Ret tt, k') /\ shrunk k k'.
Proof.
  induction its as [|it its IH]; intros count k Hwf Hn Hin; cbn [DataCache.shrink_loop].
  { exists k. split; [done|by apply shrunk_refl]. }
  destruct (dltb _ _); [|exists k; split; [done|by apply shrunk_refl]].
  apply NoDup_cons in Hn as [Hni Hn]. destruct (list_elem_of_fmap_1 _ _ _ (Hin it ltac:(constructor))) as (i & -> & Hi).
  rewrite (bind_ret _ _ _ _ _ (item_run k i Hwf (elem_of_tail _ _ Hi))).
  destruct (shrink_item_run (bool_decide (owners i = ∅) || (last_access i <? expired)) (last_access i <? expired) k i Hwf Hi)
    as (k1 & E1 & Hs1 & Ht1).
  destruct (IH (count + 1) k1) as (k2 & E2 & Hs2); [apply Hs1|done| |].
  { intros it Hit. destruct (list_elem_of_fmap_1 _ _ _ (Hin it ltac:(by constructor))) as (j & -> & Hj).
    apply list_elem_of_fmap_2, Ht1; [done|]. intros E. apply Hni. by rewrite <- E. }
  exists k2. split; [|by apply (shrunk_trans k k1)]. unfold shrink_item, unique in E1. rewrite <- E2.
  destruct (item_block k i Hwf (elem_of_tail _ _ Hi)) as [b Hb]. pose proof (is_dirty_run k (data i) b Hb) as Ed.
  rewrite (bind_ret _ _ _ _ _ Ed) in E1. rewrite (bind_ret _ _ _ _ _ Ed). unfold unique.
  rewrite bind_gets in E1. rewrite bind_gets. by rewrite (bind_ret _ _ _ _ _ E1).
Qed.

(** The loops that force removal are all that is left when the first one did not help. *)
Definition force_shrink restarts : M (KineticIo W Cl) unit :=
  c ← DataCache.the_cache;
  when (capacity c <? current_size c)
    (DataCache.force_clean (DataCache.from_the_end c);;
     c ← DataCache.the_cache;
     DataCache.force_flush restarts (DataCache.from_the_end c)).

Lemma try_shrink_begin restarts k back b :
  cache_wf k -> last (cache (dataCache k)) = Some back -> blocks k !! data back = Some b -> cap b <> 0 ->
  exists w' k1, DataCache.try_shrink restarts k = force_shrink restarts k1 /\ shrunk (set_world w' k) k1 /\ ticked (world k) w'.
Proof.
  intros Hwf El Eb Hcap. unfold DataCache.try_shrink, DataCache.the_cache.
  destruct (on_now k) as (t & w' & E & Htick). exists w'. rewrite (bind_ret _ _ _ _ _ E). mstep. clear E.
  assert (cache_wf (set_world w' k)) as Hwf1 by by apply (cache_wf_ext k).
  change (dataCache (set_world w' k)) with (dataCache k). rewrite El. cbn [deref]. mstep.
  rewrite (bind_ret _ _ _ _ _ (on_block_capacity _ (set_world w' k) b Eb)). destruct (Z.eqb_spec (cap b) 0); [done|].
  match goal with |- context [DataCache.shrink_loop ?e ?n ?c ?l] => destruct (shrink_loop_run e n l c (set_world w' k)) as (k1 & E & Hs) end; [done| | |].
  - unfold DataCache.from_the_end. rewrite reverse_Permutation. by apply (NoDup_fmap_tail_data k).
  - intros it Hit. unfold DataCache.from_the_end in Hit. by rewrite reverse_Permutation in Hit.
  - exists k1. by rewrite (bind_ret _ _ _ _ _ E).
Qed.

Lemma last_item k : cache_wf k -> cache (dataCache k) <> [] ->
  exists back b, last (cache (dataCache k)) = Some back /\ back ∈ cache (dataCache k) /\ blocks k !! data back = Some b.
Proof.
  intros Hwf Hne. destruct (last (cache (dataCache k))) as [back|] eqn:El; [|by apply last_None in El].
  pose proof (last_Some_elem_of _ _ El) as Hb. destruct (item_block k back Hwf Hb) as [b Eb]. by exists back, b.
Qed.

Lemma try_shrink_run restarts k :
  cache_ok k -> cache (dataCache k) <> [] -> current_size (dataCache k) <= capacity (dataCache k) ->
  exists w' k', DataCache.try_shrink restarts k = (Ret tt, k') /\ shrunk (set_world w' k) k' /\ ticked (world k) w'.
Proof.
  intros Hok Hne Hcap. destruct (last_item k Hok Hne) as (back & b & El & Hin & Eb).
  assert (0 < cap b).
  { destruct (ok_blocks _ Hok (data back)) as (b' & Eb' & ?); [|congruence]. apply elem_of_app. left. by apply list_elem_of_fmap_2. }
  destruct (try_shrink_begin restarts k back b Hok El Eb ltac:(lia)) as (w' & k' & E & Hs & Ht). exists w', k'. split_and!; [|done..].
  rewrite E. unfold force_shrink, DataCache.the_cache. mstep. assert (cache_ok (set_world w' k)) as Hok1 by by apply (cache_ok_ext k).
  pose proof (sh_capacity _ _ Hs) as H1'. pose proof (sh_current _ _ Hs Hok1) as H2'. cbn in H1', H2'.
  destruct (Z.ltb_spec (capacity (dataCache k')) (current_size (dataCache k'))); [lia|done].
Qed.

(** *** Adding an item *)

Lemma update_item_absent it f (l : list CacheItem) : it ∉ data <$> l -> DataCache.update_item it f l = l.
Proof.
  unfold DataCache.update_item. induction l as [|j l IH]; intros Hn; [done|]. apply not_elem_of_cons in Hn as [Hj Hn].
  rewrite fmap_cons. unfold DataCache.is_item at 1. rewrite bool_decide_eq_false_2 by done. f_equal. by apply IH.
Qed.

Lemma elem_of_table_insert it owner t owner' it' :
  it' ∈ default ∅ (DataCache.table_insert it owner t !! owner') <->
  (it' = it /\ owner' = owner) \/ it' ∈ default ∅ (t !! owner').
Proof.
  unfold DataCache.table_insert. destruct (decide (owner = owner')) as [->|Hne].
  - rewrite lookup_insert_eq. cbn [default from_option id]. set_solver.
  - rewrite lookup_insert_ne by done. set_solver.
Qed.

(** The cache after a hit. *)
Definition touched (c : DataCache) i owner now : DataCache :=
  mkCache (capacity c) (current_size c) (unused_size c)
    (mkItem ({[owner]} ∪ owners i) (data i) now :: DataCache.without (data i) (cache c)) (unused_items c)
    (lookup c) (DataCache.table_insert (data i) owner (owner_tables c)).

Lemma touched_wf k i owner now :
  cache_wf k -> i ∈ cache (dataCache k) -> cache_wf (set_cache (fun c => touched c i owner now) k).
Proof.
  intros Hwf Hi. destruct (take_out k i Hwf Hi) as (l1 & l2 & El & Ew & Htot).
  pose proof Hwf as [Hn Hbl Hl Ht Hc Hu]. unfold cached, unused in *.
  assert (Permutation (data i :: (data <$> l1 ++ l2)) (data <$> cache (dataCache k))) as Hp.
  { by rewrite El, !fmap_app, fmap_cons, Permutation_middle. }
  split; unfold cached, unused, touched; cbn; rewrite ?Ew.
  - by rewrite app_comm_cons, Hp.
  - intros it Hit. apply Hbl. by rewrite <- Hp.
  - intros name it. rewrite Hl. by rewrite <- Hp.
  - intros o it. rewrite elem_of_table_insert, Ht, El. split.
    + intros [[-> ->]|(j & Hj & <- & Ho)]; [eexists; split_and!; [constructor|done|set_solver]|].
      apply elem_of_app in Hj as [Hj|[->|Hj]%elem_of_cons].
      * exists j. split_and!; [set_solver|done..].
      * eexists. split_and!; [constructor|done|set_solver].
      * exists j. split_and!; [set_solver|done..].
    + intros (j & [->|Hj]%elem_of_cons & <- & Ho); cbn in *.
      * apply elem_of_union in Ho as [->%elem_of_singleton|Ho]; [by left|]. right. exists i. set_solver.
      * right. exists j. set_solver.
  - rewrite total_cons, Hc. f_equal. lia.
  - done.
Qed.

(** The blocks are the same ones, in another order. *)
Lemma touched_items k i owner now :
  cache_wf k -> i ∈ cache (dataCache k) -> let k' := set_cache (fun c => touched c i owner now) k in
  cached k' ≡ₚ cached k /\ total (blocks k) (cached k') = total (blocks k) (cached k).
Proof.
  intros Hwf Hi k'. destruct (take_out k i Hwf Hi) as (l1 & l2 & El & Ew & Htot). unfold k', cached, touched in *. cbn. rewrite Ew. split.
  - by rewrite El, !fmap_app, fmap_cons, Permutation_middle.
  - rewrite total_cons. lia.
Qed.

Lemma touched_ok k i owner now :
  cache_ok k -> i ∈ cache (dataCache k) -> cache_ok (set_cache (fun c => touched c i owner now) k).
Proof.
  intros Hok Hi. destruct (touched_items k i owner now Hok Hi) as [Hp Ht]. split; [apply touched_wf; [apply Hok|done]|..].
  - intros it. rewrite Hp. apply (ok_blocks k Hok).
  - change (blocks (set_cache _ k)) with (blocks k). rewrite Ht. apply (ok_total k Hok).
Qed.

(** The cache after a miss: [rest] are the items left for re-use, [n] and [old] the sizes of the block
    as it is now and as it was among them. *)
Definition added (c : DataCache) rest it owner name now (n old : Z) : DataCache :=
  mkCache (capacity c) (u64 (current_size c + n)) (u64 (unused_size c - old)) (mkItem {[owner]} it now :: cache c) rest
    (<[name := it]> (lookup c)) (DataCache.table_insert it owner (owner_tables c)).

(** Where the block comes from. *)
Definition source k it rest (old : Z) : Prop :=
  (old = block_cap (blocks k) it /\ exists i, unused_items (dataCache k) = i :: rest /\ data i = it) \/
  (old = 0 /\ unused_items (dataCache k) = rest /\ it ∉ unused k).

Lemma source_facts k it rest old :
  cache_wf k -> it ∉ cached k -> source k it rest old ->
  NoDup ((it :: cached k) ++ (data <$> rest)) /\ (forall x, x ∈ data <$> rest -> x ∈ unused k) /\
  total (blocks k) (unused k) = old + total (blocks k) (data <$> rest) /\
  (forall x, x ∈ cached k \/ x ∈ data <$> rest -> x <> it).
Proof.
  intros Hwf Hit Hsrc. pose proof (wf_nodup k Hwf) as Hn. unfold unused in *.
  assert (NoDup ((it :: cached k) ++ (data <$> rest)) /\ (forall x, x ∈ data <$> rest -> x ∈ data <$> unused_items (dataCache k)) /\
    total (blocks k) (data <$> unused_items (dataCache k)) = old + total (blocks k) (data <$> rest)) as (Hn' & Hsub & Ht).
  { destruct Hsrc as [(-> & i & E & <-)|(-> & E & Hni)].
    - rewrite E in *. rewrite fmap_cons in *. split_and!; [by rewrite <- app_comm_cons, Permutation_middle|set_solver|done].
    - rewrite <- E. split_and!; [|done|lia]. rewrite <- app_comm_cons. apply NoDup_cons. split; [|done].
      rewrite elem_of_app. tauto. }
  split_and!; [done..|]. rewrite <- app_comm_cons in Hn'. apply NoDup_cons in Hn' as [Hn' _]. intros x Hx ->. apply Hn'. by apply elem_of_app.
Qed.

(** What the blocks take is counted as before, but for the one that was added. *)
Lemma added_total k it b l : (forall x, x ∈ l -> x <> it) -> total (<[it:=b]> (blocks k)) l = total (blocks k) l.
Proof. intros Hl. apply total_ext. intros x Hx. unfold block_cap. rewrite lookup_insert_ne; [done|]. intros ->. by apply (Hl x). Qed.

Lemma added_cap k it b : block_cap (<[it:=b]> (blocks k)) it = cap b.
Proof. unfold block_cap. by rewrite lookup_insert_eq. Qed.

Lemma added_wf k it b rest old owner now :
  cache_wf k -> it ∉ cached k -> source k it rest old -> lookup (dataCache k) !! identity b = None ->
  cache_wf (set_blocks (insert it b) (set_cache (fun c => added c rest it owner (identity b) now (cap b) old) k)).
Proof.
  intros Hwf Hit Hsrc Hname. destruct (source_facts k it rest old Hwf Hit Hsrc) as (Hn' & Hrest & Htu & Hne).
  pose proof Hwf as [_ Hbl Hl Ht Hc Hu]. unfold cached, unused in *. split; unfold cached, unused, added; cbn.
  - done.
  - intros x [->|Hx]%elem_of_cons; [exists b; by rewrite lookup_insert_eq|].
    rewrite lookup_insert_ne; [apply Hbl; set_solver|]. apply elem_of_app in Hx. intros ->. by apply (Hne x).
  - intros name x. rewrite lookup_insert_Some, Hl. split.
    + intros [[<- <-]|(Hnn & Hx & b' & Hb' & Hid)].
      * split; [constructor|]. exists b. by rewrite lookup_insert_eq.
      * split; [by constructor|]. exists b'. rewrite lookup_insert_ne; [done|]. intros ->. by apply (Hne x); [left|].
    + intros (Hx & b' & Hb' & Hid). destruct (decide (x = it)) as [->|Hxi].
      * rewrite lookup_insert_eq in Hb'. injection Hb' as <-. by left.
      * rewrite lookup_insert_ne in Hb' by done. right. apply elem_of_cons in Hx as [->|Hx]; [done|].
        split_and!; [|done|by exists b']. intros E.
        assert (lookup (dataCache k) !! name = Some x) as E' by (apply Hl; split; [done|by exists b']). congruence.
  - intros o x. rewrite elem_of_table_insert, Ht. split.
    + intros [[-> ->]|(j & Hj & <- & Ho)]; eexists; split_and!; [constructor|done|set_solver|by constructor|done|done].
    + intros (j & [->|Hj]%elem_of_cons & <- & Ho); cbn in *; [left; set_solver|right; by exists j].
  - rewrite total_cons, added_cap, added_total by (intros; apply Hne; by left). rewrite Hc, u64_add_l. f_equal. lia.
  - rewrite added_total by (intros; apply Hne; by right). rewrite Hu, u64_sub_l. f_equal. lia.
Qed.

Lemma added_ok k it b rest old owner now :
  cache_ok k -> it ∉ cached k -> source k it rest old -> 0 < cap b -> lookup (dataCache k) !! identity b = None ->
  total (blocks k) (cached k) + total (blocks k) (unused k) + cap b < 2 ^ 64 ->
  cache_ok (set_blocks (insert it b) (set_cache (fun c => added c rest it owner (identity b) now (cap b) old) k)).
Proof.
  intros Hok Hit Hsrc Hcap Hname Hsum. destruct (source_facts k it rest old Hok Hit Hsrc) as (_ & Hrest & Htu & Hne).
  split; [apply added_wf; [apply Hok|done..]|..]; unfold cached, unused in *; cbn.
  - intros x [->|Hx]%elem_of_cons; [exists b; by rewrite lookup_insert_eq|].
    rewrite lookup_insert_ne; [apply (ok_blocks k Hok); set_solver|]. apply elem_of_app in Hx. intros ->. by apply (Hne x).
  - rewrite total_cons, added_cap, !added_total by (intros; apply Hne; auto).
    assert (0 <= old); [|lia]. destruct Hsrc as [(-> & i & E & <-)|(-> & _)]; [|done].
    apply Z.lt_le_incl, (cached_cap k); [done|]. unfold unused. rewrite E. set_solver.
Qed.

(** *** Looking up *)

(** A block that was just made for a key, in the memory of the block [old] if there was one to re-use. *)
Definition blank cl key mode (old : option (DataBlock.DataBlock Cl)) b : Prop :=
  DataBlock.cluster b = cl /\ DataBlock.key b = key /\ DataBlock.mode b = mode /\ DataBlock.version b = None /\
  DataBlock.updates b = [] /\ DataBlock.value_size b = 0 /\
  DataBlock.remote_value b = old ≫= DataBlock.remote_value /\
  DataBlock.local_value b = (fun _ => replicate (Z.to_nat (cap b)) "0"%char) <$> (old ≫= DataBlock.local_value).

Lemma reassign_run cl key mode b w :
  exists b', DataBlock.reassign cl key mode (b, w) = (Ret tt, (b', w)) /\ blank cl key mode (Some b) b'.
Proof.
  unfold DataBlock.reassign, DataBlock.set_block, DataBlock.block. mstep. cbn [fst]. set (b1 := DataBlock.mkBlock _ _ _ _ _ _ _ _ _).
  destruct (DataBlock.local_value b1) eqn:El; change (DataBlock.local_value b1) with (DataBlock.local_value b) in El.
  - rewrite (bind_ret _ _ _ _ _ (capacity_spec b1 w)). eexists. split; [done|]. unfold blank. simpl. rewrite El. by split_and!.
  - exists b1. split; [done|]. unfold blank. simpl. rewrite El. by split_and!.
Qed.

Lemma new_block_run cl key mode k : exists b w', on_world (DataBlock.new_block (Some cl) key mode) k = (Ret b, set_world w' k) /\
  blank cl key mode None b /\ ticked (world k) w'.
Proof.
  unfold DataBlock.new_block. destruct mode; unfold on_world, zoom.
  - mstep. eexists _, (world k). split; [done|]. split; [by split|apply rtc_refl].
  - destruct (now_returns (world k)) as (t & w' & E). rewrite (bind_ret _ _ _ _ _ E). eexists _, w'. split; [done|].
    split; [by split|]. apply rtc_once. by exists t.
Qed.

Definition file_key (f : File.FileIo Cl) (n : Z) : bytes := makeDataKey (store_id (File.cluster f)) (File.path f) n.
Definition file_name (f : File.FileIo Cl) (n : Z) : bytes := file_key f n ++ store_instance (File.cluster f).

(** What a look-up leaves behind: the block asked for is at the front, registered with its owner; nothing
    was written to a cluster; blocks with changes and blocks in use are where they were. *)
Record found k owner it k' : Prop := {
  fo_ok :> cache_ok k';
  fo_front : exists i, head (cache (dataCache k')) = Some i /\ data i = it /\ owner ∈ owners i;
  fo_files : files k' = files k;
  fo_ticked : ticked (world k) (world k');
  fo_pointers : pointers k ⊆ pointers k';
  fo_kept : forall i, i ∈ cache (dataCache k) -> disposable k i \/
    (data i ∈ cached k' /\ blocks k' !! data i = blocks k !! data i);
  fo_env : same_env k k';
  fo_blocks : forall p, p <> it -> blocks k' !! p = blocks k !! p;
  fo_cached : forall p, p ∈ cached k' -> p = it \/ p ∈ cached k;
  fo_capacity : capacity (dataCache k') = capacity (dataCache k);
  fo_current : current_size (dataCache k') <= current_size (dataCache k) + block_cap (blocks k') it;
  fo_total : total (blocks k') (cached k') + total (blocks k') (unused k') <=
    total (blocks k) (cached k) + total (blocks k) (unused k) + block_cap (blocks k') it;
}.

(** A look-up that finds its block. *)
Lemma hit_run restarts k owner f n mode it :
  cache_wf k -> files k !! owner = Some f -> lookup (dataCache k) !! file_name f n = Some it ->
  exists i t w', i ∈ cache (dataCache k) /\ data i = it /\ ticked (world k) w' /\
    DataCache.getDataKey restarts owner n mode k = (Ret it, set_world w' (set_cache (fun c => touched c i owner t) k)).
Proof.
  intros Hwf Hf Hl. unfold DataCache.getDataKey, the_file, DataCache.the_cache, DataCache.change. mstep. rewrite Hf. cbn [deref]. mstep.
  rewrite id_store, instance_store. fold (file_key f n). fold (file_name f n). rewrite Hl.
  destruct (proj1 (wf_lookup k Hwf _ _) Hl) as (Hin & b & Hb & _). destruct (list_elem_of_fmap_1 _ _ _ Hin) as (i & -> & Hi).
  rewrite (bind_ret _ _ _ _ _ (item_run k i Hwf Hi)). mstep.
  match goal with |- context [(on_world _ ≫= _) ?k1] => destruct (on_now k1) as (t & w' & E & Htick) end.
  rewrite (bind_ret _ _ _ _ _ E). mstep. exists i, t, w'. split_and!; [done..|]. unfold mret, M_ret. f_equal.
  unfold set_cache, set_world, touched, DataCache.set_lists. cbn. do 3 f_equal. unfold DataCache.is_item at 1.
  rewrite bool_decide_eq_true_2 by done. f_equal. apply update_item_absent.
  intros (j & E' & Hj)%list_elem_of_fmap_1. apply elem_of_without in Hj as [_ Hj]. by apply Hj.
Qed.

Lemma getDataKey_hit restarts k owner f n mode it :
  cache_ok k -> files k !! owner = Some f -> lookup (dataCache k) !! file_name f n = Some it ->
  exists k', DataCache.getDataKey restarts owner n mode k = (Ret it, k') /\ found k owner it k' /\ blocks k' = blocks k.
Proof.
  intros Hok Hf Hl. destruct (hit_run restarts k owner f n mode it Hok Hf Hl) as (i & t & w' & Hi & <- & Htick & E).
  eexists. split; [exact E|]. pose proof (touched_ok k i owner t Hok Hi) as Hok'.
  destruct (touched_items k i owner t Hok Hi) as [Hp Htot]. set (k0 := set_cache _ k) in *. set (k1 := set_world w' k0).
  assert (dataCache k1 = touched (dataCache k) i owner t) as Hc by done.
  pose proof (cached_cap k (data i) Hok ltac:(apply elem_of_app; left; by apply list_elem_of_fmap_2)) as Hcap.
  split; [|done]. split; try done.
  - by apply (cache_ok_ext k0).
  - rewrite Hc. eexists. split; [done|]. split; [done|]. cbn. set_solver.
  - intros j Hj. right. split; [|done]. change (cached k1) with (cached k0). rewrite Hp. by apply list_elem_of_fmap_2.
  - intros p. change (cached k1) with (cached k0). rewrite Hp. by right.
  - rewrite Hc. cbn. change (blocks k1) with (blocks k). lia.
  - change (cached k1) with (cached k0). change (unused k1) with (unused k). change (blocks k1) with (blocks k). lia.
Qed.

Lemma make_room restarts k :
  cache_ok k -> current_size (dataCache k) <= capacity (dataCache k) ->
  exists w' k1, when (dltb (dmul (of_int (capacity (dataCache k))) (literal 7 10)) (of_int (current_size (dataCache k))))
      (DataCache.try_shrink restarts) k = (Ret tt, k1) /\
    shrunk (set_world w' k) k1 /\ ticked (world k) w'.
Proof.
  intros Hok Hcap. destruct (dltb _ _) eqn:E; cbn [when].
  2: { exists (world k), k. split; [done|]. split; [|apply rtc_refl]. destruct k. apply shrunk_refl, Hok. }
  destruct (try_shrink_run restarts k Hok) as (w' & k1 & E1 & Hs & Hst); [|done|by exists w', k1].
  intros Hnil. pose proof (ok_current k Hok) as Hc. unfold cached in Hc. rewrite Hnil in Hc. change (total _ _) with 0 in Hc.
  rewrite Hc, not_below_zero in E; [done|]. apply dmul_not_negative; [|by vm_compute]. apply of_int_not_negative. lia.
Qed.

(** The part of a look-up that makes a new item, with a new block or one that is re-used. *)
Definition new_item owner f data_key mode : M (KineticIo W Cl) block_ptr :=
  c ← DataCache.the_cache;
  it ← match unused_items c with
       | i :: unused' =>
           cap ← on_block (data i) DataBlock.capacity;
           DataCache.change (fun c => DataCache.set_sizes (current_size c) (u64 (unused_size c - cap)) c);;
           on_block (data i) (DataBlock.reassign (File.cluster f) data_key mode);;
           now ← on_world (ci_now (Cl:=Cl));
           DataCache.change (fun c => DataCache.set_lists (mkItem {[owner]} (data i) now :: cache c) unused' c);;
           mret (data i)
       | [] =>
           b ← on_world (DataBlock.new_block (Some (File.cluster f)) data_key mode);
           now ← on_world (ci_now (Cl:=Cl));
           it ← gets (fun k => fresh (dom (blocks k)));
           modify (set_blocks (insert it b));;
           DataCache.change (fun c => DataCache.set_lists (mkItem {[owner]} it now :: cache c) [] c);;
           mret it
       end;
  cap ← on_block it DataBlock.capacity;
  DataCache.change (fun c => DataCache.set_sizes (u64 (current_size c + cap)) (unused_size c) c);;
  DataCache.change (DataCache.set_lookup (insert (data_key ++ store_instance (File.cluster f)) it));;
  DataCache.change (DataCache.set_owners (DataCache.table_insert it owner));;
  mret it.

Lemma miss_run restarts k owner f n mode :
  files k !! owner = Some f -> lookup (dataCache k) !! file_name f n = None ->
  DataCache.getDataKey restarts owner n mode k =
  (when (dltb (dmul (of_int (capacity (dataCache k))) (literal 7 10)) (of_int (current_size (dataCache k)))) (DataCache.try_shrink restarts);;
   new_item owner f (file_key f n) mode) k.
Proof.
  intros Hf Hl. unfold DataCache.getDataKey, the_file, DataCache.the_cache. mstep. rewrite Hf. cbn [deref]. mstep.
  rewrite id_store, instance_store. fold (file_key f n). fold (file_name f n). by rewrite Hl.
Qed.

Lemma new_item_run k owner f data_key mode :
  cache_wf k -> exists it b rest old reused t w',
  new_item owner f data_key mode k =
    (Ret it, set_world w' (set_blocks (insert it b) (set_cache (fun c => added c rest it owner (identity b) t (cap b) old) k))) /\
  it ∉ cached k /\ source k it rest old /\ blank (File.cluster f) data_key mode reused b /\
  (reused = None \/ reused = blocks k !! it) /\ ticked (world k) w'.
Proof.
  intros Hwf. pose proof (wf_nodup k Hwf) as Hn. unfold new_item, DataCache.the_cache, DataCache.change. rewrite bind_gets.
  destruct (unused_items (dataCache k)) as [|i rest] eqn:Eu.
  - destruct (new_block_run (File.cluster f) data_key mode k) as (b & w1 & E1 & Hb & Hst1). rewrite bind_assoc, (bind_ret _ _ _ _ _ E1).
    destruct (on_now (set_world w1 k)) as (t & w2 & E2 & Hst2). rewrite bind_assoc, (bind_ret _ _ _ _ _ E2), !bind_assoc. mstep.
    set (it := fresh (dom (blocks (set_world w2 (set_world w1 k))))).
    assert (it ∉ cached k ++ unused k) as Hfresh.
    { intros Hin. destruct (wf_blocks k Hwf it Hin) as (b' & Hb'). apply elem_of_dom_2 in Hb'. by apply is_fresh in Hb'. }
    match goal with |- context [(on_block it _ ≫= _) ?k2] => assert (blocks k2 !! it = Some b) as Hbit by apply lookup_insert_eq end.
    rewrite (bind_ret _ _ _ _ _ (on_block_capacity it _ b Hbit)). mstep.
    exists it, b, [], 0, None, t, w2. pose proof Hb as (Hbc & Hbk & _). split; [|split_and!].
    + unfold mret, M_ret, set_blocks, set_cache, set_world, added, identity. cbn. rewrite Hbc, Hbk, (wf_unused k Hwf).
      by rewrite u64_sub_l, Z.sub_0_r.
    + set_solver.
    + right. split_and!; [done..|set_solver].
    + done.
    + by left.
    + etrans; [exact Hst1|exact Hst2].
  - assert (data i ∈ unused k) as Hiu by (unfold unused; rewrite Eu; constructor).
    destruct (wf_blocks k Hwf (data i)) as (b0 & Hb0); [by apply elem_of_app; right|].
    rewrite bind_assoc, (bind_ret _ _ _ _ _ (on_block_capacity _ _ b0 Hb0)), !bind_assoc. mstep.
    match goal with |- context [(on_block _ _ ≫= _) ?ka] => set (k1 := ka) end.
    destruct (reassign_run (File.cluster f) data_key mode b0 (world k1)) as (b & E & Hb).
    rewrite ?bind_assoc, (bind_ret _ _ _ _ _ (on_block_ret (data i) _ k1 b0 _ b _ Hb0 E)), ?bind_assoc.
    match goal with |- context [(on_world _ ≫= _) ?k2] => destruct (on_now k2) as (t & w2 & E2 & Hst2) end.
    rewrite (bind_ret _ _ _ _ _ E2). mstep.
    match goal with |- context [(on_block ?it _ ≫= _) ?k2] => assert (blocks k2 !! it = Some b) as Hbit by apply lookup_insert_eq end.
    rewrite (bind_ret _ _ _ _ _ (on_block_capacity _ _ b Hbit)). mstep.
    exists (data i), b, rest, (cap b0), (Some b0), t, w2. pose proof Hb as (Hbc & Hbk & _). split; [|split_and!].
    + unfold identity. by rewrite Hbc, Hbk.
    + apply NoDup_app in Hn as (_ & Hd & _). intros Hin. by apply (Hd (data i)).
    + left. split; [unfold block_cap; by rewrite Hb0|]. by exists i.
    + done.
    + by right.
    + exact Hst2.
Qed.

(** The name asked for is not in use, also after room was made. *)
Lemma absent_name k k1 name : cache_wf k -> cache_wf k1 -> (forall x, x ∈ cached k1 -> x ∈ cached k) ->
  (forall x, identity <$> blocks k1 !! x = identity <$> blocks k !! x) -> lookup (dataCache k) !! name = None -> lookup (dataCache k1) !! name = None.
Proof.
  intros Hwf Hwf1 Hsub Hbl Hl. destruct (lookup (dataCache k1) !! name) as [x|] eqn:El; [|done].
  apply (wf_lookup k1 Hwf1) in El as (Hx & b' & Hb' & Hid'). specialize (Hbl x). rewrite Hb' in Hbl.
  destruct (blocks k !! x) as [b|] eqn:Hb; [|done]. injection Hbl as Hbl.
  rewrite <- Hl. symmetry. apply (wf_lookup k Hwf). split; [by apply Hsub|]. exists b. split; [done|congruence].
Qed.

Lemma shrunk_cached k k1 : shrunk k k1 -> forall x, x ∈ cached k1 -> x ∈ cached k.
Proof.
  intros Hs x Hx. destruct (list_elem_of_fmap_1 _ _ _ Hx) as (j & -> & Hj). apply list_elem_of_fmap_2.
  by eapply sublist_subseteq; [apply (sh_cache _ _ Hs)|].
Qed.

Lemma getDataKey_miss restarts k owner f n mode :
  cache_ok k -> files k !! owner = Some f -> lookup (dataCache k) !! file_name f n = None ->
  current_size (dataCache k) <= capacity (dataCache k) -> 0 < max_value_size (store_limits (File.cluster f)) ->
  total (blocks k) (cached k) + total (blocks k) (unused k) + max_value_size (store_limits (File.cluster f)) < 2 ^ 64 ->
  exists it b reused k', DataCache.getDataKey restarts owner n mode k = (Ret it, k') /\ found k owner it k' /\
    blocks k' !! it = Some b /\ blank (File.cluster f) (file_key f n) mode reused b /\ (reused = None \/ reused = blocks k !! it).
Proof.
  intros Hok Hf Hl Hcap Hpos Hsum. rewrite (miss_run restarts k owner f n mode Hf Hl).
  destruct (make_room restarts k Hok Hcap) as (w1 & k1 & E1 & Hs & Hst1). rewrite (bind_ret _ _ _ _ _ E1).
  pose proof (shrunk_cached _ _ Hs) as Hsub. assert (cache_ok (set_world w1 k)) as Hok0 by by apply (cache_ok_ext k).
  destruct Hs as [_ Hok1 Hb1 Hf1 Hw1 Hp1 Hc1 Hsub1 _ Hk1 Ht1 Hcur1 Henv1]. specialize (Hok1 Hok0). specialize (Ht1 Hok0). specialize (Hcur1 Hok0). cbn in *.
  change (cached (set_world w1 k)) with (cached k) in *. change (unused (set_world w1 k)) with (unused k) in *.
  destruct (new_item_run k1 owner f (file_key f n) mode Hok1) as (it & b & rest & old & reused & t & w2 & E2 & Hni & Hsrc & Hb & Hre & Hst2).
  rewrite E2. pose proof Hb as (Hbc & Hbk & _). assert (identity b = file_name f n) as Hid by (unfold identity; by rewrite Hbc, Hbk).
  assert (cap b = max_value_size (store_limits (File.cluster f))) as Hbcap by (unfold cap; by rewrite Hbc).
  assert (lookup (dataCache k1) !! identity b = None) as Hname.
  { rewrite Hid. apply (absent_name k k1); [apply Hok|apply Hok1|done|intros x; by rewrite Hb1|done]. }
  set (k2 := set_blocks _ _). set (k3 := set_world w2 k2).
  assert (cache_ok k2) as Hok2 by (apply added_ok; try done; lia).
  assert (cache_ok k3) as Hok3 by by apply (cache_ok_ext k2).
  assert (blocks k3 = <[it:=b]> (blocks k)) as Hb3 by (unfold k3, k2; cbn; by rewrite Hb1).
  assert (block_cap (blocks k3) it = cap b) as Hc3 by (rewrite Hb3; unfold block_cap; by rewrite lookup_insert_eq).
  assert (forall p, p ∈ cached k3 -> p = it \/ p ∈ cached k) as Hcached by (intros p [->|Hp]%elem_of_cons; auto).
  destruct (source_facts k1 it rest old Hok1 Hni Hsrc) as (_ & Hrest & Htu & Hne).
  assert (total (blocks k3) (cached k3) = cap b + total (blocks k) (cached k1)) as Htc3.
  { change (cached k3) with (it :: cached k1). rewrite total_cons, Hc3, Hb3, <- Hb1, added_total; [done|]. intros x Hx. apply Hne. by left. }
  assert (total (blocks k3) (unused k3) <= total (blocks k) (unused k1)) as Htu3.
  { change (unused k3) with (data <$> rest). rewrite <- Hb1, Htu, Hb3, <- Hb1, added_total; [|intros x Hx; apply Hne; by right].
    assert (0 <= old); [|lia]. destruct Hsrc as [(-> & i & Eu & <-)|(-> & _)]; [|done].
    apply Z.lt_le_incl, (cached_cap k1); [done|]. unfold unused. rewrite Eu. set_solver. }
  exists it, b, reused, k3. split; [done|]. split; [|split; [by rewrite Hb3, lookup_insert_eq|split; [done|by rewrite <- Hb1]]]. split; try done.
  - eexists. split; [done|]. split; [done|]. cbn. set_solver.
  - etrans; [exact Hst1|]. rewrite <- Hw1. exact Hst2.
  - intros i Hi. destruct (Hk1 i Hi) as [?|Hi1]; [by left|]. right.
    split; [change (cached k3) with (it :: cached k1); apply elem_of_cons; right; by apply list_elem_of_fmap_2|].
    rewrite Hb3. apply lookup_insert_ne. intros ->. apply Hni. by apply list_elem_of_fmap_2.
  - intros p Hp. by rewrite Hb3, lookup_insert_ne.
  - rewrite (ok_current k3 Hok3), Htc3, Hc3. rewrite <- Hb1, <- (ok_current k1 Hok1). lia.
  - rewrite Hc3, Htc3. rewrite Hb1 in Ht1. lia.
Qed.

(** *** Dropping an owner *)

Lemma cache_wf_tables k t t' :
  (forall o, default ∅ (t !! o) = default ∅ (t' !! o)) -> cache_wf (with_tables t k) -> cache_wf (with_tables t' k).
Proof. intros Ht [H1' H2' H3' H4' H5' H6']. split; try done. intros o it. cbn. rewrite <- Ht. apply H4'. Qed.

(** The blocks have a size and fit into memory, whatever the tables say. *)
Definition in_memory k : Prop :=
  (forall it, it ∈ cached k ++ unused k -> exists b, blocks k !! it = Some b /\ 0 < cap b) /\
  total (blocks k) (cached k) + total (blocks k) (unused k) < 2 ^ 64.

Lemma cache_ok_in_memory k : cache_ok k <-> cache_wf k /\ in_memory k.
Proof. split; [intros []; by split|intros (H1' & H2' & H3'); by split]. Qed.

Lemma removed_in_memory k i name keep : cache_wf k -> i ∈ cache (dataCache k) -> in_memory k -> in_memory (set_cache (fun _ => removed k i name keep) k).
Proof.
  intros Hwf Hi [Hb Ht]. destruct (removed_items k i name keep Hwf Hi) as (_ & Hsub & _ & Htc & Htu).
  destruct (Hb (data i)) as (b & Eb & Hc); [apply elem_of_app; left; by apply list_elem_of_fmap_2|].
  split; [intros it Hit; by apply Hb, Hsub|]. set (k' := set_cache _ k) in *. change (blocks k') with (blocks k). rewrite Htc, Htu.
  unfold block_cap. rewrite Eb. destruct keep; lia.
Qed.

Lemma update_item_data it f (l : list CacheItem) : (forall i, data (f i) = data i) -> data <$> DataCache.update_item it f l = data <$> l.
Proof. intros Hf. unfold DataCache.update_item. rewrite <- list_fmap_compose. apply list_fmap_ext. intros _ i _. cbn. by destruct (DataCache.is_item it i). Qed.

Lemma elem_of_update_item it f j (l : list CacheItem) :
  j ∈ DataCache.update_item it f l <-> exists i, i ∈ l /\ j = if bool_decide (data i = it) then f i else i.
Proof. unfold DataCache.update_item. rewrite list_elem_of_fmap. unfold DataCache.is_item. naive_solver. Qed.

(** One item: its owner is forgotten. *)
Definition disowned (c : DataCache) owner it : DataCache :=
  DataCache.set_lists (DataCache.update_item it (DataCache.erase_owner owner) (cache c)) (unused_items c) c.

Lemma disowned_wf k owner it its t :
  NoDup (it :: its) -> cache_wf (with_tables (<[owner := list_to_set (it :: its)]> t) k) ->
  cache_wf (with_tables (<[owner := list_to_set its]> t) (set_cache (fun c => disowned c owner it) k)).
Proof.
  intros Hn [H1' H2' H3' H4' H5' H6']. apply NoDup_cons in Hn as [Hni Hn].
  assert (cached (with_tables (<[owner := list_to_set its]> t) (set_cache (fun c => disowned c owner it) k)) =
    cached (with_tables (<[owner := list_to_set (it :: its)]> t) k)) as Ec by (unfold cached; cbn; by rewrite update_item_data).
  split; rewrite ?Ec; try done.
  intros o x. cbn. specialize (H4' o x). cbn in H4'.
  destruct (decide (o = owner)) as [->|Hne].
  - rewrite lookup_insert_eq in *. simpl in H4' |- *. rewrite elem_of_list_to_set. split.
    + intros Hx. destruct (proj1 H4') as (i & Hi & <- & Ho); [set_solver|]. exists i. split_and!; [|done..].
      apply elem_of_update_item. exists i. split; [done|]. rewrite bool_decide_eq_false_2; [done|]. congruence.
    + intros (j & (i & Hi & ->)%elem_of_update_item & <- & Ho). case_bool_decide as Ed; [cbn in Ho; set_solver|].
      assert (data i ∈@{gset positive} list_to_set (it :: its)) as Hin by (apply H4'; by exists i). set_solver.
  - rewrite lookup_insert_ne in * by done. rewrite H4'. split.
    + intros (i & Hi & <- & Ho). eexists. split; [apply elem_of_update_item; by exists i|]. case_bool_decide; [|done].
      split; [done|]. cbn. set_solver.
    + intros (j & (i & Hi & ->)%elem_of_update_item & <- & Ho). case_bool_decide; [|by exists i].
      exists i. cbn in Ho. split_and!; [done|done|set_solver].
Qed.

(** The item after its owner was forgotten, and after it was removed. *)
Lemma disowned_item k owner it i :
  i ∈ cache (dataCache k) -> data i = it -> DataCache.erase_owner owner i ∈ cache (disowned (dataCache k) owner it).
Proof. intros Hi Hd. apply elem_of_update_item. exists i. split; [done|]. by rewrite bool_decide_eq_true_2. Qed.

Lemma disowned_in_memory k owner it : in_memory k -> in_memory (set_cache (fun c => disowned c owner it) k).
Proof.
  unfold in_memory. assert (cached (set_cache (fun c => disowned c owner it) k) = cached k) as ->; [|done].
  unfold cached. cbn. by apply update_item_data.
Qed.

Lemma drop_items_run owner force its : forall k,
  NoDup its -> cache_wf (with_tables (<[owner := list_to_set its]> (owner_tables (dataCache k))) k) ->
  exists k', DataCache.drop_items owner force its k = (Ret tt, k') /\
    cache_wf (with_tables (<[owner := ∅]> (owner_tables (dataCache k'))) k') /\ (in_memory k -> in_memory k') /\
    blocks k' = blocks k /\ world k' = world k /\ files k' = files k /\ pointers k' = pointers k /\ same_env k k' /\
    forall x, x ∈ cached k' <-> x ∈ cached k /\ (force = true -> x ∉ its).
Proof.
  induction its as [|it its IH]; intros k Hn Hok; cbn [DataCache.drop_items].
  { exists k. split_and!; try done. intros x. set_solver. }
  pose proof Hok as [Hn' Hbl _ Ht _ _]. specialize (Ht owner it) as Hti. cbn in Hti. rewrite lookup_insert_eq in Hti. simpl in Hti.
  destruct (proj1 Hti) as (i & Hi & Hd & Ho); [set_solver|]. clear Hti. apply NoDup_app in Hn' as (Hnc & _ & _).
  unfold DataCache.item, DataCache.the_cache, DataCache.change. mstep.
  assert (DataCache.find_item it (cache (dataCache k)) = Some i) as -> by (rewrite <- Hd; by apply find_item_spec).
  cbn [deref]. mstep. pose proof (disowned_wf k owner it its (owner_tables (dataCache k)) Hn Hok) as Hok1. unfold disowned in Hok1.
  match goal with |- context [set_cache ?f k] => set (k1 := set_cache f k) in * end.
  assert (cached k1 = cached k) as Hc1 by (unfold cached, k1; cbn; by rewrite update_item_data).
  apply NoDup_cons in Hn as [Hni Hn].
  destruct force; cbn [when]; mstep.
  - set (i' := DataCache.erase_owner owner i).
    assert (i' ∈ cache (dataCache k1)) as Hi' by by apply disowned_item.
    destruct (Hbl it) as (b & Hb); [apply elem_of_app; left; rewrite <- Hd; by apply list_elem_of_fmap_2|].
    assert (data i' = it) as Hdi by done. pose proof Hb as Hb'. cbn in Hb'. rewrite <- Hdi in Hb'.
    destruct (remove_item_run_tables k1 _ i' b Hok1 Hi' Hb') as (next & keep & Er). rewrite Hdi in Er.
    rewrite (bind_ret _ _ _ _ _ Er). mstep.
    pose proof (removed_wf _ i' b keep Hok1 Hi' Hb') as Hok2. pose proof (removed_in_memory _ i' (identity b) keep Hok1 Hi') as Hfit2.
    match goal with |- context [DataCache.drop_items _ _ _ ?ka] => set (k2 := ka) in * end.
    destruct (IH k2 Hn) as (k' & E & Hok' & Hfit & Hb2 & Hw & Hf & Hp & Henv & Hcs).
    { refine (cache_wf_tables k2 _ _ _ Hok2). intros o. apply set_eq. intros x. cbn. rewrite table_erase_foldr.
      destruct (decide (o = owner)) as [->|Hne].
      - rewrite !lookup_insert_eq. cbn. set_solver.
      - rewrite !lookup_insert_ne by done. by rewrite table_erase_foldr. }
    exists k'. split; [exact E|]. split_and!; try done; [intros Hk; by apply Hfit, Hfit2, disowned_in_memory|]. intros x. rewrite Hcs, <- Hc1. unfold cached at 1. cbn [k2 removed dataCache set_cache cache]. rewrite Hdi.
    assert (x ∈ data <$> DataCache.without it (cache (dataCache k1)) <-> x ∈ cached k1 /\ x <> it) as ->.
    { rewrite !list_elem_of_fmap. unfold cached. rewrite list_elem_of_fmap. split.
      - intros (j & -> & Hj). apply elem_of_without in Hj as [Hj Hne]. split; [by exists j|done].
      - intros [(j & -> & Hj) Hne]. exists j. split; [done|]. by apply elem_of_without. }
    set_solver.
  - destruct (IH k1 Hn Hok1) as (k' & E & Hok' & Hfit & Hb2 & Hw & Hf & Hp & Henv & Hcs). exists k'. split; [exact E|].
    split_and!; try done; [intros Hk; by apply Hfit, disowned_in_memory|]. intros x. rewrite Hcs, Hc1. set_solver.
Qed.

Lemma drop_owner_run k owner force :
  cache_wf k -> exists k', DataCache.drop_owner owner force k = (Ret tt, k') /\ cache_wf k' /\ (in_memory k -> in_memory k') /\
    owner_tables (dataCache k') !! owner = None /\ (forall i, i ∈ cache (dataCache k') -> owner ∉ owners i) /\
    blocks k' = blocks k /\ world k' = world k /\ files k' = files k /\ pointers k' = pointers k /\ same_env k k' /\
    forall x, x ∈ cached k' <-> x ∈ cached k /\ (force = true -> x ∉ default ∅ (owner_tables (dataCache k) !! owner)).
Proof.
  intros Hok. unfold DataCache.drop_owner, DataCache.the_cache, DataCache.change. mstep.
  set (its := elements (default ∅ (owner_tables (dataCache k) !! owner))).
  destruct (drop_items_run owner force its k) as (k1 & E & Hok1 & Hfit & Hb & Hw & Hf & Hp & Henv & Hc).
  { apply NoDup_elements. }
  { apply (cache_wf_tables _ (owner_tables (dataCache k))); [|by rewrite with_same_tables]. intros o. apply set_eq. intros x.
    destruct (decide (o = owner)) as [->|Hne]; [rewrite lookup_insert_eq|by rewrite lookup_insert_ne].
    simpl. rewrite elem_of_list_to_set. unfold its. by rewrite elem_of_elements. }
  rewrite (bind_ret _ _ _ _ _ E). eexists. split; [done|].
  assert (cache_wf (set_cache (DataCache.set_owners (delete owner)) k1)) as Hok2.
  { change (set_cache (DataCache.set_owners (delete owner)) k1) with (with_tables (delete owner (owner_tables (dataCache k1))) k1).
    refine (cache_wf_tables _ _ _ _ Hok1). intros o. destruct (decide (o = owner)) as [->|Hne].
    - by rewrite lookup_insert_eq, lookup_delete_eq.
    - by rewrite lookup_insert_ne, lookup_delete_ne. }
  split_and!; try done.
  - cbn. apply lookup_delete_eq.
  - intros i Hi Ho. assert (data i ∈ default ∅ (owner_tables (dataCache (set_cache (DataCache.set_owners (delete owner)) k1)) !! owner)) as Hin
      by (apply (wf_tables _ Hok2); by exists i). cbn in Hin. rewrite lookup_delete_eq in Hin. simpl in Hin. set_solver.
  - intros x. change (cached (set_cache (DataCache.set_owners (delete owner)) k1)) with (cached k1). rewrite Hc. unfold its. set_solver.
Qed.

Lemma drop_owner_ok k owner force :
  cache_ok k -> exists k', DataCache.drop_owner owner force k = (Ret tt, k') /\ cache_ok k' /\
    owner_tables (dataCache k') !! owner = None /\ (forall i, i ∈ cache (dataCache k') -> owner ∉ owners i) /\
    blocks k' = blocks k /\ world k' = world k /\ files k' = files k /\ pointers k' = pointers k /\ same_env k k' /\
    forall x, x ∈ cached k' <-> x ∈ cached k /\ (force = true -> x ∉ default ∅ (owner_tables (dataCache k) !! owner)).
Proof.
  intros Hok. destruct (drop_owner_run k owner force Hok) as (k' & E & Hwf & Hfit & Hrest).
  exists k'. split; [done|]. split; [|done]. apply cache_ok_in_memory. split; [done|]. by apply Hfit, cache_ok_in_memory.
Qed.

(** *** Blocks change, the cache stays *)

(** The tables of the cache are as they were, every block still is the block of its key, and the local
    variables point where they did. *)
Record tables_kept k k' : Prop := {
  tk_cache : dataCache k' = dataCache k;
  tk_locals : locals k' = locals k;
  tk_window : readahead_window_size k' = readahead_window_size k;
  tk_blocks : forall p, (fun b => (DataBlock.cluster b, DataBlock.key b)) <$> blocks k' !! p =
    (fun b => (DataBlock.cluster b, DataBlock.key b)) <$> blocks k !! p;
}.

#[export] Instance tables_kept_preorder : PreOrder tables_kept.
Proof. split; [by split|]. intros k1 k2 k3 [H1' H2' H3' H4'] [H1'' H2'' H3'' H4'']. split; [congruence..|]. intros p. by rewrite H4''. Qed.

Lemma tables_kept_block k k' p b : tables_kept k k' -> blocks k !! p = Some b ->
  exists b', blocks k' !! p = Some b' /\ identity b' = identity b /\ cap b' = cap b.
Proof.
  intros [_ _ _ Hb] E. specialize (Hb p). rewrite E in Hb. destruct (blocks k' !! p) as [b'|]; [|done]. injection Hb as Hc Hk.
  exists b'. unfold identity, cap. by rewrite Hc, Hk.
Qed.

Lemma tables_kept_back k k' p b' : tables_kept k k' -> blocks k' !! p = Some b' ->
  exists b, blocks k !! p = Some b /\ identity b' = identity b /\ cap b' = cap b.
Proof.
  intros [_ _ _ Hb] E. specialize (Hb p). rewrite E in Hb. destruct (blocks k !! p) as [b|]; [|done]. injection Hb as Hc Hk.
  exists b. unfold identity, cap. by rewrite Hc, Hk.
Qed.

Lemma tables_kept_total k k' l : tables_kept k k' -> total (blocks k') l = total (blocks k) l.
Proof.
  intros Hk. apply total_ext. intros p _. unfold block_cap. destruct (blocks k !! p) as [b|] eqn:E.
  - destruct (tables_kept_block k k' p b Hk E) as (b' & -> & _ & ?). done.
  - destruct (blocks k' !! p) as [b'|] eqn:E'; [|done]. destruct (tables_kept_back k k' p b' Hk E') as (b & Eb & _). congruence.
Qed.

Lemma tables_kept_wf k k' : tables_kept k k' -> cache_wf k -> cache_wf k'.
Proof.
  intros Hk [Hn Hbl Hl Ht Hc Hu]. pose proof (tk_cache _ _ Hk) as Ec. unfold cached, unused in *.
  split; unfold cached, unused; rewrite ?Ec, ?(tables_kept_total k k' _ Hk); try done.
  - intros it Hit. destruct (Hbl it Hit) as [b Eb]. destruct (tables_kept_block k k' it b Hk Eb) as (b' & -> & _). by eexists.
  - intros name it. rewrite Hl. split; intros (Hit & b & Eb & <-); (split; [done|]).
    + destruct (tables_kept_block k k' it b Hk Eb) as (b' & Eb' & Hid & _). by exists b'.
    + destruct (tables_kept_back k k' it b Hk Eb) as (b' & Eb' & Hid & _). by exists b'.
Qed.

Lemma tables_kept_ok k k' : tables_kept k k' -> cache_ok k -> cache_ok k'.
Proof.
  intros Hk [Hwf Hbl Ht]. pose proof (tk_cache _ _ Hk) as Ec.
  split; [by apply (tables_kept_wf k)|..]; unfold cached, unused in *; rewrite ?Ec, ?(tables_kept_total k k' _ Hk); [|done].
  intros it Hit. destruct (Hbl it Hit) as (b & Eb & Hc). destruct (tables_kept_block k k' it b Hk Eb) as (b' & -> & _ & Hcap).
  exists b'. by rewrite Hcap.
Qed.

Lemma block_kept k it b b' w' :
  blocks k !! it = Some b -> DataBlock.cluster b' = DataBlock.cluster b -> DataBlock.key b' = DataBlock.key b ->
  tables_kept k (set_world w' (set_blocks (insert it b') k)).
Proof.
  intros Hb Hc Hk. split; [done..|]. intros p. cbn. destruct (decide (it = p)) as [<-|Hne]; [|by rewrite lookup_insert_ne].
  rewrite lookup_insert_eq, Hb. simpl. by rewrite Hc, Hk.
Qed.

(** An operation of a block that keeps its key keeps the cache in order. *)
Lemma cache_ok_block k it b b' w' :
  cache_ok k -> blocks k !! it = Some b -> DataBlock.cluster b' = DataBlock.cluster b -> DataBlock.key b' = DataBlock.key b ->
  cache_ok (set_world w' (set_blocks (insert it b') k)).
Proof. intros Hok Hb Hc Hk. eapply tables_kept_ok; [by eapply block_kept|done]. Qed.

Lemma on_block_kept {A} it (m : M (DataBlock.DataBlock Cl * W) A) : keeps same_key m -> keeps tables_kept (on_block it m).
Proof.
  intros Hm k. unfold on_block. destruct (blocks k !! it) as [b|] eqn:Hb; [|done].
  specialize (Hm (b, world k)). destruct (m (b, world k)) as [o [b' w']]. destruct Hm as [Hc Hk]. by eapply block_kept.
Qed.

Lemma on_block_ok {A} it (m : M (DataBlock.DataBlock Cl * W) A) k :
  keeps same_key m -> cache_ok k -> cache_ok (on_block it m k).2.
Proof. intros Hm. apply tables_kept_ok. by apply on_block_kept. Qed.

Lemma is_dirty_kept it : keeps tables_kept (is_dirty (W:=W) (Cl:=Cl) it).
Proof. unfold is_dirty. repeat keeps_step. Qed.

Lemma flush_if_dirty_kept restarts it : keeps tables_kept (DataCache.flush_if_dirty restarts it).
Proof.
  unfold DataCache.flush_if_dirty. apply keeps_bind; [apply _|apply is_dirty_kept|]. intros d.
  apply keeps_when; [apply _|]. apply on_block_kept, flush_key.
Qed.

End Facts.

Section Laws.
Context `{ClusterStore W Cl}.
Implicit Types (k : KineticIo W Cl) (b : DataBlock.DataBlock Cl) (i : CacheItem) (it : block_ptr).

(** Reading the clock does not write to a cluster. *)
Lemma ticked_store w w' : ticked (Cl:=Cl) w w' -> forall cl, store cl w' = store cl w.
Proof.
  induction 1 as [w|w w1 w2 [t Ht] _ IH]; [done|]. intros cl. rewrite IH. destruct (now_store w) as (w1' & E & _ & Hst).
  rewrite E in Ht. injection Ht as <- <-. apply Hst.
Qed.

Lemma fo_store k owner it k' : found k owner it k' -> forall cl, store cl (world k') = store cl (world k).
Proof. intros Hf. apply ticked_store, Hf. Qed.

(** *** Flushing *)

(** The blocks that are clean stay clean while others are flushed. *)
Lemma flush_if_dirty_run restarts it k k' :
  DataCache.flush_if_dirty restarts it k = (Ret tt, k') -> cache_ok k ->
  cache_ok k' /\ dataCache k' = dataCache k /\ locals k' = locals k /\
  (forall x b, x <> it -> blocks k !! x = Some b -> blocks k' !! x = Some b) /\
  (exists b, blocks k' !! it = Some b /\ DataBlock.dirty b = false).
Proof.
  unfold DataCache.flush_if_dirty, is_dirty. mstep. destruct (blocks k !! it) as [b|] eqn:Hb; [|done]. cbn [deref]. mstep.
  intros E Hok. destruct (DataBlock.dirty b) eqn:Hd; cbn [when] in E.
  - pose proof (on_block_ok it _ k (flush_key restarts) Hok) as Hok'. unfold on_block in *. rewrite Hb in *.
    destruct (DataBlock.flush restarts (b, world k)) as [o [b' w']] eqn:Ef. injection E as -> <-.
    split_and!; try done.
    + intros x bx Hne Hx. cbn. by rewrite lookup_insert_ne.
    + exists b'. cbn. rewrite lookup_insert_eq. split; [done|]. by eapply flush_clean.
  - injection E as <-. split_and!; try done. by exists b.
Qed.

Lemma flush_all_run restarts its : forall k k', NoDup its ->
  DataCache.flush_all restarts its k = (Ret tt, k') -> cache_ok k ->
  cache_ok k' /\ dataCache k' = dataCache k /\ locals k' = locals k /\
  (forall x b, x ∉ its -> blocks k !! x = Some b -> blocks k' !! x = Some b) /\
  (forall it, it ∈ its -> exists b, blocks k' !! it = Some b /\ DataBlock.dirty b = false).
Proof.
  induction its as [|it its IH]; intros k k' Hn; cbn [DataCache.flush_all].
  { intros [= <-] Hok. split_and!; try done. intros it Hit. by apply not_elem_of_nil in Hit. }
  intros E Hok. apply bind_inv_ret in E as ([] & k1 & E1 & E). apply NoDup_cons in Hn as [Hni Hn].
  destruct (flush_if_dirty_run _ _ _ _ E1 Hok) as (Hok1 & Hc1 & Hl1 & Hs1 & b1 & Hb1 & Hd1).
  destruct (IH k1 k' Hn E Hok1) as (Hok' & Hc' & Hl' & Hs' & Hd'). split_and!; try congruence.
  - intros x b Hx Hb. apply Hs'; [set_solver|]. apply Hs1; [set_solver|done].
  - intros x [->|Hx]%elem_of_cons; [|by apply Hd']. exists b1. split; [by apply Hs'|done].
Qed.

Lemma with_locals_run {A} its (m : M (KineticIo W Cl) A) : forall k a k',
  foldr with_local m its k = (Ret a, k') -> exists k1 k2, m k1 = (Ret a, k2) /\
    k1 = set_locals (fun l => reverse its ++ l) k /\ k' = set_locals (drop (length its)) k2.
Proof.
  induction its as [|it its IH]; intros k a k'; cbn [foldr].
  - intros E. exists k, k'. split_and!; [done|by destruct k|]. destruct k'. unfold set_locals. cbn. by rewrite drop_0.
  - unfold with_local at 1. destruct (foldr with_local m its _) as [o k3] eqn:E. intros [= -> <-].
    destruct (IH _ _ _ E) as (k1 & k2 & Em & -> & ->). eexists _, k2. split; [exact Em|]. split.
    + unfold set_locals. cbn [locals dataCache threadPool running readahead_window_size blocks files world]. f_equal. rewrite reverse_cons. by rewrite <- app_assoc.
    + unfold set_locals. cbn. f_equal. by rewrite drop_drop, Nat.add_1_r.
Qed.

Lemma flush_run restarts owner k k' :
  DataCache.flush restarts owner k = (Ret tt, k') -> cache_ok k ->
  cache_ok k' /\ dataCache k' = dataCache k /\
  (forall x b, x ∉ default ∅ (owner_tables (dataCache k) !! owner) -> blocks k !! x = Some b -> blocks k' !! x = Some b) /\
  (forall it, it ∈ default ∅ (owner_tables (dataCache k) !! owner) -> exists b, blocks k' !! it = Some b /\ DataBlock.dirty b = false).
Proof.
  unfold DataCache.flush, DataCache.the_cache. mstep. intros E Hok.
  set (its := elements (default ∅ (owner_tables (dataCache k) !! owner))) in *.
  destruct (with_locals_run _ _ _ _ _ E) as (k1 & k2 & Em & -> & ->).
  destruct (flush_all_run restarts its _ _ (NoDup_elements _) Em) as (Hok2 & Hc2 & _ & Hs2 & Hd2); [by apply (cache_ok_ext k)|].
  split_and!; [by apply (cache_ok_ext k2)|exact Hc2| |].
  - intros x b Hx. apply Hs2. unfold its. by rewrite elem_of_elements.
  - intros it Hit. apply Hd2. unfold its. by rewrite elem_of_elements.
Qed.

End Laws.

(** ** Properties *)

(** C8: Looking up a block.  In a state whose tables are in order, whose cache is not over its capacity and
    whose memory does not wrap around, [getDataKey] succeeds for every file, block number and mode.  It
    returns the block of exactly that key of the file's cluster instance: the one in the cache, with no
    block touched, if there is one, and an empty new one otherwise.  The tables are in order again, the
    block is the most recently used one and registered with its owner, no cluster was written to, and no
    block with unsaved changes or in use was given up to make room. *)
Theorem cache_lookup `{ClusterStore W Cl} restarts (k : KineticIo W Cl) owner f n mode :
  cache_ok k -> files k !! owner = Some f -> current_size (dataCache k) <= capacity (dataCache k) ->
  0 < max_value_size (store_limits (File.cluster f)) ->
  total (blocks k) (cached k) + total (blocks k) (unused k) + max_value_size (store_limits (File.cluster f)) < 2 ^ 64 ->
  exists it b k', DataCache.getDataKey restarts owner n mode k = (Ret it, k') /\ found k owner it k' /\
    blocks k' !! it = Some b /\ identity b = file_name f n /\
    match lookup (dataCache k) !! file_name f n with
    | Some it' => it = it' /\ blocks k' = blocks k
    | None => exists reused, blank (File.cluster f) (file_key f n) mode reused b
    end.
Proof.
  intros Hok Hf Hcap Hpos Hsum. destruct (lookup (dataCache k) !! file_name f n) as [it|] eqn:El.
  - destruct (getDataKey_hit restarts k owner f n mode it Hok Hf El) as (k' & E & Hfo & Hb).
    destruct (proj1 (ok_lookup k Hok _ _) El) as (_ & b & Hbi & Hid). exists it, b, k'. by rewrite Hb.
  - destruct (getDataKey_miss restarts k owner f n mode Hok Hf El Hcap Hpos Hsum) as (it & b & reused & k' & E & Hfo & Hb & Hbl & _).
    exists it, b, k'. split_and!; try done; [|by exists reused]. destruct Hbl as (Hc & Hk & _). unfold identity. by rewrite Hc, Hk.
Qed.

Import MapCluster.

(** A library with an empty cache and two files. *)
Definition example_file (path : bytes) : File.FileIo unit := File.mkFile tt (PrefetchOracle.PrefetchOracle.new_oracle 0) 0 0 [] true path.

Definition example_kio (capacity : Z) : KineticIo MapCluster.state unit :=
  mkKio (DataCache.new_cache capacity) (mkHandler [] 4 1 1 false) [] 0 ∅
    {[1%positive := example_file (str "a"); 2%positive := example_file (str "b")]} [] (MapCluster.mkState ∅ (20 * ns_per_s)).

Lemma example_ok capacity : cache_ok (example_kio capacity).
Proof. by eapply new_cache_ok. Qed.

Lemma cache_lookup_witness :
  exists it b k', DataCache.getDataKey 1 1%positive 7 DataBlock.CREATE (example_kio 100) = (Ret it, k') /\
    found (example_kio 100) 1%positive it k' /\ blocks k' !! it = Some b /\
    identity b = str "C1:data:a_0000000007instance".
Proof.
  destruct (cache_lookup 1 (example_kio 100) 1%positive (example_file (str "a")) 7 DataBlock.CREATE) as (it & b & k' & E & Hf & Hb & Hid & _).
  - apply example_ok.
  - reflexivity.
  - by vm_compute.
  - by vm_compute.
  - by vm_compute.
  - exists it, b, k'. split; [exact E|]. split; [exact Hf|]. split; [exact Hb|]. rewrite Hid. vm_compute. reflexivity.
Defined.

(** Dropping an owner.  [drop] always succeeds and leaves the tables in order: no item is owned by the
    file any more and its table is gone.  Unless it is forced every block stays in the cache for the next
    user; when it is forced exactly the blocks the file has used leave it.  No block changes. *)
Theorem cache_drop `{ClusterStore W Cl} (k : KineticIo W Cl) owner force :
  cache_ok k -> exists k', DataCache.drop_owner owner force k = (Ret tt, k') /\ cache_ok k' /\ blocks k' = blocks k /\
    owner_tables (dataCache k') !! owner = None /\ (forall i, i ∈ cache (dataCache k') -> owner ∉ owners i) /\
    forall x, x ∈ cached k' <-> x ∈ cached k /\ (force = true -> x ∉ default ∅ (owner_tables (dataCache k) !! owner)).
Proof.
  intros Hok. destruct (drop_owner_ok k owner force Hok) as (k' & E & Hok' & Ht & Hi & Hb & _ & _ & _ & _ & Hc).
  exists k'. by split_and!.
Qed.

Lemma cache_drop_witness : exists k', DataCache.drop_owner 1%positive true (example_kio 100) = (Ret tt, k') /\ cache_ok k'.
Proof.
  destruct (cache_drop (example_kio 100) 1%positive true (example_ok 100)) as (k' & E & Hok & _).
  exists k'. split; [exact E|exact Hok].
Defined.

(** C34: Flushing a file.  When [flush] returns, every block its owner has used is clean, the other blocks
    are untouched and so are the lists and tables of the cache. *)
Theorem cache_flush `{ClusterStore W Cl} restarts (k k' : KineticIo W Cl) owner :
  DataCache.flush restarts owner k = (Ret tt, k') -> cache_ok k ->
  cache_ok k' /\ dataCache k' = dataCache k /\
  (forall it, it ∈ default ∅ (owner_tables (dataCache k) !! owner) -> exists b, blocks k' !! it = Some b /\ DataBlock.dirty b = false) /\
  (forall it b, it ∉ default ∅ (owner_tables (dataCache k) !! owner) -> blocks k !! it = Some b -> blocks k' !! it = Some b).
Proof. intros E Hok. destruct (flush_run restarts owner k k' E Hok) as (H1 & H2 & H3 & H4). by split_and!. Qed.

(** ** Runs *)

(** A file creates a block, writes to it and flushes. *)
Definition write_some (owner : file_ptr) (n : Z) : M (KineticIo MapCluster.state unit) block_ptr :=
  it ← DataCache.getDataKey 2 owner n DataBlock.CREATE;
  on_block it (DataBlock.write (Some (str "data")) 0 4);;
  mret it.

Definition written_kio : KineticIo MapCluster.state unit := (write_some 1 0 (example_kio 100)).2.

Lemma written_kio_ok : cache_ok written_kio.
Proof.
  unfold written_kio, write_some.
  destruct (getDataKey_miss 2 (example_kio 100) 1%positive (example_file (str "a")) 0 DataBlock.CREATE) as (it & b & reused & k' & E & Hfo & _);
    [apply example_ok|done..|].
  rewrite (bind_ret _ _ _ _ _ E), bind_unfold.
  assert (cache_ok (on_block it (DataBlock.write (Some (str "data")) 0 4) k').2) as Hok.
  { apply on_block_ok; [apply write_key|apply Hfo]. }
  by destruct (on_block it _ k') as [[] k2].
Qed.

Lemma cache_flush_witness :
  (exists k', DataCache.flush 2 1%positive written_kio = (Ret tt, k')) /\
  forall k', DataCache.flush 2 1%positive written_kio = (Ret tt, k') ->
    exists b, blocks k' !! 1%positive = Some b /\ DataBlock.dirty b = false.
Proof.
  split; [eexists; vm_compute; reflexivity|].
  intros k' E. destruct (cache_flush 2 written_kio k' 1%positive E written_kio_ok) as (_ & _ & Hd & _).
  apply Hd. apply (bool_decide_unpack _). vm_compute. reflexivity.
Defined.

(** ** What the cache does not guarantee *)

(** An ordinary access to a cache that has grown past its capacity decrements the iterator of a removed
    element: three blocks of 16 bytes in a cache of 24. *)
Lemma full_cache_is_undefined :
  let get n := DataCache.getDataKey 2 1%positive n DataBlock.STANDARD in
  fst ((get 0;; get 1;; get 2) (example_kio 24)) = UB.
Proof. by vm_compute. Qed.

(** A block that is dropped by force is re-used although a task of the thread pool still points to it. *)
Lemma dropped_block_is_reused_in_use :
  let run := it ← write_some 1 0; pool_try_run (CacheFlush it);; DataCache.drop_owner 1 true;;
             it' ← DataCache.getDataKey 2 2%positive 0 DataBlock.STANDARD; mret (it, it') in
  exists it k, run (example_kio 100) = (Ret (it, it), k) /\ it ∈ pointers k.
Proof. eexists _, _. split; [vm_compute; reflexivity|]. apply (bool_decide_unpack _). vm_compute. reflexivity. Qed.
