(* ===== verification/FileIo.v ===== *)
(** * Files (src/FileIo.cc)

    A file is a metadata key, attribute keys and the keys of its blocks.  Reads and writes are split
    into blocks, which the shared cache holds; the number of the last block is tracked and verified
    against the cluster.  A file object is named by its address; its members are part of the state of
    the library. *)

From S2P Require Import Prelude CppString Utility Kinetic Cluster ClusterInterface DataBlock PrefetchOracle.
From S2P Require Import BackgroundOperationHandler Double KineticIo DataCache.
Import PrefetchOracle BackgroundOperationHandler KineticIo File.

Module FileIo.

(** Conversion to a signed 64-bit integer. *)
Definition i64 (x : Z) : Z := (x + 2 ^ 63) mod 2 ^ 64 - 2 ^ 63.

Definition SFS_O_CREAT : Z := 256.

Inductive rw := READ | WRITE.

#[export] Instance rw_eq_dec : EqDecision rw.
Proof. solve_decision. Defined.

(** ** Members *)

Section Members.
Context {Cl : Type}.
Implicit Types f : FileIo Cl.

Definition set_eof (n : Z) f : FileIo Cl :=
  mkFile (cluster f) (prefetchOracle f) n (eof_verification_time f) (exceptions f) (opened f) (path f).
Definition set_verified (t : Z) f : FileIo Cl :=
  mkFile (cluster f) (prefetchOracle f) (eof_blocknumber f) t (exceptions f) (opened f) (path f).
Definition set_oracle (o : PrefetchOracle) f : FileIo Cl :=
  mkFile (cluster f) o (eof_blocknumber f) (eof_verification_time f) (exceptions f) (opened f) (path f).
Definition set_exceptions (l : list exn) f : FileIo Cl :=
  mkFile (cluster f) (prefetchOracle f) (eof_blocknumber f) (eof_verification_time f) l (opened f) (path f).
Definition set_opened (b : bool) f : FileIo Cl :=
  mkFile (cluster f) (prefetchOracle f) (eof_blocknumber f) (eof_verification_time f) (exceptions f) b (path f).

End Members.

Record stat := mkStat { st_blksize : Z; st_blocks : Z; st_size : Z }.

Record statfs := mkStatfs { f_frsize : Z; f_bsize : Z; f_blocks : Z; f_bavail : Z; f_bfree : Z; f_files : Z; f_ffree : Z }.

(** ** Where a position of the file is *)

(** The block of the position [off + off_done], the offset in it, and how much of [length_todo] it holds. *)
Definition block_of (block_capacity off off_done length_todo : Z) : Z * Z * Z :=
  let position := u64 (off + off_done) in
  let block_number := i32 (position / block_capacity) in
  let block_offset := u64 (position - u64 (block_number * block_capacity)) in
  (block_number, block_offset, Z.min length_todo (u64 (block_capacity - block_offset))).

Section File.
Context {W Cl : Type} `{ClusterInterface W Cl}.
Abbreviation Mk := (M (KineticIo W Cl)).

(** How often a flush starts over, the bound of the loops over key ranges and of the block loop of a
    transfer, and the iteration order of the prefetch oracle's map. *)
Variable restarts : nat.
Variable fuel : nat.
Variable order : list (Z * list Z) -> list (Z * list Z).

(** [kio().cmap().getCluster(id)] *)
Variable getCluster : bytes -> Mk Cl.

Definition now : Mk Z := on_world (ci_now (Cl:=Cl)).
Definition clusterId (f : FileIo Cl) : Mk bytes := gets (fun k => ci_id (cluster f) (world k)).
Definition block_size (f : FileIo Cl) : Mk Z := l ← on_world (ci_limits (cluster f)); mret (max_value_size l).
Definition range_size (f : FileIo Cl) : Mk Z := l ← on_world (ci_limits (cluster f)); mret (max_range_elements l).

(** ** Construction, destruction *)

(** [this] is the address of the new object, [eof] the initial value of a member that is not initialised. *)
Definition new_file (this : file_ptr) (eof : Z) (url : bytes) : Mk unit :=
  if negb (bool_decide (take (length scheme) url = scheme)) then throw (system_error invalid_argument) else
  path ← lift (urlToPath url);
  id ← lift (urlToClusterId url);
  cluster ← getCluster id;
  window ← gets readahead_window_size;
  modify (set_files (insert this (mkFile cluster (new_oracle window) eof 0 [] false path))).

Definition delete_file (this : file_ptr) : Mk unit :=
  DataCache.drop_owner this true;;
  modify (set_files (delete this)).

(** ** Opening and closing *)

Definition Open (this : file_ptr) (flags : Z) : Mk unit :=
  f ← the_file this;
  cid ← clusterId f;
  let mdkey := makeMetadataKey cid (path f) in
  (if bool_decide (Z.land flags SFS_O_CREAT <> 0) then
     '(status, _) ← on_world (ci_put (cluster f) mdkey (Some []) (Some []));
     if bool_decide (status = OK) then
       set_file this (set_eof 0);;
       t ← now;
       set_file this (set_verified t)
     else if bool_decide (status = REMOTE_VERSION_MISMATCH) then throw (system_error file_exists)
     else throw (system_error io_error)
   else
     '(status, _) ← on_world (ci_get_version (cluster f) mdkey);
     if bool_decide (status = OK) then
       set_file this (set_eof 0);;
       set_file this (set_verified 0)
     else if bool_decide (status = REMOTE_NOT_FOUND) then throw (system_error no_such_file_or_directory)
     else throw (system_error io_error));;
  set_file this (set_opened true).

Definition Sync (this : file_ptr) : Mk unit :=
  DataCache.flush restarts this;;
  f ← the_file this;
  on_world (ci_flush (cluster f));;
  mret tt.

Definition Close (this : file_ptr) : Mk unit :=
  set_file this (set_eof 0);;
  set_file this (set_opened false);;
  Sync this;;
  DataCache.drop_owner this false.

(** ** The end of the file *)

Definition get_eof_backend (this : file_ptr) : Mk Z :=
  f ← the_file this;
  cid ← clusterId f;
  '(status, keys) ← on_world (ci_range (cluster f) (makeDataKey cid (path f) 999999999) (makeDataKey cid (path f) 0) 1);
  if negb (bool_decide (status = OK)) then throw (system_error io_error) else
  keys ← lift (deref keys);
  match keys with
  | key :: _ => number ← lift (substr key (u64 (find_last_of "_" key + 1)) (slen key)); lift (stoi number)
  | [] =>
      '(status, _) ← on_world (ci_get_version (cluster f) (makeMetadataKey cid (path f)));
      if bool_decide (status = OK) then mret 0 else throw (system_error no_such_file_or_directory)
  end.

Definition verify_eof (this : file_ptr) : Mk unit :=
  t ← now;
  f ← the_file this;
  when (DataBlock.expiration_time <? to_millis (t - eof_verification_time f))
    (t ← now;
     set_file this (set_verified t);;
     backend ← get_eof_backend this;
     f ← the_file this;
     if eof_blocknumber f <=? backend then set_file this (set_eof backend)
     else
       last_block ← DataCache.getDataKey restarts this (eof_blocknumber f) DataBlock.STANDARD;
       with_local last_block
         (d ← is_dirty last_block;
          when (negb d) (n ← get_eof_backend this; set_file this (set_eof n)))).

(** ** Background work *)

Definition do_readahead (data : block_ptr) : Mk unit := on_block data (DataBlock.read (Some [NUL]) 0 1);; mret tt.

(** How far to read ahead, by the utilization of the cache: [window], less, or nothing. *)
Definition readahead_length (window : Z) (utilization : double) : outcome Z :=
  if dltb (literal 95 100) utilization then Ret 0
  else if dltb (literal 75 100) utilization then
    to_size (dmul (of_int window) (ddiv (dsub (of_int 1) utilization) (literal 25 100)))
  else Ret window.

Fixpoint readahead_blocks (this : file_ptr) (prediction : list Z) : Mk unit :=
  match prediction with
  | [] => mret tt
  | n :: prediction' =>
      f ← the_file this;
      when (n <? eof_blocknumber f)
        (data ← DataCache.getDataKey restarts this n DataBlock.STANDARD;
         pool_try_run (Readahead data);;
         mret tt);;
      readahead_blocks this prediction'
  end.

Definition scheduleReadahead (this : file_ptr) (blocknumber : Z) : Mk unit :=
  set_file this (fun f => set_oracle (add blocknumber (prefetchOracle f)) f);;
  window ← gets readahead_window_size;
  c ← gets dataCache;
  length ← lift (readahead_length (Z.of_nat window) (DataCache.utilization c));
  when (negb (length =? 0))
    (f ← the_file this;
     let '(prediction, o) := predict order (Z.to_nat length) CONTINUE (prefetchOracle f) in
     set_file this (set_oracle o);;
     prediction ← lift prediction;
     readahead_blocks this prediction).

(** Exceptions of a flush in the background are kept for the next request. *)
Definition doFlush (this : file_ptr) (data : block_ptr) : Mk unit :=
  d ← is_dirty data;
  when d (try_catch (on_block data (DataBlock.flush restarts)) (fun e =>
    match e with
    | system_error _ => set_file this (fun f => set_exceptions (exceptions f ++ [e]) f)
    | _ => throw e
    end)).

Definition scheduleFlush (this : file_ptr) (data : block_ptr) : Mk unit :=
  k ← get;
  let '(a, p) := run (FileFlush this data) (threadPool k) in
  modify (set_pool p (match a with NewThread => [FileFlush this data] | _ => [] end));;
  match a with Inline => doFlush this data | _ => mret tt end.

(** What the thread pool runs. *)
Definition perform (t : task) : Mk unit :=
  match t with
  | CacheFlush data => DataCache.flush_if_dirty restarts data
  | FileFlush this data => doFlush this data
  | Readahead data => do_readahead data
  end.

(** ** Reading and writing *)

(** How a round of the block loop ends: the next block, the same block again, or the end of the loop
    with what is left to do; with the caller's buffer. *)
Inductive round := Next | Again | Done (length_todo : Z).

Definition write_block (this : file_ptr) (data : block_ptr) (block_capacity : Z) (buffer : bytes) (off_done block_offset block_length : Z) :
    Mk (round * bytes) :=
  on_block data (DataBlock.write (Some (drop (Z.to_nat off_done) buffer)) block_offset block_length);;
  when (u64 (block_offset + block_length) =? block_capacity) (scheduleFlush this data);;
  mret (Next, buffer).

(** The block at or past the end of the file: its size bounds what is read. *)
Definition read_last (this : file_ptr) (data : block_ptr) (block_number block_offset block_length length_todo : Z) : Mk round :=
  verify_eof this;;
  f ← the_file this;
  if block_number <? eof_blocknumber f then mret Again else
  size ← on_block data DataBlock.size;
  if block_offset <? size then
    size ← on_block data DataBlock.size;
    mret (Done (u64 (length_todo - Z.min block_length (u64 (size - block_offset)))))
  else mret (Done length_todo).

Definition read_block (this : file_ptr) (data : block_ptr) (buffer : bytes) (off_done block_number block_offset block_length length_todo : Z) :
    Mk (round * bytes) :=
  piece ← on_block data (DataBlock.read (Some (drop (Z.to_nat off_done) buffer)) block_offset block_length);
  let buffer := take (Z.to_nat off_done) buffer ++ piece in
  f ← the_file this;
  if eof_blocknumber f <=? block_number then
    r ← read_last this data block_number block_offset block_length length_todo;
    mret (r, buffer)
  else mret (Next, buffer).

(** The caller's buffer holds [length] bytes; a transfer beyond it is undefined. *)
Fixpoint rw_loop (n : nat) (this : file_ptr) (mode : rw) (block_capacity off off_done length_todo : Z) (buffer : bytes) : Mk (Z * bytes) :=
  match n with
  | O => out_of_fuel
  | S n' =>
      if length_todo =? 0 then mret (0, buffer) else
      let '(block_number, block_offset, block_length) := block_of block_capacity off off_done length_todo in
      if slen buffer <? off_done + block_length then lift UB else
      f ← the_file this;
      let create := bool_decide (mode = WRITE) && (eof_blocknumber f <? block_number) in
      when create (set_file this (set_eof block_number));;
      data ← DataCache.getDataKey restarts this block_number (if create then DataBlock.CREATE else DataBlock.STANDARD);
      '(r, buffer) ← with_local data
        (scheduleReadahead this block_number;;
         match mode with
         | WRITE => write_block this data block_capacity buffer off_done block_offset block_length
         | READ => read_block this data buffer off_done block_number block_offset block_length length_todo
         end);
      match r with
      | Next => rw_loop n' this mode block_capacity off (off_done + block_length) (length_todo - block_length) buffer
      | Again => rw_loop n' this mode block_capacity off off_done length_todo buffer
      | Done todo => mret (todo, buffer)
      end
  end.

Definition ReadWrite (this : file_ptr) (off : Z) (buffer : bytes) (length : Z) (mode : rw) : Mk (Z * bytes) :=
  f ← the_file this;
  match exceptions f with
  | e :: es => set_file this (set_exceptions es);; throw e
  | [] =>
      block_capacity ← block_size f;
      if block_capacity =? 0 then (if length =? 0 then mret (0, buffer) else lift UB) else
      '(todo, buffer) ← rw_loop fuel this mode block_capacity off 0 (u64 length) buffer;
      mret (i64 (length - todo), buffer)
  end.

Definition Read (this : file_ptr) (offset : Z) (buffer : bytes) (length : Z) : Mk (Z * bytes) :=
  f ← the_file this;
  if negb (opened f) then throw (system_error operation_not_permitted) else
  ReadWrite this offset buffer length READ.

Definition Write (this : file_ptr) (offset : Z) (buffer : bytes) (length : Z) : Mk Z :=
  f ← the_file this;
  if negb (opened f) then throw (system_error operation_not_permitted) else
  '(n, _) ← ReadWrite this offset buffer length WRITE;
  mret n.

(** ** Truncating and removing *)

(** Removing the keys of one reply. *)
Fixpoint remove_keys (f : FileIo Cl) (keys : list bytes) : Mk unit :=
  match keys with
  | [] => mret tt
  | key :: keys' =>
      status ← on_world (ci_remove_any (cluster f) key);
      if negb (bool_decide (status = OK)) && negb (bool_decide (status = REMOTE_NOT_FOUND)) then throw (system_error io_error)
      else remove_keys f keys'
  end.

(** All block keys of the file from [first_block]. *)
Fixpoint remove_blocks (n : nat) (f : FileIo Cl) (first_block : Z) : Mk unit :=
  match n with
  | O => out_of_fuel
  | S n' =>
      cid ← clusterId f;
      '(status, keys) ← on_world (ci_range (cluster f) (makeDataKey cid (path f) first_block) (makeDataKey cid (path f) INT_MAX) 0);
      if negb (bool_decide (status = OK)) then throw (system_error io_error) else
      keys ← lift (deref keys);
      remove_keys f keys;;
      max ← range_size f;
      if slen keys =? max then remove_blocks n' f first_block else mret tt
  end.

Definition Truncate (this : file_ptr) (offset : Z) : Mk unit :=
  f ← the_file this;
  if negb (opened f) then throw (system_error operation_not_permitted) else
  block_capacity ← block_size f;
  if block_capacity =? 0 then lift UB else
  let block_number := i32 (u64 offset / block_capacity) in
  let block_offset := u64 (offset - u64 (block_number * block_capacity)) in
  when (0 <? offset)
    (data ← DataCache.getDataKey restarts this block_number DataBlock.STANDARD;
     with_local data (on_block data (DataBlock.truncate block_offset));;
     DataCache.flush restarts this);;
  DataCache.drop_owner this true;;
  remove_blocks fuel f (if offset =? 0 then 0 else i32 (block_number + 1));;
  set_file this (set_eof block_number).

(** ** Attributes *)

(** [attrGet("sys.iostats")] *)
Definition show_iostats (s : ClusterStats) : bytes :=
  let time := of_int (to_seconds (io_end s - io_start s)) in
  let MB := of_int (1024 * 1024) in
  str "read-mb-total=" ++ show_double (ddiv (of_int (read_bytes_total s)) MB) ++
  str ",read-ops-total=" ++ to_string (read_ops_total s) ++
  str ",write-mb-total=" ++ show_double (ddiv (of_int (write_bytes_total s)) MB) ++
  str ",write-ops-total=" ++ to_string (write_ops_total s) ++
  str ",read-mb-second=" ++ show_double (ddiv (ddiv (of_int (read_bytes_period s)) time) MB) ++
  str ",read-ops-second=" ++ show_double (ddiv (of_int (read_ops_period s)) time) ++
  str ",write-mb-second=" ++ show_double (ddiv (ddiv (of_int (write_bytes_period s)) time) MB) ++
  str ",write-ops-second=" ++ show_double (ddiv (of_int (write_ops_period s)) time).

(** [attrGet("sys.health")] *)
Definition show_health (h : ClusterStatus) : bytes :=
  let redundancies := i32 (redundancy_factor h - drives_failed h) in
  str "indicator=" ++ (if indicator_exist h then str "1" else str "0") ++ str "," ++
  str "drives_total=" ++ to_string (drives_total h) ++ str "," ++
  str "drives_failed=" ++ to_string (drives_failed h) ++ str "," ++
  str "redundancy_factor=" ++ to_string (redundancy_factor h) ++ str "," ++
  str "summary=" ++ (if indicator_exist h then str "! " else []) ++
  to_string (u32 (drives_total h - drives_failed h)) ++ str "/" ++ to_string (drives_total h) ++
  str " (" ++ (if redundancies <? 0 then [] else str "+") ++ to_string redundancies ++ str ")".

Definition attrGet (this : file_ptr) (name : bytes) : Mk bytes :=
  f ← the_file this;
  if bool_decide (name = str "sys.iostats") then s ← on_world (ci_stats (cluster f)); mret (show_iostats s) else
  if bool_decide (name = str "sys.health") then s ← on_world (ci_stats (cluster f)); mret (show_health (health s)) else
  cid ← clusterId f;
  '(status, r) ← on_world (ci_get (cluster f) (makeAttributeKey cid (path f) name));
  if bool_decide (status = OK) then lift (deref (r ≫= snd))
  else if bool_decide (status = REMOTE_NOT_FOUND) then throw (system_error no_such_file_or_directory)
  else throw (system_error io_error).

Definition attrSet (this : file_ptr) (name value : bytes) : Mk unit :=
  f ← the_file this;
  cid ← clusterId f;
  '(status, _) ← on_world (ci_put_any (cluster f) (makeAttributeKey cid (path f) name) (Some value));
  if negb (bool_decide (status = OK)) then throw (system_error io_error) else mret tt.

Definition attrDelete (this : file_ptr) (name : bytes) : Mk unit :=
  f ← the_file this;
  cid ← clusterId f;
  status ← on_world (ci_remove_any (cluster f) (makeAttributeKey cid (path f) name));
  if negb (bool_decide (status = OK)) then throw (system_error io_error) else mret tt.

(** Every reply starts with the last key of the one before. *)
Fixpoint list_attributes (n : nat) (f : FileIo Cl) (start : bytes) (names : list bytes) : Mk (list bytes) :=
  match n with
  | O => out_of_fuel
  | S n' =>
      cid ← clusterId f;
      '(status, keys) ← on_world (ci_range (cluster f) start (makeAttributeKey cid (path f) (str "~")) 0);
      if negb (bool_decide (status = OK)) then throw (system_error io_error) else
      keys ← lift (deref keys);
      more ← lift (mapM (extractAttributeName cid (path f)) keys);
      max ← range_size f;
      if slen keys =? max then list_attributes n' f (default start (last keys)) (names ++ more) else mret (names ++ more)
  end.

Definition attrList (this : file_ptr) : Mk (list bytes) :=
  f ← the_file this;
  cid ← clusterId f;
  list_attributes fuel f (makeAttributeKey cid (path f) (str " ")) [].

Fixpoint remove_attributes (f : FileIo Cl) (attributes : list bytes) : Mk unit :=
  match attributes with
  | [] => mret tt
  | name :: attributes' =>
      cid ← clusterId f;
      status ← on_world (ci_remove_any (cluster f) (makeAttributeKey cid (path f) name));
      if negb (bool_decide (status = OK)) then throw (system_error io_error) else remove_attributes f attributes'
  end.

Definition Remove (this : file_ptr) : Mk unit :=
  f ← the_file this;
  when (negb (opened f)) (Open this 0);;
  attributes ← attrList this;
  f ← the_file this;
  remove_attributes f attributes;;
  Truncate this 0;;
  f ← the_file this;
  cid ← clusterId f;
  status ← on_world (ci_remove_any (cluster f) (makeMetadataKey cid (path f)));
  if negb (bool_decide (status = OK)) && negb (bool_decide (status = REMOTE_NOT_FOUND)) then throw (system_error io_error)
  else mret tt.

(** ** Properties of the file and of the cluster *)

Definition Stat (this : file_ptr) : Mk stat :=
  f ← the_file this;
  when (negb (opened f)) (Open this 0);;
  verify_eof this;;
  f ← the_file this;
  last_block ← DataCache.getDataKey restarts this (eof_blocknumber f) DataBlock.STANDARD;
  with_local last_block
    (f ← the_file this;
     blksize ← block_size f;
     size ← on_block last_block DataBlock.size;
     mret (mkStat blksize (i32 (eof_blocknumber f + 1)) (i64 (eof_blocknumber f * blksize + size)))).

Definition Statfs (this : file_ptr) : Mk statfs :=
  f ← the_file this;
  s ← on_world (ci_stats (cluster f));
  if bytes_total s =? 0 then throw (system_error io_error) else
  let total := bytes_total s / 4096 in
  let free := bytes_free s / 4096 in
  mret (mkStatfs 4096 4096 total free free total free).

(** The names of one reply, up to [max] in all. *)
Fixpoint list_names (max : nat) (names keys : list bytes) : outcome (list bytes) :=
  match keys with
  | [] => Ret names
  | key :: keys' =>
      if bool_decide (length names < max)%nat then url ← metadataToUrl key; list_names max (names ++ [url]) keys' else Ret names
  end.

Fixpoint list_files (n : nat) (f : FileIo Cl) (start : bytes) (max : nat) (names : list bytes) : Mk (list bytes) :=
  match n with
  | O => out_of_fuel
  | S n' =>
      cid ← clusterId f;
      '(status, keys) ← on_world (ci_range (cluster f) start (makeMetadataKey cid (str "~")) 0);
      if negb (bool_decide (status = OK)) then throw (system_error io_error) else
      keys ← lift (deref keys);
      names ← lift (list_names max names keys);
      let start := match last keys with Some key => key ++ str " " | None => start end in
      elements ← range_size f;
      if bool_decide (length names < max)%nat && (slen keys =? elements) then list_files n' f start max names else mret names
  end.

Definition ListFiles (this : file_ptr) (subtree : bytes) (max : nat) : Mk (list bytes) :=
  f ← the_file this;
  if negb (contains (path f) subtree) then throw (system_error invalid_argument) else
  subtree_base ← lift (urlToPath subtree);
  cid ← clusterId f;
  list_files fuel f (makeMetadataKey cid subtree_base) max [].

End File.
End FileIo.
