(* ===== verification/FileSpec.v ===== *)
(** * What files promise (src/FileIo.cc)

    A client of a file sees bytes at positions.  [file_byte] is the byte the library stands for at a
    position of a block: the one it remembers as written, or the one the cluster stores.  Writes are
    shown to change exactly the bytes they are told to, whatever the block cache does meanwhile;
    attributes, truncation and the search for the end of a file are related to the keys of the
    cluster.  The cluster is any instance of [ClusterStore]. *)

From Stdlib Require Import SpecFloat.
From S2P Require Import Prelude CppString Utility Kinetic Cluster ClusterInterface DataBlock PrefetchOracle.
From S2P Require Import BackgroundOperationHandler Double KineticIo DataCache FileIo.
Import Cache BackgroundOperationHandler KineticIo FileIo.

#[local] Arguments u64 : simpl never.

(** ** Where a position is *)

Lemma block_of_spec n off off_done todo :
  0 < n -> 0 <= off + off_done -> off + off_done < 2 ^ 64 -> (off + off_done) / n <= INT_MAX -> n < 2 ^ 64 -> 0 < todo ->
  let p := off + off_done in
  block_of n off off_done todo = (p / n, p mod n, Z.min todo (n - p mod n)).
Proof.
  intros Hn Hp Hp' Hb Hn' Ht p. subst p. set (p := off + off_done) in *. unfold block_of. fold p.
  pose proof (Z.mod_pos_bound p n Hn) as Hm. pose proof (Z.div_mod p n ltac:(lia)) as Hd.
  assert (0 <= p / n) by (apply Z.div_pos; lia). assert (n * (p / n) < 2 ^ 64) by lia.
  rewrite (u64_small p), i32_small by (unfold INT_MIN, INT_MAX in *; lia). rewrite (u64_small (p / n * n)) by lia.
  replace (p - p / n * n) with (p mod n) by lia. rewrite !u64_small by lia. done.
Qed.

(** A position of a block and the position of the file it is. *)
Lemma position_in n m i p : 0 < n -> 0 <= i < n -> p = m * n + i <-> p / n = m /\ p mod n = i.
Proof.
  intros Hn Hi. split.
  - intros ->. split; [|rewrite Z.add_comm, Z_mod_plus_full; by apply Z.mod_small].
    rewrite Z.div_add_l by lia. rewrite Z.div_small by lia. lia.
  - intros [<- <-]. pose proof (Z.div_mod p n ltac:(lia)). lia.
Qed.

(** ** Utilization *)

(** Two numbers with the same exponent. *)
Lemma dltb_below (a c : positive) e u :
  (a <= c)%positive -> dltb (S754_finite false a e) u = false -> dltb (S754_finite false c e) u = false.
Proof.
  intros Hac. unfold dltb, SFltb. destruct u as [[]|[]| |[] m e']; try done. cbn [SFcompare].
  destruct (e ?= e'); try done. fold (a ?= m)%positive. fold (c ?= m)%positive.
  destruct (Pos.compare_spec c m), (Pos.compare_spec a m); try done; lia.
Qed.

Lemma three_quarters u : dltb (literal 75 100) u = false -> dltb (literal 95 100) u = false.
Proof.
  assert (literal 75 100 = S754_finite false 6755399441055744 (-53)) as -> by by vm_compute.
  assert (literal 95 100 = S754_finite false 8556839292003942 (-53)) as -> by by vm_compute. apply dltb_below. by vm_compute.
Qed.

Lemma readahead_off u : dltb (literal 75 100) u = false -> readahead_length 0 u = Ret 0.
Proof. intros Hu. unfold readahead_length. by rewrite three_quarters, Hu. Qed.

Section Laws.
Context `{ClusterStore W Cl}.
Implicit Types (k : KineticIo W Cl) (b : DataBlock.DataBlock Cl) (f : File.FileIo Cl) (this : file_ptr) (it : block_ptr).

(** ** The bytes of a file *)

(** The byte a cached block remembers as written and has not published yet. *)
Definition remembered k (name : bytes) (i : nat) : option ascii :=
  it ← lookup (dataCache k) !! name; b ← blocks k !! it;
  if covered (DataBlock.updates b) i then served b !! i else None.

(** The byte the cluster stores. *)
Definition stored_byte k f (m : Z) (i : nat) : option ascii :=
  store (File.cluster f) (world k) !! file_key f m ≫= (fun v => v.2 !! i).

Definition file_byte k f (m : Z) (i : nat) : option ascii :=
  match remembered k (file_name f m) i with Some c => Some c | None => stored_byte k f m i end.

Lemma file_name_inj f m n : 0 <= m <= INT_MAX -> 0 <= n <= INT_MAX -> file_name f m = file_name f n -> m = n.
Proof.
  intros Hm Hn E. unfold file_name, file_key in E. apply app_inv_tail in E.
  pose proof (makeDataKey_ltb (store_id (File.cluster f)) (File.path f) m n Hm Hn) as H1.
  pose proof (makeDataKey_ltb (store_id (File.cluster f)) (File.path f) n m Hn Hm) as H2.
  rewrite E, str_ltb_irrefl in H1. rewrite E, str_ltb_irrefl in H2. lia.
Qed.

(** ** Being ready for a write *)

Section BlockSize.
(** All clusters have the same block size. *)
Variable n : Z.
Hypothesis (Hsize : forall cl, max_value_size (store_limits cl) = n) (Hpos : 0 < n < 2 ^ 64).

(** The tables of the cache are in order, so is every block; the pool has a queue and read-ahead is off. *)
Record ready k : Prop := {
  re_ok : cache_ok k;
  re_blocks : forall p b, blocks k !! p = Some b -> block_fine n b;
  re_queue : queue_capacity (threadPool k) <> 0%nat;
  re_window : readahead_window_size k = 0%nat;
}.

(** The cache has room for [r] more blocks and stays below three quarters of its capacity with them. *)
Record room (r : Z) k : Prop := {
  ro_current : current_size (dataCache k) + r * n <= capacity (dataCache k);
  ro_total : total (blocks k) (cached k) + total (blocks k) (unused k) + r * n < 2 ^ 64;
  ro_utilization : forall size, 0 <= size <= current_size (dataCache k) + r * n ->
    dltb (literal 75 100) (ddiv (of_int size) (of_int (capacity (dataCache k)))) = false;
}.

Lemma cap_size b : cap b = n.
Proof. apply Hsize. Qed.

Lemma blank_fine cl key mode old b :
  blank cl key mode old b -> (forall o, old = Some o -> block_fine n o) -> block_fine n b.
Proof.
  intros (_ & _ & _ & _ & Hu & Hv & Hr & Hl) Hold. split; [|by rewrite Hu|].
  - split; rewrite ?Hv, ?Hu; [|unfold served; rewrite Hl, Hr|constructor].
    + split; [lia|]. apply slen_nonneg.
    + destruct old as [o|]; cbn; [|unfold slen; simpl; lia]. specialize (Hold o eq_refl) as [[_ Hc _] _ _]. unfold served in Hc.
      destruct (DataBlock.local_value o); cbn; [|done]. unfold slen. rewrite length_replicate, cap_size. lia.
  - rewrite Hr. destruct old as [o|]; cbn; [by apply Hold|unfold slen; simpl; lia].
Qed.

(** *** Looking up keeps what is remembered *)

Lemma remembered_at k it b name i :
  cache_ok k -> it ∈ cached k -> blocks k !! it = Some b -> identity b = name ->
  remembered k name i = if covered (DataBlock.updates b) i then served b !! i else None.
Proof.
  intros Hok Hin Hb Hid. unfold remembered. assert (lookup (dataCache k) !! name = Some it) as ->.
  { apply (ok_lookup k Hok). split; [done|]. by exists b. }
  simpl. by rewrite Hb.
Qed.

Lemma remembered_none k name i : lookup (dataCache k) !! name = None -> remembered k name i = None.
Proof. unfold remembered. by intros ->. Qed.

Lemma remembered_some k name it : cache_ok k -> lookup (dataCache k) !! name = Some it ->
  exists b, it ∈ cached k /\ blocks k !! it = Some b /\ identity b = name.
Proof. intros Hok E. apply (ok_lookup k Hok) in E as (Hin & b & Hb & Hid). by exists b. Qed.

(** The block the look-up returned: it was there already, or it is empty. *)
Definition obtained k f m it b : Prop :=
  identity b = file_name f m /\
  ((lookup (dataCache k) !! file_name f m = Some it /\ blocks k !! it = Some b) \/
   (lookup (dataCache k) !! file_name f m = None /\ DataBlock.updates b = [])).

Lemma remembered_found k owner f m it b k' name i :
  cache_ok k -> found k owner it k' -> blocks k' !! it = Some b -> obtained k f m it b ->
  remembered k' name i = remembered k name i.
Proof.
  intros Hok Hfo Hb [Hid Hob]. pose proof (fo_ok _ _ _ _ Hfo) as Hok'.
  destruct (lookup (dataCache k') !! name) as [x|] eqn:E'.
  - destruct (remembered_some k' name x Hok' E') as (bx & Hx & Hbx & Hidx).
    rewrite (remembered_at k' x bx name i Hok' Hx Hbx Hidx). destruct (decide (x = it)) as [->|Hne].
    + assert (bx = b) as -> by congruence. assert (name = file_name f m) as -> by congruence.
      destruct Hob as [[El Hbk]|[El Hu]].
      * unfold remembered. rewrite El. simpl. by rewrite Hbk.
      * rewrite remembered_none, Hu by done. done.
    + rewrite (fo_blocks _ _ _ _ Hfo x Hne) in Hbx. destruct (fo_cached _ _ _ _ Hfo x Hx) as [?|Hxk]; [done|].
      symmetry. by apply (remembered_at k x).
  - rewrite (remembered_none k') by done. destruct (lookup (dataCache k) !! name) as [x|] eqn:E; [|by rewrite remembered_none].
    destruct (remembered_some k name x Hok E) as (bx & Hx & Hbx & Hidx).
    rewrite (remembered_at k x bx name i Hok Hx Hbx Hidx). destruct (list_elem_of_fmap_1 _ _ _ Hx) as (j & -> & Hj).
    destruct (fo_kept _ _ _ _ Hfo j Hj) as [[(bj & Hbj & Hd) _]|[Hin Hbj]].
    + assert (bj = bx) as -> by congruence. unfold DataBlock.dirty in Hd. apply orb_false_iff in Hd as [Hd _]. bool_to_prop.
      by rewrite Hd.
    + assert (lookup (dataCache k') !! name = Some (data j)) by (apply (ok_lookup k' Hok'); split; [done|exists bx; by rewrite Hbj]).
      congruence.
Qed.

Lemma lookup_ready restarts k this f m mode r :
  ready k -> room (r + 1) k -> 0 <= r -> files k !! this = Some f ->
  exists it b k', DataCache.getDataKey restarts this m mode k = (Ret it, k') /\ ready k' /\ room r k' /\ files k' = files k /\
    (forall cl, store cl (world k') = store cl (world k)) /\ it ∈ cached k' /\ blocks k' !! it = Some b /\
    identity b = file_name f m /\ (forall name i, remembered k' name i = remembered k name i) /\
    forall x bx, x ∈ cached k -> blocks k !! x = Some bx -> DataBlock.updates bx <> [] -> x ∈ cached k' /\ blocks k' !! x = Some bx.
Proof.
  intros [Hok Hbl Hq Hw] [Hcur Htot Hut] Hr Hf.
  assert (exists it b k', DataCache.getDataKey restarts this m mode k = (Ret it, k') /\ found k this it k' /\
    blocks k' !! it = Some b /\ block_fine n b /\ obtained k f m it b) as (it & b & k' & E & Hfo & Hb & Hbo & Hob).
  { destruct (lookup (dataCache k) !! file_name f m) as [it|] eqn:El.
    - destruct (getDataKey_hit restarts k this f m mode it Hok Hf El) as (k' & E & Hfo & Hbk).
      destruct (remembered_some k _ it Hok El) as (b & _ & Hb & Hid). exists it, b, k'. rewrite Hbk.
      split_and!; try done; [by apply (Hbl it)|]. split; [done|]. by left.
    - destruct (getDataKey_miss restarts k this f m mode Hok Hf El) as (it & b & old & k' & E & Hfo & Hb & Hbk & Hold);
        rewrite ?Hsize; [nia|lia|nia|]. exists it, b, k'. split_and!; try done.
      + apply (blank_fine _ _ _ old b Hbk). intros o ->. destruct Hold as [?|Hold]; [done|]. by apply (Hbl it).
      + destruct Hbk as (Hc & Hkey & _ & _ & Hu & _). split; [unfold identity; by rewrite Hc, Hkey|]. by right. }
  assert (block_cap (blocks k') it = n) as Hcap by (unfold block_cap; rewrite Hb; apply cap_size).
  exists it, b, k'. destruct (fo_front _ _ _ _ Hfo) as (i & Hi & Hit & _). destruct (fo_env _ _ _ _ Hfo) as (Ew & Eq & _).
  pose proof (fo_current _ _ _ _ Hfo) as Hc'. pose proof (fo_total _ _ _ _ Hfo) as Ht'. rewrite Hcap in *.
  split_and!; try done; try apply Hfo; try apply (fo_store _ _ _ _ Hfo).
  - split; [apply Hfo| |by rewrite Eq|by rewrite Ew]. intros p bp Hp. destruct (decide (p = it)) as [->|Hne]; [by simplify_eq|].
    rewrite (fo_blocks _ _ _ _ Hfo p Hne) in Hp. by apply (Hbl p).
  - rewrite Z.mul_add_distr_r in *. split; rewrite ?(fo_capacity _ _ _ _ Hfo); [lia|lia|]. intros size Hs. apply Hut. lia.
  - unfold cached. destruct (cache (dataCache k')); [done|]. simplify_eq/=. constructor.
  - apply Hob.
  - intros name j. by apply (remembered_found k this f m it b).
  - intros x bx Hx Hbx Hu. destruct (list_elem_of_fmap_1 _ _ _ Hx) as (j & -> & Hj).
    destruct (fo_kept _ _ _ _ Hfo j Hj) as [[(b0 & Hb0 & Hd) _]|[Hin Hsame]]; [|split; [done|by rewrite Hsame]].
    assert (b0 = bx) as -> by congruence. unfold DataBlock.dirty in Hd. by rewrite bool_decide_eq_false_2 in Hd.
Qed.

(** *** Writing into a block *)

Lemma covered_snoc us u i : covered (us ++ [u]) i = covered us i || covers u i.
Proof. unfold covered. rewrite existsb_app. simpl. by rewrite orb_false_r. Qed.

Lemma covered_local b i : block_ok n b -> covered (DataBlock.updates b) i = true ->
  exists l, DataBlock.local_value b = Some l /\ (i < length l)%nat.
Proof. intros [_ _ Hu]. by apply (covered_region n). Qed.

Lemma write_target_local b size l i : DataBlock.local_value b = Some l -> slen l <= n -> (i < length l)%nat ->
  write_target n size b !! i = l !! i.
Proof.
  intros El Hl Hi. unfold write_target, write_base. rewrite El. destruct (slen l <? size); [|done].
  unfold slen in Hl. rewrite lookup_resize, decide_True by lia. by destruct (lookup_lt_is_Some_2 l i Hi) as [x ->].
Qed.

Lemma written_byte b buffer o len i :
  block_ok n b -> 0 <= o -> 0 <= len -> o + len <= n -> len <= slen buffer ->
  (if covered (DataBlock.updates (written n b buffer o len)) i then served (written n b buffer o len) !! i else None) =
  if decide (o <= Z.of_nat i < o + len) then buffer !! (i - Z.to_nat o)%nat
  else if covered (DataBlock.updates b) i then served b !! i else None.
Proof.
  intros Hok Ho Hl Hc Hb. set (b' := written n b buffer o len).
  change (DataBlock.updates b') with (DataBlock.updates b ++ [(o, len)]). rewrite covered_snoc.
  pose proof Hok as [Hs Hcp _]. set (size := Z.max (o + len) (DataBlock.value_size b)).
  destruct (write_target_spec n size b) as ([Hlo Hhi] & _ & _); [done|lia|lia|]. set (l := write_target n size b) in *.
  assert (length (take (Z.to_nat len) buffer) = Z.to_nat len) as Hlt by (rewrite length_take; unfold slen in *; lia).
  assert (served b' !! i = if decide (o <= Z.of_nat i < o + len) then buffer !! (i - Z.to_nat o)%nat else l !! i) as ->.
  { assert (served b' = take (Z.to_nat o) l ++ take (Z.to_nat len) buffer ++ drop (Z.to_nat o + length (take (Z.to_nat len) buffer)) l) as ->.
    { unfold b', written, served. cbn [DataBlock.local_value]. fold size. fold l. do 3 f_equal. lia. }
    rewrite lookup_replaced by (rewrite Hlt; unfold slen in *; lia). rewrite Hlt.
    do 2 case_decide; try lia; [|done]. rewrite lookup_take_lt by lia. done. }
  unfold covers. cbn [fst snd]. case_decide as Hi.
  - destruct ((o <=? Z.of_nat i) && (Z.of_nat i <? o + len)) eqn:E; [by rewrite orb_true_r|lia].
  - destruct ((o <=? Z.of_nat i) && (Z.of_nat i <? o + len)) eqn:E; [lia|]. rewrite orb_false_r.
    destruct (covered (DataBlock.updates b) i) eqn:Ec; [|done].
    destruct (covered_local b i Hok Ec) as (l0 & El & Hi0). unfold served in *. rewrite El in *. by apply write_target_local.
Qed.

Lemma written_block_fine b buffer o len :
  block_fine n b -> 0 <= o -> 0 < len -> o + len <= n -> len <= slen buffer -> block_fine n (written n b buffer o len).
Proof.
  intros [Hok Hu Hr] Ho Hl Hc Hb. rewrite <- (cap_size b) in *. destruct (written_ok b buffer o len Hok Ho ltac:(lia) Hc Hb) as [Hok' _].
  rewrite !cap_size in *. split; [done| |].
  - cbn [written DataBlock.updates DataBlock.value_size]. apply Forall_app. split; [|constructor; [simpl; lia|constructor]].
    eapply Forall_impl; [exact Hu|]. intros u ?. simpl in *. lia.
  - cbn [written DataBlock.remote_value]. by destruct (DataBlock.local_value b); [|change (0 <= n); lia].
Qed.

(** What a round of the loop leaves behind: only this block has changed. *)
Record round_done k this f it b' k' : Prop := {
  rd_cache : dataCache k' = dataCache k;
  rd_blocks : blocks k' = <[it := b']> (blocks k);
  rd_store : world k' = world k;
  rd_queue : queue_capacity (threadPool k') = queue_capacity (threadPool k);
  rd_window : readahead_window_size k' = readahead_window_size k;
  rd_file : exists f', files k' = <[this := f']> (files k) /\ File.cluster f' = File.cluster f /\ File.path f' = File.path f /\
    File.eof_blocknumber f' = File.eof_blocknumber f /\ File.opened f' = File.opened f /\ File.exceptions f' = File.exceptions f;
}.

Lemma scheduleReadahead_off restarts order this f m r k :
  ready k -> room r k -> 0 <= r -> files k !! this = Some f ->
  scheduleReadahead restarts order this m k =
  (Ret tt, set_files (<[this := set_oracle (PrefetchOracle.add m (File.prefetchOracle f)) f]>) k).
Proof.
  intros [Hok _ _ Hw] [Hcur _ Hut] Hr Hf. unfold scheduleReadahead, set_file. mstep. cbn [readahead_window_size set_files dataCache].
  rewrite Hw. unfold DataCache.utilization. rewrite readahead_off.
  2: { apply Hut. rewrite (ok_current k Hok). destruct (totals_nonneg k Hok). nia. }
  mstep. unfold mret, M_ret, set_files. cbn. do 2 f_equal.
  apply map_eq. intros x. destruct (decide (x = this)) as [->|Hne].
  - by rewrite lookup_alter_eq, Hf, lookup_insert_eq.
  - by rewrite lookup_alter_ne, lookup_insert_ne.
Qed.

Lemma round_write restarts order this f it b m o len off_done buffer r k :
  ready k -> room r k -> 0 <= r -> files k !! this = Some f -> blocks k !! it = Some b ->
  0 <= o -> 0 <= len -> o + len <= n -> 0 <= off_done -> off_done + len <= slen buffer ->
  exists k', with_local it (scheduleReadahead restarts order this m;; write_block restarts this it n buffer off_done o len) k =
      (Ret (Next, buffer), k') /\
    round_done k this f it (written n b (drop (Z.to_nat off_done) buffer) o len) k'.
Proof.
  intros Hre Hro Hr Hf Hb Ho Hl Hc Hod Hlen. unfold with_local. set (k1 := set_locals (cons it) k).
  assert (ready k1) as Hre1 by (destruct Hre; split; [by apply (cache_ok_ext k)|done..]).
  assert (room r k1) as Hro1 by by destruct Hro.
  rewrite (bind_ret _ _ _ _ _ (scheduleReadahead_off restarts order this f m r k1 Hre1 Hro1 Hr Hf)).
  set (k2 := set_files _ k1). unfold write_block. set (b' := written n b (drop (Z.to_nat off_done) buffer) o len).
  assert (on_block it (DataBlock.write (Some (drop (Z.to_nat off_done) buffer)) o len) k2 =
    (Ret tt, set_world (world k2) (set_blocks (insert it b') k2))) as E.
  { apply (on_block_ret it _ k2 b tt b' (world k2)); [exact Hb|]. unfold b'. rewrite <- (cap_size b).
    apply write_result; rewrite ?cap_size; try done; [by apply fine_ok, (re_blocks k Hre it)|lia|].
    unfold slen in *. rewrite length_drop. lia. }
  rewrite (bind_ret _ _ _ _ _ E). set (k3 := set_world _ _).
  assert (exists k4, when (u64 (o + len) =? n) (scheduleFlush restarts this it) k3 = (Ret tt, k4) /\
    dataCache k4 = dataCache k3 /\ blocks k4 = blocks k3 /\ files k4 = files k3 /\ world k4 = world k3 /\ locals k4 = locals k3 /\
    queue_capacity (threadPool k4) = queue_capacity (threadPool k3) /\ readahead_window_size k4 = readahead_window_size k3)
    as (k4 & E4 & H1 & H2 & H3 & H4 & H5 & H6 & H7).
  { destruct (u64 (o + len) =? n); cbn [when]; [|by exists k3]. unfold scheduleFlush. mstep. unfold run.
    rewrite bool_decide_eq_false_2 by apply (re_queue k Hre). mstep. by eexists. }
  rewrite (bind_ret _ _ _ _ _ E4). mstep. eexists. split; [done|]. split; cbn; rewrite ?H1, ?H2, ?H3, ?H4, ?H6, ?H7; try done.
  eexists. split; [done|]. done.
Qed.

Lemma round_ready k this f it b b' k' r :
  ready k -> room r k -> blocks k !! it = Some b -> block_fine n b' ->
  DataBlock.cluster b' = DataBlock.cluster b -> DataBlock.key b' = DataBlock.key b -> round_done k this f it b' k' -> ready k' /\ room r k'.
Proof.
  intros [Hok Hbl Hq Hw] [Hcur Htot Hut] Hb Hb' Hcl Hkey [Hc Hbs Hst Hq' Hw' _].
  assert (forall l, total (blocks k') l = total (blocks k) l) as Ht.
  { intros l. apply total_ext. intros x _. rewrite Hbs. unfold block_cap. destruct (decide (x = it)) as [->|Hne].
    - by rewrite lookup_insert_eq, Hb, !cap_size.
    - by rewrite lookup_insert_ne. }
  split.
  - split; [|intros p bp Hp; rewrite Hbs in Hp|by rewrite Hq'|by rewrite Hw'].
    + apply (cache_ok_ext (set_blocks (insert it b') k)); [done|by rewrite Hbs|].
      by apply (cache_ok_ext (set_world (world k) (set_blocks (insert it b') k))); [..|apply (cache_ok_block k it b)].
    + apply lookup_insert_Some in Hp as [[_ <-]|[_ Hp]]; [done|by apply (Hbl p)].
  - assert (cached k' = cached k) as Ec by (unfold cached; by rewrite Hc).
    assert (unused k' = unused k) as Eu by (unfold unused; by rewrite Hc).
    by split; rewrite ?Hc, ?Ht, ?Ec, ?Eu.
Qed.

(** *** The loop *)

(** The bytes at positions [from] to [from + length - from] of the file are those of the buffer that starts at
    position [off]; everything else that is remembered is what it was. *)
Definition wrote k f off from (buffer : bytes) k' : Prop :=
  (forall m i, 0 <= m <= INT_MAX -> 0 <= Z.of_nat i < n ->
    remembered k' (file_name f m) i =
    if decide (from <= m * n + Z.of_nat i < off + slen buffer) then buffer !! Z.to_nat (m * n + Z.of_nat i - off)
    else remembered k (file_name f m) i) /\
  (forall name i, (forall m, 0 <= m <= INT_MAX -> name <> file_name f m) -> remembered k' name i = remembered k name i).

Lemma remembered_round k this f it b b' k' :
  cache_ok k -> it ∈ cached k -> blocks k !! it = Some b -> round_done k this f it b' k' ->
  forall name i, remembered k' name i =
    if decide (name = identity b) then (if covered (DataBlock.updates b') i then served b' !! i else None)
    else remembered k name i.
Proof.
  intros Hok Hin Hb [Hc Hbs _ _ _ _] name i. unfold remembered. rewrite Hc, Hbs. case_decide as Hn.
  - subst name. assert (lookup (dataCache k) !! identity b = Some it) as -> by (apply (ok_lookup k Hok); eauto).
    simpl. by rewrite lookup_insert_eq.
  - destruct (lookup (dataCache k) !! name) as [x|] eqn:E; simpl; [|done]. destruct (decide (x = it)) as [->|Hne].
    + destruct (remembered_some k name it Hok E) as (b0 & _ & Hb0 & Hid). congruence.
    + by rewrite lookup_insert_ne.
Qed.

(** The file while it is written: what names it stays. *)
Definition same_file f f' : Prop :=
  File.cluster f' = File.cluster f /\ File.path f' = File.path f /\ File.opened f' = File.opened f /\
  File.exceptions f' = File.exceptions f.

Lemma same_file_name f f' m : same_file f f' -> file_name f' m = file_name f m.
Proof. intros (Hc & Hp & _). unfold file_name, file_key. by rewrite Hc, Hp. Qed.

Lemma grow_eof this f m k :
  files k !! this = Some f -> exists f1 k1,
    (let create := File.eof_blocknumber f <? m in
     when create (set_file this (set_eof m)) k = (Ret tt, k1)) /\
    files k1 = <[this := f1]> (files k) /\ same_file f f1 /\ File.eof_blocknumber f1 = Z.max (File.eof_blocknumber f) m /\
    dataCache k1 = dataCache k /\ blocks k1 = blocks k /\ world k1 = world k /\ threadPool k1 = threadPool k /\
    readahead_window_size k1 = readahead_window_size k.
Proof.
  intros Hf. cbv zeta. destruct (Z.ltb_spec (File.eof_blocknumber f) m); cbn [when].
  - exists (set_eof m f). eexists. split; [done|]. split_and!; try done; [|cbn; lia].
    cbn. apply map_eq. intros x. destruct (decide (x = this)) as [->|Hne].
    + by rewrite lookup_alter_eq, Hf, lookup_insert_eq.
    + by rewrite lookup_alter_ne, lookup_insert_ne.
  - exists f, k. split; [done|]. split_and!; try done; [|lia]. by rewrite insert_id.
Qed.

Lemma ready_same k k1 :
  ready k -> dataCache k1 = dataCache k -> blocks k1 = blocks k -> threadPool k1 = threadPool k ->
  readahead_window_size k1 = readahead_window_size k -> ready k1.
Proof.
  intros [Hok Hbl Hq Hw] Hc Hb Hp Hr. split; [by apply (cache_ok_ext k)|by rewrite Hb|by rewrite Hp|by rewrite Hr].
Qed.

Lemma room_same r k k1 : room r k -> dataCache k1 = dataCache k -> blocks k1 = blocks k -> room r k1.
Proof.
  intros [] Hc Hb. assert (cached k1 = cached k /\ unused k1 = unused k) as [Ec Eu] by (unfold cached, unused; by rewrite Hc).
  split; rewrite ?Hb, ?Hc, ?Ec, ?Eu; done.
Qed.

Lemma room_le r r' k : r' <= r -> room r k -> room r' k.
Proof. intros Hle [H1 H2 H3]. assert (r' * n <= r * n) by nia. split; [lia|lia|]. intros size Hs. apply H3. lia. Qed.

Lemma remembered_same k k1 name i : dataCache k1 = dataCache k -> blocks k1 = blocks k -> remembered k1 name i = remembered k name i.
Proof. intros Hc Hb. unfold remembered. by rewrite Hc, Hb. Qed.

(** One round: the part of the buffer that goes to the block of position [off + from]. *)
Lemma write_round restarts order fuel this off from todo buffer r k f :
  ready k -> room (r + 1) k -> 0 <= r -> files k !! this = Some f ->
  0 <= off -> 0 <= from -> 0 < todo -> from + todo = slen buffer -> off + slen buffer < 2 ^ 64 -> (off + from) / n <= INT_MAX ->
  let o := (off + from) mod n in let len := Z.min todo (n - o) in
  exists k' f', rw_loop restarts order (S fuel) this WRITE n off from todo buffer k =
      rw_loop restarts order fuel this WRITE n off (from + len) (todo - len) buffer k' /\
    ready k' /\ room r k' /\ (forall cl, store cl (world k') = store cl (world k)) /\
    files k' = <[this := f']> (files k) /\ same_file f f' /\
    File.eof_blocknumber f' = Z.max (File.eof_blocknumber f) ((off + from) / n) /\
    forall name i, remembered k' name i =
      if decide (name = file_name f ((off + from) / n) /\ o <= Z.of_nat i < o + len)
      then drop (Z.to_nat from) buffer !! (i - Z.to_nat o)%nat else remembered k name i.
Proof.
  intros Hre Hro Hr Hf Hoff Hfrom Htodo Hsum Hmax Hbn o len. cbn [rw_loop].
  destruct (Z.eqb_spec todo 0); [lia|]. rewrite block_of_spec by lia. fold o. fold len. set (m := (off + from) / n) in *.
  assert (0 <= o < n) as Ho by (apply Z.mod_pos_bound; lia).
  destruct (Z.ltb_spec (slen buffer) (from + len)); [lia|]. unfold the_file at 1. mstep. rewrite Hf. cbn [deref]. mstep.
  rewrite bool_decide_eq_true_2 by done. cbn [andb].
  destruct (grow_eof this f m k Hf) as (f1 & k1 & E1 & Hf1 & Hsf & Heof & Hc1 & Hb1 & Hw1 & Hp1 & Hr1). cbv zeta in E1.
  rewrite (bind_ret _ _ _ _ _ E1).
  assert (files k1 !! this = Some f1) as Hfk1 by (by rewrite Hf1, lookup_insert_eq).
  match goal with |- context [DataCache.getDataKey restarts this m ?mode] =>
    destruct (lookup_ready restarts k1 this f1 m mode r) as (it & b & k2 & E2 & Hre2 & Hro2 & Hf2 & Hst2 & Hin & Hb & Hid & Hrem2 & _) end;
    [by apply (ready_same k)|by apply (room_same _ k)|done|done|].
  rewrite (bind_ret _ _ _ _ _ E2). rewrite (same_file_name f f1 m Hsf) in Hid.
  destruct (round_write restarts order this f1 it b m o len from buffer r k2) as (k3 & E3 & Hrd); try done; try lia.
  { by rewrite Hf2. }
  rewrite (bind_ret _ _ _ _ _ E3). cbn [fst snd].
  assert (len <= slen (drop (Z.to_nat from) buffer)) as Hlen by (unfold slen in *; rewrite length_drop; lia).
  assert (block_fine n b) as Hbf by by apply (re_blocks k2 Hre2 it).
  pose proof (fine_ok _ _ Hbf) as Hbo.
  destruct (rd_file _ _ _ _ _ _ Hrd) as (f3 & Hf3 & Hcl3 & Hpa3 & Heof3 & Hop3 & Hex3). exists k3, f3. split; [done|].
  destruct (round_ready k2 this f1 it b (written n b (drop (Z.to_nat from) buffer) o len) k3 r) as [Hre3 Hro3];
    [exact Hre2|exact Hro2|exact Hb|apply written_block_fine; [exact Hbf|lia..]|reflexivity|reflexivity|exact Hrd|].
  split_and!; [exact Hre3|exact Hro3|..].
  - intros cl. by rewrite (rd_store _ _ _ _ _ _ Hrd), Hst2, Hw1.
  - by rewrite Hf3, Hf2, Hf1, insert_insert_eq.
  - destruct Hsf as (? & ? & ? & ?). unfold same_file. rewrite Hcl3, Hpa3, Hop3, Hex3. tauto.
  - by rewrite Heof3, Heof.
  - intros name i. rewrite (remembered_round k2 this f1 it b _ k3 (re_ok k2 Hre2) Hin Hb Hrd), written_byte by (exact Hbo || lia).
    rewrite Hrem2, (remembered_same k k1), Hid by done. destruct (decide (name = file_name f m)) as [->|Hne].
    + destruct (decide (o <= Z.of_nat i < o + len)) as [Hi|Hi]; [by rewrite decide_True|]. rewrite decide_False by tauto.
      rewrite <- (remembered_at k2 it b _ i (re_ok k2 Hre2) Hin Hb Hid), Hrem2. by apply remembered_same.
    + by rewrite decide_False by tauto.
Qed.

(** The bytes one round writes, by their positions. *)
Lemma round_positions off from len (buffer : bytes) m i :
  0 <= off -> 0 <= from -> 0 <= Z.of_nat i < n -> 0 <= len <= n - (off + from) mod n ->
  (m = (off + from) / n /\ (off + from) mod n <= Z.of_nat i < (off + from) mod n + len <->
   off + from <= m * n + Z.of_nat i < off + from + len) /\
  (m = (off + from) / n -> (off + from) mod n <= Z.of_nat i ->
   drop (Z.to_nat from) buffer !! (i - Z.to_nat ((off + from) mod n))%nat = buffer !! Z.to_nat (m * n + Z.of_nat i - off)).
Proof.
  intros Hoff Hfrom Hi Hlen. set (p := off + from) in *. pose proof (Z.div_mod p n ltac:(lia)) as Hd.
  pose proof (Z.mod_pos_bound p n ltac:(lia)) as Hm. set (q := p / n) in *. set (o := p mod n) in *. split.
  - split; [intros [-> Ho]; nia|]. intros Hp. assert (m = q) as ->; [|split; [done|nia]]. nia.
  - intros -> Ho. rewrite lookup_drop. f_equal. nia.
Qed.

Lemma same_file_trans f1 f2 f3 : same_file f1 f2 -> same_file f2 f3 -> same_file f1 f3.
Proof. unfold same_file. intros (-> & -> & -> & ->) (-> & -> & -> & ->). done. Qed.

Lemma write_loop restarts order this off buffer s fuel : 0 <= s -> forall r k f from todo,
  ready k -> room (r + s) k -> files k !! this = Some f ->
  0 <= off -> 0 <= from -> 0 <= todo -> from + todo = slen buffer -> off + slen buffer < 2 ^ 64 -> off + slen buffer <= n * 2 ^ 31 ->
  0 <= r -> (1 <= fuel)%nat ->
  (todo = 0 \/ (off + from) mod n + todo <= r * n /\ (off + from) mod n + todo <= (Z.of_nat fuel - 1) * n) ->
  exists k' f', rw_loop restarts order fuel this WRITE n off from todo buffer k = (Ret (0, buffer), k') /\ ready k' /\ room s k' /\
    (forall cl, store cl (world k') = store cl (world k)) /\ files k' = <[this := f']> (files k) /\ same_file f f' /\
    File.eof_blocknumber f' = (if todo =? 0 then File.eof_blocknumber f
                               else Z.max (File.eof_blocknumber f) ((off + slen buffer - 1) / n)) /\
    wrote k f off (off + from) buffer k'.
Proof.
  intros Hs0. induction fuel as [|fuel IH]; intros r k f from todo Hre Hro Hf Hoff Hfrom Htodo Hsum Hmax Hblocks Hr Hfuel Hmeasure; [lia|].
  destruct (Z.eqb_spec todo 0) as [->|Hne].
  { exists k, f. split; [by cbn [rw_loop]|]. split_and!; try done; [by apply (room_le (r + s)); [lia|]|by rewrite insert_id|]. split; [|done].
    intros m i _ _. by rewrite decide_False by lia. }
  destruct Hmeasure as [?|[Hm1 Hm2]]; [done|]. set (p := off + from) in *.
  pose proof (Z.mod_pos_bound p n ltac:(lia)) as Hmod. pose proof (Z.div_mod p n ltac:(lia)) as Hdm.
  assert (0 <= p / n <= INT_MAX) as Hq.
  { assert (p / n < 2 ^ 31) by (apply Z.div_lt_upper_bound; lia). assert (0 <= p / n) by (apply Z.div_pos; lia). unfold INT_MAX. lia. }
  assert (1 <= r) by nia.
  destruct (write_round restarts order fuel this off from todo buffer (r - 1 + s) k f) as (k1 & f1 & E & Hre1 & Hro1 & Hst1 & Hf1 & Hsf1 & Heof1 & Hrem1);
    try done; try lia; [by replace (r - 1 + s + 1) with (r + s) by lia|apply Hq|]. fold p in E, Heof1, Hrem1.
  set (o := p mod n) in *. set (len := Z.min todo (n - o)) in *.
  assert (0 < len <= todo /\ len <= n - o /\ (n - o < todo -> len = n - o) /\ (todo <= n - o -> len = todo)) as (Hlen & Hlen' & Hfull & Hlast) by lia.
  assert (p = off + from) as Hp by done. assert (p = n * (p / n) + o) as Hdm' by done. clearbody len.
  destruct (IH (r - 1) k1 f1 (from + len) (todo - len)) as (k2 & f2 & E2 & Hre2 & Hro2 & Hst2 & Hf2 & Hsf2 & Heof2 & Hw2); try done; try lia.
  { by rewrite Hf1, lookup_insert_eq. }
  { destruct (decide (todo <= n - o)) as [Hle|Hlt]; [left; specialize (Hlast Hle); lia|right]. specialize (Hfull ltac:(lia)).
    assert ((off + (from + len)) mod n = 0) as ->; [|nia]. replace (off + (from + len)) with ((p / n + 1) * n) by nia.
    apply Z.mod_mul. lia. }
  exists k2, f2. rewrite E, E2. split_and!; try done.
  - intros cl. by rewrite Hst2.
  - by rewrite Hf2, Hf1, insert_insert_eq.
  - by eapply same_file_trans.
  - rewrite Heof2, Heof1. destruct (Z.eqb_spec (todo - len) 0) as [Hz|Hz].
    + replace ((off + slen buffer - 1) / n) with (p / n); [done|]. replace (off + slen buffer - 1) with (p / n * n + (o + todo - 1)) by lia.
      rewrite Z.div_add_l by lia. rewrite (Z.div_small (o + todo - 1)) by lia. lia.
    + assert (p / n <= (off + slen buffer - 1) / n); [apply Z.div_le_mono; lia|lia].
  - destruct Hw2 as [Hin Hout]. split.
    + intros m i Hm Hi. rewrite <- (same_file_name f f1 m Hsf1), Hin by done. rewrite Hrem1, (same_file_name f f1 m Hsf1).
      destruct (round_positions off from len buffer m i) as [Hiff Hbyte]; try done; [fold p; fold o; lia|]. fold p o in Hiff, Hbyte.
      assert (file_name f m = file_name f (p / n) <-> m = p / n) as Hname.
      { split; [by apply file_name_inj|by intros ->]. }
      destruct (decide (m = p / n /\ o <= Z.of_nat i < o + len)) as [Hhere|Helse].
      * rewrite decide_False by (apply Hiff in Hhere; lia). rewrite decide_True by tauto.
        rewrite decide_True by (apply Hiff in Hhere; lia). apply Hbyte; tauto.
      * rewrite (decide_False (P := file_name f m = _ /\ _)) by tauto.
        assert (~ p <= m * n + Z.of_nat i < p + len) as Hnot by tauto. repeat case_decide; try done; lia.
    + intros name i Hn. rewrite Hout, Hrem1; [|intros m Hm; rewrite (same_file_name f f1 m Hsf1); by apply Hn].
      rewrite decide_False; [done|]. intros [-> _]. by apply (Hn (p / n)).
Qed.

(** *** The whole write *)

Lemma Write_run restarts fuel order k this f off buffer r s :
  0 <= s -> ready k -> room (r + s) k -> files k !! this = Some f -> File.opened f = true -> File.exceptions f = [] ->
  0 <= off -> slen buffer < 2 ^ 31 -> off + slen buffer < 2 ^ 63 -> off + slen buffer <= n * 2 ^ 31 -> 0 <= r -> (1 <= fuel)%nat ->
  off mod n + slen buffer <= r * n -> off mod n + slen buffer <= (Z.of_nat fuel - 1) * n ->
  exists k' f', Write restarts fuel order this off buffer (slen buffer) k = (Ret (slen buffer), k') /\ ready k' /\ room s k' /\
    (forall cl, store cl (world k') = store cl (world k)) /\ files k' = <[this := f']> (files k) /\ same_file f f' /\
    File.eof_blocknumber f' = (if slen buffer =? 0 then File.eof_blocknumber f
                               else Z.max (File.eof_blocknumber f) ((off + slen buffer - 1) / n)) /\
    wrote k f off off buffer k'.
Proof.
  intros Hs Hre Hro Hf Hop Hex Hoff Hlen Hmax Hbl Hr Hfuel Hm1 Hm2. pose proof (slen_nonneg buffer) as Hnn.
  unfold Write, ReadWrite, the_file. mstep. rewrite Hf. cbn [deref]. mstep. rewrite Hop. cbn [negb].
  rewrite bind_assoc || idtac. mstep. rewrite Hf. cbn [deref]. mstep. rewrite Hex.
  assert (block_size f k = (Ret n, k)) as Eb.
  { unfold block_size, on_world, zoom. rewrite bind_unfold, limits_store, Hsize. by destruct k. }
  mstep. rewrite (bind_ret _ _ _ _ _ Eb). destruct (Z.eqb_spec n 0); [lia|]. mstep. rewrite u64_small by lia.
  destruct (write_loop restarts order this off buffer s fuel Hs r k f 0 (slen buffer)) as (k' & f' & E & Hres); try done; try lia.
  { rewrite Z.add_0_r. lia. }
  rewrite Z.add_0_r in Hres. rewrite (bind_ret _ _ _ _ _ E). mstep. exists k', f'. split; [|done].
  unfold mret, M_ret, i64. do 2 f_equal. rewrite Z.mod_small; lia.
Qed.

End BlockSize.
End Laws.

(** ** Properties *)

(** C4: Writing a file.  With a configured task queue, read-ahead off and room in the cache for the blocks
    concerned, [Write] of any buffer at any offset within 2^31 blocks returns the number of bytes of the
    buffer.  Afterwards the byte of the file at every position is the buffer's where it was written and what
    it was everywhere else, also in blocks the cache gave up to make room; other files are not changed, no
    cluster was written to, the last block number has grown to the block of the last byte, and the library
    is ready for the next write. *)
Theorem file_write `{ClusterStore W Cl} (n r : Z) restarts fuel order (k : KineticIo W Cl) this f off buffer :
  (forall cl, max_value_size (store_limits cl) = n) -> 0 < n < 2 ^ 64 ->
  ready n k -> room n r k -> files k !! this = Some f -> File.opened f = true -> File.exceptions f = [] ->
  0 <= off -> slen buffer < 2 ^ 31 -> off + slen buffer < 2 ^ 63 -> off + slen buffer <= n * 2 ^ 31 ->
  off mod n + slen buffer <= r * n -> off mod n + slen buffer <= (Z.of_nat fuel - 1) * n -> (1 <= fuel)%nat ->
  exists k' f', Write restarts fuel order this off buffer (slen buffer) k = (Ret (slen buffer), k') /\ ready n k' /\
    (forall cl, store cl (world k') = store cl (world k)) /\ files k' = <[this := f']> (files k) /\ same_file f f' /\
    File.eof_blocknumber f' = (if slen buffer =? 0 then File.eof_blocknumber f
                               else Z.max (File.eof_blocknumber f) ((off + slen buffer - 1) / n)) /\
    (forall m i, 0 <= m <= INT_MAX -> 0 <= Z.of_nat i < n ->
      file_byte k' f m i = if decide (off <= m * n + Z.of_nat i < off + slen buffer)
                           then buffer !! Z.to_nat (m * n + Z.of_nat i - off) else file_byte k f m i) /\
    (forall g m i, (forall m', 0 <= m' <= INT_MAX -> file_name g m <> file_name f m') -> file_byte k' g m i = file_byte k g m i).
Proof.
  intros Hsize Hpos Hre Hro Hf Hop Hex Hoff Hlen Hmax Hbl Hm1 Hm2 Hfuel. pose proof (slen_nonneg buffer) as Hnn.
  pose proof (Z.mod_pos_bound off n ltac:(lia)) as Hmod.
  destruct (Write_run n Hsize Hpos restarts fuel order k this f off buffer r 0) as (k' & f' & E & Hre' & _ & Hst & Hf' & Hsf & Heof & Hin & Hout);
    try done; [by rewrite Z.add_0_r|nia|]. exists k', f'. split_and!; try done.
  - intros m i Hm Hi. unfold file_byte. rewrite Hin by done. unfold stored_byte. rewrite Hst. case_decide as Hp; [|done].
    destruct (lookup_lt_is_Some_2 buffer (Z.to_nat (m * n + Z.of_nat i - off))) as [c ->]; [unfold slen in *; lia|done].
  - intros g m i Hg. unfold file_byte, stored_byte. by rewrite Hout, Hst.
Qed.

Import MapCluster.

Lemma example_ready capacity : ready 16 (example_kio capacity).
Proof. split; [apply example_ok|intros p b Hp; cbn in Hp; by rewrite lookup_empty in Hp|done..]. Qed.

(** A check of all sizes up to a bound. *)
Lemma sizes_below (P : Z -> bool) (bound : nat) :
  forallb P (map Z.of_nat (seq 0 (S bound))) = true -> forall size, 0 <= size <= Z.of_nat bound -> P size = true.
Proof.
  rewrite forallb_forall. intros HP size Hs. apply HP. apply in_map_iff. exists (Z.to_nat size). split; [lia|]. apply in_seq. lia.
Qed.

Lemma example_room : room 16 2 (example_kio 1000).
Proof.
  split; [by vm_compute..|]. intros size Hs. apply negb_true_iff.
  by apply (sizes_below (fun size => negb (dltb (literal 75 100) (ddiv (of_int size) (of_int 1000)))) 32).
Qed.

Lemma file_write_witness :
  exists k',
    Write 2 3 (fun l => l) 1%positive 10 (str "twelve bytes") 12 (example_kio 1000) = (Ret 12, k') /\
    file_byte k' (example_file (str "a")) 0 15 = Some "e"%char /\ file_byte k' (example_file (str "a")) 1 0 = Some " "%char.
Proof.
  destruct (file_write 16 2 2 3 (fun l => l) (example_kio 1000) 1%positive (example_file (str "a")) 10 (str "twelve bytes"))
    as (k' & f' & E & _ & _ & _ & _ & _ & Hb & _);
    [done|lia|apply example_ready|apply example_room|reflexivity|reflexivity|reflexivity|lia|by vm_compute..|lia|].
  exists k'. split; [exact E|]. pose proof (Hb 0 15%nat ltac:(unfold INT_MAX; lia) ltac:(lia)) as H1.
  pose proof (Hb 1 0%nat ltac:(unfold INT_MAX; lia) ltac:(lia)) as H2. clear Hb E. rewrite H1, H2. split; reflexivity.
Defined.
