(* ===== verification/FileKeys.v ===== *)
(** * Files and the keys of the cluster (src/FileIo.cc)

    What the operations of a file that do not transfer data mean for the keys of its cluster: opening
    and creating, attributes and their listing, removing blocks, the search for the last block, and
    the errors a file reports. *)

From S2P Require Import Prelude CppString Utility Kinetic Cluster ClusterOperation ClusterInterface DataBlock PrefetchOracle.
From S2P Require Import BackgroundOperationHandler Double KineticIo DataCache FileIo.
Import Cache BackgroundOperationHandler KineticIo FileIo.

#[local] Arguments u64 : simpl never.

(** What lies between two strings with a common prefix has the prefix as well. *)
Lemma between_prefix p : forall a b x, str_leb (p ++ a) x = true -> str_leb x (p ++ b) = true ->
  exists t, x = p ++ t /\ str_leb a t = true /\ str_leb t b = true.
Proof.
  induction p as [|c p IH]; intros a b x Ha Hb; [by exists x|]. unfold str_leb in *. cbn [app str_ltb] in *.
  destruct x as [|d x]; [done|]. cbn [str_ltb] in Ha, Hb.
  destruct (N.ltb_spec (N_of_ascii d) (N_of_ascii c)) as [|H1]; [done|].
  destruct (N.ltb_spec (N_of_ascii c) (N_of_ascii d)) as [|H2]; [done|].
  assert (c = d) as <- by (apply N_of_ascii_inj; lia). destruct (IH a b x Ha Hb) as (t & -> & ? & ?). by exists t.
Qed.

(** ** Listings that continue with the last key of a full page *)

(** The names such a listing returns for a sorted list of names, by pages of [n]: the last name of every full page comes twice. *)
Fixpoint paged_ (fuel n : nat) (names : list bytes) : list bytes :=
  match fuel with
  | O => names
  | S fuel' => if decide (length names < n)%nat then names else take n names ++ paged_ fuel' n (drop (n - 1) names)
  end.
Definition paged (n : nat) (names : list bytes) : list bytes := paged_ (length names) n names.

Lemma paged_fuel n fuel names : (2 <= n)%nat -> (length names <= fuel)%nat -> paged_ fuel n names = paged n names.
Proof.
  intros Hn. unfold paged. revert names. induction (lt_wf fuel) as [fuel _ IH]. intros names Hl.
  destruct fuel as [|fuel]; [by destruct names; [|cbn in Hl; lia]|]. destruct names as [|x names]; [cbn; by rewrite decide_True by lia|].
  cbn [length paged_]. case_decide; [done|]. f_equal.
  assert (length (drop (n - 1) (x :: names)) <= length names)%nat as Hd by (rewrite length_drop; cbn; lia).
  rewrite (IH fuel) by (cbn in Hl; lia). symmetry. apply IH; [cbn in Hl; lia|done].
Qed.

Lemma paged_short n names : (length names < n)%nat -> paged n names = names.
Proof. intros Hl. unfold paged. destruct names as [|x names]; [done|]. cbn [length paged_] in *. by rewrite decide_True. Qed.

Lemma paged_full n names : (2 <= n <= length names)%nat -> paged n names = take n names ++ paged n (drop (n - 1) names).
Proof.
  intros Hn. unfold paged at 1. destruct names as [|x names]; [cbn in Hn; lia|]. cbn [length paged_] in *. rewrite decide_False by lia. f_equal.
  apply paged_fuel; [lia|]. rewrite length_drop. cbn. lia.
Qed.

Lemma paged_head n names x : (2 <= n)%nat -> names !! 0%nat = Some x -> paged n names !! 0%nat = Some x.
Proof.
  intros Hn Hx. destruct (decide (length names < n)%nat); [by rewrite paged_short|]. rewrite paged_full by lia.
  rewrite lookup_app_l by (rewrite length_take; apply lookup_lt_Some in Hx; lia). by rewrite lookup_take_lt by lia.
Qed.

(** A full page is followed by its last name. *)
Lemma paged_repeats n names : (2 <= n <= length names)%nat ->
  exists page name rest, paged n names = page ++ name :: rest /\ page = take n names /\ name ∈ page.
Proof.
  intros Hn. rewrite paged_full by done. destruct (lookup_lt_is_Some_2 names (n - 1)) as [name Hname]; [lia|].
  assert (paged n (drop (n - 1) names) !! 0%nat = Some name) as Hhead by (apply paged_head; [lia|]; by rewrite lookup_drop, Nat.add_0_r).
  destruct (paged n (drop (n - 1) names)) as [|y rest]; [done|]. cbn in Hhead. injection Hhead as ->.
  eexists _, name, rest. split_and!; [done..|]. apply list_elem_of_lookup. exists (n - 1)%nat. by rewrite lookup_take_lt by lia.
Qed.

Lemma elem_of_paged n names x : (2 <= n)%nat -> x ∈ paged n names <-> x ∈ names.
Proof.
  intros Hn. remember (length names) as len eqn:El. revert names El. induction (lt_wf len) as [len _ IH]. intros names ->.
  destruct (decide (length names < n)%nat); [by rewrite paged_short|]. rewrite paged_full by lia.
  rewrite elem_of_app, (IH (length (drop (n - 1) names))); [|rewrite length_drop; lia|done].
  rewrite <- (take_drop n names) at 3. rewrite elem_of_app. split; [|intros [?|Hd]; [by left|right]].
  - intros [?|Hd]; [by left|]. replace n with (S (n - 1)) by lia. destruct (lookup_lt_is_Some_2 names (n - 1)) as [y Hy]; [lia|].
    rewrite (drop_S _ _ _ Hy) in Hd. apply elem_of_cons in Hd as [->|?]; [left|by right].
    apply list_elem_of_lookup. exists (n - 1)%nat. by rewrite lookup_take_lt by lia.
  - replace n with (n - 1 + 1)%nat in Hd by lia. rewrite <- drop_drop in Hd. rewrite <- (take_drop 1 (drop (n - 1) names)).
    apply elem_of_app. by right.
Qed.

(** Every full page but the last request's adds one. *)
Lemma length_paged n names : (2 <= n)%nat -> length (paged n names) = (length names + (length names - 1) / (n - 1))%nat.
Proof.
  intros Hn. remember (length names) as len eqn:El. revert names El. induction (lt_wf len) as [len _ IH]. intros names ->.
  destruct (decide (length names < n)%nat); [rewrite paged_short, Nat.div_small by lia; lia|]. rewrite paged_full by lia.
  rewrite length_app, length_take, (IH (length (drop (n - 1) names))); [|rewrite length_drop; lia|done]. rewrite length_drop.
  assert ((length names - 1) / (n - 1) = (length names - (n - 1) - 1) / (n - 1) + 1)%nat as -> by (rewrite <- Nat.div_add by lia; f_equal; lia). lia.
Qed.

Lemma paged_NoDup n names : (2 <= n)%nat -> NoDup names -> NoDup (paged n names) <-> (length names < n)%nat.
Proof.
  intros Hn Hnd. split; [|intros; by rewrite paged_short]. intros Hp. destruct (decide (length names < n)%nat); [done|].
  destruct (paged_repeats n names) as (page & name & rest & E & _ & Hin); [lia|]. rewrite E in Hp.
  apply NoDup_app in Hp as (_ & Hp & _). destruct (Hp name Hin). by left.
Qed.

(** ** Keys of blocks *)

Lemma data_key_leb cid base m n : 0 <= m <= INT_MAX -> 0 <= n <= INT_MAX ->
  str_leb (makeDataKey cid base m) (makeDataKey cid base n) = (m <=? n).
Proof. intros Hm Hn. unfold str_leb. rewrite makeDataKey_ltb by done. lia. Qed.

(** The block number is what follows the last underscore. *)
Lemma data_key_number cid base m : 0 <= m <= INT_MAX -> slen (makeDataKey cid base m) < npos ->
  (number ← substr (makeDataKey cid base m) (u64 (find_last_of "_" (makeDataKey cid base m) + 1)) (slen (makeDataKey cid base m)); stoi number) = Ret m.
Proof.
  intros Hm Hfit. set (p := cid ++ str ":data:" ++ base). set (t := pad0 10 (dec m)).
  assert (makeDataKey cid base m = p ++ "_"%char :: t) as Ek.
  { unfold makeDataKey, p, t. rewrite to_string_nonneg by lia. by rewrite <- !app_assoc. }
  assert ("_"%char ∉ t) as Hn.
  { intros Hin. destruct (dec_spec m ltac:(lia)) as (Hd & _). pose proof (all_digits_pad0 10 (dec m) Hd) as Hall.
    unfold all_digits in Hall. rewrite Forall_forall in Hall. by destruct (Hall _ Hin). }
  rewrite Ek in *. unfold find_last_of. rewrite find_last_char_hit by done.
  pose proof (slen_nonneg p). rewrite slen_app in Hfit. pose proof (slen_nonneg ("_"%char :: t)). unfold npos in Hfit.
  rewrite u64_small by lia. replace (p ++ "_"%char :: t) with ((p ++ ["_"%char]) ++ t) by (by rewrite <- app_assoc).
  replace (0 + slen p + 1) with (slen (p ++ ["_"%char])) by (rewrite slen_app; unfold slen; simpl; lia).
  rewrite substr_suffix by (rewrite slen_app; pose proof (slen_nonneg (p ++ ["_"%char])); lia).
  by apply stoi_pad0.
Qed.

(** ** Running requests *)

Section Requests.
Context `{ClusterInterface W Cl}.
Implicit Types (k : KineticIo W Cl) (f : File.FileIo Cl) (this : file_ptr).

Lemma on_world_ret {A} (m : M W A) k a w' : m (world k) = (Ret a, w') -> on_world m k = (Ret a, set_world w' k).
Proof. intros E. unfold on_world, zoom. by rewrite E. Qed.

Lemma the_file_run this k f : files k !! this = Some f -> the_file this k = (Ret f, k).
Proof. intros E. unfold the_file. mstep. by rewrite E. Qed.

(** The search for the last block, for whatever the cluster answers. *)
Lemma get_eof_backend_block this f k m keys w1 : let cid := ci_id (File.cluster f) (world k) in
  files k !! this = Some f -> 0 <= m <= INT_MAX -> slen (makeDataKey cid (File.path f) m) < npos ->
  ci_range (File.cluster f) (makeDataKey cid (File.path f) 999999999) (makeDataKey cid (File.path f) 0) 1 (world k) =
    (Ret (OK, Some (makeDataKey cid (File.path f) m :: keys)), w1) ->
  get_eof_backend this k = (Ret m, set_world w1 k).
Proof.
  intros cid Hf Hm Hfit E. unfold get_eof_backend. rewrite (bind_ret _ _ _ _ _ (the_file_run this k f Hf)).
  unfold clusterId. mstep. fold cid. rewrite (bind_ret _ _ _ _ _ (on_world_ret _ k _ w1 E)). rewrite bool_decide_eq_true_2 by done.
  cbn [negb deref]. mstep. pose proof (data_key_number cid (File.path f) m Hm Hfit) as Hnum.
  destruct (substr _ _ _) as [number|e| |]; try done. cbn in Hnum. mstep. unfold lift. by rewrite Hnum.
Qed.

Lemma get_eof_backend_no_block this f k w1 status r w2 : let cid := ci_id (File.cluster f) (world k) in
  files k !! this = Some f ->
  ci_range (File.cluster f) (makeDataKey cid (File.path f) 999999999) (makeDataKey cid (File.path f) 0) 1 (world k) = (Ret (OK, Some []), w1) ->
  ci_get_version (File.cluster f) (makeMetadataKey cid (File.path f)) w1 = (Ret (status, r), w2) ->
  get_eof_backend this k =
    (if bool_decide (status = OK) then Ret 0 else Throw (system_error no_such_file_or_directory), set_world w2 k).
Proof.
  intros cid Hf E E2. unfold get_eof_backend. rewrite (bind_ret _ _ _ _ _ (the_file_run this k f Hf)).
  unfold clusterId. mstep. fold cid. rewrite (bind_ret _ _ _ _ _ (on_world_ret _ k _ w1 E)). rewrite bool_decide_eq_true_2 by done.
  cbn [negb deref]. mstep. rewrite (bind_ret _ _ _ _ _ (on_world_ret _ (set_world w1 k) _ w2 E2)).
  by case_bool_decide.
Qed.
End Requests.

Section Laws.
Context `{ClusterStore W Cl}.
Implicit Types (k : KineticIo W Cl) (f : File.FileIo Cl) (this : file_ptr).

Lemma clusterId_run f k : clusterId f k = (Ret (store_id (File.cluster f)), k).
Proof. unfold clusterId, gets. by rewrite id_store. Qed.

Lemma range_size_run f k : range_size f k = (Ret (max_range_elements (store_limits (File.cluster f))), k).
Proof. unfold range_size, on_world, zoom. rewrite bind_unfold, limits_store. by destruct k. Qed.

(** What the cluster of a file stores. *)
Definition keyspace k f : gmap bytes (bytes * bytes) := store (File.cluster f) (world k).

(** Only the system has changed. *)
Definition only_world k k' : Prop := exists w', k' = set_world w' k.

Lemma only_world_refl k : only_world k k.
Proof. exists (world k). by destruct k. Qed.

Lemma only_world_trans k1 k2 k3 : only_world k1 k2 -> only_world k2 k3 -> only_world k1 k3.
Proof. intros [w ->] [w' ->]. by exists w'. Qed.

Lemma set_world_only w' k : only_world k (set_world w' k).
Proof. by exists w'. Qed.

(** Other clusters are as before. *)
Definition elsewhere f k k' : Prop := forall cl, cl <> File.cluster f -> store cl (world k') = store cl (world k).

Lemma elsewhere_trans f k1 k2 k3 : elsewhere f k1 k2 -> elsewhere f k2 k3 -> elsewhere f k1 k3.
Proof. intros H1 H2 cl Hcl. by rewrite H2, H1. Qed.

(** ** Attributes *)

Definition attribute_key f name : bytes := makeAttributeKey (store_id (File.cluster f)) (File.path f) name.

Definition attribute k f name : option bytes := snd <$> keyspace k f !! attribute_key f name.

Lemma attribute_key_inj f name name' : attribute_key f name = attribute_key f name' -> name = name'.
Proof. unfold attribute_key, makeAttributeKey. intros E. do 4 apply app_inv_head in E. done. Qed.

Lemma attrGet_run this f name k :
  files k !! this = Some f -> name <> str "sys.iostats" -> name <> str "sys.health" ->
  exists k', attrGet this name k =
      (match attribute k f name with Some v => Ret v | None => Throw (system_error no_such_file_or_directory) end, k') /\
    only_world k k' /\ forall cl, store cl (world k') = store cl (world k).
Proof.
  intros Hf Hn1 Hn2. unfold attrGet. rewrite (bind_ret _ _ _ _ _ (the_file_run this k f Hf)).
  rewrite !bool_decide_eq_false_2 by done. rewrite (bind_ret _ _ _ _ _ (clusterId_run f k)).
  fold (attribute_key f name). unfold attribute, keyspace.
  destruct (get_store (File.cluster f) (attribute_key f name) (world k)) as (w' & _ & Hst & E).
  rewrite (bind_ret _ _ _ _ _ (on_world_ret _ k _ w' E)). exists (set_world w' k).
  split; [|split; [apply set_world_only|done]]. by destruct (store _ (world k) !! attribute_key f name) as [[]|].
Qed.

Lemma attrSet_run this f name value k :
  files k !! this = Some f -> exists k', attrSet this name value k = (Ret tt, k') /\ only_world k k' /\ elsewhere f k k' /\
    exists v, keyspace k' f = <[attribute_key f name := (v, value)]> (keyspace k f).
Proof.
  intros Hf. unfold attrSet. rewrite (bind_ret _ _ _ _ _ (the_file_run this k f Hf)), (bind_ret _ _ _ _ _ (clusterId_run f k)).
  fold (attribute_key f name).
  destruct (put_any_store (File.cluster f) (attribute_key f name) value (world k)) as (w' & v & _ & E & Hst & Hot).
  rewrite (bind_ret _ _ _ _ _ (on_world_ret _ k _ w' E)). exists (set_world w' k). split; [done|].
  split; [apply set_world_only|]. split; [exact Hot|]. by exists v.
Qed.

Lemma attrDelete_run this f name k :
  files k !! this = Some f -> exists k', attrDelete this name k =
      (if attribute k f name then Ret tt else Throw (system_error io_error), k') /\ only_world k k' /\ elsewhere f k k' /\
    keyspace k' f = delete (attribute_key f name) (keyspace k f).
Proof.
  intros Hf. unfold attrDelete. rewrite (bind_ret _ _ _ _ _ (the_file_run this k f Hf)), (bind_ret _ _ _ _ _ (clusterId_run f k)).
  fold (attribute_key f name). unfold attribute, keyspace.
  destruct (remove_any_store (File.cluster f) (attribute_key f name) (world k)) as (w' & _ & E & Hst & Hot).
  rewrite (bind_ret _ _ _ _ _ (on_world_ret _ k _ w' E)). exists (set_world w' k). split; [|split; [apply set_world_only|by split]].
  by destruct (store _ (world k) !! attribute_key f name) as [[]|].
Qed.

(** ** Removing blocks *)

Definition block_key f m : bytes := makeDataKey (store_id (File.cluster f)) (File.path f) m.

Definition page f : Z := max_range_elements (store_limits (File.cluster f)).

(** One request for a range. *)
Lemma range_run f lo hi max k : str_leb lo hi = true -> exists k', only_world k k' /\ (forall cl, store cl (world k') = store cl (world k)) /\
  on_world (ci_range (File.cluster f) lo hi max) k =
    (Ret (OK, Some (take (Z.to_nat (if max =? 0 then page f else max)) (range_of lo hi (keyspace k f)))), k').
Proof.
  intros Hle. destruct (range_store (File.cluster f) lo hi max (world k) Hle) as (w' & _ & Hst & E). exists (set_world w' k).
  split; [apply set_world_only|]. split; [done|]. by apply on_world_ret.
Qed.

Lemma remove_keys_run f keys : forall k, exists k', remove_keys f keys k = (Ret tt, k') /\ only_world k k' /\ elsewhere f k k' /\
  forall key, keyspace k' f !! key = if decide (key ∈ keys) then None else keyspace k f !! key.
Proof.
  induction keys as [|key keys IH]; intros k; cbn [remove_keys].
  { exists k. split_and!; [done|apply only_world_refl|done|]. intros x. rewrite decide_False; [done|]. apply not_elem_of_nil. }
  destruct (remove_any_store (File.cluster f) key (world k)) as (w' & _ & E & Hst & Hot).
  rewrite (bind_ret _ _ _ _ _ (on_world_ret _ k _ w' E)).
  assert (forall o : option (bytes * bytes), let status := if o then OK else REMOTE_NOT_FOUND in
    negb (bool_decide (status = OK)) && negb (bool_decide (status = REMOTE_NOT_FOUND)) = false) as -> by (by intros []).
  destruct (IH (set_world w' k)) as (k2 & E2 & Ho2 & He2 & Hc2). exists k2. split; [done|]. split_and!.
  - eapply only_world_trans; [apply set_world_only|exact Ho2].
  - eapply elsewhere_trans; [|exact He2]. exact Hot.
  - intros x. rewrite Hc2. unfold keyspace at 1. cbn [world set_world]. rewrite Hst. fold (keyspace k f).
    destruct (decide (x = key)) as [->|Hne].
    + rewrite (decide_True (P := key ∈ key :: keys)) by constructor. case_decide; [done|]. apply lookup_delete_eq.
    + rewrite lookup_delete_ne by done. repeat case_decide; try done; set_solver.
Qed.

(** All keys between two are removed, page by page; [fuel] pages are enough for as many keys. *)
Definition cleared f lo hi k k' : Prop :=
  forall key, keyspace k' f !! key = if str_leb lo key && str_leb key hi then None else keyspace k f !! key.

Lemma remove_blocks_run f first fuel : forall k,
  let lo := block_key f first in let hi := block_key f INT_MAX in
  str_leb lo hi = true -> 0 < page f -> (length (range_of lo hi (keyspace k f)) < fuel)%nat ->
  exists k', remove_blocks fuel f first k = (Ret tt, k') /\ only_world k k' /\ elsewhere f k k' /\ cleared f lo hi k k'.
Proof.
  induction fuel as [|fuel IH]; intros k lo hi Hle Hpage Hfuel; [lia|]. cbn [remove_blocks].
  rewrite (bind_ret _ _ _ _ _ (clusterId_run f k)). fold (block_key f first). fold (block_key f INT_MAX). fold lo hi.
  destruct (range_run f lo hi 0 k Hle) as (k1 & Ho1 & Hst1 & E1). rewrite (bind_ret _ _ _ _ _ E1).
  rewrite bool_decide_eq_true_2 by done. cbn [negb deref Z.eqb]. mstep.
  assert (keyspace k1 f = keyspace k f) as Hc1 by apply Hst1.
  set (keys := range_of lo hi (keyspace k f)) in *. set (some := take (Z.to_nat (page f)) keys).
  destruct (remove_keys_run f some k1) as (k2 & E2 & Ho2 & He2 & Hc2). rewrite Hc1 in Hc2.
  rewrite (bind_ret _ _ _ _ _ E2). rewrite (bind_ret _ _ _ _ _ (range_size_run f k2)). fold (page f).
  assert (only_world k k2) as Ho by by eapply only_world_trans.
  assert (elsewhere f k k2) as He by (eapply elsewhere_trans; [|exact He2]; by intros cl _).
  assert (forall key, key ∈ keys <-> is_Some (keyspace k f !! key) /\ str_leb lo key = true /\ str_leb key hi = true) as Hkeys
    by (intros key; by apply elem_of_range).
  destruct (Z.eqb_spec (slen some) (page f)) as [Hfull|Hshort].
  - assert (forall key, key ∈ range_of lo hi (keyspace k2 f) <-> key ∈ keys /\ key ∉ some) as Hrest.
    { intros key. rewrite elem_of_range, Hc2, Hkeys. case_decide; [|tauto]. split; [by intros [[] _]|tauto]. }
    assert (0 < length some)%nat by (unfold slen in Hfull; lia).
    assert (length (range_of lo hi (keyspace k2 f)) < length keys)%nat as Hless.
    { assert (length (range_of lo hi (keyspace k2 f)) <= length (drop (Z.to_nat (page f)) keys))%nat.
      { apply submseteq_length, NoDup_submseteq; [by apply NoDup_range|]. intros key [Hin Hout]%Hrest.
        rewrite <- (take_drop (Z.to_nat (page f)) keys) in Hin. apply elem_of_app in Hin as [?|?]; done. }
      unfold some in *. rewrite length_take in *. rewrite length_drop in *. lia. }
    destruct (IH k2 Hle Hpage) as (k3 & E3 & Ho3 & He3 & Hc3); [fold lo hi; lia|]. exists k3. split; [exact E3|]. split_and!.
    + by eapply only_world_trans.
    + by eapply elsewhere_trans.
    + intros key. rewrite Hc3, Hc2. fold lo hi. destruct (str_leb lo key && str_leb key hi) eqn:E; [done|].
      rewrite decide_False; [done|]. intros Hin%elem_of_take. apply andb_false_iff in E.
      destruct Hin as (j & Hin & _). apply list_elem_of_lookup_2, Hkeys in Hin. destruct Hin as (_ & ? & ?). by destruct E; congruence.
  - exists k2. split; [done|]. split_and!; [done..|]. intros key. rewrite Hc2.
    assert (some = keys) as ->.
    { apply short_page. fold some. unfold slen in Hshort. unfold some in *. rewrite length_take in *. lia. }
    destruct (str_leb lo key && str_leb key hi) eqn:E; case_decide as Hin; try done.
    + apply andb_true_iff in E as [? ?]. destruct (keyspace k f !! key) eqn:Ek; [|done]. destruct Hin. apply Hkeys. by rewrite Ek.
    + apply Hkeys in Hin as (_ & ? & ?). apply andb_false_iff in E. by destruct E; congruence.
Qed.

(** ** The last block *)

(** The search looks at block numbers up to this one. *)
Definition greatest_searched : Z := 999999999.

Definition has_block k f m : Prop := is_Some (keyspace k f !! block_key f m).

Lemma block_key_leb f m n : 0 <= m <= INT_MAX -> 0 <= n <= INT_MAX -> str_leb (block_key f m) (block_key f n) = (m <=? n).
Proof. apply data_key_leb. Qed.

Lemma get_eof_backend_run this f k :
  files k !! this = Some f ->
  (forall key, keyspace k f !! key <> None -> str_leb (block_key f 0) key = true -> str_leb key (block_key f greatest_searched) = true ->
    exists m, 0 <= m <= greatest_searched /\ key = block_key f m /\ slen key < npos) ->
  exists o k', get_eof_backend this k = (o, k') /\ only_world k k' /\ (forall cl, store cl (world k') = store cl (world k)) /\
    ((exists m, 0 <= m <= greatest_searched /\ has_block k f m) ->
      exists m, 0 <= m <= greatest_searched /\ has_block k f m /\ o = Ret m) /\
    ((forall m, 0 <= m <= greatest_searched -> ~ has_block k f m) ->
      o = if keyspace k f !! makeMetadataKey (store_id (File.cluster f)) (File.path f) then Ret 0
          else Throw (system_error no_such_file_or_directory)).
Proof.
  intros Hf Hkeys. pose proof (id_store (File.cluster f) (world k)) as Hid.
  assert (str_leb (block_key f greatest_searched) (block_key f 0) = false) as Hback
    by (by rewrite block_key_leb by (unfold greatest_searched, INT_MAX; lia)).
  destruct (range_back_store (File.cluster f) _ _ 1 (world k) Hback) as (keys & w1 & _ & Hst & (_ & _ & Hsub & Hne) & E).
  fold (keyspace k f) in *. change (Z.to_nat (if 1 =? 0 then _ else 1)) with 1%nat in *.
  assert (forall m, 0 <= m <= greatest_searched -> has_block k f m -> block_key f m ∈ range_of (block_key f 0) (block_key f greatest_searched) (keyspace k f)) as Hin.
  { intros m Hm Hb. apply elem_of_range. split; [done|]. unfold greatest_searched in *. rewrite !block_key_leb by (unfold INT_MAX; lia). lia. }
  unfold block_key, greatest_searched in E. rewrite <- Hid in E. destruct keys as [|key keys].
  - destruct (get_version_store (File.cluster f) (makeMetadataKey (store_id (File.cluster f)) (File.path f)) w1) as (w2 & _ & Hst2 & E2).
    rewrite Hst in E2. fold (keyspace k f) in E2. rewrite <- Hid in E2.
    assert (only_world k (set_world w2 k) /\ forall cl, store cl (world (set_world w2 k)) = store cl (world k)) as [Ho Hs]
      by (split; [apply set_world_only|intros cl; cbn; by rewrite Hst2]).
    assert (range_of (block_key f 0) (block_key f greatest_searched) (keyspace k f) = []) as Hnil.
    { destruct (range_of _ _ _); [done|]. by destruct (Hne ltac:(done) ltac:(lia)). }
    rewrite <- Hid. destruct (keyspace k f !! _) as [[v x]|]; eexists _, _; (split; [by eapply get_eof_backend_no_block|]);
      split_and!; try done; intros (m & Hm & Hb); specialize (Hin m Hm Hb); rewrite Hnil in Hin; by apply not_elem_of_nil in Hin.
  - destruct (proj1 (elem_of_range _ _ _ _) (Hsub key ltac:(by left))) as (Hs & Hlo & Hhi).
    destruct (Hkeys key) as (m & Hm & -> & Hfit); [by destruct Hs as [? ->]|done|done|]. unfold block_key in E, Hfit. rewrite <- Hid in E, Hfit.
    exists (Ret m), (set_world w1 k). split_and!; [|apply set_world_only|done| |].
    + eapply get_eof_backend_block; [done|unfold greatest_searched, INT_MAX in *; lia|done|exact E].
    + intros _. by exists m.
    + intros Hno. by destruct (Hno m Hm).
Qed.

(** ** Opening *)

Definition metadata_key f : bytes := makeMetadataKey (store_id (File.cluster f)) (File.path f).

(** Whether [flags] ask for a new file. *)
Definition creates (flags : Z) : bool := bool_decide (Z.land flags SFS_O_CREAT <> 0).

(** The file object was opened and starts with the end of an empty file. *)
Definition is_opened this f k k' : Prop := exists t, files k' !! this = Some (set_opened true (set_verified t (set_eof 0 f))) /\
  forall this', this' <> this -> files k' !! this' = files k !! this'.

Lemma set_file_run this (g : File.FileIo Cl -> File.FileIo Cl) k : set_file this g k = (Ret tt, set_files (alter g this) k).
Proof. done. Qed.

Lemma Open_run this f flags k :
  files k !! this = Some f -> exists o k', Open this flags k = (o, k') /\ elsewhere f k k' /\
    dataCache k' = dataCache k /\ blocks k' = blocks k /\
    match creates flags, keyspace k f !! metadata_key f with
    | true, None => o = Ret tt /\ is_opened this f k k' /\ exists v, keyspace k' f = <[metadata_key f := (v, [])]> (keyspace k f)
    | false, Some _ => o = Ret tt /\ is_opened this f k k' /\ keyspace k' f = keyspace k f
    | true, Some _ => o = Throw (system_error file_exists) /\ files k' = files k /\ keyspace k' f = keyspace k f
    | false, None => o = Throw (system_error no_such_file_or_directory) /\ files k' = files k /\ keyspace k' f = keyspace k f
    end.
Proof.
  intros Hf. unfold Open. rewrite (bind_ret _ _ _ _ _ (the_file_run this k f Hf)), (bind_ret _ _ _ _ _ (clusterId_run f k)). cbv zeta.
  fold (metadata_key f). fold (creates flags).
  destruct (creates flags).
  - destruct (put_store (File.cluster f) (metadata_key f) (Some []) [] (world k)) as (w' & _ & Hput). fold (keyspace k f) in Hput.
    rewrite bind_assoc. destruct (keyspace k f !! metadata_key f) as [[v x]|] eqn:Em.
    + rewrite bool_decide_eq_false_2 in Hput by done. destruct Hput as [E Hst]. rewrite (bind_ret _ _ _ _ _ (on_world_ret _ k _ w' E)).
      eexists _, (set_world w' k). split; [done|]. split_and!; try done; [by intros cl _|by apply Hst].
    + rewrite bool_decide_eq_true_2 in Hput by done. destruct Hput as (v & E & Hst & Hot). rewrite (bind_ret _ _ _ _ _ (on_world_ret _ k _ w' E)).
      rewrite bool_decide_eq_true_2 by done. mstep. rewrite (bind_ret _ _ _ _ _ (set_file_run this _ _)). mstep.
      destruct (now_store w') as (w2 & E2 & _ & Hst2). unfold now.
      match goal with |- context [(on_world _ ≫= _) ?k1] => rewrite (bind_ret _ _ _ _ _ (on_world_ret _ k1 _ w2 E2)) end.
      eexists _, _. split; [done|]. split_and!; try done.
      * intros cl Hcl. cbn. rewrite Hst2. by apply Hot.
      * eexists. cbn. rewrite !lookup_alter_eq, Hf. split; [done|]. intros this' Hne. by rewrite !lookup_alter_ne.
      * exists v. unfold keyspace. cbn. by rewrite Hst2, Hst.
  - destruct (get_version_store (File.cluster f) (metadata_key f) (world k)) as (w' & _ & Hst & E). fold (keyspace k f) in E.
    rewrite bind_assoc. rewrite (bind_ret _ _ _ _ _ (on_world_ret _ k _ w' E)).
    destruct (keyspace k f !! metadata_key f) as [[v x]|] eqn:Em.
    + rewrite bool_decide_eq_true_2 by done. eexists _, _. split; [done|]. split_and!; try done; [by intros cl _| |by apply Hst].
      eexists. cbn. rewrite !lookup_alter_eq, Hf. split; [done|]. intros this' Hne. by rewrite !lookup_alter_ne.
    + eexists _, (set_world w' k). split; [done|]. split_and!; try done; [by intros cl _|by apply Hst].
Qed.

(** ** Listing attributes *)

Lemma map_attribute_inj f l l' : map (attribute_key f) l = map (attribute_key f) l' -> l = l'.
Proof.
  revert l'. induction l as [|x l IH]; intros [|y l'] E; try done. cbn in E. injection E as E1 E2.
  apply attribute_key_inj in E1 as ->. by rewrite (IH l' E2).
Qed.

Lemma attribute_key_leb f a b : str_leb (attribute_key f a) (attribute_key f b) = str_leb a b.
Proof. unfold attribute_key, makeAttributeKey. by rewrite !str_leb_app. Qed.

Lemma map_attribute_sorted f names : key_sorted (map (attribute_key f) names) -> key_sorted names.
Proof.
  induction names as [|x names IH]; [constructor|]. cbn [map]. intros [Hs Hx]%StronglySorted_inv. constructor; [by apply IH|].
  rewrite Forall_map in Hx. eapply Forall_impl; [exact Hx|]. intros y Hy. cbn in Hy. unfold attribute_key, makeAttributeKey in Hy.
  by rewrite !str_ltb_app in Hy.
Qed.

Lemma extract_names f names : Forall fits names ->
  mapM (extractAttributeName (store_id (File.cluster f)) (File.path f)) (map (attribute_key f) names) = Ret names.
Proof.
  induction 1 as [|name names Hfit _ IH]; [done|]. cbn [map mapM].
  change (attribute_key f name) with (makeAttributeKey (store_id (File.cluster f)) (File.path f) name).
  rewrite extractAttributeName_spec by done. cbn [mbind outcome_bind]. by rewrite IH.
Qed.

(** The keys of a range of attributes are those of some names. *)
Lemma names_of_range k f start :
  str_leb (attribute_key f []) start = true -> (forall name, attribute k f name <> None -> fits name) ->
  exists names, range_of start (attribute_key f (str "~")) (keyspace k f) = map (attribute_key f) names /\ Forall fits names.
Proof.
  intros Hlo Hfits. set (p := store_id (File.cluster f) ++ str ":attribute:" ++ File.path f ++ str ":").
  assert (forall name, attribute_key f name = p ++ name) as Hform
    by (intros; unfold attribute_key, makeAttributeKey, p; by rewrite <- !app_assoc).
  assert (forall key, key ∈ range_of start (attribute_key f (str "~")) (keyspace k f) -> exists name, key = attribute_key f name /\ fits name) as Hk.
  { intros key ([v Hv] & Hsk & Hkh)%elem_of_range. rewrite Hform in Hkh, Hlo.
    destruct (between_prefix p [] (str "~") key) as (name & -> & _); [by eapply str_leb_trans|done|].
    exists name. rewrite Hform. split; [done|]. apply Hfits. unfold attribute. by rewrite Hform, Hv. }
  induction (range_of _ _ _) as [|key keys IH]; [by exists []|]. destruct IH as (names & -> & Hn); [intros; apply Hk; by right|].
  destruct (Hk key) as (name & -> & Hfit); [by left|]. exists (name :: names). split; [done|by constructor].
Qed.

(** What a request that starts with key [n - 1] of a range returns: the rest of the range from that key on. *)
Lemma range_from (start hi : bytes) (m : gmap bytes (bytes * bytes)) (n : nat) (key : bytes) :
  range_of start hi m !! n = Some key -> range_of key hi m = drop n (range_of start hi m) /\ str_leb start key = true /\ str_leb key hi = true.
Proof.
  intros Hkey. pose proof (list_elem_of_lookup_2 _ _ _ Hkey) as (Hs & Hlo & Hhi)%elem_of_range. split; [|done].
  pose proof (range_sorted start hi m) as Hsort. pose proof (key_sorted_range start hi m) as Hsort'. set (l := range_of start hi m) in *.
  assert (drop n l = key :: drop (S n) l) as Ed by (by apply drop_S).
  rewrite <- (take_drop n l) in Hsort, Hsort'. apply StronglySorted_app_1_r in Hsort' as Hs2.
  apply range_unique; [done|]. intros x. split.
  - intros Hx. assert (x ∈ l) as (? & ? & ?)%elem_of_range by (rewrite <- (take_drop n l); apply elem_of_app; by right). split_and!; [done| |done].
    rewrite Ed in Hx, Hs2. apply elem_of_cons in Hx as [->|Hx]; [unfold str_leb; by rewrite str_ltb_irrefl|].
    apply StronglySorted_inv in Hs2 as [_ Hs2]. rewrite Forall_forall in Hs2. specialize (Hs2 x Hx). unfold str_leb.
    destruct (str_ltb x key) eqn:E; [|done]. pose proof (str_ltb_trans _ _ _ Hs2 E) as Hc. by rewrite str_ltb_irrefl in Hc.
  - intros (Hx & Hkx & Hxh). assert (x ∈ l) as Hxl by (apply elem_of_range; split_and!; [done|by eapply str_leb_trans|done]).
    rewrite <- (take_drop n l) in Hxl. apply elem_of_app in Hxl as [Hxt|]; [|done].
    apply StronglySorted_app in Hsort' as (Hcross & _). specialize (Hcross x key Hxt). rewrite Ed in Hcross.
    specialize (Hcross ltac:(by left)). unfold str_leb in Hkx. by rewrite Hcross in Hkx.
Qed.

Lemma list_attributes_run f fuel : forall start acc k,
  let hi := attribute_key f (str "~") in
  2 <= page f -> str_leb (attribute_key f []) start = true -> str_leb start hi = true ->
  (forall name, attribute k f name <> None -> fits name) -> (length (range_of start hi (keyspace k f)) < fuel)%nat ->
  exists names k', list_attributes fuel f start acc k = (Ret (acc ++ paged (Z.to_nat (page f)) names), k') /\ only_world k k' /\
    (forall cl, store cl (world k') = store cl (world k)) /\ map (attribute_key f) names = range_of start hi (keyspace k f).
Proof.
  induction fuel as [|fuel IH]; intros start acc k hi Hpage Hlo Hle Hfits Hfuel; [lia|]. cbn [list_attributes].
  rewrite (bind_ret _ _ _ _ _ (clusterId_run f k)). fold (attribute_key f (str "~")). fold hi.
  destruct (range_run f start hi 0 k Hle) as (k1 & Ho1 & Hst1 & E1). rewrite (bind_ret _ _ _ _ _ E1). clear E1.
  rewrite bool_decide_eq_true_2 by done. cbn [negb deref Z.eqb]. mstep. set (n := Z.to_nat (page f)).
  destruct (names_of_range k f start Hlo Hfits) as (names & El & Hnames). fold hi in El.
  assert (take n (range_of start hi (keyspace k f)) = map (attribute_key f) (take n names)) as Et by (rewrite El; symmetry; apply fmap_take).
  rewrite Et, extract_names by (by apply Forall_take). mstep. rewrite (bind_ret _ _ _ _ _ (range_size_run f k1)). fold (page f).
  exists names. unfold slen. rewrite length_map, length_take.
  destruct (Z.eqb_spec (Z.of_nat (Nat.min n (length names))) (page f)) as [Hfull|Hshort].
  - assert (n <= length names)%nat as Hn by lia. assert (2 <= n)%nat as Hn2 by lia.
    destruct (lookup_lt_is_Some_2 names (n - 1)) as [name Hname]; [lia|].
    assert (last (map (attribute_key f) (take n names)) = Some (attribute_key f name)) as ->.
    { change (map (attribute_key f)) with (fmap (M := list) (attribute_key f)). rewrite fmap_last, last_lookup, length_take.
      replace (Nat.pred (Nat.min n (length names))) with (n - 1)%nat by lia. rewrite lookup_take_lt by lia. by rewrite Hname. }
    cbn [default from_option id]. destruct (range_from start hi (keyspace k f) (n - 1) (attribute_key f name)) as (Er & Hsk & Hkh).
    { rewrite El. change (map (attribute_key f) names) with (attribute_key f <$> names). by rewrite list_lookup_fmap, Hname. }
    assert (keyspace k1 f = keyspace k f) as Hc1 by apply Hst1.
    destruct (IH (attribute_key f name) (acc ++ take n names) k1) as (names' & k2 & E2 & Ho2 & Hst2 & En2); try done.
    + by eapply str_leb_trans.
    + unfold attribute. by rewrite Hc1.
    + fold hi. rewrite Hc1, Er, length_drop. apply (f_equal length) in El. rewrite length_map in El. fold hi in Hfuel. lia.
    + assert (names' = drop (n - 1) names) as ->.
      { apply (map_attribute_inj f). rewrite En2, Hc1. fold hi. rewrite Er, El. symmetry. apply fmap_drop. }
      exists k2. unfold Datatypes.id. split; [by rewrite E2, (paged_full n names), app_assoc by lia|]. split_and!; [by eapply only_world_trans| |done].
      intros cl. by rewrite Hst2.
  - exists k1. rewrite paged_short by lia. rewrite take_ge by lia. by split_and!.
Qed.

Lemma attrList_run fuel this f k :
  files k !! this = Some f -> 2 <= page f -> (forall name, attribute k f name <> None -> fits name) ->
  (length (range_of (attribute_key f (str " ")) (attribute_key f (str "~")) (keyspace k f)) < fuel)%nat ->
  exists names k', attrList fuel this k = (Ret (paged (Z.to_nat (page f)) names), k') /\ only_world k k' /\
    (forall cl, store cl (world k') = store cl (world k)) /\
    map (attribute_key f) names = range_of (attribute_key f (str " ")) (attribute_key f (str "~")) (keyspace k f).
Proof.
  intros Hf Hpage Hfits Hfuel. unfold attrList. rewrite (bind_ret _ _ _ _ _ (the_file_run this k f Hf)), (bind_ret _ _ _ _ _ (clusterId_run f k)).
  fold (attribute_key f (str " ")). by apply list_attributes_run; rewrite ?attribute_key_leb.
Qed.

(** The names a listing is about: in order, and those stored between a space and a tilde. *)
Definition listed k f names : Prop := key_sorted names /\
  forall name, name ∈ names <-> attribute k f name <> None /\ str_leb (str " ") name = true /\ str_leb name (str "~") = true.

Lemma range_listed k f names :
  map (attribute_key f) names = range_of (attribute_key f (str " ")) (attribute_key f (str "~")) (keyspace k f) -> listed k f names.
Proof.
  intros E. split; [apply (map_attribute_sorted f); rewrite E; apply key_sorted_range|]. intros name.
  assert (name ∈ names <-> attribute_key f name ∈ map (attribute_key f) names) as ->.
  { split; [by apply list_elem_of_fmap_2|]. intros (y & Ey & Hy)%list_elem_of_fmap. by apply attribute_key_inj in Ey as ->. }
  rewrite E, elem_of_range, !attribute_key_leb. unfold attribute. destruct (keyspace k f !! _); cbn; naive_solver.
Qed.

Lemma attribute_stored k f name : attribute k f name <> None -> is_Some (keyspace k f !! attribute_key f name).
Proof. unfold attribute. destruct (keyspace k f !! _) as [v|]; [by exists v|done]. Qed.

Lemma key_sorted_NoDup (l : list bytes) : key_sorted l -> NoDup l.
Proof.
  induction 1 as [|x l _ IH Hx]; constructor; [|done]. intros Hin. rewrite Forall_forall in Hx. specialize (Hx x Hin).
  by rewrite str_ltb_irrefl in Hx.
Qed.

(** ** Truncating and removing *)

Lemma block_size_run f k : block_size f k = (Ret (max_value_size (store_limits (File.cluster f))), k).
Proof. unfold block_size, on_world, zoom. rewrite bind_unfold, limits_store. by destruct k. Qed.

Lemma truncate_run restarts fuel this f k :
  let lo := block_key f 0 in let hi := block_key f INT_MAX in
  cache_ok k -> files k !! this = Some f -> File.opened f = true -> 0 < max_value_size (store_limits (File.cluster f)) < 2 ^ 64 ->
  0 < page f -> (length (range_of lo hi (keyspace k f)) < fuel)%nat ->
  exists k', Truncate restarts fuel this 0 k = (Ret tt, k') /\ cache_ok k' /\ files k' !! this = Some (set_eof 0 f) /\
    elsewhere f k k' /\ cleared f lo hi k k' /\
    forall x, x ∈ cached k' <-> x ∈ cached k /\ x ∉ default ∅ (owner_tables (dataCache k) !! this).
Proof.
  intros lo hi Hok Hf Hop Hsize Hpage Hfuel. unfold Truncate. rewrite (bind_ret _ _ _ _ _ (the_file_run this k f Hf)), Hop. cbn [negb].
  rewrite (bind_ret _ _ _ _ _ (block_size_run f k)). set (n := max_value_size _) in *. destruct (Z.eqb_spec n 0); [lia|].
  change (u64 0) with 0. rewrite Z.div_0_l by lia. change (i32 0) with 0. cbn [Z.ltb Z.compare Z.eqb]. mstep.
  destruct (drop_owner_ok k this true Hok) as (k1 & E1 & Hok1 & _ & _ & _ & Hw1 & Hf1 & _ & _ & Hc1). rewrite (bind_ret _ _ _ _ _ E1).
  assert (keyspace k1 f = keyspace k f) as Hco by (unfold keyspace; by rewrite Hw1).
  destruct (remove_blocks_run f 0 fuel k1) as (k2 & E2 & Ho2 & He2 & Hc2); fold lo hi; rewrite ?Hco; try done.
  { unfold lo, hi. rewrite block_key_leb by (unfold INT_MAX; lia). done. }
  rewrite (bind_ret _ _ _ _ _ E2). destruct Ho2 as [w2 ->]. rewrite set_file_run. eexists. split; [done|]. split_and!.
  - by apply (cache_ok_ext k1).
  - cbn. by rewrite lookup_alter_eq, Hf1, Hf.
  - intros cl Hcl. cbn. rewrite <- Hw1. by apply He2.
  - intros key. rewrite <- Hco. apply Hc2.
  - intros x. unfold cached. cbn. fold (cached k1). rewrite Hc1. split; [intros [? Hx]; by split; [|apply Hx]|by intros [? ?]].
Qed.

Lemma remove_attributes_run f names : forall k, NoDup names ->
  (forall name, name ∈ names -> is_Some (keyspace k f !! attribute_key f name)) ->
  exists k', remove_attributes f names k = (Ret tt, k') /\ only_world k k' /\ elsewhere f k k' /\
    forall key, keyspace k' f !! key = if decide (key ∈ map (attribute_key f) names) then None else keyspace k f !! key.
Proof.
  induction names as [|name names IH]; intros k Hn Hin; cbn [remove_attributes].
  { exists k. split_and!; [done|apply only_world_refl|done|]. intros x. rewrite decide_False; [done|]. apply not_elem_of_nil. }
  apply NoDup_cons in Hn as [Hni Hn]. rewrite (bind_ret _ _ _ _ _ (clusterId_run f k)). fold (attribute_key f name).
  destruct (remove_any_store (File.cluster f) (attribute_key f name) (world k)) as (w' & _ & E & Hst & Hot).
  fold (keyspace k f) in E. destruct (Hin name ltac:(constructor)) as [v Hv]. rewrite Hv in E.
  rewrite (bind_ret _ _ _ _ _ (on_world_ret _ k _ w' E)). rewrite bool_decide_eq_true_2 by done. cbn [negb].
  assert (keyspace (set_world w' k) f = delete (attribute_key f name) (keyspace k f)) as Hc by exact Hst.
  destruct (IH (set_world w' k)) as (k2 & E2 & Ho2 & He2 & Hc2); [done| |].
  { intros x Hx. rewrite Hc, lookup_delete_ne; [apply Hin; by constructor|]. intros Ex. apply attribute_key_inj in Ex as ->. done. }
  exists k2. split; [done|]. split_and!.
  - eapply only_world_trans; [apply set_world_only|exact Ho2].
  - eapply elsewhere_trans; [|exact He2]. exact Hot.
  - intros x. rewrite Hc2, Hc. cbn [map]. destruct (decide (x = attribute_key f name)) as [->|Hne].
    + rewrite (decide_True (P := _ ∈ _ :: _)) by constructor. case_decide; [done|]. apply lookup_delete_eq.
    + rewrite lookup_delete_ne by done. repeat case_decide; try done; set_solver.
Qed.

Lemma remove_attributes_app f l1 l2 : forall k k1, remove_attributes f l1 k = (Ret tt, k1) ->
  remove_attributes f (l1 ++ l2) k = remove_attributes f l2 k1.
Proof.
  induction l1 as [|name l1 IH]; intros k k1; cbn [app remove_attributes]; [intros E; by injection E as <-|].
  rewrite !(bind_ret _ _ _ _ _ (clusterId_run f k)). rewrite !bind_unfold. destruct (on_world _ k) as [[status| | |] k2]; try done.
  case_bool_decide; cbn [negb]; [|done]. apply IH.
Qed.

(** A name that comes a second time stops the removal. *)
Lemma remove_attributes_twice f names name rest k : NoDup names -> name ∈ names ->
  (forall name, name ∈ names -> is_Some (keyspace k f !! attribute_key f name)) ->
  exists k', remove_attributes f (names ++ name :: rest) k = (Throw (system_error io_error), k') /\ only_world k k' /\ elsewhere f k k' /\
    forall key, keyspace k' f !! key = if decide (key ∈ map (attribute_key f) names) then None else keyspace k f !! key.
Proof.
  intros Hn Hin Hst. destruct (remove_attributes_run f names k Hn Hst) as (k1 & E1 & Ho1 & He1 & Hc1).
  rewrite (remove_attributes_app f names (name :: rest) k k1 E1). cbn [remove_attributes].
  rewrite (bind_ret _ _ _ _ _ (clusterId_run f k1)). fold (attribute_key f name).
  destruct (remove_any_store (File.cluster f) (attribute_key f name) (world k1)) as (w' & _ & E & Hs & Hot). fold (keyspace k1 f) in E, Hs.
  assert (keyspace k1 f !! attribute_key f name = None) as Hnone by (rewrite Hc1; apply decide_True, list_elem_of_fmap_2, Hin).
  rewrite Hnone in E. rewrite (bind_ret _ _ _ _ _ (on_world_ret _ k1 _ w' E)). rewrite bool_decide_eq_false_2 by done.
  exists (set_world w' k1). split; [done|]. split_and!.
  - eapply only_world_trans; [exact Ho1|apply set_world_only].
  - eapply elsewhere_trans; [exact He1|exact Hot].
  - intros key. rewrite <- Hc1. unfold keyspace at 1. cbn [world set_world]. rewrite Hs. by rewrite delete_id.
Qed.

Definition attribute_range f key : bool :=
  str_leb (attribute_key f (str " ")) key && str_leb key (attribute_key f (str "~")).
Definition block_range f key : bool := str_leb (block_key f 0) key && str_leb key (block_key f INT_MAX).

Lemma remove_run restarts fuel this f k :
  let attributes := range_of (attribute_key f (str " ")) (attribute_key f (str "~")) (keyspace k f) in
  cache_ok k -> files k !! this = Some f -> File.opened f = true -> 0 < max_value_size (store_limits (File.cluster f)) < 2 ^ 64 ->
  (forall name, attribute k f name <> None -> fits name) -> 2 <= page f -> (length attributes < Z.to_nat (page f))%nat ->
  (length attributes < fuel)%nat -> (length (range_of (block_key f 0) (block_key f INT_MAX) (keyspace k f)) < fuel)%nat ->
  exists k', Remove restarts fuel this k = (Ret tt, k') /\ cache_ok k' /\ elsewhere f k k' /\
    forall key, keyspace k' f !! key =
      if bool_decide (key = metadata_key f) || attribute_range f key || block_range f key then None else keyspace k f !! key.
Proof.
  intros attributes Hok Hf Hop Hsize Hfits Hpage Hshort Hfuel0 Hfuel. unfold Remove.
  rewrite (bind_ret _ _ _ _ _ (the_file_run this k f Hf)), Hop. mstep. cbn [negb]. mstep.
  destruct (attrList_run fuel this f k Hf Hpage Hfits Hfuel0) as (names & k1 & E1 & [w1 ->] & Hst1 & Hnames).
  rewrite paged_short in E1 by (rewrite <- (length_map (attribute_key f)), Hnames; exact Hshort).
  rewrite (bind_ret _ _ _ _ _ E1). clear E1. fold attributes in Hnames.
  rewrite (bind_ret _ _ _ _ _ (the_file_run this (set_world w1 k) f Hf)).
  assert (keyspace (set_world w1 k) f = keyspace k f) as Hc1 by apply Hst1.
  destruct (range_listed k f names Hnames) as [Hsort Hlisted].
  destruct (remove_attributes_run f names (set_world w1 k)) as (k2 & E2 & [w2 ->] & He2 & Hc2).
  { by apply key_sorted_NoDup. }
  { intros name [Ha _]%Hlisted. rewrite Hc1. by apply attribute_stored. }
  rewrite (bind_ret _ _ _ _ _ E2). rewrite Hnames in Hc2. rewrite Hc1 in Hc2. clear E2 Hnames.
  destruct (truncate_run restarts fuel this f (set_world w2 (set_world w1 k))) as (k3 & E3 & Hok3 & Hf3 & He3 & Hc3 & _);
    [by apply (cache_ok_ext k)|done..|lia| |].
  { eapply Nat.le_lt_trans; [|exact Hfuel]. apply range_of_subset.
    intros key. rewrite !elem_of_range, Hc2.
    case_decide; [by intros [[] _]|done]. }
  rewrite (bind_ret _ _ _ _ _ E3), (bind_ret _ _ _ _ _ (the_file_run this k3 _ Hf3)), (bind_ret _ _ _ _ _ (clusterId_run _ k3)).
  change (makeMetadataKey _ _) with (metadata_key f).
  destruct (remove_any_store (File.cluster f) (metadata_key f) (world k3)) as (w4 & _ & E4 & Hst4 & Hot4).
  rewrite (bind_ret _ _ _ _ _ (on_world_ret _ k3 _ w4 E4)). exists (set_world w4 k3).
  split; [by destruct (store _ _ !! _)|]. split_and!.
  - by apply (cache_ok_ext k3).
  - intros cl Hcl. cbn. rewrite Hot4, He3 by done. by rewrite He2.
  - intros key. unfold keyspace at 1. cbn [world set_world]. rewrite Hst4. fold (keyspace k3 f).
    destruct (decide (key = metadata_key f)) as [->|Hne].
    { rewrite bool_decide_eq_true_2 by done. apply lookup_delete_eq. }
    rewrite bool_decide_eq_false_2, lookup_delete_ne by done. cbn [orb]. rewrite Hc3, Hc2. unfold block_range, attribute_range.
    destruct (str_leb (block_key f 0) key && str_leb key (block_key f INT_MAX)); [by rewrite orb_true_r|]. rewrite orb_false_r.
    case_decide as Hin.
    + apply elem_of_range in Hin as (_ & Hlo & Hhi). by rewrite Hlo, Hhi.
    + destruct (str_leb _ key && str_leb key _) eqn:E; [|done]. apply andb_true_iff in E as [? ?].
      destruct (keyspace k f !! key) eqn:Ek; [|done]. destruct Hin. apply elem_of_range. split_and!; [by rewrite Ek|done..].
Qed.

(** With a full page of attributes the removal stops after this page. *)
Lemma remove_full_page restarts fuel this f k :
  let attributes := range_of (attribute_key f (str " ")) (attribute_key f (str "~")) (keyspace k f) in
  cache_ok k -> files k !! this = Some f -> File.opened f = true -> (forall name, attribute k f name <> None -> fits name) ->
  2 <= page f -> (Z.to_nat (page f) <= length attributes < fuel)%nat ->
  exists k', Remove restarts fuel this k = (Throw (system_error io_error), k') /\ cache_ok k' /\ elsewhere f k k' /\
    forall key, keyspace k' f !! key = if decide (key ∈ take (Z.to_nat (page f)) attributes) then None else keyspace k f !! key.
Proof.
  intros attributes Hok Hf Hop Hfits Hpage [Hlong Hfuel]. unfold Remove.
  rewrite (bind_ret _ _ _ _ _ (the_file_run this k f Hf)), Hop. mstep. cbn [negb]. mstep.
  destruct (attrList_run fuel this f k Hf Hpage Hfits Hfuel) as (names & k1 & E1 & [w1 ->] & Hst1 & Hnames).
  rewrite (bind_ret _ _ _ _ _ E1). clear E1. rewrite (bind_ret _ _ _ _ _ (the_file_run this (set_world w1 k) f Hf)).
  destruct (range_listed k f names Hnames) as [Hsort Hin].
  assert (keyspace (set_world w1 k) f = keyspace k f) as Hc1 by apply Hst1. fold attributes in Hnames.
  destruct (paged_repeats (Z.to_nat (page f)) names) as (some & name & rest & -> & -> & Hname).
  { rewrite <- (length_map (attribute_key f)), Hnames. lia. }
  destruct (remove_attributes_twice f (take (Z.to_nat (page f)) names) name rest (set_world w1 k)) as (k2 & E2 & [w2 ->] & He2 & Hc2).
  { apply key_sorted_NoDup in Hsort. rewrite <- (take_drop (Z.to_nat (page f)) names) in Hsort. by apply NoDup_app in Hsort as [? _]. }
  { done. }
  { intros x (i & Hi & _)%elem_of_take. apply list_elem_of_lookup_2, Hin in Hi as [Ha _]. rewrite Hc1. by apply attribute_stored. }
  rewrite (bind_throw _ _ _ _ _ E2). eexists. split; [done|]. split_and!.
  - by apply (cache_ok_ext k).
  - intros cl Hcl. by rewrite He2.
  - intros key. rewrite Hc2, Hc1, <- Hnames. change (map (attribute_key f)) with (fmap (M := list) (attribute_key f)). by rewrite fmap_take.
Qed.

(** ** Keys of other files *)

(** The keys of the file at [p]. *)
Definition key_of f (p key : bytes) : Prop := let cid := store_id (File.cluster f) in
  key = makeMetadataKey cid p \/ (exists name, key = makeAttributeKey cid p name) \/
  exists m, 0 <= m <= INT_MAX /\ key = makeDataKey cid p m.

(** Paths none of which continues the other where the keys of the other have a separator. *)
Definition apart (p p' : bytes) : Prop :=
  p' <> p /\ ~ (p ++ str "_") `prefix_of` p' /\ ~ (p ++ str ":") `prefix_of` p' /\ ~ (p' ++ str ":") `prefix_of` p.

Lemma apart_attribute p p' name t : apart p p' -> p' ++ str ":" ++ name <> p ++ str ":" ++ t.
Proof.
  intros (Hne & _ & Hp & Hp') E. apply app_eq_inv in E as [(k' & -> & E)|(k' & -> & E)]; destruct k' as [|c k'];
    rewrite ?app_nil_r in *; try done; injection E as <- E.
  - destruct Hp. exists k'. by rewrite <- app_assoc.
  - destruct Hp'. exists k'. by rewrite <- app_assoc.
Qed.

Lemma apart_block p p' d t : apart p p' -> "_"%char ∉ d -> p' ++ str "_" ++ d <> p ++ str "_" ++ t.
Proof.
  intros (Hne & Hp & _) Hd E. apply app_eq_inv in E as [(k' & -> & E)|(k' & -> & E)]; destruct k' as [|c k'];
    rewrite ?app_nil_r in *; try done; injection E as <- E.
  - destruct Hp. exists k'. by rewrite <- app_assoc.
  - destruct Hd. rewrite E. apply elem_of_app. right. by left.
Qed.

Lemma attribute_range_prefix f key : attribute_range f key = true -> exists t, key = attribute_key f t.
Proof.
  unfold attribute_range. intros [Hlo Hhi]%andb_true_iff. set (p := store_id (File.cluster f) ++ str ":attribute:" ++ File.path f ++ str ":").
  assert (forall name, attribute_key f name = p ++ name) as Hform
    by (intros; unfold attribute_key, makeAttributeKey, p; by rewrite <- !app_assoc).
  rewrite Hform in Hlo, Hhi. destruct (between_prefix p _ _ key Hlo Hhi) as (t & -> & _). exists t. by rewrite Hform.
Qed.

Lemma block_range_prefix f key : block_range f key = true ->
  exists t, key = store_id (File.cluster f) ++ str ":data:" ++ File.path f ++ str "_" ++ t.
Proof.
  unfold block_range. intros [Hlo Hhi]%andb_true_iff. set (p := store_id (File.cluster f) ++ str ":data:" ++ File.path f ++ str "_").
  assert (forall m, block_key f m = p ++ pad0 10 (to_string m)) as Hform
    by (intros; unfold block_key, makeDataKey, p; by rewrite <- !app_assoc).
  rewrite Hform in Hlo, Hhi. destruct (between_prefix p _ _ key Hlo Hhi) as (t & -> & _). exists t. unfold p. by rewrite <- !app_assoc.
Qed.

(** What removing a file removes is not a key of a file apart from it. *)
Lemma apart_untouched f p' key : apart (File.path f) p' -> key_of f p' key ->
  key <> metadata_key f /\ attribute_range f key = false /\ block_range f key = false.
Proof.
  intros Hap Hkey. unfold metadata_key, makeMetadataKey.
  assert (forall b : bool, (b = true -> False) -> b = false) as Hf by (intros [] Hb; [by destruct Hb|done]).
  split_and!; [intros Ek|apply Hf; intros (t & Ek)%attribute_range_prefix|apply Hf; intros (t & Ek)%block_range_prefix];
    rewrite Ek in Hkey; unfold attribute_key, makeAttributeKey, key_of, makeMetadataKey, makeAttributeKey, makeDataKey in Hkey;
    destruct Hkey as [E|[(name & E)|(m & Hm & E)]]; apply app_inv_head in E; try done; apply app_inv_head in E.
  - destruct Hap as [Hne _]. by subst.
  - by eapply apart_attribute.
  - eapply (apart_block (File.path f) p' (pad0 10 (to_string m))); [done| |by symmetry].
    rewrite to_string_nonneg by lia. intros Hin. destruct (dec_spec m ltac:(lia)) as (Hd & _). pose proof (all_digits_pad0 10 (dec m) Hd) as Hall.
    unfold all_digits in Hall. rewrite Forall_forall in Hall. by destruct (Hall _ Hin).
Qed.

(** ** Errors *)

(** A failure in the background is kept ... *)
Lemma perform_flush_fails restarts this f data b e k k1 :
  files k !! this = Some f -> blocks k !! data = Some b -> DataBlock.dirty b = true ->
  on_block data (DataBlock.flush restarts) k = (Throw (system_error e), k1) ->
  exists k2, perform restarts (FileFlush this data) k = (Ret tt, k2) /\ dataCache k2 = dataCache k1 /\ blocks k2 = blocks k1 /\
    world k2 = world k1 /\ files k2 = <[this := set_exceptions (File.exceptions f ++ [system_error e]) f]> (files k).
Proof.
  intros Hf Hb Hd E. cbn [perform]. unfold doFlush. rewrite (bind_ret _ _ _ _ _ (is_dirty_run k data b Hb)), Hd. cbn [when].
  unfold try_catch. rewrite E. rewrite set_file_run. eexists. split; [done|]. split_and!; try done.
  assert (files k1 = files k) as Ef.
  { unfold on_block in E. rewrite Hb in E. destruct (DataBlock.flush restarts (b, world k)) as [o [b' w']]. by injection E as _ <-. }
  cbn. rewrite Ef. apply map_eq. intros x. destruct (decide (x = this)) as [->|Hne].
  - by rewrite lookup_alter_eq, Hf, lookup_insert_eq.
  - by rewrite lookup_alter_ne, lookup_insert_ne.
Qed.

(** ... and reported by the next transfer. *)
Lemma ReadWrite_rethrows restarts fuel order this f e es off buffer length mode k :
  files k !! this = Some f -> File.exceptions f = e :: es ->
  ReadWrite restarts fuel order this off buffer length mode k = (Throw e, set_files (<[this := set_exceptions es f]>) k).
Proof.
  intros Hf He. unfold ReadWrite. rewrite (bind_ret _ _ _ _ _ (the_file_run this k f Hf)), He.
  rewrite (bind_ret _ _ _ _ _ (set_file_run this _ k)). unfold throw, set_files. cbn. do 2 f_equal.
  apply map_eq. intros x. destruct (decide (x = this)) as [->|Hne].
  - by rewrite lookup_alter_eq, Hf, lookup_insert_eq.
  - by rewrite lookup_alter_ne, lookup_insert_ne.
Qed.

Lemma Read_opened restarts fuel order this f off buffer length k : files k !! this = Some f ->
  Read restarts fuel order this off buffer length k =
  if File.opened f then ReadWrite restarts fuel order this off buffer length READ k else (Throw (system_error operation_not_permitted), k).
Proof. intros Hf. unfold Read. rewrite (bind_ret _ _ _ _ _ (the_file_run this k f Hf)). by destruct (File.opened f). Qed.

Lemma Write_opened restarts fuel order this f off buffer length k : files k !! this = Some f ->
  Write restarts fuel order this off buffer length k =
  if File.opened f then ('(n, _) ← ReadWrite restarts fuel order this off buffer length WRITE; mret n) k
  else (Throw (system_error operation_not_permitted), k).
Proof. intros Hf. unfold Write. rewrite (bind_ret _ _ _ _ _ (the_file_run this k f Hf)). by destruct (File.opened f). Qed.

End Laws.

(** ** Properties *)

(** C11: Removing an open file, on a cluster whose replies hold at least two keys.  If the stored attributes with
    names between a space and a tilde are fewer than one reply holds, [Remove] succeeds; then the metadata
    key, these attributes and every key from the first to the last possible block of the path are gone and
    nothing else has changed.  The last range is that of the code: it holds the blocks of this file, and also
    those of files whose path continues this one with an underscore and a digit.  If the attributes fill a
    reply, [Remove] fails with [io_error] after removing the first page of them only.  In both cases every
    key of a file whose path is apart from this one, and every other cluster, is untouched and the tables
    of the cache are in order. *)
Theorem file_remove `{ClusterStore W Cl} restarts fuel this (f : File.FileIo Cl) (k : KineticIo W Cl) :
  let attributes := range_of (attribute_key f (str " ")) (attribute_key f (str "~")) (keyspace k f) in
  cache_ok k -> files k !! this = Some f -> File.opened f = true -> 0 < max_value_size (store_limits (File.cluster f)) < 2 ^ 64 ->
  (forall name, attribute k f name <> None -> fits name) -> 2 <= page f -> (length attributes < fuel)%nat ->
  (length (range_of (block_key f 0) (block_key f INT_MAX) (keyspace k f)) < fuel)%nat ->
  exists o k', Remove restarts fuel this k = (o, k') /\ cache_ok k' /\ elsewhere f k k' /\
    (forall p' key, apart (File.path f) p' -> key_of f p' key -> keyspace k' f !! key = keyspace k f !! key) /\
    ((length attributes < Z.to_nat (page f))%nat -> o = Ret tt /\ forall key, keyspace k' f !! key =
      if bool_decide (key = metadata_key f) || attribute_range f key || block_range f key then None else keyspace k f !! key) /\
    ((Z.to_nat (page f) <= length attributes)%nat -> o = Throw (system_error io_error) /\ forall key, keyspace k' f !! key =
      if decide (key ∈ take (Z.to_nat (page f)) attributes) then None else keyspace k f !! key).
Proof.
  intros attributes Hok Hf Hop Hsize Hfits Hpage Hfuel0 Hfuel. destruct (decide (length attributes < Z.to_nat (page f))%nat) as [Hs|Hl].
  - destruct (remove_run restarts fuel this f k) as (k' & E & Hok' & He & Hc); [done..|]. exists (Ret tt), k'. split_and!; try done; [|lia].
    intros p' key Hap Hkey. destruct (apart_untouched f p' key Hap Hkey) as (Hm & Ha & Hb). by rewrite Hc, Ha, Hb, bool_decide_eq_false_2.
  - destruct (remove_full_page restarts fuel this f k) as (k' & E & Hok' & He & Hc); [done..| |]; [fold attributes; lia|].
    exists (Throw (system_error io_error)), k'. split_and!; try done.
    intros p' key Hap Hkey. destruct (apart_untouched f p' key Hap Hkey) as (_ & Ha & _). rewrite Hc.
    case_decide as Hin; [|done]. apply elem_of_take in Hin as (i & Hi & _). apply list_elem_of_lookup_2, elem_of_range in Hi as (_ & Hlo & Hhi).
    unfold attribute_range in Ha. by rewrite Hlo, Hhi in Ha.
Qed.

(** C19: The attributes of a file are a map.  [attrGet] of a name that is not one of the two computed ones
    returns the stored value or fails with [no_such_file_or_directory]; [attrSet] always succeeds and
    changes this attribute and no other key; [attrDelete] removes it, and fails with [io_error] if there is
    none. *)
Theorem file_attributes `{ClusterStore W Cl} this (f : File.FileIo Cl) (k : KineticIo W Cl) name value :
  files k !! this = Some f -> name <> str "sys.iostats" -> name <> str "sys.health" ->
  (exists k', attrGet this name k =
      (match attribute k f name with Some v => Ret v | None => Throw (system_error no_such_file_or_directory) end, k') /\
    only_world k k' /\ forall cl, store cl (world k') = store cl (world k)) /\
  (exists k', attrSet this name value k = (Ret tt, k') /\ only_world k k' /\ elsewhere f k k' /\ attribute k' f name = Some value /\
    forall key, key <> attribute_key f name -> keyspace k' f !! key = keyspace k f !! key) /\
  (exists k', attrDelete this name k = (if attribute k f name then Ret tt else Throw (system_error io_error), k') /\
    only_world k k' /\ elsewhere f k k' /\ attribute k' f name = None /\
    forall key, key <> attribute_key f name -> keyspace k' f !! key = keyspace k f !! key).
Proof.
  intros Hf Hn1 Hn2. split; [by apply attrGet_run|]. split.
  - destruct (attrSet_run this f name value k Hf) as (k' & E & Ho & He & v & Hc). exists k'. split_and!; try done; unfold attribute.
    + by rewrite Hc, lookup_insert_eq.
    + intros key Hkey. by rewrite Hc, lookup_insert_ne.
  - destruct (attrDelete_run this f name k Hf) as (k' & E & Ho & He & Hc). exists k'. split_and!; try done; unfold attribute.
    + by rewrite Hc, lookup_delete_eq.
    + intros key Hkey. by rewrite Hc, lookup_delete_ne.
Qed.

(** C17: Listing attributes.  If a reply holds at least two keys, [attrList] ends and changes nothing stored.  What
    it lists are the stored attributes with names between a space and a tilde, in order, by pages of a reply
    each of which starts with the last name of the full page before.  So every such name is listed and no
    other; each of them once if they fit into less than a reply, and otherwise some of them twice: one more
    name than there are for every full reply. *)
Theorem file_attribute_list `{ClusterStore W Cl} fuel this (f : File.FileIo Cl) (k : KineticIo W Cl) :
  files k !! this = Some f -> 2 <= page f -> (forall name, attribute k f name <> None -> fits name) ->
  (length (range_of (attribute_key f (str " ")) (attribute_key f (str "~")) (keyspace k f)) < fuel)%nat ->
  exists names result k', let n := Z.to_nat (page f) in
    attrList fuel this k = (Ret result, k') /\ only_world k k' /\ (forall cl, store cl (world k') = store cl (world k)) /\
    listed k f names /\ result = paged n names /\ (forall name, name ∈ result <-> name ∈ names) /\
    length result = (length names + (length names - 1) / (n - 1))%nat /\
    ((length names < n)%nat -> result = names) /\ ((n <= length names)%nat -> ~ NoDup result).
Proof.
  intros Hf Hpage Hfits Hfuel. destruct (attrList_run fuel this f k Hf Hpage Hfits Hfuel) as (names & k' & E & Ho & Hst & Hn).
  assert (2 <= Z.to_nat (page f))%nat as Hp by lia. pose proof (range_listed k f names Hn) as Hl.
  exists names, (paged (Z.to_nat (page f)) names), k'. split_and!; try done.
  - intros name. by apply elem_of_paged.
  - by apply length_paged.
  - apply paged_short.
  - rewrite paged_NoDup; [lia|done|]. apply key_sorted_NoDup, Hl.
Qed.

(** C18: Opening a file.  Asked to create, [Open] succeeds exactly if the metadata key does not exist and then
    creates it, else it fails with [file_exists]; asked to open, it succeeds exactly if the key exists,
    else it fails with [no_such_file_or_directory].  On success the file counts as open and its last block
    is the first one; on failure nothing has changed; blocks are never touched. *)
Theorem file_open `{ClusterStore W Cl} this (f : File.FileIo Cl) flags (k : KineticIo W Cl) :
  files k !! this = Some f -> exists o k', Open this flags k = (o, k') /\ elsewhere f k k' /\
    dataCache k' = dataCache k /\ blocks k' = blocks k /\
    match creates flags, keyspace k f !! metadata_key f with
    | true, None => o = Ret tt /\ is_opened this f k k' /\ exists v, keyspace k' f = <[metadata_key f := (v, [])]> (keyspace k f)
    | false, Some _ => o = Ret tt /\ is_opened this f k k' /\ keyspace k' f = keyspace k f
    | true, Some _ => o = Throw (system_error file_exists) /\ files k' = files k /\ keyspace k' f = keyspace k f
    | false, None => o = Throw (system_error no_such_file_or_directory) /\ files k' = files k /\ keyspace k' f = keyspace k f
    end.
Proof. apply Open_run. Qed.

(** C12: Errors of a file.  On a file that is not open, reading, writing and truncating fail with
    [operation_not_permitted] and change nothing.  When a flush in the background fails, the background task
    itself does not fail; the error is thrown by the next read or write of the file instead, once. *)
Theorem file_errors `{ClusterInterface W Cl} restarts fuel order this (f : File.FileIo Cl) (k : KineticIo W Cl) off buffer length :
  files k !! this = Some f ->
  (File.opened f = false ->
    Read restarts fuel order this off buffer length k = (Throw (system_error operation_not_permitted), k) /\
    Write restarts fuel order this off buffer length k = (Throw (system_error operation_not_permitted), k) /\
    Truncate restarts fuel this off k = (Throw (system_error operation_not_permitted), k)) /\
  (forall data b e k1, File.opened f = true -> File.exceptions f = [] ->
    blocks k !! data = Some b -> DataBlock.dirty b = true ->
    on_block data (DataBlock.flush restarts) k = (Throw (system_error e), k1) ->
    exists k2, perform restarts (FileFlush this data) k = (Ret tt, k2) /\
      (exists k3, Write restarts fuel order this off buffer length k2 = (Throw (system_error e), k3) /\ files k3 = files k) /\
      (exists k3, Read restarts fuel order this off buffer length k2 = (Throw (system_error e), k3) /\ files k3 = files k)).
Proof.
  intros Hf. split.
  - intros Hop. rewrite (Read_opened _ _ _ _ f), (Write_opened _ _ _ _ f), Hop by done. split_and!; try done.
    unfold Truncate. rewrite (bind_ret _ _ _ _ _ (the_file_run this k f Hf)), Hop. done.
  - intros data b e k1 Hop Hex Hb Hd E. destruct (perform_flush_fails restarts this f data b e k k1 Hf Hb Hd E) as (k2 & E2 & _ & _ & _ & Hf2).
    exists k2. split; [done|]. rewrite Hex in Hf2. cbn [app] in Hf2. set (f2 := set_exceptions _ f) in *.
    assert (files k2 !! this = Some f2) as Hf2' by (by rewrite Hf2, lookup_insert_eq).
    assert (set_exceptions [] f2 = f) as Hback by (destruct f; simpl in *; by rewrite Hex).
    assert (<[this:=f]> (files k2) = files k) as Hsame by (by rewrite Hf2, insert_insert_eq, insert_id).
    rewrite (Write_opened _ _ _ _ f2), (Read_opened _ _ _ _ f2) by done.
    assert (File.opened f2 = true) as -> by done. split.
    + erewrite (bind_throw (ReadWrite _ _ _ _ _ _ _ _)) by by apply ReadWrite_rethrows. eexists. split; [done|]. cbn. by rewrite Hback.
    + erewrite ReadWrite_rethrows by done. eexists. split; [done|]. cbn. by rewrite Hback.
Qed.

Import MapCluster.

(** A library whose only file has a metadata key, two attributes and two blocks. *)
Definition keys_kio : KineticIo MapCluster.state unit :=
  set_world (MapCluster.mkState
    (<[str "C1:metadata:a" := (1, [])]> (<[str "C1:attribute:a:user" := (2, str "me")]> (<[str "C1:attribute:a:mode" := (3, str "rw")]>
     (<[str "C1:data:a_0000000000" := (4, str "hello")]> {[str "C1:data:a_0000000002" := (5, str "world")]})))) (20 * ns_per_s))
  (example_kio 100).

Lemma keys_kio_fits name : attribute keys_kio (example_file (str "a")) name <> None -> fits name.
Proof.
  intros Hn. assert (map_Forall (fun key _ => slen key < npos) (keyspace keys_kio (example_file (str "a")))) as Hall
    by (apply (bool_decide_unpack _); by vm_compute).
  unfold attribute in Hn. destruct (keyspace keys_kio (example_file (str "a")) !! attribute_key (example_file (str "a")) name) as [v|] eqn:E; [|done].
  apply Hall in E. unfold attribute_key, makeAttributeKey in E. rewrite !slen_app in E. unfold fits.
  pose proof (slen_nonneg (store_id (File.cluster (example_file (str "a"))))). unfold slen in *. lia.
Qed.

Lemma file_remove_witness :
  exists k', Remove 2 4 1%positive keys_kio = (Ret tt, k') /\ keyspace k' (example_file (str "a")) !! str "C1:data:a_0000000002" = None.
Proof.
  destruct (file_remove 2 4 1%positive (example_file (str "a")) keys_kio) as (o & k' & E & _ & _ & _ & Hs & _).
  - apply (cache_ok_ext (example_kio 100)); [reflexivity|reflexivity|]. apply example_ok.
  - reflexivity.
  - reflexivity.
  - by vm_compute.
  - apply keys_kio_fits.
  - by vm_compute.
  - apply Nat.ltb_lt. vm_compute. reflexivity.
  - apply Nat.ltb_lt. vm_compute. reflexivity.
  - destruct Hs as [-> Hc]; [apply Nat.ltb_lt; vm_compute; reflexivity|]. exists k'. split; [exact E|]. rewrite Hc. vm_compute. reflexivity.
Defined.

Lemma file_attributes_witness :
  (exists k', attrGet 1%positive (str "user") keys_kio = (Ret (str "me"), k')) /\
  (exists k', attrDelete 1%positive (str "user") keys_kio = (Ret tt, k')).
Proof.
  destruct (file_attributes 1%positive (example_file (str "a")) keys_kio (str "user") (str "you")) as ((k1 & E1 & _) & _ & (k2 & E2 & _));
    [reflexivity|discriminate|discriminate|].
  split; [exists k1|exists k2]; [rewrite E1|rewrite E2]; vm_compute; reflexivity.
Defined.

Lemma file_attribute_list_witness :
  exists names k', attrList 3 1%positive keys_kio = (Ret names, k') /\ str "mode" ∈ names.
Proof.
  destruct (file_attribute_list 3 1%positive (example_file (str "a")) keys_kio) as (names & result & k' & E & _ & _ & [_ Hl] & _ & Hin & _);
    [reflexivity|by vm_compute|apply keys_kio_fits|apply Nat.ltb_lt; vm_compute; reflexivity|].
  exists result, k'. split; [exact E|]. apply Hin, Hl. split; [|split; vm_compute; reflexivity].
  assert (attribute keys_kio (example_file (str "a")) (str "mode") = Some (str "rw")) as -> by (vm_compute; reflexivity). discriminate.
Defined.

Lemma file_open_witness :
  exists k', Open 1%positive SFS_O_CREAT keys_kio = (Throw (system_error file_exists), k').
Proof.
  destruct (file_open 1%positive (example_file (str "a")) SFS_O_CREAT keys_kio) as (o & k' & E & _ & _ & _ & Hm); [reflexivity|].
  exists k'. rewrite E. assert (creates SFS_O_CREAT = true) as Hc by reflexivity.
  assert (keyspace keys_kio (example_file (str "a")) !! metadata_key (example_file (str "a")) = Some (str "1", [])) as Hmd by (vm_compute; reflexivity).
  rewrite Hc, Hmd in Hm. by destruct Hm as [-> _].
Defined.

Lemma keys_kio_blocks key :
  keyspace keys_kio (example_file (str "a")) !! key <> None -> str_leb (block_key (example_file (str "a")) 0) key = true ->
  str_leb key (block_key (example_file (str "a")) greatest_searched) = true ->
  key = block_key (example_file (str "a")) 0 \/ key = block_key (example_file (str "a")) 2.
Proof.
  intros Hk Hlo Hhi. destruct (keyspace keys_kio (example_file (str "a")) !! key) as [v|] eqn:E; [clear Hk|done].
  assert (map_Forall (fun key _ => negb (str_leb (block_key (example_file (str "a")) 0) key && str_leb key (block_key (example_file (str "a")) greatest_searched)) ||
    bool_decide (key = block_key (example_file (str "a")) 0 \/ key = block_key (example_file (str "a")) 2) = true)
    (keyspace keys_kio (example_file (str "a")))) as Hall by (apply (bool_decide_unpack _); by vm_compute).
  apply Hall in E. rewrite Hlo, Hhi in E. by apply bool_decide_eq_true in E.
Qed.

(** A cluster none of whose drives answers. *)
Definition unreachable : ClusterInterface MapCluster.state unit := {|
  ci_id := fun _ _ => str "C1";
  ci_instanceId := fun _ _ => str "instance";
  ci_limits := fun _ s => (Ret MapCluster.limits_, s);
  ci_stats := fun _ s => (Ret MapCluster.no_stats, s);
  ci_get := fun _ _ s => (Ret (CLIENT_IO_ERROR, None), s);
  ci_get_version := fun _ _ s => (Ret (CLIENT_IO_ERROR, None), s);
  ci_put := fun _ _ _ _ s => (Ret (CLIENT_IO_ERROR, None), s);
  ci_put_any := fun _ _ _ s => (Ret (CLIENT_IO_ERROR, None), s);
  ci_remove := fun _ _ _ s => (Ret CLIENT_IO_ERROR, s);
  ci_remove_any := fun _ _ s => (Ret CLIENT_IO_ERROR, s);
  ci_flush := fun _ s => (Ret CLIENT_IO_ERROR, s);
  ci_range := fun _ _ _ _ s => (Ret (CLIENT_IO_ERROR, None), s);
  ci_now := fun s => (Ret (MapCluster.time s), MapCluster.tick s);
|}.

(** With a block that was written and cannot be flushed. *)
Lemma file_errors_witness :
  exists k2, perform (H:=unreachable) 2 (FileFlush 1%positive 1%positive) written_kio = (Ret tt, k2) /\
    exists k3, Write (H:=unreachable) 2 2 (fun l => l) 1%positive 0 (str "x") 1 k2 = (Throw (system_error io_error), k3).
Proof.
  destruct (file_errors (H:=unreachable) 2 2 (fun l => l) 1%positive
    (default (example_file []) (files written_kio !! 1%positive)) written_kio 0 (str "x") 1) as [_ Hbg]; [vm_compute; reflexivity|].
  destruct (blocks written_kio !! 1%positive) as [b|] eqn:Eb; [|by vm_compute in Eb].
  destruct (Hbg 1%positive b io_error (on_block 1%positive (DataBlock.flush (H:=unreachable) 2) written_kio).2) as (k2 & E & (k3 & E3 & _) & _).
  - reflexivity.
  - reflexivity.
  - exact Eb.
  - vm_compute in Eb. injection Eb as <-. reflexivity.
  - vm_compute. reflexivity.
  - exists k2. split; [exact E|]. exists k3. exact E3.
Defined.

(** ** What files do not guarantee *)

(** If the names of the attributes fill a reply, one of them is listed twice, and [Remove] fails. *)
Definition many_attributes : list bytes := map (fun n => makeAttributeKey (str "C1") (str "a") (pad0 3 (dec (Z.of_nat n)))) (seq 0 100).
Definition full_kio : KineticIo MapCluster.state unit :=
  set_world (MapCluster.mkState (foldr (fun key m => <[key := (1, [])]> m) ∅ many_attributes) (20 * ns_per_s)) (example_kio 100).

Lemma full_page_is_listed_twice :
  (exists names, fst (attrList 4 1%positive full_kio) = Ret names /\ length names = 101%nat) /\
  fst (Remove 2 4 1%positive full_kio) = Throw (system_error io_error).
Proof. split; [eexists; split|]; vm_compute; reflexivity. Qed.
