(* ===== verification/LastBlock.v ===== *)
(** * The last block of a file (src/FileIo.cc, get_eof_backend; src/KineticClusterOperation.cc, ClusterRangeOp)

    The search for the end of a file asks its cluster for the last key of a range, with the ends of the range exchanged.
    Here the search runs on the cluster itself, not on its interface: the requests go to the drives, each of
    which returns the last key it holds, and the cluster keeps the smallest of the answers. *)

From S2P Require Import Prelude CppString Utility Kinetic Simulator Callbacks ClusterOperation Isa Redundancy StripeOperation Cluster.
From S2P Require Import ClusterInterface ClusterDrives ClusterReads ClusterRefinement DataBlock PrefetchOracle.
From S2P Require Import BackgroundOperationHandler Double KineticIo DataCache FileIo FileKeys.
Import Cache BackgroundOperationHandler KineticIo FileIo.

Lemma key_sorted_last (l : list bytes) x : key_sorted l -> last l = Some x -> x ∈ l /\ forall y, y ∈ l -> str_leb y x = true.
Proof.
  intros Hs (l' & ->)%last_Some. split; [apply elem_of_app; right; by left|].
  apply StronglySorted_app in Hs as (Hcross & _). intros y [Hy|Hy]%elem_of_app; unfold str_leb; apply negb_true_iff.
  - specialize (Hcross y x Hy ltac:(by left)). cbn in Hcross. destruct (str_ltb x y) eqn:E; [|done].
    pose proof (str_ltb_trans _ _ _ Hcross E) as Hc. by rewrite str_ltb_irrefl in Hc.
  - apply list_elem_of_singleton in Hy as ->. apply str_ltb_irrefl.
Qed.

(** The keys of a list are those of numbered blocks of one file. *)
Section Numbered.
Context (cid path : bytes) (keys : list bytes).
Hypothesis sorted : key_sorted keys.
Hypothesis numbered : forall key, key ∈ keys -> exists b, 0 <= b <= greatest_searched /\ key = makeDataKey cid path b.

(** [b] is the greatest number in the list. *)
Definition greatest_in (b : Z) : Prop := 0 <= b <= greatest_searched /\ makeDataKey cid path b ∈ keys /\
  forall b', 0 <= b' <= greatest_searched -> makeDataKey cid path b' ∈ keys -> b' <= b.

Lemma last_greatest key : last keys = Some key -> exists b, key = makeDataKey cid path b /\ greatest_in b.
Proof using sorted numbered.
  intros E. destruct (key_sorted_last keys key sorted E) as [Hin Hmax]. destruct (numbered key Hin) as (b & Hb & ->).
  exists b. split; [done|]. split_and!; try lia; [done|]. intros b' Hb' Hin'%Hmax. unfold greatest_searched in *.
  rewrite data_key_leb in Hin' by (unfold INT_MAX; lia). lia.
Qed.

Lemma greatest_last b : greatest_in b -> last keys = Some (makeDataKey cid path b).
Proof using sorted numbered.
  intros (Hb & Hin & Hmax). destruct (last keys) as [key|] eqn:E.
  - destruct (last_greatest key E) as (b' & -> & Hb' & Hin' & Hmax').
    specialize (Hmax b' Hb' Hin'). specialize (Hmax' b Hb Hin). do 2 f_equal. lia.
  - apply last_None in E. rewrite E in Hin. by apply not_elem_of_nil in Hin.
Qed.
End Numbered.

Section Search.
Context `{RD : Drives D nconn} {SI : StatusInt} {SIL : StatusIntLaws} `{Checksum} `{IsaLaws k m}.
Variables capacity limit : Z.
Hypothesis geometry_ok : geometry k m nconn capacity limit.
Implicit Types (kio : KineticIo (KineticCluster D) unit) (s : gmap bytes (bytes * bytes)) (f : File.FileIo unit).

Abbreviation represents := (represents (k:=k) (m:=m) capacity limit).

(** The key of block [b] of a file in a cluster. *)
Definition block_of (c : KineticCluster D) f (b : Z) : bytes := makeDataKey (Cluster.id c) (File.path f) b.

(** Block [b] is stored; drive [i] holds a chunk of it and of no later block. *)
Definition stored_block (c : KineticCluster D) f s (b : Z) : Prop := 0 <= b <= greatest_searched /\ is_Some (s !! block_of c f b).
Definition last_on (c : KineticCluster D) f (i : nat) (b : Z) : Prop :=
  (0 <= b <= greatest_searched /\ is_Some (drive i (cl_env c) !! block_of c f b)) /\
  forall b', 0 <= b' <= greatest_searched -> is_Some (drive i (cl_env c) !! block_of c f b') -> b' <= b.

(** The keys between the first and the last block that is looked for are blocks of this file. *)
Definition only_blocks (c : KineticCluster D) f s : Prop :=
  forall key, key ∈ range_of (block_of c f 0) (block_of c f greatest_searched) s ->
    exists b, 0 <= b <= greatest_searched /\ key = block_of c f b /\ slen key < npos.

Lemma block_of_leb c f a b : 0 <= a <= INT_MAX -> 0 <= b <= INT_MAX -> str_leb (block_of c f a) (block_of c f b) = (a <=? b).
Proof. apply data_key_leb. Qed.

Lemma block_in_range c f s b : 0 <= b <= greatest_searched ->
  block_of c f b ∈ range_of (block_of c f 0) (block_of c f greatest_searched) s <-> is_Some (s !! block_of c f b).
Proof.
  intros Hb. rewrite elem_of_range. unfold greatest_searched in *. rewrite !block_of_leb by (unfold INT_MAX; lia). naive_solver lia.
Qed.

Lemma block_on_drive c f i b : 0 <= b <= greatest_searched ->
  block_of c f b ∈ drive_range (cl_env c) (block_of c f 0) (block_of c f greatest_searched) i <->
  is_Some (drive i (cl_env c) !! block_of c f b).
Proof.
  intros Hb. rewrite elem_of_drive_range. unfold greatest_searched in *. rewrite !block_of_leb by (unfold INT_MAX; lia). naive_solver lia.
Qed.

(** The last key of a drive is its last block. *)
Lemma drive_last c f s i : represents c s -> only_blocks c f s -> (i < nconn)%nat -> forall b,
  last (drive_range (cl_env c) (block_of c f 0) (block_of c f greatest_searched) i) = Some (block_of c f b) /\ 0 <= b <= greatest_searched <->
  last_on c f i b.
Proof.
  intros Hr Honly Hi b. set (keys := drive_range _ _ _ i).
  assert (key_sorted keys) as Hs by apply drive_range_sorted.
  assert (forall key, key ∈ keys -> exists b, 0 <= b <= greatest_searched /\ key = makeDataKey (Cluster.id c) (File.path f) b) as Hnum.
  { intros key Hkey. destruct (Honly key) as (b' & Hb' & -> & _); [|by exists b'].
    apply (range_on_drives capacity limit geometry_ok (cl_env c) s _ _ key (rep_keys _ _ _ _ Hr)). by exists i. }
  assert (greatest_in (Cluster.id c) (File.path f) keys b <-> last_on c f i b) as <-.
  { unfold greatest_in, last_on. fold (block_of c f b). split.
    - intros (Hb & Hin & Hmax). split; [by rewrite <- block_on_drive|]. intros b' Hb' Hin'. apply Hmax; [done|]. by apply block_on_drive.
    - intros ((Hb & Hin) & Hmax). split_and!; try lia; [by apply block_on_drive|]. intros b' Hb' Hin'. apply Hmax; [done|]. by apply block_on_drive. }
  split.
  - intros [E Hb]. destruct (last_greatest _ _ keys Hs Hnum _ E) as (b' & Eb & Hg). pose proof Hg as (Hb' & _).
    assert (b = b') as ->; [|done]. unfold greatest_searched in *.
    pose proof (block_of_leb c f b b' ltac:(unfold INT_MAX; lia) ltac:(unfold INT_MAX; lia)) as Hl1.
    pose proof (block_of_leb c f b' b ltac:(unfold INT_MAX; lia) ltac:(unfold INT_MAX; lia)) as Hl2.
    change (makeDataKey _ _ b') with (block_of c f b') in Eb. rewrite Eb in Hl1, Hl2. unfold str_leb in Hl1, Hl2. rewrite str_ltb_irrefl in Hl1, Hl2. cbn in *. lia.
  - intros Hg. split; [by apply greatest_last|apply Hg].
Qed.

(** When stripes are as wide as the cluster, every drive holds every key. *)
Lemma every_drive_holds c s i key : represents c s -> nconn = m -> (i < nconn)%nat -> is_Some (s !! key) -> is_Some (drive i (cl_env c) !! key).
Proof using geometry_ok.
  intros Hr Hwide Hi Hkey. destruct geometry_ok as (Hkm & _ & Hw & Hn & _).
  assert (i ∈ placed nconn key m) as (j & Hj)%list_elem_of_lookup.
  { assert (seq 0 nconn ⊆+ placed nconn key m) as Hsub.
    { assert (placed nconn key m ⊆+ seq 0 nconn) as Hp.
      { apply NoDup_submseteq; [apply ring_NoDup; lia|]. intros x Hx. apply elem_of_seq.
        pose proof (placed_connections nconn key ltac:(lia) m) as Hf. rewrite Forall_forall in Hf. specialize (Hf x Hx). lia. }
      apply submseteq_length_Permutation in Hp; [by rewrite Hp|]. rewrite length_seq, length_placed. lia. }
    eapply elem_of_submseteq; [|exact Hsub]. apply elem_of_seq. lia. }
  by apply (stored_version (cl_env c) s key j i (rep_keys _ _ _ _ Hr) Hj).
Qed.

(** What the search finds. *)
Lemma get_eof_backend_search restarts this f kio s : let c := world kio in
  represents c s -> files kio !! this = Some f -> only_blocks c f s ->
  exists o c', get_eof_backend (H:=kinetic_cluster restarts) this kio = (o, set_world c' kio) /\ represents c' s /\
    ((forall b, ~ stored_block c f s b) ->
      o = if s !! makeMetadataKey (Cluster.id c) (File.path f) then Ret 0 else Throw (system_error no_such_file_or_directory)) /\
    ((exists b, stored_block c f s b) ->
      exists b, o = Ret b /\ stored_block c f s b /\ (exists i, (i < nconn)%nat /\ last_on c f i b) /\
        forall i b', (i < nconn)%nat -> last_on c f i b' -> b <= b').
Proof.
  intros c Hr Hf Honly. set (hi := block_of c f greatest_searched). set (lo := block_of c f 0).
  assert (str_leb hi lo = false) as Hback by (unfold hi, lo; by rewrite block_of_leb by (unfold greatest_searched, INT_MAX; lia)).
  destruct (do_range_last capacity limit geometry_ok c s hi lo Hr Hback) as (keys & c1 & E & Hr1 & (_ & Hlen & Hsub & Hne) & Hlast).
  destruct keys as [|key keys].
  - destruct (do_get_store capacity limit geometry_ok c1 s (makeMetadataKey (Cluster.id c) (File.path f)) true restarts Hr1) as (c2 & E2 & Hr2).
    set (r := read_of s _ true) in E2.
    assert (ci_get_version (ClusterInterface:=kinetic_cluster restarts) (File.cluster f) (makeMetadataKey (Cluster.id c) (File.path f)) c1 =
      (Ret (r.1, fst <$> r.2), c2)) as Ev by (cbn [ci_get_version kinetic_cluster]; rewrite (bind_ret _ _ _ _ _ E2); by destruct r).
    eexists _, c2. split; [|split; [done|split]].
    + by eapply (get_eof_backend_no_block (H:=kinetic_cluster restarts)); [done|exact E|exact Ev].
    + intros _. unfold r. unfold read_of. by destruct (s !! _) as [[]|].
    + intros (b & Hb & Hst%(block_in_range c f s b Hb)). destruct (range_of lo hi s) eqn:Er.
      * unfold lo, hi in Er. rewrite Er in Hst. by apply not_elem_of_nil in Hst.
      * by destruct (Hne ltac:(done) ltac:(lia)).
  - destruct keys as [|]; [|cbn in Hlen; lia]. destruct (Hlast key eq_refl) as [(i & Hi & Hlasti) Hmin].
    destruct (Honly key) as (b & Hb & -> & Hfit); [apply Hsub; by left|].
    assert (stored_block c f s b) as Hst by (split; [done|]; apply (block_in_range c f s b Hb), Hsub; by left).
    exists (Ret b), c1. split; [|split; [done|split]].
    + eapply (get_eof_backend_block (H:=kinetic_cluster restarts)); [done|unfold greatest_searched, INT_MAX in *; lia|exact Hfit|exact E].
    + intros Hno. by destruct (Hno b).
    + intros _. exists b. split_and!; [done..| |].
      * exists i. split; [done|]. by apply (drive_last c f s i Hr Honly Hi).
      * intros j b' Hj Hl. pose proof Hl as [[Hb' _] _]. apply (drive_last c f s j Hr Honly Hj) in Hl as [El _].
        specialize (Hmin j _ Hj El). unfold greatest_searched in *. rewrite block_of_leb in Hmin by (unfold INT_MAX; lia). lia.
Qed.

(** C20: The last block of a file, as the cluster finds it.  The file lives in a cluster whose working drives hold the
    map [s], and between its first and last possible block there are no keys but its own blocks.  If no
    block is stored, [get_eof_backend] returns 0 for an existing file and fails with
    [no_such_file_or_directory] for one that was removed.  Otherwise it returns the number of a stored
    block: the smallest among the last blocks of the drives.  This is the last block of the file if every
    stripe has a chunk on every drive; with more drives than chunks it may be an earlier one. *)
Theorem file_last_block restarts this f kio s : let c := world kio in
  represents c s -> files kio !! this = Some f -> only_blocks c f s ->
  exists o c', get_eof_backend (H:=kinetic_cluster restarts) this kio = (o, set_world c' kio) /\ represents c' s /\
    ((forall b, ~ stored_block c f s b) ->
      o = if s !! makeMetadataKey (Cluster.id c) (File.path f) then Ret 0 else Throw (system_error no_such_file_or_directory)) /\
    ((exists b, stored_block c f s b) ->
      exists b, o = Ret b /\ stored_block c f s b /\ (exists i, (i < nconn)%nat /\ last_on c f i b) /\
        (forall i b', (i < nconn)%nat -> last_on c f i b' -> b <= b') /\
        (nconn = m -> forall b', stored_block c f s b' -> b' <= b)).
Proof using SIL geometry_ok.
  intros c Hr Hf Honly. destruct (get_eof_backend_search restarts this f kio s Hr Hf Honly) as (o & c' & E & Hr' & Hnone & Hsome).
  exists o, c'. split_and!; [done..|]. intros Hex. destruct (Hsome Hex) as (b & Ho & Hst & (i & Hi & Hl) & Hmin).
  exists b. split_and!; [done..|by exists i|done|]. intros Hwide b' [Hb' Hs']. apply Hl; [done|]. by eapply every_drive_holds.
Qed.
End Search.

Module LastBlock_example.
Import Simulator.

(** A library on a cluster of simulated drives, with a file that is open. *)
Definition library (c : KineticCluster sim) : KineticIo (KineticCluster sim) unit :=
  mkKio (DataCache.new_cache 100) (mkHandler [] 4 1 1 false) [] 0 ∅ {[1%positive := example_file (str "a")]} [] c.

(** A cluster of [n] drives with stripes of two data chunks and one parity chunk, after writes to some keys. *)
Definition cluster_of (n : nat) : KineticCluster sim :=
  mkCluster (str "C1") (str "instance") 4 10 n Example_.provider (Some (mkClusterLimits 4096 2048 8 100)) 0 Example_.memory (fresh n).

Definition after (n : nat) (keys : list bytes) : KineticCluster sim :=
  (mapM (fun key => run_call (H:=@kinetic_cluster _ sim_env sim_status_int Example_.crc IsaSim.isa 1) tt (CPutAny key (str "abcdef")))
    keys (cluster_of n)).2.

Definition search (c : KineticCluster sim) : outcome Z :=
  (get_eof_backend (H:=@kinetic_cluster _ sim_env sim_status_int Example_.crc IsaSim.isa 1) 1%positive (library c)).1.

Definition blocks_to (n : nat) : list bytes := (fun b => makeDataKey (str "C1") (str "a") (Z.of_nat b)) <$> seq 0 n.
End LastBlock_example.

(** With stripes as wide as the cluster; the only key of the cluster is block 5 of the file. *)
Lemma file_last_block_witness :
  LastBlock_example.search (LastBlock_example.after 3 [makeDataKey (str "C1") (str "a") 5]) = Ret 5.
Proof.
  assert (geometry 2 3 3 4 100) as Hg by (unfold geometry, INT_MAX; split_and!; lia). set (key := makeDataKey (str "C1") (str "a") 5).
  destruct (@call_refines _ 3 _ (Refinement_example.sim_answering 3) Simulator.sim_status_int Simulator.sim_status_int_laws Example_.crc
    IsaSim.isa 2 3 IsaSim.isa_laws 4 100 (LastBlock_example.cluster_of 3) ∅ (CPutAny key (str "abcdef")) 1 Hg) as (v & c & E & Hr).
  - apply empty_represents; try done.
    + split; [done|]. intros [|[|[|i]]] Hi; (reflexivity || lia).
    + by eexists.
    + intros [|[|[|i]]] Hi; (done || lia).
  - by vm_compute.
  - assert (Cluster.id (LastBlock_example.after 3 [key]) = str "C1") as Hid by (vm_compute; reflexivity).
    assert (LastBlock_example.after 3 [key] = c) as Ec by (unfold LastBlock_example.after; cbn [mapM]; by rewrite (bind_ret _ _ _ _ _ E)).
    rewrite Ec in *. clear E Ec. cbn [store_call snd] in Hr. set (s := <[key := _]> ∅) in Hr.
    assert (forall b, 0 <= b <= greatest_searched -> is_Some (s !! block_of c (example_file (str "a")) b) -> b = 5) as Honly.
    { intros b Hb Hs. unfold s, block_of in Hs. rewrite Hid in Hs. cbn [File.path example_file] in Hs.
      destruct (decide (makeDataKey (str "C1") (str "a") b = key)) as [Ek|]; [|by rewrite lookup_insert_ne in Hs; destruct Hs].
      pose proof (data_key_leb (str "C1") (str "a") b 5) as H1. pose proof (data_key_leb (str "C1") (str "a") 5 b) as H2. fold key in H1, H2.
      rewrite Ek in H1, H2. unfold str_leb in H1, H2. rewrite str_ltb_irrefl in H1, H2. unfold greatest_searched, INT_MAX in *. cbn in H1, H2. lia. }
    destruct (@file_last_block _ 3 _ (Refinement_example.sim_answering 3) Simulator.sim_status_int Simulator.sim_status_int_laws Example_.crc
      IsaSim.isa 2 3 4 100 Hg 1 1%positive (example_file (str "a")) (LastBlock_example.library c) s Hr eq_refl) as (o & c' & Eo & _ & _ & Hsome).
    + intros key' (Hs & _)%elem_of_range. unfold s in Hs.
      destruct (decide (key' = key)) as [->|]; [|by rewrite lookup_insert_ne in Hs; destruct Hs].
      exists 5. unfold block_of. cbn [world LastBlock_example.library]. rewrite Hid. split_and!; [by vm_compute..|done|by vm_compute].
    + destruct Hsome as (b & -> & [Hb Hst] & _).
      { exists 5. split; [by vm_compute|]. unfold block_of. cbn [world LastBlock_example.library]. rewrite Hid. eexists. apply lookup_insert_eq. }
      unfold LastBlock_example.search. rewrite Eo. cbn. f_equal. by apply Honly.
Defined.

(** With four drives and stripes of three chunks the search misses the last block: the file has blocks 0 and 1, both are read, and
    the search returns 0. *)
Lemma last_block_missed :
  let c := LastBlock_example.after 4 (LastBlock_example.blocks_to 2) in
  LastBlock_example.search c = Ret 0 /\
  exists v, (do_get (H:=Simulator.sim_env) (H0:=Simulator.sim_status_int) (H1:=Example_.crc) (H2:=IsaSim.isa) 0
    (Some (makeDataKey (str "C1") (str "a") 1)) false c).1 = Ret (OK, Some (Some v, Some (str "abcdef"))).
Proof. split; [|eexists]; vm_compute; reflexivity. Qed.
