(* ===== verification/FileRead.v ===== *)
(** * Reading files back (src/FileIo.cc)

    What was written to a file and is still remembered by its blocks is what a read returns, whatever the
    cluster holds by then: the blocks are verified, merged with the values of other clients where these are
    newer, and the end of the file is looked up on the way. *)

From Stdlib Require Import SpecFloat.
From S2P Require Import Prelude CppString Utility Kinetic Cluster ClusterInterface DataBlock PrefetchOracle.
From S2P Require Import BackgroundOperationHandler Double KineticIo DataCache FileIo FileSpec FileKeys.
Import Cache BackgroundOperationHandler KineticIo FileIo.

#[local] Arguments u64 : simpl never.

Section Laws.
Context `{ClusterStore W Cl}.
Implicit Types (k : KineticIo W Cl) (b : DataBlock.DataBlock Cl) (f : File.FileIo Cl) (this : file_ptr) (it : block_ptr).

Section BlockSize.
Variable n : Z.
Hypothesis (Hsize : forall cl, max_value_size (store_limits cl) = n) (Hpos : 0 < n < 2 ^ 64).

Abbreviation ready := (FileSpec.ready n).
Abbreviation room := (FileSpec.room n).

(** The values on the clusters fit the blocks. *)
Definition values_fit k : Prop := forall cl key v r, store cl (world k) !! key = Some (v, r) -> slen r <= n.

(** The library still is as it was for a reader: it remembers the same bytes, the clusters hold the same keys, and of the
    files only this one has changed, in what does not matter for its content; its end has not moved forward. *)
Record still k f this k' f' : Prop := {
  st_ready : ready k';
  st_store : forall cl, store cl (world k') = store cl (world k);
  st_files : files k' = <[this := f']> (files k);
  st_file : same_file f f';
  st_eof : File.eof_blocknumber f <= File.eof_blocknumber f';
  st_remembered : forall name i, remembered k' name i = remembered k name i;
  st_blocks : forall it b, it ∈ cached k -> blocks k !! it = Some b -> DataBlock.updates b <> [] ->
    it ∈ cached k' /\ exists b', blocks k' !! it = Some b' /\ keeps_remembered b b';
}.

Lemma keeps_refl b : keeps_remembered b b.
Proof. reflexivity. Qed.

Lemma still_refl k f this : ready k -> files k !! this = Some f -> still k f this k f.
Proof. intros Hr Hf. split; try done; [by rewrite insert_id|eauto using keeps_refl]. Qed.

Lemma still_trans k1 f1 this k2 f2 k3 f3 : still k1 f1 this k2 f2 -> still k2 f2 this k3 f3 -> still k1 f1 this k3 f3.
Proof.
  intros [H1 H2 H3 H4 H5 H6 H7] [H1' H2' H3' H4' H5' H6' H7']. split; try done.
  - intros cl. by rewrite H2'.
  - by rewrite H3', H3, insert_insert_eq.
  - by eapply same_file_trans.
  - lia.
  - intros name i. by rewrite H6'.
  - intros it b Hin Hb Hu. destruct (H7 it b Hin Hb Hu) as (Hin2 & b2 & Hb2 & Hk2).
    destruct (H7' it b2 Hin2 Hb2) as (Hin3 & b3 & Hb3 & Hk3); [by destruct Hk2 as (_ & _ & -> & _)|].
    split; [done|]. exists b3. split; [done|]. by etrans.
Qed.

Lemma still_lookup k f this k' f' : still k f this k' f' -> files k' !! this = Some f'.
Proof. intros []. rewrite st_files0. by rewrite lookup_insert_eq. Qed.

(** *** Steps that keep what is remembered *)

Lemma lookup_still restarts k this f m mode r :
  ready k -> room (r + 1) k -> 0 <= r -> files k !! this = Some f ->
  exists it b k', DataCache.getDataKey restarts this m mode k = (Ret it, k') /\ still k f this k' f /\ room r k' /\
    it ∈ cached k' /\ blocks k' !! it = Some b /\ identity b = file_name f m.
Proof.
  intros Hre Hro Hr Hf. destruct (lookup_ready n Hsize Hpos restarts k this f m mode r Hre Hro Hr Hf)
    as (it & b & k' & E & Hre' & Hro' & Hf' & Hst & Hin & Hb & Hid & Hrem & Hkept).
  exists it, b, k'. split_and!; try done. split; try done; [by rewrite Hf', insert_id|].
  intros x bx Hx Hbx Hu. destruct (Hkept x bx Hx Hbx Hu). eauto using keeps_refl.
Qed.

(** Only what the system knows has changed, or the members of the file that do not matter. *)
Lemma still_world k f this w' : ready k -> files k !! this = Some f -> (forall cl, store cl w' = store cl (world k)) ->
  still k f this (set_world w' k) f.
Proof. intros Hre Hf Hst. split; try done; [by apply (ready_same n k)|by rewrite insert_id|eauto using keeps_refl]. Qed.

Lemma still_file k f f' this : ready k -> files k !! this = Some f -> same_file f f' ->
  File.eof_blocknumber f <= File.eof_blocknumber f' -> still k f this (set_files (<[this := f']>) k) f'.
Proof. intros Hre Hf Hs He. split; try done; [by apply (ready_same n k)|eauto using keeps_refl]. Qed.

Lemma set_file_still k f this g : ready k -> files k !! this = Some f -> same_file f (g f) ->
  File.eof_blocknumber f <= File.eof_blocknumber (g f) ->
  set_file this g k = (Ret tt, set_files (alter g this) k) /\ still k f this (set_files (alter g this) k) (g f).
Proof.
  intros Hre Hf Hs He. split; [done|]. split; try done; [by apply (ready_same n k)| |eauto using keeps_refl]. cbn. apply map_eq. intros x.
  destruct (decide (x = this)) as [->|Hne]; [by rewrite lookup_alter_eq, Hf, lookup_insert_eq|by rewrite lookup_alter_ne, lookup_insert_ne].
Qed.

Lemma still_locals k f this g : ready k -> files k !! this = Some f -> still k f this (set_locals g k) f.
Proof. intros Hre Hf. split; try done; [by apply (ready_same n k)|by rewrite insert_id|eauto using keeps_refl]. Qed.

(** A block that keeps what it remembers. *)
Lemma still_block k f this it b b' w' : ready k -> files k !! this = Some f -> it ∈ cached k -> blocks k !! it = Some b ->
  block_fine n b' -> keeps_remembered b b' -> (forall cl, store cl w' = store cl (world k)) ->
  still k f this (set_world w' (set_blocks (insert it b') k)) f.
Proof.
  intros Hre Hf Hin Hb Hfine (Hkc & Hkk & Hku & Hks) Hst. pose proof Hre as [Hok Hbl Hq Hw]. set (k' := set_world _ _).
  assert (cache_ok k') as Hok' by by apply (cache_ok_block k it b).
  split; try done; [split; try done|by rewrite insert_id| |].
  - intros p bp Hp. change (blocks k') with (<[it := b']> (blocks k)) in Hp. apply lookup_insert_Some in Hp as [[_ <-]|[_ Hp]]; [done|by apply (Hbl p)].
  - intros name i. unfold remembered. change (dataCache k') with (dataCache k). change (blocks k') with (<[it := b']> (blocks k)).
    destruct (lookup (dataCache k) !! name) as [x|]; simpl; [|done]. destruct (decide (x = it)) as [->|Hne].
    + rewrite lookup_insert_eq, Hb. simpl. rewrite Hku. destruct (covered (DataBlock.updates b) i) eqn:Ec; [by apply Hks|done].
    + by rewrite lookup_insert_ne.
  - intros x bx Hx Hbx _. split; [done|]. change (blocks k') with (<[it := b']> (blocks k)). destruct (decide (x = it)) as [->|Hne].
    + rewrite lookup_insert_eq. exists b'. split; [done|]. assert (bx = b) as -> by congruence. by split_and!.
    + rewrite lookup_insert_ne by done. eauto using keeps_refl.
Qed.

Lemma room_block r k it b b' w' : room r k -> blocks k !! it = Some b -> DataBlock.cluster b' = DataBlock.cluster b ->
  room r (set_world w' (set_blocks (insert it b') k)).
Proof.
  intros [H1' H2' H3'] Hb Hc. set (k' := set_world _ _).
  assert (forall l, total (blocks k') l = total (blocks k) l) as Ht.
  { intros l. apply total_ext. intros x _. unfold block_cap. change (blocks k') with (<[it := b']> (blocks k)).
    destruct (decide (x = it)) as [->|Hne]; [|by rewrite lookup_insert_ne]. rewrite lookup_insert_eq, Hb. unfold cap. by rewrite Hc. }
  split; [done| |done]. by rewrite !Ht.
Qed.

(** *** Verifying the end of the file *)

(** The search for the end of the file finds it: the file is there, and nothing but blocks lies between its blocks. *)
Definition end_known k f : Prop :=
  is_Some (keyspace k f !! metadata_key f) /\
  forall key, keyspace k f !! key <> None -> str_leb (block_key f 0) key = true -> str_leb key (block_key f greatest_searched) = true ->
    exists m, 0 <= m <= greatest_searched /\ key = block_key f m /\ slen key < npos.

Lemma end_known_same k f k' f' : (forall cl, store cl (world k') = store cl (world k)) -> same_file f f' -> end_known k f -> end_known k' f'.
Proof.
  intros Hst (Hc & Hp & _) [Hm Hk].
  assert (keyspace k' f' = keyspace k f) as Ek by (unfold keyspace; by rewrite Hc, Hst).
  assert (metadata_key f' = metadata_key f) as Em by (unfold metadata_key; by rewrite Hc, Hp).
  assert (forall m, block_key f' m = block_key f m) as Eb by (intros m; unfold block_key; by rewrite Hc, Hp).
  split; [by rewrite Ek, Em|]. intros key. rewrite Ek, !Eb. intros H1' H2' H3'. destruct (Hk key H1' H2' H3') as (m & ? & ? & ?).
  exists m. by rewrite Eb.
Qed.

Lemma end_known_still k f this k' f' : still k f this k' f' -> end_known k f -> end_known k' f'.
Proof. intros []. by apply end_known_same. Qed.

Lemma values_fit_still k f this k' f' : still k f this k' f' -> values_fit k -> values_fit k'.
Proof. intros [_ Hst _ _ _ _ _] Hv cl key v r. rewrite Hst. by apply Hv. Qed.

(** A byte is remembered by the block at an address. *)
Lemma remembered_block k it b name i c : ready k -> it ∈ cached k -> blocks k !! it = Some b -> identity b = name ->
  remembered k name i = Some c -> covered (DataBlock.updates b) i = true /\ served b !! i = Some c.
Proof.
  intros Hre Hin Hb Hid. rewrite (remembered_at k it b name i (re_ok n k Hre) Hin Hb Hid). by destruct (covered _ _).
Qed.

Lemma eof_backend_still k f this : ready k -> files k !! this = Some f -> end_known k f ->
  exists e k', get_eof_backend this k = (Ret e, k') /\ still k f this k' f /\ (forall r, room r k -> room r k').
Proof.
  intros Hre Hf [Hm Hk]. destruct (get_eof_backend_run this f k Hf Hk) as (o & k' & E & [w' ->] & Hst & Hblock & Hnone).
  assert (exists e, o = Ret e) as [e ->].
  { destruct (decide (Exists (fun key => str_leb (block_key f 0) key && str_leb key (block_key f greatest_searched) = true) (keys_of (keyspace k f))))
      as [(key & Hkey & [Hlo Hhi]%andb_true_iff)%Exists_exists|Hno].
    - apply elem_of_keys in Hkey as [v Hv]. destruct (Hk key) as (m & Hm' & -> & _); [by rewrite Hv|done|done|].
      destruct Hblock as (e & _ & _ & ->); [exists m; split; [done|by exists v]|by exists e].
    - rewrite Hnone; [unfold metadata_key in Hm; destruct Hm as [v ->]; by exists 0|]. intros m Hm' Hb. apply Hno, Exists_exists. exists (block_key f m).
      split; [by apply elem_of_keys|]. unfold greatest_searched in *. rewrite !block_key_leb by (unfold INT_MAX; lia). lia. }
  exists e, (set_world w' k). split; [done|]. split; [by apply still_world|].
  intros r Hr. by apply (room_same n r k).
Qed.

(** [verify_eof] while the last block has changes: the end is not moved back. *)
Lemma verify_eof_still restarts this k f r i c :
  ready k -> room (r + 1) k -> 0 <= r -> files k !! this = Some f -> end_known k f ->
  remembered k (file_name f (File.eof_blocknumber f)) i = Some c ->
  exists k' f', verify_eof restarts this k = (Ret tt, k') /\ still k f this k' f' /\ room r k'.
Proof.
  intros Hre Hro Hr Hf Hend Hrem. unfold verify_eof, now.
  assert (forall k1 f1, still k f this k1 f1 -> room (r + 1) k1 -> still k f this k1 f1 /\ room (r + 1) k1 /\ ready k1 /\ files k1 !! this = Some f1) as Hnext.
  { intros k1 f1 Hs Hr1. split_and!; [done..|by apply Hs|by eapply still_lookup]. }
  assert (forall k1 f1, ready k1 -> files k1 !! this = Some f1 -> room (r + 1) k1 -> exists t k2, on_world (ci_now (Cl:=Cl)) k1 = (Ret t, k2) /\
    still k1 f1 this k2 f1 /\ room (r + 1) k2) as Hnow.
  { intros k1 f1 Hre1 Hf1 Hro1. destruct (now_store (Cl:=Cl) (world k1)) as (w' & Ew & _ & Hst). eexists _, (set_world w' k1).
    split; [by apply on_world_ret|]. split; [by apply still_world|by apply (room_same n _ k1)]. }
  destruct (Hnow k f Hre Hf Hro) as (t & k1 & E1 & Hs1 & Hro1). rewrite (bind_ret _ _ _ _ _ E1). pose proof (still_lookup _ _ _ _ _ Hs1) as Hf1.
  rewrite (bind_ret _ _ _ _ _ (the_file_run this k1 f Hf1)).
  destruct (DataBlock.expiration_time <? to_millis (t - File.eof_verification_time f)); cbn [when];
    [|exists k1, f; split_and!; [done..|by apply (room_le n Hpos (r + 1)); [lia|]]].
  destruct (Hnow k1 f (st_ready _ _ _ _ _ Hs1) Hf1 Hro1) as (t2 & k2 & E2 & Hs2 & Hro2). rewrite (bind_ret _ _ _ _ _ E2).
  pose proof (still_lookup _ _ _ _ _ Hs2) as Hf2. pose proof (st_ready _ _ _ _ _ Hs2) as Hre2.
  destruct (set_file_still k2 f this (set_verified t2) Hre2 Hf2) as [E3 Hs3]; [done|done|]. rewrite (bind_ret _ _ _ _ _ E3).
  set (k3 := set_files _ k2) in *. set (f3 := set_verified t2 f) in *. pose proof (still_lookup _ _ _ _ _ Hs3) as Hf3.
  pose proof (still_trans _ _ _ _ _ _ _ (still_trans _ _ _ _ _ _ _ Hs1 Hs2) Hs3) as Hs03.
  destruct (eof_backend_still k3 f3 this (st_ready _ _ _ _ _ Hs3) Hf3 (end_known_still _ _ _ _ _ Hs03 Hend)) as (e & k4 & E4 & Hs4 & Hro4).
  rewrite (bind_ret _ _ _ _ _ E4). pose proof (still_trans _ _ _ _ _ _ _ Hs03 Hs4) as Hs04. pose proof (still_lookup _ _ _ _ _ Hs4) as Hf4.
  pose proof (st_ready _ _ _ _ _ Hs4) as Hre4. assert (room (r + 1) k4) as Hro5 by (apply Hro4; by apply (room_same n _ k2)).
  rewrite (bind_ret _ _ _ _ _ (the_file_run this k4 f3 Hf4)). change (File.eof_blocknumber f3) with (File.eof_blocknumber f).
  destruct (Z.leb_spec (File.eof_blocknumber f) e) as [Hle|Hgt].
  { destruct (set_file_still k4 f3 this (set_eof e) Hre4 Hf4) as [E5 Hs5]; [done|exact Hle|].
    eexists _, _. split; [exact E5|]. split; [by eapply still_trans|]. apply (room_le n Hpos (r + 1)); [lia|]. by apply (room_same n _ k4). }
  destruct (lookup_still restarts k4 this f3 (File.eof_blocknumber f) DataBlock.STANDARD r Hre4 Hro5 Hr Hf4)
    as (it & b & k5 & E5 & Hs5 & Hro6 & Hin & Hb & Hid). rewrite (bind_ret _ _ _ _ _ E5).
  pose proof (still_trans _ _ _ _ _ _ _ Hs04 Hs5) as Hs05.
  destruct (remembered_block k5 it b (file_name f (File.eof_blocknumber f)) i c) as [Hcov _]; [by apply Hs5|done|done|done|by rewrite (st_remembered _ _ _ _ _ Hs05)|].
  assert (DataBlock.dirty b = true) as Hd.
  { unfold DataBlock.dirty. rewrite bool_decide_eq_false_2; [done|]. intros E. by rewrite E in Hcov. }
  exists k5, f3. split; [|by split]. unfold with_local, is_dirty. mstep. change (blocks (set_locals (cons it) k5)) with (blocks k5). rewrite Hb.
  cbn [deref]. mstep. rewrite Hd. cbn [negb when]. unfold mret, M_ret. by destruct k5.
Qed.

(** *** Reading *)

(** The bytes of [data] are what the file remembers from position [off]. *)
Definition recalls k f off (data : bytes) : Prop :=
  forall j c, data !! j = Some c -> remembered k (file_name f ((off + Z.of_nat j) / n)) (Z.to_nat ((off + Z.of_nat j) mod n)) = Some c.

Lemma recalls_still k f this k' f' off data : still k f this k' f' -> recalls k f off data -> recalls k' f' off data.
Proof. intros Hs Hr j c Hj. rewrite (same_file_name f f' _ (st_file _ _ _ _ _ Hs)), (st_remembered _ _ _ _ _ Hs). by apply Hr. Qed.

(** The piece of [data] that lies in the block of position [off + from]. *)
Lemma recalls_block k f off (data : bytes) it b from len : ready k -> it ∈ cached k -> blocks k !! it = Some b ->
  let p := off + from in identity b = file_name f (p / n) -> recalls k f off data -> 0 <= off -> 0 <= from ->
  0 <= len -> p mod n + len <= n -> from + len <= slen data ->
  (forall i, p mod n <= Z.of_nat i < p mod n + len -> covered (DataBlock.updates b) i = true) /\
  take (Z.to_nat len) (drop (Z.to_nat (p mod n)) (served b)) = take (Z.to_nat len) (drop (Z.to_nat from) data).
Proof.
  intros Hre Hin Hb p Hid Hrec Hoff Hfrom Hlen Hfit Hdata. pose proof (Z.mod_pos_bound p n ltac:(lia)) as Hm.
  assert (forall i, (i < Z.to_nat len)%nat -> exists c, data !! (Z.to_nat from + i)%nat = Some c /\
    covered (DataBlock.updates b) (Z.to_nat (p mod n) + i) = true /\ served b !! (Z.to_nat (p mod n) + i)%nat = Some c) as Hbytes.
  { intros i Hi. destruct (lookup_lt_is_Some_2 data (Z.to_nat from + i)) as [c Hc]; [unfold slen in *; lia|]. exists c. split; [done|].
    apply (remembered_block k it b (file_name f (p / n))); [done..|]. pose proof (Hrec _ c Hc) as Hr.
    replace (off + Z.of_nat (Z.to_nat from + i)) with (p + Z.of_nat i) in Hr by lia.
    destruct (proj1 (position_in n (p / n) (p mod n + Z.of_nat i) (p + Z.of_nat i) ltac:(lia) ltac:(lia))) as [Ed Em].
    { pose proof (Z.div_mod p n ltac:(lia)). lia. }
    rewrite Ed, Em in Hr. by replace (Z.to_nat (p mod n) + i)%nat with (Z.to_nat (p mod n + Z.of_nat i)) by lia. }
  split.
  - intros i Hi. destruct (Hbytes (i - Z.to_nat (p mod n))%nat) as (c & _ & Hc & _); [lia|].
    by replace (Z.to_nat (p mod n) + (i - Z.to_nat (p mod n)))%nat with i in Hc by lia.
  - apply list_eq. intros i. destruct (decide (i < Z.to_nat len)%nat) as [Hi|Hi].
    + destruct (Hbytes i Hi) as (c & Hd & _ & Hs). rewrite !lookup_take_lt, !lookup_drop by lia. by rewrite Hd, Hs.
    + by rewrite !lookup_take_ge by lia.
Qed.

(** The caller's buffer after a piece was read into it. *)
Lemma filled_buffer (data buffer : bytes) (from len : nat) : (from + len <= length data)%nat -> length buffer = length data ->
  take from buffer = take from data ->
  let buffer' := take from buffer ++ take len (drop from data) ++ drop len (drop from buffer) in
  length buffer' = length data /\ take (from + len) buffer' = take (from + len) data.
Proof.
  intros Hlen Hbuf Hpre buffer'. subst buffer'. rewrite Hpre. split.
  - rewrite !length_app, !length_take, !length_drop. lia.
  - rewrite app_assoc.
    assert (take from data ++ take len (drop from data) = take (from + len) data) as -> by (by rewrite take_take_drop).
    rewrite take_app_le by (rewrite length_take; lia). by rewrite take_take, Nat.min_id.
Qed.

Lemma still_room_local k f this g r : ready k -> files k !! this = Some f -> room r k ->
  still k f this (set_locals g k) f /\ room r (set_locals g k).
Proof. intros Hre Hf Hro. split; [by apply still_locals|by apply (room_same n r k)]. Qed.

(** What is read past the last block known: everything, if it is there, or the block once more. *)
Lemma read_last_still restarts this k f it b m o len r c :
  ready k -> room (r + 1) k -> 0 <= r -> files k !! this = Some f -> end_known k f -> values_fit k ->
  it ∈ cached k -> blocks k !! it = Some b -> identity b = file_name f m -> m = File.eof_blocknumber f ->
  0 <= o -> 0 < len -> o + len <= n -> remembered k (file_name f m) (Z.to_nat (o + len - 1)) = Some c ->
  exists k' f', still k f this k' f' /\ room r k' /\
    ((read_last restarts this it m o len len k = (Ret Again, k') /\ m < File.eof_blocknumber f') \/
     read_last restarts this it m o len len k = (Ret (Done 0), k')).
Proof.
  intros Hre Hro Hr Hf Hend Hfit Hin Hb Hid Hm Ho Hl Hn Hrem. unfold read_last.
  destruct (remembered_block k it b _ _ c Hre Hin Hb Hid Hrem) as [Hcov _].
  rewrite Hm in Hrem. destruct (verify_eof_still restarts this k f r _ c Hre Hro Hr Hf Hend Hrem) as (k1 & f1 & E1 & Hs1 & Hro1).
  rewrite (bind_ret _ _ _ _ _ E1), (bind_ret _ _ _ _ _ (the_file_run this k1 f1 (still_lookup _ _ _ _ _ Hs1))).
  destruct (Z.ltb_spec m (File.eof_blocknumber f1)) as [Hlt|Hge]; [exists k1, f1; split_and!; auto|].
  assert (forall b0 i, covered (DataBlock.updates b0) i = true -> DataBlock.updates b0 <> []) as Hne by (intros b0 j Hc E; by rewrite E in Hc).
  assert (forall kx fx bx, still k f this kx fx -> room r kx -> it ∈ cached kx -> blocks kx !! it = Some bx -> keeps_remembered b bx ->
    exists by_ w', on_block it DataBlock.size kx = (Ret (DataBlock.value_size by_), set_world w' (set_blocks (insert it by_) kx)) /\
      still k f this (set_world w' (set_blocks (insert it by_) kx)) fx /\ room r (set_world w' (set_blocks (insert it by_) kx)) /\
      keeps_remembered b by_ /\ o + len <= DataBlock.value_size by_) as Hsz.
  { intros kx fx bx Hsx Hrox Hinx Hbx Hkx. pose proof (st_ready _ _ _ _ _ Hsx) as Hrex. pose proof (re_blocks n kx Hrex it bx Hbx) as Hfx.
    rewrite <- (cap_size n Hsize bx) in Hfx.
    destruct (size_remembered bx (world kx) (Z.to_nat (o + len - 1)) Hfx) as (b2 & w' & E & Hst & Hf2 & Hk2 & Hsize2).
    - intros v rr. rewrite (cap_size n Hsize), (st_store _ _ _ _ _ Hsx). apply Hfit.
    - by destruct Hkx as (_ & _ & -> & _).
    - exists b2, w'. rewrite (cap_size n Hsize) in Hf2. split; [by apply on_block_ret with (b := bx)|]. split.
      + eapply still_trans; [exact Hsx|]. by apply (still_block kx fx this it bx); [|eapply still_lookup|..].
      + split_and!; [by apply (room_block r kx it bx); [..|apply Hk2]|by etrans|lia]. }
  destruct (st_blocks _ _ _ _ _ Hs1 it b Hin Hb (Hne b _ Hcov)) as (Hin1 & b1 & Hb1 & Hk1).
  destruct (Hsz k1 f1 b1 Hs1 Hro1 Hin1 Hb1 Hk1) as (b2 & w2 & E2 & Hs2 & Hro2 & Hk2 & Hv2). rewrite (bind_ret _ _ _ _ _ E2).
  destruct (Z.ltb_spec o (DataBlock.value_size b2)); [|lia]. set (k2 := set_world w2 _) in *.
  assert (blocks k2 !! it = Some b2) as Hb2 by apply lookup_insert_eq.
  destruct (Hsz k2 f1 b2 Hs2 Hro2 Hin1 Hb2 Hk2) as (b3 & w3 & E3 & Hs3 & Hro3 & Hk3 & Hv3). rewrite (bind_ret _ _ _ _ _ E3).
  eexists _, f1. split; [exact Hs3|]. split; [exact Hro3|]. right. unfold mret, M_ret. do 3 f_equal.
  pose proof (re_blocks n _ (st_ready _ _ _ _ _ Hs3) it b3 (lookup_insert_eq _ _ _)) as [[Hvs Hvc _] _ _].
  rewrite (u64_small (DataBlock.value_size b3 - o)) by lia. rewrite Z.min_l by lia. rewrite Z.sub_diag. by apply u64_small.
Qed.

(** Reading the piece of a block: a full one, the last one, or the last one for the first time. *)
Lemma read_block_still restarts order this k f it b (data buffer : bytes) off from todo r :
  let p := off + from in let m := p / n in let o := p mod n in let len := Z.min todo (n - o) in
  ready k -> room (r + 1) k -> 0 <= r -> files k !! this = Some f -> end_known k f -> values_fit k ->
  it ∈ cached k -> blocks k !! it = Some b -> identity b = file_name f m -> recalls k f off data ->
  0 <= off -> 0 <= from -> 0 < todo -> from + todo = slen data -> (off + slen data - 1) / n <= File.eof_blocknumber f ->
  length buffer = length data -> take (Z.to_nat from) buffer = take (Z.to_nat from) data ->
  exists k' f' buffer' round, with_local it (scheduleReadahead restarts order this m;; read_block restarts this it buffer from m o len todo) k =
      (Ret (round, buffer'), k') /\ still k f this k' f' /\ room r k' /\ length buffer' = length data /\
    take (Z.to_nat (from + len)) buffer' = take (Z.to_nat (from + len)) data /\
    (round = Next \/ (round = Again /\ File.eof_blocknumber f <= m < File.eof_blocknumber f') \/ (round = Done 0 /\ len = todo)).
Proof.
  intros p m o len Hre Hro Hr Hf Hend Hfit Hin Hb Hid Hrec Hoff Hfrom Htodo Hsum Heof Hbuf Hpre.
  pose proof (Z.mod_pos_bound p n ltac:(lia)) as Ho. fold o in Ho.
  assert (len = Z.min todo (n - o)) as Elen by done. assert (0 < len /\ len <= todo /\ o + len <= n) as (Hlen & Hlt & Hon) by lia.
  destruct (recalls_block k f off data it b from len Hre Hin Hb Hid Hrec) as [Hcov Hpiece];
    [done|done|lia|by fold p o|lia|]. fold p o in Hcov, Hpiece.
  unfold with_local. destruct (still_room_local k f this (cons it) (r + 1) Hre Hf Hro) as [Hs1 Hro1]. set (k1 := set_locals (cons it) k) in *.
  assert (room 0 k1) as Hro0 by (apply (room_le n Hpos (r + 1)); [lia|done]).
  rewrite (bind_ret _ _ _ _ _ (scheduleReadahead_off n Hpos restarts order this f m 0 k1 (st_ready _ _ _ _ _ Hs1) Hro0 ltac:(lia) Hf)).
  set (f2 := set_oracle _ f). set (k2 := set_files _ k1).
  assert (still k1 f this k2 f2) as Hs2 by (apply still_file; [apply Hs1|done|done|done]).
  pose proof (still_trans _ _ _ _ _ _ _ Hs1 Hs2) as Hs02. assert (room (r + 1) k2) as Hro2 by by apply (room_same n _ k1).
  pose proof (re_blocks n k Hre it b Hb) as Hbf. rewrite <- (cap_size n Hsize b) in Hbf. unfold read_block.
  destruct (read_remembered b (world k2) (drop (Z.to_nat from) buffer) o len Hbf) as (b3 & w3 & E3 & Hst3 & Hf3 & Hk3 & _);
    [intros v rr; rewrite (cap_size n Hsize); apply Hfit|lia|lia|rewrite (cap_size n Hsize); lia|rewrite (cap_size n Hsize); lia|
     unfold slen in *; rewrite length_drop; lia|exact Hcov|].
  rewrite (cap_size n Hsize) in Hf3.
  rewrite (bind_ret _ _ _ _ _ (on_block_ret it _ k2 b _ b3 w3 Hb E3)). rewrite Hpiece.
  set (k3 := set_world w3 _). set (buffer' := take _ buffer ++ _).
  destruct (filled_buffer data buffer (Z.to_nat from) (Z.to_nat len)) as [Hbl Hbp]; [unfold slen in *; lia|done|done|].
  fold buffer' in Hbl, Hbp. rewrite <- Z2Nat.inj_add in Hbp by lia.
  assert (still k f this k3 f2) as Hs3.
  { eapply still_trans; [exact Hs02|]. by apply (still_block k2 f2 this it b); [apply Hs2|eapply still_lookup|..]. }
  assert (room (r + 1) k3) as Hro3 by by apply (room_block (r + 1) k2 it b); [..|apply Hk3].
  rewrite (bind_ret _ _ _ _ _ (the_file_run this k3 f2 (still_lookup _ _ _ _ _ Hs3))).
  change (File.eof_blocknumber f2) with (File.eof_blocknumber f).
  assert (forall k4 f4 round, still k f this k4 f4 -> room r k4 ->
    (round = Next \/ (round = Again /\ File.eof_blocknumber f <= m < File.eof_blocknumber f4) \/ (round = Done 0 /\ len = todo)) ->
    exists k' f' buffer0 round0, ((Ret (round, buffer') : outcome (FileIo.round * bytes)), set_locals (drop 1) k4) = (Ret (round0, buffer0), k') /\
      still k f this k' f' /\ room r k' /\ length buffer0 = length data /\
      take (Z.to_nat (from + len)) buffer0 = take (Z.to_nat (from + len)) data /\
      (round0 = Next \/ (round0 = Again /\ File.eof_blocknumber f <= m < File.eof_blocknumber f') \/ (round0 = Done 0 /\ len = todo))) as Hdone.
  { intros k4 f4 round Hs4 Hro4 Hround. destruct (still_room_local k4 f4 this (drop 1) r) as [Hs5 Hro5]; [apply Hs4|by eapply still_lookup|done|].
    eexists _, f4, buffer', round. split; [done|]. split; [by eapply still_trans|]. by split_and!. }
  destruct (Z.leb_spec (File.eof_blocknumber f) m) as [Hle|Hgt].
  2: { apply (Hdone k3 f2 Next Hs3); [by apply (room_le n Hpos (r + 1)); [lia|]|by left]. }
  pose proof (Z.div_mod p n ltac:(lia)) as Hdm. fold m o in Hdm.
  assert (m = File.eof_blocknumber f /\ len = todo) as [Hm Hall].
  { assert (m <= (off + slen data - 1) / n) by (apply Z.div_le_mono; lia). split; [lia|].
    destruct (Z.le_gt_cases todo (n - o)); [lia|]. exfalso.
    assert (m + 1 <= (off + slen data - 1) / n); [apply Z.div_le_lower_bound; nia|lia]. }
  destruct (lookup_lt_is_Some_2 data (Z.to_nat (from + len - 1))) as [c Hc]; [unfold slen in *; lia|].
  assert (remembered k3 (file_name f2 m) (Z.to_nat (o + len - 1)) = Some c) as Hrem.
  { rewrite (same_file_name f f2 m (st_file _ _ _ _ _ Hs3)), (st_remembered _ _ _ _ _ Hs3). pose proof (Hrec _ c Hc) as Hrc.
    destruct (proj1 (position_in n m (o + len - 1) (off + Z.of_nat (Z.to_nat (from + len - 1))) ltac:(lia) ltac:(lia)) ltac:(lia)) as [Ed Em].
    by rewrite Ed, Em in Hrc. }
  destruct (read_last_still restarts this k3 f2 it b3 m o len r c) as (k4 & f4 & Hs4 & Hro4 & Hcases);
    try done; try lia; [apply Hs3|by eapply still_lookup|by eapply end_known_still|by eapply values_fit_still|apply lookup_insert_eq| |].
  { destruct Hk3 as (Hkc & Hkk & _). unfold identity in *. rewrite Hkc, Hkk, Hid. symmetry. by apply same_file_name. }
  pose proof (still_trans _ _ _ _ _ _ _ Hs3 Hs4) as Hs04.
  destruct Hcases as [[E4 Hlt4]|E4]; rewrite Hall in E4 at 2; rewrite (bind_ret _ _ _ _ _ E4).
  - apply (Hdone k4 f4 Again Hs04 Hro4). right. left. split; [done|lia].
  - apply (Hdone k4 f4 (Done 0) Hs04 Hro4). right. right. by split.
Qed.

(** One round of the loop. *)
Lemma read_round restarts order fuel this k f off (data buffer : bytes) from todo r :
  let p := off + from in let m := p / n in let o := p mod n in let len := Z.min todo (n - o) in
  ready k -> room (r + 2) k -> 0 <= r -> files k !! this = Some f -> end_known k f -> values_fit k -> recalls k f off data ->
  0 <= off -> 0 <= from -> 0 < todo -> from + todo = slen data -> off + slen data < 2 ^ 64 -> m <= INT_MAX ->
  (off + slen data - 1) / n <= File.eof_blocknumber f ->
  length buffer = length data -> take (Z.to_nat from) buffer = take (Z.to_nat from) data ->
  exists k' f' buffer', still k f this k' f' /\ room r k' /\ length buffer' = length data /\
    take (Z.to_nat (from + len)) buffer' = take (Z.to_nat (from + len)) data /\
    (rw_loop restarts order (S fuel) this READ n off from todo buffer k =
       rw_loop restarts order fuel this READ n off (from + len) (todo - len) buffer' k' \/
     (rw_loop restarts order (S fuel) this READ n off from todo buffer k = rw_loop restarts order fuel this READ n off from todo buffer' k' /\
      File.eof_blocknumber f <= m < File.eof_blocknumber f') \/
     (rw_loop restarts order (S fuel) this READ n off from todo buffer k = (Ret (0, buffer'), k') /\ len = todo)).
Proof.
  intros p m o len Hre Hro Hr Hf Hend Hfit Hrec Hoff Hfrom Htodo Hsum Hmax Hint Heof Hbuf Hpre.
  pose proof (Z.mod_pos_bound p n ltac:(lia)) as Ho. fold o in Ho. assert (len = Z.min todo (n - o)) as Elen by done.
  destruct (lookup_still restarts k this f m DataBlock.STANDARD (r + 1)) as (it & b & k1 & E1 & Hs1 & Hro1 & Hin & Hb & Hid);
    [done|by replace (r + 1 + 1) with (r + 2) by lia|lia|done|].
  destruct (read_block_still restarts order this k1 f it b data buffer off from todo r)
    as (k2 & f2 & buffer' & round & E2 & Hs2 & Hro2 & Hbl & Hbp & Hround); try done;
    [apply Hs1|by eapply still_lookup|by eapply end_known_still|by eapply values_fit_still|by eapply recalls_still|].
  exists k2, f2, buffer'. split; [by eapply still_trans|]. split_and!; [done..|]. fold p m o len in E2.
  assert (rw_loop restarts order (S fuel) this READ n off from todo buffer k =
    match round with
    | Next => rw_loop restarts order fuel this READ n off (from + len) (todo - len) buffer' k2
    | Again => rw_loop restarts order fuel this READ n off from todo buffer' k2
    | Done todo' => (Ret (todo', buffer'), k2)
    end) as E.
  { cbn [rw_loop]. destruct (Z.eqb_spec todo 0); [lia|]. rewrite block_of_spec by (fold p; lia). fold p m o len.
    destruct (Z.ltb_spec (slen buffer) (from + len)); [unfold slen in *; lia|].
    rewrite (bind_ret _ _ _ _ _ (the_file_run this k f Hf)). rewrite bool_decide_eq_false_2 by done. cbn [andb when]. mstep.
    rewrite (bind_ret _ _ _ _ _ E1), (bind_ret _ _ _ _ _ E2). by destruct round. }
  rewrite E. destruct Hround as [-> |[[-> Hb2]|[-> Hall]]]; auto.
Qed.

(** Whether the end of the file has to be looked up: the last block read is the last one known. *)
Definition looks_up_end f (last : Z) : Z := if last <? File.eof_blocknumber f then 0 else 1.

Lemma read_loop restarts order this off (data : bytes) fuel : forall R k f from todo buffer,
  ready k -> room (2 * R) k -> files k !! this = Some f -> end_known k f -> values_fit k -> recalls k f off data ->
  0 <= off -> 0 <= from -> 0 <= todo -> from + todo = slen data -> off + slen data < 2 ^ 64 -> off + slen data <= n * 2 ^ 31 ->
  (off + slen data - 1) / n <= File.eof_blocknumber f ->
  length buffer = length data -> take (Z.to_nat from) buffer = take (Z.to_nat from) data ->
  0 <= R < Z.of_nat fuel ->
  (todo = 0 \/ (off + from) mod n + todo <= (R - looks_up_end f ((off + slen data - 1) / n)) * n) ->
  exists k' f', rw_loop restarts order fuel this READ n off from todo buffer k = (Ret (0, data), k') /\ still k f this k' f'.
Proof.
  induction fuel as [|fuel IH]; intros R k f from todo buffer Hre Hro Hf Hend Hfit Hrec Hoff Hfrom Htodo Hsum Hmax Hblocks Heof Hbuf Hpre HR Hmeasure; [lia|].
  assert (forall buffer' : bytes, length buffer' = length data -> take (Z.to_nat (slen data)) buffer' = take (Z.to_nat (slen data)) data -> buffer' = data) as Hfull.
  { intros buffer' Hl Ht. unfold slen in Ht. rewrite !take_ge in Ht by lia. done. }
  destruct (Z.eqb_spec todo 0) as [->|Hne].
  { exists k, f. split; [|by apply still_refl]. cbn [rw_loop Z.eqb]. rewrite (Hfull buffer); [done..|]. by replace (slen data) with from by lia. }
  destruct Hmeasure as [?|Hmeasure]; [done|]. set (p := off + from) in *. set (last := (off + slen data - 1) / n) in *.
  pose proof (Z.mod_pos_bound p n ltac:(lia)) as Hmod. pose proof (Z.div_mod p n ltac:(lia)) as Hdm.
  assert (0 <= looks_up_end f last <= 1) as He by (unfold looks_up_end; case_match; lia).
  assert (1 <= R - looks_up_end f last) as HR1 by nia.
  assert (p / n <= last) as Hlast by (apply Z.div_le_mono; lia).
  assert (p / n <= INT_MAX) as Hint.
  { assert (p / n < 2 ^ 31) by (apply Z.div_lt_upper_bound; lia). unfold INT_MAX. lia. }
  destruct (read_round restarts order fuel this k f off data buffer from todo (2 * (R - 1)))
    as (k1 & f1 & buffer1 & Hs1 & Hro1 & Hbl1 & Hbp1 & Hcases); try done; try lia; [by replace (2 * (R - 1) + 2) with (2 * R) by lia|].
  fold p in Hbp1, Hcases. set (o := p mod n) in *. set (len := Z.min todo (n - o)) in *.
  assert (0 < len <= todo /\ len <= n - o /\ (n - o < todo -> len = n - o) /\ (todo <= n - o -> len = todo)) as (Hlen & Hlen' & Hbig & Hsmall) by lia.
  assert (looks_up_end f1 last <= looks_up_end f last) as He1.
  { pose proof (st_eof _ _ _ _ _ Hs1). unfold looks_up_end. do 2 case_match; lia. }
  assert (forall from' todo', take (Z.to_nat from') buffer1 = take (Z.to_nat from') data -> 0 <= from' -> 0 <= todo' -> from' + todo' = slen data ->
    (todo' = 0 \/ (off + from') mod n + todo' <= (R - 1 - looks_up_end f1 last) * n) ->
    exists k' f', rw_loop restarts order fuel this READ n off from' todo' buffer1 k1 = (Ret (0, data), k') /\ still k f this k' f') as Hnext.
  { intros from' todo' Ht Hf' Ht' Hsum' Hm'.
    destruct (IH (R - 1) k1 f1 from' todo' buffer1) as (k2 & f2 & E2 & Hs2); try done; try lia;
      [apply Hs1|by eapply still_lookup|by eapply end_known_still|by eapply values_fit_still|by eapply recalls_still|pose proof (st_eof _ _ _ _ _ Hs1); lia|].
    exists k2, f2. split; [done|]. by eapply still_trans. }
  destruct Hcases as [E|[[E Hagain]|[E Hall]]]; rewrite E.
  - apply Hnext; [done|lia..|]. destruct (decide (todo <= n - o)) as [Hle|Hlt]; [left; specialize (Hsmall Hle); lia|right].
    specialize (Hbig ltac:(lia)). replace (off + (from + len)) with ((p / n + 1) * n) by nia. rewrite Z.mod_mul by lia. nia.
  - apply Hnext; [|done..|right].
    + replace (Z.to_nat from) with (Nat.min (Z.to_nat from) (Z.to_nat (from + len))) by lia. rewrite <- !take_take. by rewrite Hbp1.
    + fold p o. assert (looks_up_end f1 last = 0) as ->; [unfold looks_up_end; case_match; lia|].
      assert (looks_up_end f last = 1) as Hone; [unfold looks_up_end; case_match; lia|]. rewrite Hone in Hmeasure. by rewrite Z.sub_0_r.
  - exists k1, f1. split; [|done]. rewrite (Hfull buffer1); [done..|]. by replace (slen data) with (from + len) by lia.
Qed.

Lemma Read_run restarts fuel order k this f off (data buffer : bytes) R :
  ready k -> room (2 * R) k -> files k !! this = Some f -> File.opened f = true -> File.exceptions f = [] ->
  end_known k f -> values_fit k -> recalls k f off data ->
  0 <= off -> slen data < 2 ^ 31 -> off + slen data < 2 ^ 63 -> off + slen data <= n * 2 ^ 31 ->
  (off + slen data - 1) / n <= File.eof_blocknumber f -> length buffer = length data ->
  off mod n + slen data <= (R - looks_up_end f ((off + slen data - 1) / n)) * n -> 0 <= R < Z.of_nat fuel ->
  exists k' f', Read restarts fuel order this off buffer (slen data) k = (Ret (slen data, data), k') /\ still k f this k' f'.
Proof.
  intros Hre Hro Hf Hop Hex Hend Hfit Hrec Hoff Hlen Hmax Hbl Heof Hbuf Hm HR. pose proof (slen_nonneg data) as Hnn.
  unfold Read, ReadWrite. rewrite (bind_ret _ _ _ _ _ (the_file_run this k f Hf)), Hop. cbn [negb].
  rewrite (bind_ret _ _ _ _ _ (the_file_run this k f Hf)), Hex.
  assert (block_size f k = (Ret n, k)) as Eb.
  { unfold block_size, on_world, zoom. rewrite bind_unfold, limits_store, Hsize. by destruct k. }
  rewrite (bind_ret _ _ _ _ _ Eb). destruct (Z.eqb_spec n 0); [lia|]. rewrite (u64_small (slen data)) by lia.
  destruct (read_loop restarts order this off data fuel R k f 0 (slen data) buffer) as (k' & f' & E & Hs); try done; try lia.
  { right. by rewrite Z.add_0_r. }
  rewrite (bind_ret _ _ _ _ _ E). exists k', f'. split; [|done]. unfold mret, M_ret, i64. do 3 f_equal. rewrite Z.mod_small; lia.
Qed.

(** *** Parts of a region *)

Lemma slen_part (a l : nat) (buffer : bytes) : (a + l <= length buffer)%nat -> slen (take l (drop a buffer)) = Z.of_nat l.
Proof. intros. unfold slen. rewrite length_take, length_drop. lia. Qed.

(** A part of a region needs no more blocks, and does not end behind it. *)
Lemma part_of_region off size a l : 0 <= off -> 0 < size -> 0 <= a -> 0 <= l -> a + l <= size ->
  (off + a) mod n + l <= off mod n + size /\ (off + a + l - 1) / n <= (off + size - 1) / n.
Proof.
  intros. split; [|apply Z.div_le_mono; lia]. pose proof (Z.div_mod off n ltac:(lia)). pose proof (Z.div_mod (off + a) n ltac:(lia)).
  assert (off / n <= (off + a) / n) by (apply Z.div_le_mono; lia). nia.
Qed.

(** The file remembers what was written to it. *)
Lemma written_recalls k f off (buffer : bytes) k' f' (a l : nat) : 0 <= off -> off + slen buffer <= n * 2 ^ 31 -> same_file f f' ->
  (forall m i, 0 <= m <= INT_MAX -> 0 <= Z.of_nat i < n -> remembered k' (file_name f m) i =
    if decide (off <= m * n + Z.of_nat i < off + slen buffer) then buffer !! Z.to_nat (m * n + Z.of_nat i - off)
    else remembered k (file_name f m) i) ->
  recalls k' f' (off + Z.of_nat a) (take l (drop a buffer)).
Proof.
  intros Hoff Hbl Hsf Hw j c Hj. apply lookup_take_Some in Hj as [Hj Hjl]. rewrite lookup_drop in Hj.
  pose proof (lookup_lt_Some _ _ _ Hj) as Hlt. set (p := off + Z.of_nat a + Z.of_nat j).
  pose proof (Z.mod_pos_bound p n ltac:(lia)) as Hmod. pose proof (Z.div_mod p n ltac:(lia)) as Hdm.
  assert (0 <= p < off + slen buffer) as Hp by (unfold p, slen; lia).
  assert (0 <= p / n < 2 ^ 31) as Hm by (split; [apply Z.div_pos; lia|apply Z.div_lt_upper_bound; lia]).
  rewrite (same_file_name f f' _ Hsf), Hw by (unfold INT_MAX; lia). rewrite Z2Nat.id by lia.
  replace (p / n * n + p mod n) with p by lia. rewrite decide_True by (unfold p in *; lia).
  by replace (Z.to_nat (p - off)) with (a + j)%nat by (unfold p; lia).
Qed.

End BlockSize.
End Laws.

(** ** Properties *)

(** C6: Reading a file.  If the bytes of [data] are what the blocks of an existing file remember from position
    [off] on, and the last of them lies in a known block, then [Read] of that region fills the caller's buffer
    with exactly [data] and returns its length, whatever values the clusters hold for the blocks by then and
    however often the end of the file has to be looked up in between.  No cluster is written to, every
    remembered byte of every file stays what it was, the known end of the file does not move back, and the
    library is ready for the next call. *)
Theorem file_read `{ClusterStore W Cl} (n R : Z) restarts fuel order (k : KineticIo W Cl) this f off (data buffer : bytes) :
  (forall cl, max_value_size (store_limits cl) = n) -> 0 < n < 2 ^ 64 ->
  ready n k -> room n (2 * (R + 1)) k -> files k !! this = Some f -> File.opened f = true -> File.exceptions f = [] ->
  end_known k f -> values_fit n k -> recalls n k f off data ->
  0 <= off -> slen data < 2 ^ 31 -> off + slen data < 2 ^ 63 -> off + slen data <= n * 2 ^ 31 ->
  (off + slen data - 1) / n <= File.eof_blocknumber f -> length buffer = length data ->
  off mod n + slen data <= R * n -> 0 <= R -> R + 1 < Z.of_nat fuel ->
  exists k' f', Read restarts fuel order this off buffer (slen data) k = (Ret (slen data, data), k') /\ ready n k' /\
    (forall cl, store cl (world k') = store cl (world k)) /\ files k' = <[this := f']> (files k) /\ same_file f f' /\
    File.eof_blocknumber f <= File.eof_blocknumber f' /\
    (forall name i, remembered k' name i = remembered k name i).
Proof.
  intros Hsize Hpos Hre Hro Hf Hop Hex Hend Hfit Hrec Hoff Hlen Hmax Hbl Heof Hbuf Hm HR Hfuel.
  destruct (Read_run n Hsize Hpos restarts fuel order k this f off data buffer (R + 1)) as (k' & f' & E & Hs); try done; [|lia|].
  - unfold looks_up_end. case_match; nia.
  - exists k', f'. destruct Hs. by split_and!.
Qed.

(** C5: What was written is read back.  With read-ahead off and room in the cache, a [Write] to an existing
    file followed by a [Read] of any part of the written region returns that part of the buffer, in full, from
    every offset and for every length, across block boundaries and for blocks of any size; neither of the two
    calls has to publish anything for that. *)
Theorem read_your_writes `{ClusterStore W Cl} (n r : Z) restarts fuel order (k : KineticIo W Cl) this f off (buffer target : bytes) (a l : nat) :
  (forall cl, max_value_size (store_limits cl) = n) -> 0 < n < 2 ^ 64 ->
  ready n k -> room n (r + 2 * (r + 1)) k -> files k !! this = Some f -> File.opened f = true -> File.exceptions f = [] ->
  end_known k f -> values_fit n k ->
  0 <= off -> 0 < slen buffer < 2 ^ 31 -> off + slen buffer < 2 ^ 63 -> off + slen buffer <= n * 2 ^ 31 ->
  off mod n + slen buffer <= r * n -> 0 <= r -> r + 1 < Z.of_nat fuel ->
  (a + l <= length buffer)%nat -> length target = l ->
  exists k1 k2, Write restarts fuel order this off buffer (slen buffer) k = (Ret (slen buffer), k1) /\
    Read restarts fuel order this (off + Z.of_nat a) target (Z.of_nat l) k1 = (Ret (Z.of_nat l, take l (drop a buffer)), k2) /\
    (forall cl, store cl (world k2) = store cl (world k)).
Proof.
  intros Hsize Hpos Hre Hro Hf Hop Hex Hend Hfit Hoff Hlen Hmax Hbl Hm Hr Hfuel Hal Htarget.
  destruct (Write_run n Hsize Hpos restarts fuel order k this f off buffer r (2 * (r + 1)))
    as (k1 & f1 & E1 & Hre1 & Hro1 & Hst1 & Hf1 & Hsf1 & Heof1 & Hin & _); try done; [lia..|nia|].
  destruct (Z.eqb_spec (slen buffer) 0) as [|_]; [lia|]. pose proof (written_recalls n Hpos k f off buffer k1 f1 a l) as Hrec.
  set (data := take l (drop a buffer)) in *. assert (slen data = Z.of_nat l) as Hdata by (apply slen_part; done).
  pose proof (part_of_region n Hpos off (slen buffer) (Z.of_nat a) (Z.of_nat l)) as [Hpart Hlast]; [unfold slen in *; lia..|].
  destruct (Read_run n Hsize Hpos restarts fuel order k1 this f1 (off + Z.of_nat a) data target (r + 1)) as (k2 & f2 & E2 & Hs2);
    try done; try (unfold slen in *; lia).
  - by rewrite Hf1, lookup_insert_eq.
  - destruct Hsf1 as (_ & _ & -> & _). done.
  - destruct Hsf1 as (_ & _ & _ & ->). done.
  - by apply (end_known_same k f).
  - intros cl key v x. rewrite Hst1. by apply Hfit.
  - by apply Hrec.
  - rewrite Hdata, Heof1. lia.
  - rewrite Hdata. unfold looks_up_end. case_match; nia.
  - exists k1, k2. rewrite <- Hdata at 1 2. split_and!; [done|by rewrite E2|]. intros cl. by rewrite (st_store _ _ _ _ _ _ Hs2), Hst1.
Qed.

Import MapCluster.

(** The cache of the example has room for eight blocks, and its cluster holds a file of a few blocks. *)
Definition read_kio : KineticIo MapCluster.state unit := set_world (world keys_kio) (example_kio 1000).

Lemma read_kio_ready : ready 16 read_kio.
Proof. apply (ready_same 16 (example_kio 1000)); [apply example_ready|done..]. Qed.

Lemma read_kio_room : room 16 8 read_kio.
Proof.
  apply (room_same 16 8 (example_kio 1000)); [|done..]. split; [by vm_compute..|]. intros size Hs. apply negb_true_iff.
  by apply (sizes_below (fun size => negb (dltb (literal 75 100) (ddiv (of_int size) (of_int 1000)))) 128).
Qed.

Lemma read_kio_end : end_known read_kio (example_file (str "a")).
Proof.
  split; [exists (str "1", []); by vm_compute|]. intros key Hk Hlo Hhi. destruct (keys_kio_blocks key Hk Hlo Hhi) as [-> | ->]; [exists 0|exists 2];
    (split; [by vm_compute|]); (split; [reflexivity|by vm_compute]).
Qed.

Lemma read_kio_fits : values_fit 16 read_kio.
Proof.
  intros [] key v x Hkey.
  assert (map_Forall (fun _ w => slen w.2 <=? 16 = true) (store tt (world read_kio))) as Hall by (apply (bool_decide_unpack _); by vm_compute).
  apply Hall in Hkey. by apply Z.leb_le.
Qed.

(** The example after a write across the border of two blocks. *)
Definition written_kio : KineticIo MapCluster.state unit := (Write 2 4 (fun l => l) 1%positive 10 (str "twelve bytes") 12 read_kio).2.

Lemma written_kio_known : exists f, ready 16 written_kio /\ room 16 6 written_kio /\ files written_kio !! 1%positive = Some f /\
  File.opened f = true /\ File.exceptions f = [] /\ end_known written_kio f /\ values_fit 16 written_kio /\
  recalls 16 written_kio f 10 (str "twelve bytes") /\ File.eof_blocknumber f = 1.
Proof.
  destruct (Write_run 16 ltac:(done) ltac:(lia) 2 4 (fun l => l) read_kio 1%positive (example_file (str "a")) 10 (str "twelve bytes") 2 6)
    as (k1 & f1 & E1 & Hre1 & Hro1 & Hst1 & Hf1 & Hsf1 & Heof1 & Hin & _);
    [lia|apply read_kio_ready|apply read_kio_room|reflexivity|reflexivity|reflexivity|lia|by vm_compute|by vm_compute|by vm_compute|lia|lia|by vm_compute|by vm_compute|].
  assert (written_kio = k1) as -> by exact (f_equal snd E1).
  pose proof Hsf1 as (_ & _ & Hop & Hex). exists f1. split_and!; [done|done|by rewrite Hf1, lookup_insert_eq|by rewrite Hop|by rewrite Hex| | | |by rewrite Heof1].
  - by apply (end_known_same read_kio (example_file (str "a"))), read_kio_end.
  - intros cl key v x. rewrite Hst1. apply read_kio_fits.
  - refine (written_recalls 16 ltac:(lia) read_kio (example_file (str "a")) 10 (str "twelve bytes") k1 f1 0 12 _ _ Hsf1 Hin); [lia|by vm_compute].
Qed.

Lemma file_read_witness :
  exists k', Read 2 4 (fun l => l) 1%positive 10 (str "............") 12 written_kio = (Ret (12, str "twelve bytes"), k') /\ ready 16 k'.
Proof.
  destruct written_kio_known as (f & Hre & Hro & Hf & Hop & Hex & Hend & Hfit & Hrec & Heof).
  destruct (file_read 16 2 2 4 (fun l => l) written_kio 1%positive f 10 (str "twelve bytes") (str "............"))
    as (k' & f' & E & Hr & _); [done|lia|exact Hre|exact Hro|exact Hf|exact Hop|exact Hex|exact Hend|exact Hfit|exact Hrec|lia|
      by vm_compute|by vm_compute|by vm_compute|rewrite Heof; by vm_compute|reflexivity|by vm_compute|lia|lia|].
  exists k'. split; [exact E|exact Hr].
Defined.

Lemma read_your_writes_witness :
  exists k1 k2, Write 2 4 (fun l => l) 1%positive 10 (str "twelve bytes") 12 read_kio = (Ret 12, k1) /\
    Read 2 4 (fun l => l) 1%positive 14 (str "......") 6 k1 = (Ret (6, str "ve byt"), k2).
Proof.
  destruct (read_your_writes 16 2 2 4 (fun l => l) read_kio 1%positive (example_file (str "a")) 10 (str "twelve bytes") (str "......") 4 6)
    as (k1 & k2 & E1 & E2 & _); [done|lia|apply read_kio_ready|apply read_kio_room|reflexivity|reflexivity|reflexivity|
      apply read_kio_end|apply read_kio_fits|lia|by vm_compute|by vm_compute|by vm_compute|by vm_compute|lia|lia|by vm_compute; lia|reflexivity|].
  exists k1, k2. split; [exact E1|exact E2].
Defined.
