(* ===== verification/Library.v ===== *)
(** * The library as a whole

    The threads of a program call the operations of many files at once; the files share the block cache, and
    the thread pool works on blocks in the background.  Whatever they do and however their critical sections
    interleave, whatever drives fail and whoever else writes to the clusters, the tables of the cache stay in
    order, and no operation leaves a pointer to a block behind. *)

From S2P Require Import Prelude CppString Utility Kinetic Cluster ClusterInterface DataBlock PrefetchOracle.
From S2P Require Import BackgroundOperationHandler Double KineticIo DataCache FileIo.
Import Cache BackgroundOperationHandler KineticIo FileIo.

(** ** Code that keeps the library in order *)

Section Safe.
Context `{ClusterFacts W Cl}.
Implicit Types (k : KineticIo W Cl) (f : File.FileIo Cl) (this : file_ptr) (it : block_ptr).
Abbreviation Mk := (M (KineticIo W Cl)).

(** What every operation does to the shared state: the tables describe the cache, the local variables of
    others are theirs. *)
Record lib_kept k k' : Prop := {
  lk_wf : cache_wf k';
  lk_locals : locals k' = locals k;
  lk_window : readahead_window_size k' = readahead_window_size k;
}.

Lemma lib_kept_trans k1 k2 k3 : lib_kept k1 k2 -> lib_kept k2 k3 -> lib_kept k1 k3.
Proof. intros [] []. split; congruence. Qed.

Lemma lib_kept_refl k : cache_wf k -> lib_kept k k.
Proof. by split. Qed.

Lemma tables_lib_kept k k' : cache_wf k -> tables_kept k k' -> lib_kept k k'.
Proof. intros Hwf Hk. split; [by apply (tables_kept_wf k)|apply Hk..]. Qed.

(** However the code ends, with a value, an exception or a loop that is not done, unless it runs into
    undefined behaviour. *)
Definition safe_at {A} k (m : Mk A) : Prop := (m k).1 = UB \/ lib_kept k (m k).2.
Definition safe {A} (m : Mk A) : Prop := forall k, cache_wf k -> safe_at k m.

Lemma safe_at_bind {A B} k (m : Mk A) (g : A -> Mk B) :
  safe_at k m -> (forall a k', m k = (Ret a, k') -> lib_kept k k' -> safe_at k' (g a)) -> safe_at k (m ≫= g).
Proof.
  intros Hm Hg. unfold safe_at in *. rewrite bind_unfold. destruct (m k) as [[a|e| |] k1] eqn:E; simpl in *;
    [|by destruct Hm; [|right]|by left|by destruct Hm; [|right]].
  destruct Hm as [|Hk]; [done|]. destruct (Hg a k1 eq_refl Hk) as [?|Hk']; [by left|]. right. by eapply lib_kept_trans.
Qed.

Lemma safe_bind {A B} (m : Mk A) (g : A -> Mk B) : safe m -> (forall a, safe (g a)) -> safe (m ≫= g).
Proof. intros Hm Hg k Hwf. apply safe_at_bind; [by apply Hm|]. intros a k' _ Hk. apply Hg, Hk. Qed.

Lemma safe_tables {A} (m : Mk A) : keeps tables_kept m -> safe m.
Proof. intros Hm k Hwf. right. by apply tables_lib_kept. Qed.

Lemma safe_same {A} (m : Mk A) : (forall k, (m k).2 = k) -> safe m.
Proof. intros Hm k Hwf. right. rewrite Hm. by apply lib_kept_refl. Qed.

Lemma safe_when b (m : Mk unit) : safe m -> safe (when b m).
Proof. intros Hm. destruct b; [done|]. by apply safe_same. Qed.

Lemma safe_try_catch {A} (m : Mk A) h : safe m -> (forall e, safe (h e)) -> safe (try_catch m h).
Proof.
  intros Hm Hh k Hwf. unfold safe_at, try_catch. destruct (Hm k Hwf) as [E|Hk].
  - left. destruct (m k) as [o k']. simpl in E. by subst o.
  - destruct (m k) as [[a|e| |] k1]; simpl in *; [by right| |by left|by right]. destruct (Hh e k1) as [?|Hk']; [apply Hk|by left|]. right. by eapply lib_kept_trans.
Qed.

Lemma safe_with_local {A} it (m : Mk A) : safe m -> safe (with_local it m).
Proof.
  intros Hm k Hwf. unfold safe_at, with_local.
  destruct (Hm (set_locals (cons it) k)) as [E|[Hwf' Hl Hw]]; [by apply (cache_wf_ext k)|..].
  - left. destruct (m _) as [o k']. simpl in *. done.
  - right. destruct (m _) as [o k']. simpl in *. split; [by apply (cache_wf_ext k')|simpl; by rewrite Hl|done].
Qed.

Lemma safe_with_locals {A} its (m : Mk A) : safe m -> safe (foldr with_local m its).
Proof. intros Hm. induction its as [|it its IH]; [done|]. by apply safe_with_local. Qed.

(** ** The parts that leave the tables alone *)

Lemma world_kept {A} (m : M W A) : keeps tables_kept (on_world (Cl:=Cl) m).
Proof. intros k. unfold on_world, zoom. destruct (m (world k)). by split. Qed.

Lemma files_kept this (g : File.FileIo Cl -> File.FileIo Cl) : keeps tables_kept (set_file (W:=W) this g).
Proof. by apply keeps_modify. Qed.

Lemma pool_kept t : keeps tables_kept (pool_try_run (W:=W) (Cl:=Cl) t).
Proof. unfold pool_try_run. repeat keeps_step. apply keeps_modify. intros k. by split. Qed.

(** ** Making room *)

Lemma remove_item_returns k it : cache_wf k ->
  (DataCache.remove_item it k).1 = UB \/ exists next k', DataCache.remove_item it k = (Ret next, k').
Proof.
  intros Hwf. destruct (DataCache.find_item it (cache (dataCache k))) as [i|] eqn:Ef.
  - right. apply List.find_some in Ef as [Hi%list_elem_of_In Hd]. apply bool_decide_eq_true in Hd as <-.
    destruct (item_block k i Hwf Hi) as [b Hb]. destruct (remove_item_run k i b Hwf Hi Hb) as (next & keep & E). eauto.
  - left. unfold DataCache.remove_item, DataCache.item, DataCache.the_cache. mstep. by rewrite Ef.
Qed.

(** The forced loops go on from an element they have removed. *)
Lemma remove_ends {A} k it : cache_wf k -> ((DataCache.remove_item it;; lift (@UB A)) k).1 = UB.
Proof.
  intros Hwf. rewrite bind_unfold. destruct (remove_item_returns k it Hwf) as [E|(next & k' & E)].
  - destruct (DataCache.remove_item it k) as [o k']. simpl in E. by subst o.
  - by rewrite E.
Qed.

Lemma force_clean_cases its : forall k, cache_wf k ->
  (DataCache.force_clean its k).1 = UB \/ DataCache.force_clean its k = (Ret tt, k).
Proof.
  induction its as [|it its IH]; intros k Hwf; cbn [DataCache.force_clean]; [by right|]. unfold DataCache.the_cache, unique, is_dirty. mstep.
  destruct (_ <? _); [|by right]. mstep. destruct (blocks k !! it) as [b|]; [|by left]. cbn [deref]. mstep.
  destruct (_ && _); [|by apply IH]. left. by apply remove_ends.
Qed.

Lemma try_flush_kept restarts it : keeps tables_kept (DataCache.try_flush restarts it).
Proof. unfold DataCache.try_flush. repeat first [apply flush_if_dirty_kept | keeps_step]. Qed.

Lemma force_flush_cases restarts its : forall k, cache_wf k ->
  (DataCache.force_flush restarts its k).1 = UB \/ tables_kept k (DataCache.force_flush restarts its k).2.
Proof.
  induction its as [|it its IH]; intros k Hwf; cbn [DataCache.force_flush]; [by right|]. unfold DataCache.the_cache, unique. mstep.
  destruct (_ <? _); [|by right]. mstep. case_bool_decide; [|by apply IH]. rewrite bind_unfold.
  pose proof (try_flush_kept restarts it k) as Hk. destruct (DataCache.try_flush restarts it k) as [[[]|e| |] k1]; simpl in Hk; try (by right).
  - left. apply remove_ends. by apply (tables_kept_wf k).
  - destruct (IH k1) as [?|Hk']; [by apply (tables_kept_wf k)|by left|]. right. by etrans.
Qed.

Lemma force_shrink_cases restarts k : cache_wf k ->
  (force_shrink restarts k).1 = UB \/ tables_kept k (force_shrink restarts k).2.
Proof.
  intros Hwf. unfold force_shrink, DataCache.the_cache. mstep. destruct (_ <? _); cbn [when]; [|by right].
  destruct (force_clean_cases (DataCache.from_the_end (dataCache k)) k Hwf) as [E|E].
  - left. rewrite bind_unfold. destruct (DataCache.force_clean _ k) as [o k']. simpl in E. by subst o.
  - rewrite (bind_ret _ _ _ _ _ E). mstep. by apply force_flush_cases.
Qed.

Lemma shrunk_lib_kept k w k1 : shrunk (set_world w k) k1 -> lib_kept k k1.
Proof. intros Hs. destruct (sh_env _ _ Hs) as (Hw & _ & Hl). split; [apply Hs|done..]. Qed.

(** Making room gives up blocks, but gives no block a new name. *)
Lemma room_made restarts k : cache_wf k ->
  let m := when (dltb (dmul (of_int (capacity (dataCache k))) (literal 7 10)) (of_int (current_size (dataCache k)))) (DataCache.try_shrink restarts) in
  (m k).1 = UB \/ (lib_kept k (m k).2 /\ (forall x, x ∈ cached (m k).2 -> x ∈ cached k) /\
    forall x, identity <$> blocks (m k).2 !! x = identity <$> blocks k !! x).
Proof.
  intros Hwf m. unfold m. clear m. destruct (dltb _ _); cbn [when]; [|right; split; [by apply lib_kept_refl|done]].
  destruct (decide (cache (dataCache k) = [])) as [Hnil|Hne].
  { left. unfold DataCache.try_shrink, DataCache.the_cache. destruct (on_now k) as (t & w' & E & _).
    rewrite (bind_ret _ _ _ _ _ E). mstep. change (dataCache (set_world w' k)) with (dataCache k). by rewrite Hnil. }
  destruct (last_item k Hwf Hne) as (back & b & El & _ & Eb). destruct (decide (cap b = 0)) as [Hz|Hz].
  { left. unfold DataCache.try_shrink, DataCache.the_cache. destruct (on_now k) as (t & w' & E & _).
    rewrite (bind_ret _ _ _ _ _ E). mstep. change (dataCache (set_world w' k)) with (dataCache k). rewrite El. cbn [deref]. mstep.
    rewrite (bind_ret _ _ _ _ _ (on_block_capacity _ (set_world w' k) b Eb)). by rewrite Hz. }
  destruct (try_shrink_begin restarts k back b Hwf El Eb Hz) as (w' & k1 & E & Hs & _). rewrite E.
  destruct (force_shrink_cases restarts k1 (sh_wf _ _ Hs)) as [?|Hk]; [by left|right]. split_and!.
  - eapply lib_kept_trans; [by eapply shrunk_lib_kept|]. apply tables_lib_kept; [apply Hs|done].
  - intros x. unfold cached. rewrite (tk_cache _ _ Hk). apply (shrunk_cached _ _ Hs).
  - intros x. rewrite <- (sh_blocks _ _ Hs : blocks k1 = blocks k). destruct (blocks k1 !! x) as [bx|] eqn:Ex.
    + destruct (tables_kept_block _ _ x bx Hk Ex) as (b' & -> & Hid & _). simpl. by rewrite Hid.
    + destruct (blocks (force_shrink restarts k1).2 !! x) as [b'|] eqn:Ex'; [|done].
      destruct (tables_kept_back _ _ x b' Hk Ex') as (bx & Ebx & _). congruence.
Qed.

(** ** Looking up, dropping and flushing *)

Lemma safe_getDataKey restarts this m mode : safe (DataCache.getDataKey restarts this m mode).
Proof.
  intros k Hwf. destruct (files k !! this) as [f|] eqn:Hf.
  2: { left. unfold DataCache.getDataKey, the_file. mstep. by rewrite Hf. }
  destruct (lookup (dataCache k) !! file_name f m) as [it|] eqn:El.
  - destruct (hit_run restarts k this f m mode it Hwf Hf El) as (i & t & w' & Hi & _ & _ & E). right. rewrite E.
    split; [|done..]. eapply (cache_wf_ext (set_cache (fun c => touched c i this t) k)); [done..|]. by apply touched_wf.
  - pose proof (room_made restarts k Hwf) as Hroom. cbv zeta in Hroom. unfold safe_at. rewrite (miss_run restarts k this f m mode Hf El), bind_unfold.
    destruct (when _ _ k) as [[[]|e| |] k1]; simpl in *; [|by destruct Hroom as [?|[? _]]; [|right]|by left|by destruct Hroom as [?|[? _]]; [|right]].
    destruct Hroom as [?|(Hk & Hsub & Hid)]; [done|]. pose proof (lk_wf _ _ Hk) as Hwf1.
    destruct (new_item_run k1 this f (file_key f m) mode Hwf1) as (it & b & rest & old & reused & t & w2 & E2 & Hni & Hsrc & Hb & _).
    rewrite E2. right. eapply lib_kept_trans; [exact Hk|]. split; [|done..].
    eapply cache_wf_ext; [| |apply (added_wf k1 it b rest old this t)]; try done.
    destruct Hb as (Hbc & Hbk & _). unfold identity at 1. rewrite Hbc, Hbk. by apply (absent_name k k1).
Qed.

Lemma safe_drop_owner this force : safe (DataCache.drop_owner this force).
Proof.
  intros k Hwf. destruct (drop_owner_run k this force Hwf) as (k' & E & Hwf' & _ & _ & _ & _ & _ & _ & _ & (Hw & _ & Hl) & _).
  right. by rewrite E.
Qed.

Lemma flush_all_kept restarts its : keeps tables_kept (DataCache.flush_all restarts its).
Proof. induction its as [|it its IH]; cbn [DataCache.flush_all]; repeat first [apply flush_if_dirty_kept | keeps_step | done]. Qed.

Lemma safe_flush restarts this : safe (DataCache.flush restarts this).
Proof.
  apply safe_bind; [by apply safe_same|]. intros c. apply safe_with_locals, safe_tables, flush_all_kept.
Qed.

Lemma safe_on_block {A} it (m : M (DataBlock.DataBlock Cl * W) A) : keeps same_key m -> safe (on_block it m).
Proof. intros Hm. by apply safe_tables, on_block_kept. Qed.

Lemma safe_set_pool p started : safe (modify (set_pool (W:=W) (Cl:=Cl) p started)).
Proof. apply safe_tables, keeps_modify. intros k. by split. Qed.

End Safe.

Create HintDb kept.
#[export] Hint Resolve world_kept files_kept pool_kept is_dirty_kept flush_if_dirty_kept : kept.
#[export] Hint Resolve read_key write_key truncate_key size_key flush_key : kept.
Create HintDb safe.
#[export] Hint Resolve safe_getDataKey safe_drop_owner safe_flush safe_set_pool : safe.

(** Splits an operation into its parts. *)
Ltac safe_step := match goal with
  | |- safe (mbind _ _) => apply safe_bind
  | |- safe (on_block _ _) => apply safe_on_block; solve [eauto with kept]
  | |- safe (with_local _ _) => apply safe_with_local
  | |- safe (when _ _) => apply safe_when
  | |- safe (try_catch _ _) => apply safe_try_catch
  | |- safe (if ?b then _ else _) => destruct b
  | |- safe (match ?x with _ => _ end) => destruct x
  | |- safe (let _ := _ in _) => cbv zeta
  | |- forall _, safe _ => intro
  | |- safe _ => first [solve [eauto with safe] | apply safe_tables; solve [eauto with kept] | by apply safe_same]
  end.

(** ** Every operation of a file *)

Section Files.
Context `{ClusterFacts W Cl}.
Variables (restarts fuel : nat) (order : list (Z * list Z) -> list (Z * list Z)).
Implicit Types (this : file_ptr) (it : block_ptr).
Abbreviation Mk := (M (KineticIo W Cl)).

(** The cluster map creates clusters; it does not touch the cache. *)
Variable getCluster : bytes -> Mk Cl.
Hypothesis getCluster_kept : forall id, keeps tables_kept (getCluster id).

Lemma safe_the_file this : safe (the_file (W:=W) (Cl:=Cl) this).
Proof. unfold the_file. repeat safe_step. Qed.
#[local] Hint Resolve safe_the_file : safe.

Lemma safe_block_size (f : File.FileIo Cl) : safe (block_size (W:=W) f).
Proof. unfold block_size. repeat safe_step. Qed.

Lemma safe_range_size (f : File.FileIo Cl) : safe (range_size (W:=W) f).
Proof. unfold range_size. repeat safe_step. Qed.

Lemma safe_clusterId (f : File.FileIo Cl) : safe (clusterId (W:=W) f).
Proof. by apply safe_same. Qed.

Lemma safe_now : safe (now (W:=W) (Cl:=Cl)).
Proof. unfold now. safe_step. Qed.
#[local] Hint Resolve safe_block_size safe_range_size safe_clusterId safe_now : safe.

Lemma safe_new_file this eof url : safe (new_file getCluster this eof url).
Proof.
  unfold new_file. repeat first [apply safe_tables, getCluster_kept | safe_step].
  apply safe_tables, keeps_modify. intros k. by split.
Qed.

Lemma safe_delete_file this : safe (delete_file this).
Proof. unfold delete_file. repeat safe_step. apply safe_tables, keeps_modify. intros k. by split. Qed.

Lemma safe_Open this flags : safe (Open this flags).
Proof. unfold Open. repeat safe_step. Qed.

Lemma safe_Sync this : safe (Sync restarts this).
Proof. unfold Sync. repeat safe_step. Qed.
#[local] Hint Resolve safe_Open safe_Sync : safe.

Lemma safe_Close this : safe (Close restarts this).
Proof. unfold Close. repeat safe_step. Qed.

Lemma safe_get_eof_backend this : safe (get_eof_backend this).
Proof. unfold get_eof_backend. repeat safe_step. Qed.
#[local] Hint Resolve safe_get_eof_backend : safe.

Lemma safe_verify_eof this : safe (verify_eof restarts this).
Proof. unfold verify_eof. repeat safe_step. Qed.
#[local] Hint Resolve safe_verify_eof : safe.

Lemma safe_readahead_blocks this prediction : safe (readahead_blocks restarts this prediction).
Proof. induction prediction as [|n prediction IH]; cbn [readahead_blocks]; repeat first [exact IH | safe_step]. Qed.
#[local] Hint Resolve safe_readahead_blocks : safe.

Lemma safe_scheduleReadahead this m : safe (scheduleReadahead restarts order this m).
Proof. unfold scheduleReadahead. repeat safe_step. Qed.

Lemma safe_doFlush this it : safe (doFlush restarts this it).
Proof. unfold doFlush. repeat safe_step. Qed.
#[local] Hint Resolve safe_scheduleReadahead safe_doFlush : safe.

Lemma safe_scheduleFlush this it : safe (scheduleFlush restarts this it).
Proof. unfold scheduleFlush. repeat safe_step. Qed.
#[local] Hint Resolve safe_scheduleFlush : safe.

Lemma safe_perform t : safe (perform restarts t).
Proof. destruct t; cbn [perform]; unfold do_readahead; repeat safe_step. Qed.

Lemma safe_read_last this it m o len todo : safe (read_last restarts this it m o len todo).
Proof. unfold read_last. repeat safe_step. Qed.
#[local] Hint Resolve safe_read_last : safe.

Lemma safe_rw_loop this mode n off fuel' : forall done todo buffer, safe (rw_loop restarts order fuel' this mode n off done todo buffer).
Proof.
  induction fuel' as [|fuel' IH]; intros done todo buffer; cbn [rw_loop]; [safe_step|].
  destruct (block_of n off done todo) as [[m o] len]. unfold read_block, write_block. repeat first [apply IH | safe_step].
Qed.
#[local] Hint Resolve safe_rw_loop : safe.

Lemma safe_ReadWrite this off buffer length mode : safe (ReadWrite restarts fuel order this off buffer length mode).
Proof. unfold ReadWrite. repeat safe_step. Qed.
#[local] Hint Resolve safe_ReadWrite : safe.

Lemma safe_Read this off buffer length : safe (Read restarts fuel order this off buffer length).
Proof. unfold Read. repeat safe_step. Qed.

Lemma safe_Write this off buffer length : safe (Write restarts fuel order this off buffer length).
Proof. unfold Write. repeat safe_step. Qed.

Lemma safe_remove_keys f keys : safe (remove_keys f keys).
Proof. induction keys as [|key keys IH]; cbn [remove_keys]; repeat first [exact IH | safe_step]. Qed.
#[local] Hint Resolve safe_remove_keys : safe.

Lemma safe_remove_blocks f first fuel' : safe (remove_blocks fuel' f first).
Proof. induction fuel' as [|fuel' IH]; cbn [remove_blocks]; repeat first [exact IH | safe_step]. Qed.
#[local] Hint Resolve safe_remove_blocks : safe.

Lemma safe_Truncate this off : safe (Truncate restarts fuel this off).
Proof. unfold Truncate. repeat safe_step. Qed.
#[local] Hint Resolve safe_Truncate : safe.

Lemma safe_attrGet this name : safe (attrGet this name).
Proof. unfold attrGet. repeat safe_step. Qed.

Lemma safe_attrSet this name value : safe (attrSet this name value).
Proof. unfold attrSet. repeat safe_step. Qed.

Lemma safe_attrDelete this name : safe (attrDelete this name).
Proof. unfold attrDelete. repeat safe_step. Qed.

Lemma safe_list_attributes f fuel' : forall start names, safe (list_attributes fuel' f start names).
Proof. induction fuel' as [|fuel' IH]; intros start names; cbn [list_attributes]; repeat first [apply IH | safe_step]. Qed.
#[local] Hint Resolve safe_list_attributes : safe.

Lemma safe_attrList this : safe (attrList fuel this).
Proof. unfold attrList. repeat safe_step. Qed.
#[local] Hint Resolve safe_attrList : safe.

Lemma safe_remove_attributes f names : safe (remove_attributes f names).
Proof. induction names as [|name names IH]; cbn [remove_attributes]; repeat first [exact IH | safe_step]. Qed.
#[local] Hint Resolve safe_remove_attributes : safe.

Lemma safe_Remove this : safe (Remove restarts fuel this).
Proof. unfold Remove. repeat safe_step. Qed.

Lemma safe_Stat this : safe (Stat restarts this).
Proof. unfold Stat. repeat safe_step. Qed.

Lemma safe_Statfs this : safe (Statfs this).
Proof. unfold Statfs. repeat safe_step. Qed.

Lemma safe_list_files f max fuel' : forall start names, safe (list_files fuel' f start max names).
Proof. induction fuel' as [|fuel' IH]; intros start names; cbn [list_files]; repeat first [apply IH | safe_step]. Qed.
#[local] Hint Resolve safe_list_files : safe.

Lemma safe_ListFiles this subtree max : safe (ListFiles fuel this subtree max).
Proof. unfold ListFiles. repeat safe_step. Qed.

End Files.

(** ** The library at work *)

Module Library.

(** The requests of clients (include/kio/FileIoInterface.hh), with the construction and destruction of file objects. *)
Inductive request :=
  | RNew (eof : Z) (url : bytes)
  | RDelete
  | ROpen (flags : Z)
  | RRead (offset : Z) (buffer : bytes) (length : Z)
  | RWrite (offset : Z) (buffer : bytes) (length : Z)
  | RTruncate (offset : Z)
  | RRemove
  | RSync
  | RClose
  | RStat
  | RAttrGet (name : bytes)
  | RAttrSet (name value : bytes)
  | RAttrDelete (name : bytes)
  | RAttrList
  | RStatfs
  | RListFiles (subtree : bytes) (max : nat).

(** What a thread does with a block while it holds the block's mutex. *)
Inductive block_request :=
  | BRead (buffer : option bytes) (offset length : Z)
  | BWrite (buffer : option bytes) (offset length : Z)
  | BTruncate (offset : Z)
  | BSize
  | BFlush.

Section Library.
Context {W Cl : Type} `{ClusterInterface W Cl}.
Variables (restarts fuel : nat) (order : list (Z * list Z) -> list (Z * list Z)).
Abbreviation Mk := (M (KineticIo W Cl)).
Variable getCluster : bytes -> Mk Cl.

Definition serve (this : file_ptr) (r : request) : Mk unit :=
  match r with
  | RNew eof url => new_file getCluster this eof url
  | RDelete => delete_file this
  | ROpen flags => Open this flags
  | RRead offset buffer length => Read restarts fuel order this offset buffer length;; mret tt
  | RWrite offset buffer length => Write restarts fuel order this offset buffer length;; mret tt
  | RTruncate offset => Truncate restarts fuel this offset
  | RRemove => Remove restarts fuel this
  | RSync => Sync restarts this
  | RClose => Close restarts this
  | RStat => Stat restarts this;; mret tt
  | RAttrGet name => attrGet this name;; mret tt
  | RAttrSet name value => attrSet this name value
  | RAttrDelete name => attrDelete this name
  | RAttrList => attrList fuel this;; mret tt
  | RStatfs => Statfs this;; mret tt
  | RListFiles subtree max => ListFiles fuel this subtree max;; mret tt
  end.

Definition serve_block (it : block_ptr) (r : block_request) : Mk unit :=
  match r with
  | BRead buffer offset length => on_block it (DataBlock.read buffer offset length);; mret tt
  | BWrite buffer offset length => on_block it (DataBlock.write buffer offset length)
  | BTruncate offset => on_block it (DataBlock.truncate offset)
  | BSize => on_block it DataBlock.size;; mret tt
  | BFlush => on_block it (DataBlock.flush restarts)
  end.

(** A thread runs code to its end, however it ends, unless it is undefined. *)
Definition runs {A} (m : Mk A) (k k' : KineticIo W Cl) : Prop := (m k).1 <> UB /\ k' = (m k).2.

(** Whole requests and background tasks, the critical sections of requests of other threads, and everything that happens
    outside of the library: clusters change, threads take and give back pointers to blocks and members of files, the
    pool moves on, a new configuration is installed. *)
Inductive step (k k' : KineticIo W Cl) : Prop :=
  | step_request this r : runs (serve this r) k k' -> step k k'
  | step_task t : t ∈ running k -> runs (perform restarts t) k k' -> step k k'
  | step_lookup this m mode : runs (DataCache.getDataKey restarts this m mode) k k' -> step k k'
  | step_drop this force : runs (DataCache.drop_owner this force) k k' -> step k k'
  | step_block it r : runs (serve_block it r) k k' -> step k k'
  | step_member this g : k' = set_files (alter g this) k -> step k k'
  | step_locals l : k' = set_locals (fun _ => l) k -> step k k'
  | step_pool p tasks window : k' = mkKio (dataCache k) p tasks window (blocks k) (files k) (locals k) (world k) -> step k k'
  | step_configure capacity : k' = set_cache (DataCache.changeConfiguration capacity) k -> step k k'
  | step_world w : k' = set_world w k -> step k k'.

End Library.
End Library.

Section Reachable.
Context `{ClusterFacts W Cl}.
Variables (restarts fuel : nat) (order : list (Z * list Z) -> list (Z * list Z)).
Variable getCluster : bytes -> M (KineticIo W Cl) Cl.
Hypothesis getCluster_kept : forall id, keeps tables_kept (getCluster id).

Lemma safe_serve this r : safe (Library.serve restarts fuel order getCluster this r).
Proof.
  assert (forall A (m : M (KineticIo W Cl) A), safe m -> safe (m;; mret tt)) as Hret.
  { intros A m Hm. apply safe_bind; [done|]. intros _. by apply safe_same. }
  destruct r; cbn [Library.serve]; try apply Hret;
    eauto using safe_new_file, safe_delete_file, safe_Open, safe_Read, safe_Write, safe_Truncate, safe_Remove, safe_Sync, safe_Close,
      safe_Stat, safe_attrGet, safe_attrSet, safe_attrDelete, safe_attrList, safe_Statfs, safe_ListFiles.
Qed.

Lemma safe_serve_block it r : safe (Library.serve_block (W:=W) (Cl:=Cl) restarts it r).
Proof. destruct r; cbn [Library.serve_block]; repeat safe_step. Qed.

Lemma safe_runs {A} (m : M (KineticIo W Cl) A) k k' : safe m -> Library.runs m k k' -> cache_wf k -> lib_kept k k'.
Proof. intros Hm [Hub ->] Hwf. by destruct (Hm k Hwf). Qed.

Lemma step_wf k k' : Library.step restarts fuel order getCluster k k' -> cache_wf k -> cache_wf k'.
Proof.
  intros Hs Hwf. destruct Hs as [this r Hr|t _ Hr|this m mode Hr|this force Hr|it r Hr|this g ->|l ->|p tasks window ->|n ->|w ->];
    try (by eapply safe_runs in Hr as [? _ _]; eauto using safe_serve, safe_perform, safe_getDataKey, safe_drop_owner, safe_serve_block);
    try by apply (cache_wf_ext k).
  destruct Hwf. by split.
Qed.

Lemma reachable_wf n k0 k : dataCache k0 = DataCache.new_cache n -> rtc (Library.step restarts fuel order getCluster) k0 k -> cache_wf k.
Proof.
  intros E Hr. assert (cache_wf k0) as Hwf by (eapply new_cache_ok, E). clear E. induction Hr; eauto using step_wf.
Qed.
End Reachable.

(** ** Properties *)

(** C10: The library stays well-formed.  From a library with an empty cache, after any sequence of requests,
    background tasks, critical sections of threads that run at the same time, reconfigurations and changes of the
    clusters by others, with any drives failing, the tables of the cache describe it: every item has one block,
    a block is found under its name and no other, every owner's table is exact, the sizes are right.  Every
    request that does not run into undefined behaviour keeps it so, also when it throws, and leaves no
    pointer to a block behind. *)
Theorem library_wellformed `{ClusterFacts W Cl} restarts fuel order (getCluster : bytes -> M (KineticIo W Cl) Cl) n k0 k :
  (forall id, keeps tables_kept (getCluster id)) ->
  dataCache k0 = DataCache.new_cache n -> rtc (Library.step restarts fuel order getCluster) k0 k ->
  cache_wf k /\
  forall this r, let '(o, k') := Library.serve restarts fuel order getCluster this r k in
    o = UB \/ cache_wf k' /\ locals k' = locals k.
Proof.
  intros Hget E Hr. pose proof (reachable_wf restarts fuel order getCluster Hget n k0 k E Hr) as Hwf. split; [done|]. intros this r.
  destruct (safe_serve restarts fuel order getCluster Hget this r k Hwf) as [Eu|[Hwf' Hl _]];
    destruct (Library.serve _ _ _ _ this r k) as [o k']; simpl in *; [by left|by right].
Qed.

Import MapCluster.

(** A library with one cluster, and the state after a write across two blocks. *)
Definition only_cluster (id : bytes) : M (KineticIo MapCluster.state unit) unit := fun k => (Ret tt, k).

Definition after_write : KineticIo MapCluster.state unit :=
  (Library.serve 2 3 (fun l => l) only_cluster 1%positive (Library.RWrite 10 (str "twelve bytes") 12) (example_kio 100)).2.

Lemma library_wellformed_witness : cache_wf after_write /\ cached after_write = [2; 1]%positive.
Proof.
  destruct (library_wellformed 2 3 (fun l => l) only_cluster 100 (example_kio 100) after_write) as [Hwf _].
  - intros id. by apply keeps_same; [apply _|].
  - reflexivity.
  - apply rtc_once. apply (Library.step_request _ _ _ _ _ _ 1%positive (Library.RWrite 10 (str "twelve bytes") 12)).
    split; [by vm_compute|reflexivity].
  - split; [exact Hwf|]. vm_compute. reflexivity.
Defined.
