(* ===== verification/AdminCluster.v ===== *)
(** * Counting, scanning and repairing (src/KineticAdminCluster.cc)

    An administrator's operations on all keys of one kind: the keys are listed page by page, each page
    is a task for a thread pool, a task scans, repairs or removes its keys one by one and counts what
    became of them.  AdminListing.v shows that they visit every key once and end.  The remaining operation, [status], is in
    AdminStatus.v. *)

From S2P Require Import Prelude CppString Utility Kinetic Simulator Callbacks ClusterOperation Isa Redundancy StripeOperation.
From S2P Require Import Cluster ClusterInterface BackgroundOperationHandler.

Module AdminCluster.

(** [AdminClusterInterface::OperationTarget] and [KineticAdminCluster::Operation] *)
Inductive OperationTarget := DATA | METADATA | ATTRIBUTE | INDICATOR | INVALID.
Inductive Operation := COUNT | SCAN | REPAIR | RESET.

#[export] Instance OperationTarget_eq_dec : EqDecision OperationTarget.
Proof. solve_decision. Defined.

#[export] Instance Operation_eq_dec : EqDecision Operation.
Proof. solve_decision. Defined.

(** [KeyCounts]; the members are of type [int], atomic while they are counted. *)
Record KeyCounts := mkKeyCounts {
  total : Z;
  incomplete : Z;
  need_action : Z;
  repaired : Z;
  removed : Z;
  unrepairable : Z;
}.

Definition no_keys : KeyCounts := mkKeyCounts 0 0 0 0 0 0.

(** [key_counts.member += n] *)
Definition add_total (n : Z) (k : KeyCounts) : KeyCounts :=
  mkKeyCounts (i32 (total k + n)) (incomplete k) (need_action k) (repaired k) (removed k) (unrepairable k).
Definition add_incomplete (k : KeyCounts) : KeyCounts :=
  mkKeyCounts (total k) (i32 (incomplete k + 1)) (need_action k) (repaired k) (removed k) (unrepairable k).
Definition add_need_action (k : KeyCounts) : KeyCounts :=
  mkKeyCounts (total k) (incomplete k) (i32 (need_action k + 1)) (repaired k) (removed k) (unrepairable k).
Definition add_repaired (k : KeyCounts) : KeyCounts :=
  mkKeyCounts (total k) (incomplete k) (need_action k) (i32 (repaired k + 1)) (removed k) (unrepairable k).
Definition add_removed (k : KeyCounts) : KeyCounts :=
  mkKeyCounts (total k) (incomplete k) (need_action k) (repaired k) (i32 (removed k + 1)) (unrepairable k).
Definition add_unrepairable (k : KeyCounts) : KeyCounts :=
  mkKeyCounts (total k) (incomplete k) (need_action k) (repaired k) (removed k) (i32 (unrepairable k + 1)).

(** The state of an operation on the cluster [world]: its counts, and the tasks that wait in its pool. *)
Record counting {W : Type} := mkCounting {
  world : W;
  key_counts : KeyCounts;
  waiting : list (list bytes);
}.
Arguments counting : clear implicits.
Arguments mkCounting {W} _ _ _.

Definition on_world {W A} (m : M W A) : M (counting W) A :=
  zoom world (fun w s => mkCounting w (key_counts s) (waiting s)) m.

Definition count_key {W} (f : KeyCounts -> KeyCounts) : M (counting W) unit :=
  modify (fun s => mkCounting (world s) (f (key_counts s)) (waiting s)).

(** ** The main loop *)

Section Listing.
Context {W : Type}.
Variable range : bytes -> bytes -> M W (StatusCode * option (list bytes)).
Variable applyOperation : list bytes -> M (counting W) unit.

(** The answer of the callback to its [i]-th call, with the total as argument; true if there is none. *)
Variable callback : nat -> Z -> bool.
Variable o : Operation.
Variable numthreads : nat.

(** How many waiting tasks the threads of the pool complete before the [i]-th request.  A task is one step. *)
Variable schedule : nat -> nat.

(** A worker thread swallows the exceptions of its task. *)
Definition run_task (keys : list bytes) : M (counting W) unit := try_catch (applyOperation keys) (fun _ => mret tt).

Fixpoint work (n : nat) : M (counting W) unit :=
  match n with
  | O => mret tt
  | S n' =>
      s ← get;
      match waiting s with
      | [] => mret tt
      | keys :: rest => modify (fun s => mkCounting (world s) (key_counts s) rest);; run_task keys;; work n'
      end
  end.

(** The destructor of the pool waits for all of them. *)
Definition finish : M (counting W) unit := n ← gets (fun s => length (waiting s)); work n.

(** [bg.run] of a pool with [numthreads] threads and as many places in its queue. *)
Definition submit (keys : list bytes) : M (counting W) unit :=
  if bool_decide (numthreads = 0%nat) then applyOperation keys
  else modify (fun s => mkCounting (world s) (key_counts s) (waiting s ++ [keys])).

(** The successor of a key in the order of keys. *)
Definition after_key (key : bytes) : bytes := key ++ [NUL].

Fixpoint list_keys (fuel i : nat) (start_key end_key : bytes) : M (counting W) unit :=
  match fuel with
  | O => out_of_fuel
  | S fuel' =>
      work (schedule i);;
      '(status, keys) ← on_world (range start_key end_key);
      if negb (bool_decide (status = OK)) then mret tt else
      let keys := default [] keys in
      when (negb (bool_decide (keys = [])))
        (count_key (add_total (slen keys));; when (negb (bool_decide (o = COUNT))) (submit keys));;
      t ← gets (fun s => total (key_counts s));
      if negb (callback i t) then mret tt
      else match last keys with
           | None => mret tt
           | Some back => list_keys fuel' (S i) (after_key back) end_key
           end
  end.

(** The block of [doOperation] that owns the pool. *)
Definition operate (fuel : nat) (start_key end_key : bytes) : M (counting W) KeyCounts :=
  try_catch (list_keys fuel 0 start_key end_key) (fun e => finish;; throw e);;
  finish;;
  gets key_counts.
End Listing.

(** ** The ranges of the targets *)

Definition initRangeKeys (id : bytes) (t : OperationTarget) : outcome (bytes * bytes) :=
  match t with
  | METADATA => Ret (makeMetadataKey id (str " "), makeMetadataKey id (str "~"))
  | ATTRIBUTE => Ret (makeAttributeKey id (str " ") (str " "), makeAttributeKey id (str "~") (str "~"))
  | DATA => Ret (makeDataKey id (str " ") 0, makeDataKey id (str "~") 99999999)
  | INDICATOR => Ret (makeIndicatorKey id, makeIndicatorKey (id ++ str "~"))
  | INVALID => Throw std_logic_error
  end.

(** ** Operations on a key *)

Section Operations.
Context `{Env D} `{StatusInt} `{Checksum} `{IsaL}.

Abbreviation Counting := (counting (KineticCluster D)).

Definition removeIndicatorKey (key : bytes) : M (KineticCluster D) bool :=
  c ← get;
  '(status, o) ← run_operation (fresh_operation c)
    (ClusterRangeOp (connections c) (str "handoff=" ++ key) (str "handoff=" ++ key ++ str "~") 100;;
     ClusterRangeOp_execute (u64 (Z.of_nat (connections c) - Z.of_nat (numData (cl_redundancy c)))));
  let remove_key k := run_stripe (fresh_stripe c) (
    StripeOperation_DEL (connections c) k [] IGNORE_VERSION (connections c) 0;;
    DEL_execute (connections c) k (operation_timeout c)) in
  when (bool_decide (status = OK)) (mapM remove_key (ClusterRangeOp_getKeys 100 (operations o));; mret tt);;
  '(status, _) ← remove_key (makeIndicatorKey key);
  mret (bool_decide (status = OK)).

Definition scanKey (key : bytes) : M Counting bool :=
  c ← gets world;
  '(rm, getV) ← on_world (run_get (fresh_get c)
    (on_stripe (new_get (connections c) key true true;; on_op executeOperationVector)));
  let found := rmap_at OK rm in
  let missing := rmap_at REMOTE_NOT_FOUND rm in
  let valid_results := found + missing in
  target_version ← lift (mostFrequentVersion true (get_ops getV));
  let nData := Z.of_nat (numData (cl_redundancy c)) in
  when (valid_results <? Z.of_nat (size (cl_redundancy c))) (count_key add_incomplete);;
  if (frequency target_version =? valid_results) && (nData <=? valid_results) then mret false
  else if (nData <=? frequency target_version) || (nData <=? missing) then count_key add_need_action;; mret true
  else throw std_runtime_error.

Definition repairKey (key : bytes) : M Counting unit :=
  c ← gets world;
  '(getStatus, g) ← on_world (run_get (fresh_get c)
    (on_stripe (new_get (connections c) key false true);; GET_execute (connections c) key false));
  if bool_decide (getStatus = OK) then
    value ← lift (deref (getValue g));
    stripe ← on_world (on_provider (valueToStripe (chunkCapacity c) value));
    version ← lift (deref (getVersion g));
    '(done, _) ← on_world (run_stripe (fresh_stripe c) (
      StripeOperation_PUT (connections c) key version stripe version REQUIRE_SAME_VERSION;;
      quick_repair key version stripe (get_ops g) false));
    (if (done : bool) then mret tt else
      '(putstatus, _) ← on_world (put (Some key) (Some version) (Some value));
      if negb (bool_decide (putstatus = OK)) then throw (system_error io_error) else mret tt);;
    count_key add_repaired
  else if bool_decide (getStatus = REMOTE_NOT_FOUND) then
    rmstatus ← on_world (remove_any (Some key));
    if negb (bool_decide (rmstatus = OK)) && negb (bool_decide (rmstatus = REMOTE_NOT_FOUND))
    then throw (system_error io_error) else count_key add_removed
  else throw (system_error io_error).

(** The body of the [try] block of [applyOperation]. *)
Definition apply_key (operation : Operation) (target : OperationTarget) (key : bytes) : M Counting unit :=
  match operation with
  | SCAN => scanKey key;; mret tt
  | REPAIR =>
      action ← scanKey key;
      when (action || bool_decide (target = INDICATOR)) (repairKey key;; on_world (removeIndicatorKey key);; mret tt)
  | RESET =>
      (if bool_decide (target = INDICATOR) then
        ok ← on_world (removeIndicatorKey key);
        if (ok : bool) then mret tt else throw (system_error io_error)
      else
        rmstatus ← on_world (remove_any (Some key));
        if bool_decide (rmstatus = OK) then mret tt else throw (system_error io_error));;
      count_key add_removed
  | COUNT => throw std_runtime_error
  end.

(** The loop of [applyOperation]. *)
Definition applyOperation (operation : Operation) (target : OperationTarget) (keys : list bytes) : M Counting unit :=
  mapM (fun key =>
    key ← (if bool_decide (target = INDICATOR) then lift (indicatorToKey key) else mret key);
    try_catch (apply_key operation target key) (fun _ => count_key add_unrepairable)) keys;;
  mret tt.

(** ** The interface *)

Definition doOperation (fuel : nat) (schedule : nat -> nat) (o : Operation) (t : OperationTarget) (callback : nat -> Z -> bool)
    (numthreads : nat) : M (KineticCluster D) KeyCounts := fun c =>
  match initRangeKeys (id c) t with
  | Ret (start_key, end_key) =>
      let '(r, s) := operate (fun lo hi => range (Some lo) (Some hi) 0) (applyOperation o t) callback o numthreads schedule
        fuel start_key end_key (mkCounting c no_keys []) in
      (r, world s)
  | Throw e => (Throw e, c)
  | UB => (UB, c)
  | OutOfFuel => (OutOfFuel, c)
  end.

Definition count fuel schedule target callback : M (KineticCluster D) Z :=
  k ← doOperation fuel schedule COUNT target callback 0; mret (total k).
Definition scan fuel schedule target callback numThreads : M (KineticCluster D) KeyCounts :=
  doOperation fuel schedule SCAN target callback numThreads.
Definition repair fuel schedule target callback numThreads : M (KineticCluster D) KeyCounts :=
  doOperation fuel schedule REPAIR target callback numThreads.
Definition reset fuel schedule target callback numThreads : M (KineticCluster D) KeyCounts :=
  doOperation fuel schedule RESET target callback numThreads.

End Operations.
End AdminCluster.
Import AdminCluster.

Lemma i32_add a b : i32 (i32 a + b) = i32 (a + b).
Proof.
  unfold i32. f_equal. replace ((a + 2 ^ 31) mod 2 ^ 32 - 2 ^ 31 + b + 2 ^ 31) with ((a + 2 ^ 31) mod 2 ^ 32 + b) by lia.
  rewrite Zplus_mod_idemp_l. f_equal. lia.
Qed.

(** The queue of a pool with [n] threads takes every task; without threads the caller runs it. *)
Lemma pool_accepts {T} (f : T) n h k : BackgroundOperationHandler.new_handler n n = Ret (h, k) ->
  fst (BackgroundOperationHandler.run f h) =
    if bool_decide (n = 0%nat) then BackgroundOperationHandler.Inline else BackgroundOperationHandler.Queued.
Proof.
  unfold BackgroundOperationHandler.new_handler. destruct n as [|n]; repeat case_bool_decide; intros; simplify_eq; try done.
Qed.

(** ** Lemmas: the accounting of keys *)

(** What became of a key. *)
Record key_outcome := mkOutcome {
  was_incomplete : bool;
  needed_action : bool;
  was_repaired : bool;
  was_removed : bool;
  has_failed : bool;
}.

Definition how_many (f : key_outcome -> bool) (outs : list key_outcome) : Z :=
  Z.of_nat (length (filter (fun x => f x = true) outs)).

Definition tally (listed : Z) (outs : list key_outcome) : KeyCounts :=
  mkKeyCounts (i32 listed) (i32 (how_many was_incomplete outs)) (i32 (how_many needed_action outs))
    (i32 (how_many was_repaired outs)) (i32 (how_many was_removed outs)) (i32 (how_many has_failed outs)).

(** What can become of a key under an operation.  A key that was repaired counts as failed as well if
    removing its indicator key throws. *)
Definition permitted (operation : Operation) (target : OperationTarget) (x : key_outcome) : Prop :=
  match operation with
  | COUNT => False
  | SCAN => was_repaired x = false /\ was_removed x = false /\ (needed_action x = true -> has_failed x = false)
  | REPAIR =>
      (was_repaired x && was_removed x = false) /\
      (was_repaired x || was_removed x = true -> needed_action x = true \/ target = INDICATOR) /\
      (needed_action x = true \/ target = INDICATOR -> was_repaired x || was_removed x || has_failed x = true)
  | RESET => was_incomplete x = false /\ needed_action x = false /\ was_repaired x = false /\ has_failed x = negb (was_removed x)
  end.

(** The counts after one more key. *)
Definition counted (x : key_outcome) (k : KeyCounts) : KeyCounts :=
  let flag (b : bool) (n : Z) := if b then i32 (n + 1) else n in
  mkKeyCounts (total k) (flag (was_incomplete x) (incomplete k)) (flag (needed_action x) (need_action k))
    (flag (was_repaired x) (repaired k)) (flag (was_removed x) (removed k)) (flag (has_failed x) (unrepairable k)).

Lemma how_many_snoc f outs x : how_many f (outs ++ [x]) = how_many f outs + (if f x then 1 else 0).
Proof. unfold how_many. rewrite filter_app, length_app, filter_cons. case_decide as E; [by rewrite E; simpl; lia|]. destruct (f x); [done|]. simpl. lia. Qed.

Lemma tally_counted listed outs x : counted x (tally listed outs) = tally listed (outs ++ [x]).
Proof.
  unfold counted, tally. cbn [total incomplete need_action repaired removed unrepairable].
  f_equal; rewrite how_many_snoc; (match goal with |- context [if ?b then _ else _] => destruct b end); rewrite ?i32_add, ?Z.add_0_r; done.
Qed.

Lemma tally_total listed outs n : add_total n (tally listed outs) = tally (listed + n) outs.
Proof. unfold add_total, tally. cbn. by rewrite i32_add. Qed.

(** [ends m w Q X]: if [m] returns, the result and the state satisfy [Q]; if it throws, the state satisfies [X]. *)
Definition ends {W A} (m : M W A) (w : W) (Q : A -> W -> Prop) (X : W -> Prop) : Prop :=
  match m w with
  | (Ret a, w') => Q a w'
  | (Throw _, w') => X w'
  | _ => True
  end.

Section Ends.
Context {W A B : Type}.

Lemma ends_bind (m : M W A) (f : A -> M W B) w Q X :
  ends m w (fun a w' => ends (f a) w' Q X) X -> ends (m ≫= f) w Q X.
Proof. unfold ends. rewrite bind_unfold. by destruct (m w) as [[]]. Qed.

Lemma ends_mret (a : A) (w : W) (Q : A -> W -> Prop) X : Q a w -> ends (mret a) w Q X.
Proof. done. Qed.

Lemma ends_lift (r : outcome A) (w : W) (Q : A -> W -> Prop) (X : W -> Prop) : (forall a, Q a w) -> X w -> ends (lift r) w Q X.
Proof. intros HQ HX. unfold ends, lift. destruct r; auto. Qed.

Lemma ends_try_catch (m : M W A) h w Q X : ends m w Q (fun w' => forall e, ends (h e) w' Q X) -> ends (try_catch m h) w Q X.
Proof. unfold ends, try_catch. destruct (m w) as [[] ?]; try done. intros He. apply He. Qed.

Lemma ends_mono (m : M W A) w (Q Q' : A -> W -> Prop) (X X' : W -> Prop) :
  ends m w Q X -> (forall a w', Q a w' -> Q' a w') -> (forall w', X w' -> X' w') -> ends m w Q' X'.
Proof. unfold ends. destruct (m w) as [[] ?]; auto. Qed.

(** A loop over a list, with an invariant on the elements left. *)
Lemma ends_mapM (f : A -> M W B) (I : list A -> W -> Prop) (X : W -> Prop) l w :
  (forall a l w, I (a :: l) w -> ends (f a) w (fun _ => I l) X) -> I l w -> ends (mapM f l) w (fun _ => I []) X.
Proof.
  intros Hf. revert w. induction l as [|a l IH]; intros w Hi; [done|]. cbn [mapM].
  specialize (Hf a l w Hi). unfold ends in *. rewrite bind_unfold. destruct (f a w) as [[b|e| |] w']; try done.
  specialize (IH w' Hf). rewrite bind_unfold. by destruct (mapM f l w') as [[]].
Qed.

(** What happens on the cluster changes no count. *)
Lemma ends_on_world (m : M W A) w k q (Q : A -> counting W -> Prop) X :
  (forall a w', Q a (mkCounting w' k q)) -> (forall w', X (mkCounting w' k q)) -> ends (on_world m) (mkCounting w k q) Q X.
Proof. intros HQ HX. unfold ends, on_world, zoom. cbn. by destruct (m w) as [[] ?]. Qed.

Lemma ends_count_key f (w : W) k q (Q : unit -> counting W -> Prop) X :
  Q tt (mkCounting w (f k) q) -> ends (count_key f) (mkCounting w k q) Q X.
Proof. done. Qed.
End Ends.

Ltac ends_step := match goal with
  | |- ends (gets _ ≫= _) _ _ _ => apply ends_bind; unfold ends at 1, gets; cbv beta iota; cbn [world]
  | |- ends (mbind _ _) _ _ _ => apply ends_bind
  | |- ends (mret _) _ _ _ => apply ends_mret
  | |- ends (lift _) _ _ _ => apply ends_lift; [intros ?|]
  | |- ends (throw _) _ _ _ => unfold ends, throw
  | |- ends (on_world _) _ _ _ => apply ends_on_world; intros ?; [intros ?|]
  | |- ends (count_key _) _ _ _ => apply ends_count_key
  | |- ends (when ?b _) _ _ _ => destruct b; unfold when
  | |- ends (if ?b then _ else _) _ _ _ => destruct b
  | |- ends (match ?x with _ => _ end) _ _ _ => destruct x
  | |- ends (match ?x with _ => _ end _) _ _ _ => destruct x
  end.

Lemma counted_nothing k : counted (mkOutcome false false false false false) k = k.
Proof. by destruct k. Qed.

Section Accounting.
Context `{Env D} `{StatusInt} `{Checksum} `{IsaL}.
Implicit Types w : KineticCluster D.

Lemma scanKey_ends key w k q :
  ends (scanKey key) (mkCounting w k q)
    (fun b s => exists w' i, s = mkCounting w' (counted (mkOutcome i b false false false) k) q)
    (fun s => exists w' i, s = mkCounting w' (counted (mkOutcome i false false false false) k) q).
Proof.
  unfold scanKey. repeat ends_step.
  all: first [eexists _, false; by rewrite ?counted_nothing | by eexists _, true].
Qed.

Lemma repairKey_ends key w k q :
  ends (repairKey key) (mkCounting w k q)
    (fun _ s => exists w' r, s = mkCounting w' (counted (mkOutcome false false r (negb r) false) k) q)
    (fun s => exists w', s = mkCounting w' k q).
Proof.
  unfold repairKey. repeat ends_step.
  all: first [by eexists | by eexists _, true | by eexists _, false].
Qed.

Lemma apply_key_ends operation target key w k q : operation <> COUNT ->
  ends (try_catch (apply_key operation target key) (fun _ => count_key add_unrepairable)) (mkCounting w k q)
    (fun _ s => exists w' x, permitted operation target x /\ s = mkCounting w' (counted x k) q) (fun _ => False).
Proof.
  intros Ho. apply ends_try_catch. destruct operation; cbn [apply_key]; [done|..].
  - apply ends_bind. eapply ends_mono; [apply scanKey_ends|..].
    + intros b s (w' & i & ->). eexists _, _. split; [|done]. done.
    + intros s (w' & i & ->) _. eexists _, (mkOutcome i false false false true). done.
  - apply ends_bind. eapply ends_mono; [apply scanKey_ends|..].
    2: { intros s (w' & i & ->) _. eexists _, (mkOutcome i false false false true). split; [|done]. naive_solver. }
    intros b s (w' & i & ->). destruct (b || bool_decide (target = INDICATOR)) eqn:Eb; unfold when.
    2: { eexists _, _. split; [|done]. apply orb_false_iff in Eb as [-> Eb%bool_decide_eq_false]. naive_solver. }
    assert (b = true \/ target = INDICATOR) as Hb by (apply orb_true_iff in Eb as [|?%bool_decide_eq_true]; auto).
    apply ends_bind. eapply ends_mono; [apply repairKey_ends|..].
    + intros [] s (w2 & r & ->). repeat ends_step.
      * eexists _, (mkOutcome i b r (negb r) false). split; [|done]. by destruct r.
      * intros _. eexists _, (mkOutcome i b r (negb r) true). split; [|done]. by destruct r.
    + intros s (w2 & ->) _. eexists _, (mkOutcome i b false false true). split; [|done]. done.
  - repeat ends_step.
    all: first [intros _; eexists _, (mkOutcome false false false false true) | eexists _, (mkOutcome false false false true false)].
    all: by split.
Qed.

Section Batches.
Context (operation : Operation) (target : OperationTarget).

(** The counts are the tally of the keys done; the others listed wait in the pool, or were lost with a
    task that could not read an indicator key. *)
Record accounts (s : counting (KineticCluster D)) (listed : nat) (outs : list key_outcome) (todo : nat) : Prop := {
  ac_tally : key_counts s = tally (Z.of_nat listed) outs;
  ac_permitted : Forall (permitted operation target) outs;
  ac_count : operation = COUNT -> outs = [] /\ waiting s = [];
  ac_listed : operation <> COUNT -> (length outs + todo <= listed)%nat;
  ac_all : operation <> COUNT -> target <> INDICATOR -> (length outs + todo = listed)%nat;
}.

Definition accounted (s : counting (KineticCluster D)) : Prop :=
  exists listed outs, accounts s listed outs (length (concat (waiting s))).

Lemma accounts_fewer s listed outs todo rest :
  target = INDICATOR -> (rest <= todo)%nat -> accounts s listed outs todo -> accounts s listed outs rest.
Proof. intros Ht Hle [? ? ? Hl ?]. split; try done. intros Ho. specialize (Hl Ho). lia. Qed.

Lemma apply_key_accounts key s listed outs todo : operation <> COUNT -> accounts s listed outs (S todo) ->
  ends (try_catch (apply_key operation target key) (fun _ => count_key add_unrepairable)) s
    (fun _ s' => waiting s' = waiting s /\ exists outs', accounts s' listed outs' todo) (fun _ => False).
Proof.
  intros Ho [Ht Hp Hc Hl Ha]. destruct s as [c k q]. cbn [key_counts waiting] in *.
  eapply ends_mono; [by apply apply_key_ends| |done].
  intros _ s' (c' & x & Hx & ->). split; [done|]. exists (outs ++ [x]). split; cbn [key_counts waiting]; rewrite ?length_app; cbn [length].
  - by rewrite Ht, tally_counted.
  - apply Forall_app. split; [done|]. by constructor.
  - done.
  - intros. specialize (Hl ltac:(done)). lia.
  - intros. specialize (Ha ltac:(done) ltac:(done)). lia.
Qed.

Lemma applyOperation_accounts keys s listed outs rest : operation <> COUNT -> accounts s listed outs (length keys + rest) ->
  let done s' := waiting s' = waiting s /\ exists outs', accounts s' listed outs' rest in
  ends (applyOperation operation target keys) s (fun _ => done) done.
Proof.
  intros Ho Hs done_. unfold applyOperation. apply ends_bind.
  eapply (ends_mono _ _ (fun _ => done_) _ done_); [|intros ? s' Hi; apply ends_mret, Hi|done].
  apply (ends_mapM _ (fun l s' => waiting s' = waiting s /\ exists outs', accounts s' listed outs' (length l + rest))); [|by eauto].
  clear outs Hs. intros key l s' (Hw & outs' & Hs').
  assert (forall key', ends (try_catch (apply_key operation target key') (fun _ => count_key add_unrepairable)) s'
    (fun _ s2 => waiting s2 = waiting s /\ exists outs2, accounts s2 listed outs2 (length l + rest)) done_) as Hkey.
  { intros key'. eapply ends_mono; [by apply (apply_key_accounts key' s' listed outs' (length l + rest))| |done].
    intros _ s2 [-> Hs2]. by rewrite Hw. }
  apply ends_bind. case_bool_decide as Ht; [|apply ends_mret, Hkey]. apply ends_lift; [apply Hkey|].
  split; [done|]. exists outs'. eapply accounts_fewer; [done| |done]. lia.
Qed.

(** The main loop with the pool. *)
Section Pool.
Context (range : bytes -> bytes -> M (KineticCluster D) (StatusCode * option (list bytes))) (callback : nat -> Z -> bool).
Context (numthreads : nat) (schedule : nat -> nat).
Abbreviation apply := (applyOperation operation target).

Lemma work_accounts n s : accounted s ->
  ends (work apply n) s (fun _ s' => accounted s' /\ length (waiting s') = (length (waiting s) - n)%nat) (fun _ => False).
Proof.
  revert s. induction n as [|n IH]; intros s Hs; cbn [work].
  { split; [done|]. lia. }
  apply ends_bind. unfold ends at 1, get. cbv iota. destruct (waiting s) as [|keys rest] eqn:Ew.
  { split; [done|]. by rewrite Ew. }
  destruct Hs as (listed & outs & Hs). apply ends_bind. unfold ends at 1, modify.
  assert (operation <> COUNT) as Ho. { intros Ho. destruct (ac_count _ _ _ _ Hs Ho) as [_ ?]. congruence. }
  set (s1 := mkCounting (world s) (key_counts s) rest).
  assert (accounts s1 listed outs (length keys + length (concat rest))) as Hs1.
  { rewrite Ew in Hs. cbn [concat] in Hs. rewrite length_app in Hs. destruct Hs. by split. }
  apply ends_bind. unfold run_task. apply ends_try_catch. eapply ends_mono; [by apply (applyOperation_accounts keys s1 listed outs)|..].
  - intros _ s2 (Hw & outs2 & Hs2). eapply ends_mono; [apply IH|..|done].
    + exists listed, outs2. by rewrite Hw.
    + intros _ s3 [Hs3 Hl]. split; [done|]. by rewrite Hl, Hw.
  - intros s2 (Hw & outs2 & Hs2) _. apply ends_mret. eapply ends_mono; [apply IH|..|done].
    + exists listed, outs2. by rewrite Hw.
    + intros _ s3 [Hs3 Hl]. split; [done|]. by rewrite Hl, Hw.
Qed.

Lemma submit_accounts keys s : accounted s ->
  ends (count_key (add_total (slen keys));; when (negb (bool_decide (operation = COUNT))) (submit apply numthreads keys)) s
    (fun _ => accounted) accounted.
Proof.
  intros (listed & outs & Hs). destruct s as [c k q]. apply ends_bind, ends_count_key. set (s1 := mkCounting c (add_total (slen keys) k) q).
  destruct (decide (operation = COUNT)) as [Ho|Ho].
  { rewrite bool_decide_eq_true_2 by done. cbn [negb when]. apply ends_mret. exists (listed + length keys)%nat, outs.
    destruct Hs as [Ht Hp Hc _ _]. split; try done. cbn [key_counts s1] in *. rewrite Ht, tally_total. f_equal. unfold slen. lia. }
  assert (accounts s1 (listed + length keys) outs (length keys + length (concat q))) as Hs1.
  { destruct Hs as [Ht Hp Hc Hl Ha]. cbn [key_counts waiting] in *. split; cbn [key_counts waiting s1]; try done.
    - rewrite Ht, tally_total. f_equal. unfold slen. lia.
    - intros. specialize (Hl Ho). lia.
    - intros. specialize (Ha Ho ltac:(done)). lia. }
  rewrite bool_decide_eq_false_2 by done. cbn [negb when]. unfold submit. case_bool_decide.
  - eapply ends_mono; [by apply (applyOperation_accounts keys s1 (listed + length keys)%nat outs (length (concat q)))|..].
    + intros _ s2 (Hw & outs2 & Hs2). exists (listed + length keys)%nat, outs2. by rewrite Hw.
    + intros s2 (Hw & outs2 & Hs2). exists (listed + length keys)%nat, outs2. by rewrite Hw.
  - unfold ends, modify. exists (listed + length keys)%nat, outs. cbn [waiting s1].
    assert (length (concat (q ++ [keys])) = (length keys + length (concat q))%nat) as ->
      by (rewrite concat_app, length_app; cbn [concat]; rewrite app_nil_r; lia).
    destruct Hs1 as [? ? Hc ? ?]. split; try done.
Qed.

Lemma list_keys_accounts fuel i start_key end_key s : accounted s ->
  ends (list_keys range apply callback operation numthreads schedule fuel i start_key end_key) s (fun _ => accounted) accounted.
Proof.
  revert i start_key s. induction fuel as [|fuel IH]; intros i start_key s Hs; [done|]. cbn [list_keys]. apply ends_bind.
  eapply ends_mono; [by apply work_accounts| |done]. intros _ s1 [Hs1 _]. apply ends_bind.
  assert (forall c, accounted (mkCounting c (key_counts s1) (waiting s1))) as Hworld.
  { intros c. destruct Hs1 as (listed & outs & []). exists listed, outs. by split. }
  destruct s1 as [c k q]. apply ends_on_world; [|intros c'; apply Hworld]. intros [status keys] c'. case_bool; [by apply ends_mret|].
  apply ends_bind. eapply (ends_mono _ _ (fun _ => accounted) _ accounted); [|intros [] s2 Hs2|done].
  { case_bool_decide; cbn [negb when]; [apply ends_mret, Hworld|]. apply submit_accounts, Hworld. }
  apply ends_bind. unfold ends at 1, gets. cbv iota. destruct (negb _); [by apply ends_mret|]. destruct (last _); [by apply IH|by apply ends_mret].
Qed.

Lemma operate_accounts fuel start_key end_key s : accounted s ->
  ends (operate range apply callback operation numthreads schedule fuel start_key end_key) s
    (fun k s' => exists listed outs, k = tally (Z.of_nat listed) outs /\ accounts s' listed outs 0) (fun _ => True).
Proof.
  intros Hs. unfold operate. apply ends_bind, ends_try_catch.
  eapply (ends_mono _ _ (fun _ => accounted) _ accounted); [by apply list_keys_accounts|..].
  - intros _ s1 Hs1. apply ends_bind. unfold finish. apply ends_bind. unfold ends at 1, gets. cbv iota.
    eapply ends_mono; [by apply work_accounts| |done]. intros _ s2 [(listed & outs & Hs2) Hw].
    unfold ends, gets. exists listed, outs. rewrite Nat.sub_diag in Hw. apply length_zero_iff_nil in Hw. rewrite Hw in Hs2.
    split; [|done]. by destruct Hs2.
  - intros s1 Hs1 e. apply ends_bind. unfold finish. apply ends_bind. unfold ends at 1, gets. cbv iota.
    eapply ends_mono; [by apply work_accounts|done|done].
Qed.
End Pool.
End Batches.
End Accounting.

(** ** Lemmas: the verdict of a scan *)

Section Verdict.
Context `{Env D} `{StatusIntLaws} `{Checksum} `{IsaL}.

Lemma time_out_callback op s op' s' : time_out op s = (Ret op', s') -> is_Some (op_callback op').
Proof.
  unfold time_out. destruct (op_callback op) as [cb|] eqn:E; [|done]. destruct (finished cb); [intros; simplify_eq; by eexists|].
  destruct (OnResult _ _ _). intros. simplify_eq. by eexists.
Qed.

Lemma time_out_callbacks ops s ops' s' : mapM time_out ops s = (Ret ops', s') -> exists cbs, op_callback <$> ops' = Some <$> cbs.
Proof.
  revert s ops' s'. induction ops as [|op ops IH]; intros s ops' s' E; cbn [mapM] in E.
  { injection E as <- _. by exists []. }
  apply bind_inv_ret in E as (op' & s1 & E1 & E). apply bind_inv_ret in E as (ops1 & s2 & E2 & E). injection E as <- _.
  destruct (time_out_callback _ _ _ _ E1) as [cb Hcb]. destruct (IH _ _ _ E2) as [cbs Hcbs]. exists (cb :: cbs). cbn. by rewrite Hcb, <- Hcbs.
Qed.

(** An operation vector that was executed has a result for each operation. *)
Lemma executed_callbacks (w o : KineticClusterOperation D) rm : executeOperationVector w = (Ret rm, o) ->
  rm = count_results (results (operations o)) /\ exists cbs, op_callback <$> operations o = Some <$> cbs.
Proof.
  unfold executeOperationVector. destruct (mapM call_function _ _) as [[ops|e| |] [s d]]; try done.
  destruct (mapM time_out ops s) as [[ops'|e| |] s'] eqn:E; intros; simplify_eq/=. split; [done|]. by eapply time_out_callbacks.
Qed.

Lemma results_of_callbacks ops (cbs : list callback) : op_callback <$> ops = Some <$> cbs -> results ops = getResult <$> cbs.
Proof.
  revert cbs. induction ops as [|op ops IH]; intros [|cb cbs] E; try done. cbn in E. injection E as E1 E2.
  unfold results in *. cbn. rewrite E1. cbn. f_equal. by apply IH.
Qed.

(** The round of requests that [scanKey] starts with. *)
Definition scan_round (key : bytes) (c : KineticCluster D) : outcome (list (StatusCode * Z)) * StripeOperation_GET D :=
  on_stripe (new_get (connections c) key true true;; on_op executeOperationVector) (fresh_get c).

Lemma scan_round_callbacks key c rm g : scan_round key c = (Ret rm, g) ->
  rm = count_results (results (get_ops g)) /\ exists cbs, op_callback <$> get_ops g = Some <$> cbs.
Proof.
  unfold scan_round, on_stripe, zoom. destruct ((new_get _ _ _ _;; _) _) as [r s] eqn:E. intros [= -> <-].
  apply bind_inv_ret in E as (u & s1 & _ & E). unfold on_op, zoom in E.
  destruct (executeOperationVector (so_op s1)) as [r o] eqn:Eo. injection E as -> <-. by apply (executed_callbacks (so_op s1)).
Qed.

Lemma scanKey_round key s rm g cbs vc : scan_round key (world s) = (Ret rm, g) ->
  mostFrequentVersion true (get_ops g) = Ret vc -> op_callback <$> get_ops g = Some <$> cbs ->
  let answered := count_code OK (getResult <$> cbs) + count_code REMOTE_NOT_FOUND (getResult <$> cbs) in
  let nData := Z.of_nat (numData (cl_redundancy (world s))) in
  exists s', key_counts s' = (if answered <? Z.of_nat (size (cl_redundancy (world s))) then add_incomplete (key_counts s) else key_counts s) /\
    waiting s' = waiting s /\
    world s' = with_env (op_env (so_op (get_stripe g))) (redundancy (get_stripe g)) (world s) /\
    scanKey key s =
      if (frequency vc =? answered) && (nData <=? answered) then (Ret false, s')
      else if (nData <=? frequency vc) || (nData <=? count_code REMOTE_NOT_FOUND (getResult <$> cbs))
      then (Ret true, mkCounting (world s') (add_need_action (key_counts s')) (waiting s')) else (Throw std_runtime_error, s').
Proof.
  intros Eg Emf Hcbs answered nData. destruct (scan_round_callbacks _ _ _ _ Eg) as [Erm _].
  set (c' := with_env (op_env (so_op (get_stripe g))) (redundancy (get_stripe g)) (world s)).
  set (s1 := mkCounting c' (key_counts s) (waiting s)).
  assert (on_world (run_get (fresh_get (world s))
      (on_stripe (new_get (connections (world s)) key true true;; on_op executeOperationVector))) s = (Ret (rm, g), s1)) as E.
  { unfold on_world, zoom, run_get. change (mkGet _ _ _) with (fresh_get (world s)).
    change (on_stripe _ (fresh_get (world s))) with (scan_round key (world s)). by rewrite Eg. }
  assert (forall code, rmap_at code rm = count_code code (getResult <$> cbs)) as Hat.
  { intros code. rewrite Erm, <- (results_of_callbacks _ _ Hcbs). apply count_results_spec. }
  unfold scanKey. mstep. rewrite (bind_ret _ _ _ _ _ E), Emf. mstep. rewrite !Hat. fold answered nData.
  set (inc := answered <? _).
  exists (mkCounting c' (if inc then add_incomplete (key_counts s) else key_counts s) (waiting s)).
  split_and!; [done..|]. unfold count_key. destruct inc; mstep; cbn [world key_counts waiting s1];
    destruct (_ && _); try done; destruct (_ || _); done.
Qed.
End Verdict.

(** ** Properties *)

(** C24: The counts account for every key.  However the drives answer, an operation that returns has
    counted what became of each key: the counts are those of a list of outcomes, one for each key
    listed.  A scan changes no key, and a key that it cannot judge is unrepairable; a repair repairs or
    removes a key only if the scan said so or it has an indicator key, and every such key ends up
    repaired, removed or unrepairable, never both repaired and removed; after a reset every key is
    either removed or unrepairable.  (For indicator keys at most as many: a task is lost if a drive returns a
    key shorter than the prefix of indicator keys.) *)
Theorem admin_accounting `{Env D} `{StatusInt} `{Checksum} `{IsaL} fuel schedule o t callback numthreads (c c' : KineticCluster D) k :
  doOperation fuel schedule o t callback numthreads c = (Ret k, c') ->
  exists listed outs, k = tally (Z.of_nat listed) outs /\ Forall (permitted o t) outs /\
    (o = COUNT -> outs = []) /\
    (o <> COUNT -> (length outs <= listed)%nat /\ (t <> INDICATOR -> length outs = listed)).
Proof.
  unfold doOperation. destruct (initRangeKeys (id c) t) as [[sk ek]|e| |]; [|done..].
  pose proof (operate_accounts o t (fun lo hi => range (Some lo) (Some hi) 0) callback numthreads schedule fuel sk ek (mkCounting c no_keys [])) as Ha.
  unfold ends in Ha. destruct (operate _ _ _ _ _ _ _ _ _ _) as [[k'|e| |] s]; intros; simplify_eq.
  destruct Ha as (listed & outs & -> & [_ Hp Hc Hl Hall]).
  { exists 0%nat, []. by split. }
  exists listed, outs. split; [done|]. split; [done|]. split; [intros Hcount; by destruct (Hc Hcount)|]. intros Ho. split.
  - specialize (Hl Ho). lia.
  - intros Ht. specialize (Hall Ho Ht). lia.
Qed.

(** Two files on a cluster of three simulated drives. *)
Module Admin_example.
Definition file (path : bytes) (c : KineticCluster Simulator.sim) : KineticCluster Simulator.sim :=
  snd (@put_any _ Simulator.sim_env Simulator.sim_status_int Example_.crc IsaSim.isa (Some (makeMetadataKey (str "C1") path))
    (Some (str "x")) c).
Definition limits_ : ClusterLimits := mkClusterLimits 4096 2048 8 100.
Definition cluster : KineticCluster Simulator.sim :=
  mkCluster (str "C1") (str "instance") 4 10 3 Example_.provider (Some limits_) 0 Example_.memory (Simulator.fresh 3).
Definition files : KineticCluster Simulator.sim := file (str "b") (file (str "a") cluster).
Definition operation (o : Operation) (numthreads : nat) : M (KineticCluster Simulator.sim) KeyCounts :=
  @doOperation _ Simulator.sim_env Simulator.sim_status_int Example_.crc IsaSim.isa 5 (fun _ => 0%nat) o METADATA (fun _ _ => true) numthreads.
End Admin_example.

Lemma admin_accounting_witness :
  exists k c', Admin_example.operation RESET 1 Admin_example.files = (Ret k, c') /\ total k = 2 /\ removed k = 2 /\
    exists listed outs, k = tally (Z.of_nat listed) outs /\ Forall (permitted RESET METADATA) outs.
Proof.
  destruct (Admin_example.operation RESET 1 Admin_example.files) as [r c'] eqn:E.
  assert (r = Ret (mkKeyCounts 2 0 0 0 2 0)) as -> by (change r with (fst (r, c')); rewrite <- E; vm_compute; reflexivity).
  eexists _, c'. split_and!; [reflexivity..|].
  destruct (@admin_accounting _ _ _ _ _ _ _ _ _ _ _ _ _ _ E) as (listed & outs & Hk & Hp & _).
  exists listed, outs. split; [exact Hk|exact Hp].
Defined.

(** C26: The verdict of a scan is the one its answers call for.  After the requests for the versions of
    all chunks, [scanKey] says that nothing is to be done exactly when all chunks that answered, at
    least [nData], hold one and the same version; it gives up exactly when no version and no absence is on [nData]
    chunks, so that no repair can decide what the value was; in all other cases it says
    that the key needs action.  Keys with chunks that did not answer are counted as incomplete. *)
Theorem scan_verdict `{Env D} `{StatusIntLaws} key (s : counting (KineticCluster D)) rm g :
  scan_round key (world s) = (Ret rm, g) -> (0 < numData (cl_redundancy (world s)))%nat ->
  exists cbs s', op_callback <$> get_ops g = Some <$> cbs /\
    let holds v := occurrences true v cbs in
    let missing := count_code REMOTE_NOT_FOUND (getResult <$> cbs) in
    let answered := count_code OK (getResult <$> cbs) + missing in
    let nData := Z.of_nat (numData (cl_redundancy (world s))) in
    ((exists v, holds v = answered /\ nData <= holds v) -> scanKey key s = (Ret false, s')) /\
    ((forall v, holds v < nData) /\ missing < nData -> scanKey key s = (Throw std_runtime_error, s')) /\
    (~ (exists v, holds v = answered /\ nData <= holds v) -> (exists v, nData <= holds v) \/ nData <= missing ->
      scanKey key s = (Ret true, mkCounting (world s') (add_need_action (key_counts s')) (waiting s'))) /\
    key_counts s' = (if answered <? Z.of_nat (size (cl_redundancy (world s))) then add_incomplete (key_counts s) else key_counts s).
Proof.
  intros Eg Hk. destruct (scan_round_callbacks _ _ _ _ Eg) as [_ [cbs Hcbs]].
  destruct (most_frequent_spec true cbs) as (vc & Emf & Hpos & Hmax & Hv).
  { apply Forall_true. intros cb _ [=]. }
  assert (mostFrequentVersion true (get_ops g) = Ret vc) as Emf'.
  { unfold mostFrequentVersion. by rewrite (mapM_callback_deref _ cbs Hcbs). }
  destruct (scanKey_round _ _ _ _ _ _ Eg Emf' Hcbs) as (s' & Hcounts & _ & _ & E). exists cbs, s'. split; [done|].
  intros holds missing answered nData. fold missing nData in E, Hcounts. fold answered in E, Hcounts.
  assert (frequency vc <= answered) as Hle.
  { assert (0 <= missing) by (unfold missing, count_code; lia). unfold answered. fold missing.
    destruct (version vc) as [v|]; [|unfold count_code in *; lia]. destruct Hv as [_ <-].
    pose proof (occurrences_results true v _ _ Hcbs) as Hocc. rewrite (results_of_callbacks _ _ Hcbs) in Hocc. lia. }
  assert (0 < nData) by (unfold nData; lia).
  assert ((frequency vc = answered /\ nData <= answered) <-> exists v, holds v = answered /\ nData <= holds v) as Hclean.
  { split.
    - intros [Hf Hn]. destruct (version vc) as [v|]; [|lia]. exists v. unfold holds. lia.
    - intros (v & Hh & Hn). specialize (Hmax v). unfold holds in *. lia. }
  assert (nData <= frequency vc <-> exists v, nData <= holds v) as Hfix.
  { split.
    - intros Hn. destruct (version vc) as [v|]; [|lia]. exists v. unfold holds. lia.
    - intros (v & Hn). specialize (Hmax v). unfold holds in *. lia. }
  rewrite E. split_and!; [| | |done].
  - intros [Hf Hn]%Hclean. by rewrite Hf, Z.eqb_refl, (proj2 (Z.leb_le _ _) Hn).
  - intros [Hno Hm]. assert (frequency vc < nData) as Hlt.
    { apply Z.nle_gt. intros (v & Hn)%Hfix. specialize (Hno v). lia. }
    case_bool; [lia|]. case_bool; [|done]. apply orb_true_iff in Heqb0 as [?%Z.leb_le|?%Z.leb_le]; lia.
  - intros Hnot Hfixable. case_bool; [by destruct Hnot; apply Hclean|]. case_bool; [done|]. rewrite <- Hfix in Hfixable. lia.
Qed.

Lemma scan_verdict_witness :
  let key := makeMetadataKey (str "C1") (str "a") in
  let s := mkCounting Admin_example.files no_keys [] in
  exists s', @scanKey _ Simulator.sim_env Simulator.sim_status_int key s = (Ret false, s') /\ key_counts s' = no_keys.
Proof.
  intros key s. destruct (@scan_round _ Simulator.sim_env Simulator.sim_status_int key (world s)) as [r g] eqn:E.
  assert (exists rm, r = Ret rm) as [rm ->].
  { change r with (fst (r, g)). rewrite <- E. vm_compute. by eexists. }
  destruct (@scan_verdict _ Simulator.sim_env Simulator.sim_status_int Simulator.sim_status_int_laws key s rm g E)
    as (cbs & s' & Hcbs & Hclean & _ & _ & Hc); [vm_compute; lia|].
  assert (cbs = omap op_callback (get_ops g)) as ->.
  { revert Hcbs. clear. generalize (get_ops g). intros ops. revert cbs. induction ops as [|op ops IH]; intros [|cb cbs] Hcbs; try done.
    cbn in Hcbs. injection Hcbs as H1 H2. cbn. rewrite H1. f_equal. by apply IH. }
  assert (g = snd (@scan_round _ Simulator.sim_env Simulator.sim_status_int key (world s))) as Hg by by rewrite E.
  exists s'. split.
  - apply Hclean. exists (default [] (v ← head (omap op_callback (get_ops g)); Some (cb_version v))). rewrite Hg.
    split; vm_compute; done.
  - rewrite Hc, Hg. vm_compute. reflexivity.
Defined.

(** ** What the ranges miss *)

(** The range of a target holds the keys of the files whose names lie between a space and a tilde. *)
Lemma metadata_range id path lo hi : initRangeKeys id METADATA = Ret (lo, hi) ->
  str_leb lo (makeMetadataKey id path) && str_leb (makeMetadataKey id path) hi = str_leb (str " ") path && str_leb path (str "~").
Proof. intros [= <- <-]. unfold makeMetadataKey. by rewrite !str_leb_app. Qed.

(** A name that starts with a tilde, or with a byte that is not ASCII, lies behind that range. *)
Lemma names_beyond_range id lo hi : initRangeKeys id METADATA = Ret (lo, hi) ->
  str_leb (makeMetadataKey id (str "~backup")) hi = false /\
  str_leb (makeMetadataKey id [ascii_of_nat 195; ascii_of_nat 169]) hi = false.
Proof. intros [= <- <-]. unfold makeMetadataKey. rewrite !str_leb_app. split; vm_compute; reflexivity. Qed.

(** A key that equals the end of its range is listed for ever: behind it, the ends of the range are
    reversed, and the request finds it again. *)
Lemma listing_stuck {W} (range : bytes -> bytes -> M W (StatusCode * option (list bytes))) apply numthreads schedule end_key w :
  (forall lo, lo = after_key end_key -> range lo end_key w = (Ret (OK, Some [end_key]), w)) ->
  forall fuel i start_key k, range start_key end_key w = (Ret (OK, Some [end_key]), w) ->
    fst (list_keys range apply (fun _ _ => true) COUNT numthreads schedule fuel i start_key end_key (mkCounting w k [])) = OutOfFuel.
Proof.
  intros E fuel. induction fuel as [|fuel IH]; intros i start_key k Es; [done|]. cbn [list_keys].
  assert (forall n s, waiting s = [] -> work apply n s = (Ret tt, s)) as Hwork.
  { intros [|n] s Hs; [done|]. cbn [work]. mstep. by rewrite Hs. }
  rewrite (bind_ret _ _ _ _ _ (Hwork _ (mkCounting w k []) eq_refl)).
  assert (on_world (range start_key end_key) (mkCounting w k []) = (Ret (OK, Some [end_key]), mkCounting w k [])) as Er
    by (unfold on_world, zoom; cbn [world]; by rewrite Es).
  rewrite (bind_ret _ _ _ _ _ Er). rewrite bool_decide_eq_true_2 by done. cbn [negb]. unfold count_key. mstep. apply IH, E. done.
Qed.

(** A cluster that stores a file named by a tilde is never counted. *)
Lemma count_never_ends fuel :
  fst (@count _ Simulator.sim_env Simulator.sim_status_int Example_.crc IsaSim.isa fuel (fun _ => 0%nat) METADATA (fun _ _ => true)
    (Admin_example.file (str "~") Admin_example.cluster)) = OutOfFuel.
Proof.
  set (c := Admin_example.file _ _). unfold count, doOperation. rewrite bind_unfold.
  change (initRangeKeys (id c) METADATA) with (Ret (makeMetadataKey (id c) (str " "), makeMetadataKey (id c) (str "~"))). cbv iota.
  unfold operate. rewrite bind_unfold. unfold try_catch.
  match goal with |- context [list_keys ?r ?ap _ _ ?n ?sch ?f ?i ?lo ?hi (mkCounting c ?k [])] =>
    pose proof (listing_stuck r ap n sch hi c) as Hl; specialize (fun H1 H2 => Hl H1 f i lo k H2);
    destruct (list_keys r ap _ _ n sch f i lo hi (mkCounting c k [])) as [o' s'] end.
  simpl fst in Hl. rewrite Hl; [done| |].
  - intros lo ->. vm_compute. reflexivity.
  - vm_compute. reflexivity.
Qed.

(** A listing that fails ends the operation as if all keys had been visited. *)
Lemma listing_failure_is_silent {W} apply callback o numthreads schedule start_key end_key (w : W) :
  operate (fun _ _ => mret (CLIENT_IO_ERROR, None)) apply callback o numthreads schedule 1 start_key end_key (mkCounting w no_keys []) =
    (Ret no_keys, mkCounting w no_keys []).
Proof.
  unfold operate, try_catch. rewrite bind_unfold. cbn [list_keys].
  assert (forall n, work apply n (mkCounting w no_keys []) = (Ret tt, mkCounting w no_keys [])) as Hwork by (by intros [|n]).
  rewrite (bind_ret _ _ _ _ _ (Hwork _)). reflexivity.
Qed.
