(* ===== verification/AdminListing.v ===== *)
(** * Operations on all keys of a cluster (src/KineticAdminCluster.cc, doOperation)

    The main loop of an administrator's operation on the cluster itself: it lists the keys of a target page
    by page and gives the pages to the threads of its pool.  Section [Loop] follows it for any requests and tasks
    that obey a few laws; the sections after it establish the laws for the requests and tasks of the code,
    over the drives of ClusterDrives.v that hold the chunks of a map. *)

From S2P Require Import Prelude CppString Utility Kinetic Simulator Callbacks ClusterOperation Isa Redundancy StripeOperation.
From S2P Require Import Cluster ClusterInterface ClusterDrives ClusterReads ClusterRefinement AdminCluster.
Import AdminCluster.

(** ** Ranges that continue behind a key *)

Lemma str_ltb_after key key' : str_leb (after_key key) key' = str_ltb key key'.
Proof.
  unfold str_leb, after_key. revert key'. induction key as [|x key IH]; intros [|y key']; cbn [app str_ltb negb]; try done.
  - change (N_of_ascii NUL) with 0%N. destruct (N.ltb_spec (N_of_ascii y) 0); [lia|].
    destruct (0 <? N_of_ascii y)%N; [done|]. by destruct key'.
  - destruct (N.ltb_spec (N_of_ascii y) (N_of_ascii x)), (N.ltb_spec (N_of_ascii x) (N_of_ascii y)); try done; try lia.
Qed.

Lemma str_ltb_leb a b : str_ltb a b = true <-> str_leb a b = true /\ a <> b.
Proof.
  unfold str_leb. rewrite negb_true_iff. split.
  - intros Hab. split; [|by intros ->; rewrite str_ltb_irrefl in Hab].
    destruct (str_ltb b a) eqn:E; [|done]. pose proof (str_ltb_trans _ _ _ Hab E) as Ha. by rewrite str_ltb_irrefl in Ha.
  - intros [Hba Hne]. destruct (str_ltb a b) eqn:E; [done|]. by destruct (Hne (str_ltb_total _ _ E Hba)).
Qed.

Lemma str_ltb_leb_trans a b c : str_ltb a b = true -> str_leb b c = true -> str_ltb a c = true.
Proof. rewrite <- !str_ltb_after. apply str_leb_trans. Qed.

Section Ranges.
Context {A : Type}.
Implicit Types m : gmap bytes A.

Lemma range_of_ext lo hi m m' :
  (forall key, str_leb lo key = true -> is_Some (m' !! key) <-> is_Some (m !! key)) -> range_of lo hi m' = range_of lo hi m.
Proof.
  intros Hm. apply range_unique; [apply key_sorted_range|].
  intros key. rewrite elem_of_range. split; intros (? & ? & ?); (split; [by apply Hm|done]).
Qed.

(** The rest of a range is the range behind the last key of its beginning. *)
Lemma range_after lo hi m p q back : range_of lo hi m = p ++ q -> last p = Some back ->
  m !! hi = None -> str_leb (after_key back) hi = true /\ range_of (after_key back) hi m = q /\
  Forall (fun key => str_ltb key (after_key back) = true) p.
Proof.
  intros E Hlast Hhi. pose proof (key_sorted_range lo hi m) as Hs.
  assert (forall key, key ∈ p ++ q <-> is_Some (m !! key) /\ str_leb lo key = true /\ str_leb key hi = true) as Hin
    by (intros key; rewrite <- E; by apply elem_of_range).
  rewrite E in Hs. apply last_Some in Hlast as [p' ->].
  assert (back ∈ (p' ++ [back])) as Hb by (apply elem_of_app; right; by left).
  destruct (proj1 (Hin back)) as (Hstored & Hlob & Hbhi); [apply elem_of_app; by left|].
  pose proof Hs as (Hpq & Hsp & Hsq)%StronglySorted_app.
  apply StronglySorted_app in Hsp as (Hpb & _).
  assert (forall key, key ∈ p' ++ [back] -> str_leb key back = true) as Hback.
  { intros key [Hk| ->%list_elem_of_singleton]%elem_of_app; [|unfold str_leb; by rewrite str_ltb_irrefl].
    apply str_ltb_leb, Hpb; [done|by left]. }
  assert (str_leb (after_key back) hi = true) as Hnext.
  { rewrite str_ltb_after, str_ltb_leb. split; [done|]. intros ->. rewrite Hhi in Hstored. by destruct Hstored. }
  split_and!; [done| |].
  - apply range_unique; [done|]. intros key. rewrite str_ltb_after. split.
    + intros Hk. destruct (proj1 (Hin key)) as (? & ? & ?); [apply elem_of_app; by right|]. split_and!; [done|by apply Hpq|done].
    + intros (Hk & Hbk & Hkhi). assert (key ∈ (p' ++ [back]) ++ q) as Hk'.
      { apply Hin. split_and!; [done| |done]. apply str_leb_trans with back; [done|]. by apply str_ltb_leb in Hbk as [? _]. }
      apply elem_of_app in Hk' as [Hp%Hback|]; [|done]. unfold str_leb in Hp. by rewrite Hbk in Hp.
  - apply Forall_forall. intros key Hk%Hback. apply negb_false_iff. change (negb (str_ltb key (after_key back))) with (str_leb (after_key back) key).
    rewrite str_ltb_after. by apply negb_true_iff.
Qed.
End Ranges.

(** ** The main loop *)

(** What the loop needs: the state of the system and the counts agree with a map of what is stored and the list
    of keys whose tasks are done; requests return pages of the map; tasks given keys in the order of
    [all] keys return, and leave the keys behind their own alone. *)
Record listing_laws {W A} (range : bytes -> bytes -> M W (StatusCode * option (list bytes))) (applyOperation : list bytes -> M (counting W) unit)
    (o : Operation) (rep : W -> KeyCounts -> gmap bytes A -> list bytes -> Prop) (all : list bytes) (page : nat) : Prop := {
  page_positive : (0 < page)%nat;
  total_free : forall n w k m done, rep w k m done -> rep w (add_total n k) m done;
  range_lists : forall lo hi w k m done, rep w k m done -> str_leb lo hi = true -> exists w',
    range lo hi w = (Ret (OK, Some (take page (range_of lo hi m))), w') /\ rep w' k m done;
  task_runs : o <> COUNT -> forall keys w k q m done, rep w k m done -> (done ++ keys) `prefix_of` all -> exists w' k' m',
    applyOperation keys (mkCounting w k q) = (Ret tt, mkCounting w' k' q) /\ total k' = total k /\ rep w' k' m' (done ++ keys) /\
    forall key, Forall (fun x => str_ltb x key = true) keys -> is_Some (m' !! key) <-> is_Some (m !! key);
}.

Section Loop.
Context {W A : Type} (range : bytes -> bytes -> M W (StatusCode * option (list bytes))).
Context (applyOperation : list bytes -> M (counting W) unit) (o : Operation) (rep : W -> KeyCounts -> gmap bytes A -> list bytes -> Prop).
Context (all : list bytes) (page : nat) (laws : listing_laws range applyOperation o rep all page).
Context (numthreads : nat) (schedule : nat -> nat) (end_key : bytes).

(** The keys [listed] so far and those from [start_key] on are all keys; those listed are done or
    wait in the pool, and lie before [start_key]. *)
Record progress (listed : list bytes) (start_key : bytes) (m : gmap bytes A) (done : list bytes) (s : counting W) : Prop := {
  pr_rep : rep (world s) (key_counts s) m done;
  pr_range : str_leb start_key end_key = true;
  pr_end : m !! end_key = None;
  pr_keys : listed ++ range_of start_key end_key m = all;
  pr_total : total (key_counts s) = i32 (slen listed);
  pr_done : done ++ concat (waiting s) = if bool_decide (o = COUNT) then [] else listed;
  pr_waiting : Forall (Forall (fun k => str_ltb k start_key = true)) (waiting s);
  pr_idle : o = COUNT -> waiting s = [];
}.

Lemma unchanged_behind (lo : bytes) (keys : list bytes) (m m' : gmap bytes A) : str_leb lo end_key = true ->
  (forall key, Forall (fun k => str_ltb k key = true) keys -> is_Some (m' !! key) <-> is_Some (m !! key)) ->
  Forall (fun k => str_ltb k lo = true) keys ->
  range_of lo end_key m' = range_of lo end_key m /\ (m !! end_key = None -> m' !! end_key = None).
Proof.
  intros Hle Hm Hk. assert (forall key, str_leb lo key = true -> is_Some (m' !! key) <-> is_Some (m !! key)) as Hlo.
  { intros key Hkey. apply Hm. eapply Forall_impl; [exact Hk|]. intros k. simpl. intros Hk'. by eapply str_ltb_leb_trans. }
  split; [by apply range_of_ext|]. intros Hnone. apply eq_None_not_Some. rewrite (Hlo end_key Hle), Hnone. by intros [].
Qed.

(** The next task of the pool. *)
Lemma task_progress listed start_key m done s keys rest : progress listed start_key m done s -> waiting s = keys :: rest ->
  exists m' s', applyOperation keys (mkCounting (world s) (key_counts s) rest) = (Ret tt, s') /\ waiting s' = rest /\
    progress listed start_key m' (done ++ keys) s'.
Proof.
  intros [Hrep Hle Hend Hkeys Htotal Hdone Hwait Hidle] Ew. rewrite Ew in *. apply Forall_cons in Hwait as [Hk Hwait].
  assert (o <> COUNT) as Ho by (by intros Ho%Hidle). rewrite bool_decide_eq_false_2 in Hdone by done. cbn [concat] in Hdone.
  destruct (task_runs _ _ _ _ _ _ laws Ho keys (world s) (key_counts s) rest m done Hrep) as (w' & k' & m' & E & Ht & Hrep' & Hm').
  { exists (concat rest ++ range_of start_key end_key m). by rewrite <- Hkeys, <- Hdone, <- !app_assoc. }
  destruct (unchanged_behind start_key keys m m' Hle Hm' Hk) as [Hr Hn].
  exists m', (mkCounting w' k' rest). split_and!; [done..|]. split; cbn [world key_counts waiting]; try done.
  - by apply Hn.
  - by rewrite Hr.
  - by rewrite Ht.
  - rewrite bool_decide_eq_false_2 by done. by rewrite <- app_assoc.
Qed.

Lemma run_task_ret keys s s' : applyOperation keys s = (Ret tt, s') -> run_task applyOperation keys s = (Ret tt, s').
Proof. intros E. unfold run_task, try_catch. by rewrite E. Qed.

Lemma work_progress n listed start_key m done s : progress listed start_key m done s ->
  exists m' done' s', work applyOperation n s = (Ret tt, s') /\ progress listed start_key m' done' s' /\
    ((length (waiting s) <= n)%nat -> waiting s' = []).
Proof.
  revert m done s. induction n as [|n IH]; intros m done s Hp; cbn [work].
  { exists m, done, s. split_and!; [done..|]. intros Hn. destruct (waiting s); [done|]. simpl in Hn. lia. }
  mstep. destruct (waiting s) as [|keys rest] eqn:Ew; [by exists m, done, s|]. mstep.
  destruct (task_progress _ _ _ _ _ keys rest Hp Ew) as (m1 & s1 & E1 & Ew1 & Hp1).
  rewrite (bind_ret _ _ _ _ _ (run_task_ret _ _ _ E1)). destruct (IH m1 (done ++ keys) s1 Hp1) as (m2 & done2 & s2 & E2 & Hp2 & Hd).
  exists m2, done2, s2. split_and!; [done..|]. intros Hl. apply Hd. rewrite Ew1. simpl in Hl. lia.
Qed.

Lemma submit_progress (keys : list bytes) listed start_key m done s : o <> COUNT ->
  progress listed start_key m done (mkCounting (world s) (key_counts s) (waiting s ++ [keys])) ->
  (numthreads = 0%nat -> waiting s = []) ->
  exists m' done' s', submit applyOperation numthreads keys s = (Ret tt, s') /\ progress listed start_key m' done' s' /\
    (numthreads = 0%nat -> waiting s' = []).
Proof.
  intros Ho Hp Hnone. unfold submit. case_bool_decide as En.
  2: { eexists m, done, _. split_and!; [done|done|by intros ->]. }
  specialize (Hnone En). destruct s as [w k q]. cbn [world key_counts waiting] in *. subst q. cbn [app] in Hp.
  destruct (task_progress _ _ _ _ _ keys [] Hp eq_refl) as (m1 & s1 & E1 & Ew1 & Hp1). by exists m1, (done ++ keys), s1.
Qed.

Lemma page_progress listed start_key m done s p q back : progress listed start_key m done s ->
  range_of start_key end_key m = p ++ q -> last p = Some back ->
  progress (listed ++ p) (after_key back) m done
    (mkCounting (world s) (add_total (slen p) (key_counts s)) (if bool_decide (o = COUNT) then waiting s else waiting s ++ [p])).
Proof.
  intros [Hrep Hle Hend Hkeys Htotal Hdone Hwait Hidle] E Hlast.
  destruct (range_after _ _ _ _ _ _ E Hlast Hend) as (Hle' & Hq & Hp).
  assert (str_leb start_key (after_key back) = true) as Hsa.
  { apply str_leb_trans with back.
    - assert (back ∈ range_of start_key end_key m) as Hb; [|by apply elem_of_range in Hb as (? & ? & ?)].
      rewrite E. apply elem_of_app. left. by apply last_Some_elem_of.
    - apply last_Some_elem_of in Hlast. rewrite Forall_forall in Hp. specialize (Hp _ Hlast). simpl in Hp.
      by apply str_ltb_leb in Hp as [? _]. }
  split; cbn [world waiting key_counts]; try done.
  - by eapply total_free.
  - by rewrite Hq, <- app_assoc, <- E.
  - unfold add_total. cbn [total]. rewrite Htotal, i32_add, slen_app. f_equal.
  - case_bool_decide; [done|]. by rewrite concat_app, app_assoc, Hdone; cbn [concat]; rewrite app_nil_r.
  - assert (Forall (Forall (fun k => str_ltb k (after_key back) = true)) (waiting s)) as Hw.
    { eapply Forall_impl; [exact Hwait|]. intros ks Hks. eapply Forall_impl; [exact Hks|]. intros k. simpl. intros Hk.
      by eapply str_ltb_leb_trans. }
    case_bool_decide; [done|]. apply Forall_app. split; [done|]. by apply Forall_singleton.
  - intros Ho. rewrite bool_decide_eq_true_2 by done. by apply Hidle.
Qed.

Lemma list_keys_progress callback fuel i listed start_key m done s :
  (forall i n, callback i n = true) -> progress listed start_key m done s -> (numthreads = 0%nat -> waiting s = []) ->
  (length all < fuel + length listed)%nat ->
  exists s' start_key' m' done', list_keys range applyOperation callback o numthreads schedule fuel i start_key end_key s = (Ret tt, s') /\
    progress all start_key' m' done' s'.
Proof.
  intros Hgo. revert i listed start_key m done s. induction fuel as [|fuel IH]; intros i listed start_key m done s Hp Hin Hf.
  { exfalso. rewrite <- (pr_keys _ _ _ _ _ Hp), length_app in Hf. lia. }
  cbn [list_keys]. destruct (work_progress (schedule i) _ _ _ _ _ Hp) as (m1 & done1 & s1 & E1 & Hp1 & Hw1).
  assert (numthreads = 0%nat -> waiting s1 = []) as Hin1 by (intros En; apply Hw1; rewrite Hin by done; simpl; lia).
  rewrite (bind_ret _ _ _ _ _ E1). clear E1 Hw1 Hin Hp s.
  destruct (range_lists _ _ _ _ _ _ laws start_key end_key (world s1) _ _ _ (pr_rep _ _ _ _ _ Hp1) (pr_range _ _ _ _ _ Hp1)) as (w2 & E2 & Hrep2).
  set (l := range_of start_key end_key m1) in *. set (p := take page l) in *.
  set (s2 := mkCounting w2 (key_counts s1) (waiting s1)).
  assert (on_world (range start_key end_key) s1 = (Ret (OK, Some p), s2)) as E by (unfold on_world, zoom; by rewrite E2).
  rewrite (bind_ret _ _ _ _ _ E). clear E E2. rewrite bool_decide_eq_true_2 by done. cbn [negb default].
  assert (progress listed start_key m1 done1 s2) as Hp2 by (destruct Hp1; by split).
  destruct (last p) as [back|] eqn:Elast.
  2: { apply last_None in Elast. rewrite Elast, bool_decide_eq_true_2 by done. cbn [negb]. mstep. rewrite Hgo. cbn [negb last].
    exists s2, start_key, m1, done1. split; [done|]. assert (l = []) as Hnil.
    { destruct l; [done|]. unfold p in Elast. pose proof (page_positive _ _ _ _ _ _ laws). by destruct page; [lia|]. }
    pose proof (pr_keys _ _ _ _ _ Hp2) as Hk. fold l in Hk. rewrite Hnil, app_nil_r in Hk. by rewrite Hk in Hp2. }
  assert (p <> []) as Hne by by intros Hn; rewrite Hn in Elast. rewrite bool_decide_eq_false_2 by done. cbn [negb]. mstep.
  pose proof (page_progress listed start_key m1 done1 s2 p (drop page l) back Hp2 (eq_sym (take_drop page l)) Elast) as Hp3.
  unfold count_key. mstep. set (s3 := mkCounting (world s2) (add_total (slen p) (key_counts s2)) (waiting s2)) in *.
  assert (exists m4 done4 s4, when (negb (bool_decide (o = COUNT))) (submit applyOperation numthreads p) s3 = (Ret tt, s4) /\
    progress (listed ++ p) (after_key back) m4 done4 s4 /\ (numthreads = 0%nat -> waiting s4 = [])) as (m4 & done4 & s4 & E4 & Hp4 & Hin4).
  { case_bool_decide; cbn [negb when]; [by exists m1, done1, s3|]. by eapply submit_progress. }
  rewrite (bind_ret _ _ _ _ _ E4). mstep. rewrite Hgo. cbn [negb].
  change (Datatypes.id p) with p. rewrite Elast. apply (IH (S i) (listed ++ p) (after_key back) m4 done4 s4); [done..|].
  rewrite length_app. destruct p; [done|]. simpl. lia.
Qed.

Lemma operate_spec callback fuel start_key w m : rep w no_keys m [] -> all = range_of start_key end_key m ->
  (forall i n, callback i n = true) -> (length all < fuel)%nat -> str_leb start_key end_key = true -> m !! end_key = None ->
  exists m' s', operate range applyOperation callback o numthreads schedule fuel start_key end_key (mkCounting w no_keys []) =
      (Ret (key_counts s'), s') /\
    rep (world s') (key_counts s') m' (if bool_decide (o = COUNT) then [] else all) /\ total (key_counts s') = i32 (slen all).
Proof.
  intros Hrep Hall Hgo Hf Hle Hend. set (s := mkCounting w no_keys []).
  destruct (list_keys_progress callback fuel 0 [] start_key m [] s) as (s1 & sk & m1 & done1 & E & Hp); [done| |done|simpl; lia|].
  { split; cbn [world waiting key_counts s]; try done. by case_bool_decide. }
  destruct (work_progress (length (waiting s1)) _ _ _ _ _ Hp) as (m2 & done2 & s2 & E2 & Hp2 & Hdone). specialize (Hdone ltac:(done)).
  exists m2, s2. assert (finish applyOperation s1 = (Ret tt, s2)) as Ef by done.
  unfold operate, try_catch. rewrite bind_unfold, E. rewrite (bind_ret _ _ _ _ _ Ef). destruct Hp2 as [Hr _ _ _ Ht Hs _ _].
  rewrite Hdone in Hs. cbn [concat] in Hs. rewrite app_nil_r in Hs. rewrite <- Hs. by split_and!.
Qed.
End Loop.

(** ** Requests and tasks on healthy drives *)

Section Healthy.
Context `{RD : Drives D nconn} {SI : StatusInt} {SIL : StatusIntLaws} `{Checksum} `{IsaLaws k m}.
Variables capacity limit : Z.
Hypothesis geometry_ok : geometry k m nconn capacity limit.

Implicit Types (c : KineticCluster D) (s : gmap bytes (bytes * bytes)).

Abbreviation represents := (represents (k:=k) (m:=m) capacity limit).

(** A scan looks at all chunks of a key; with all of them in place it finds nothing to do. *)
Lemma scan_round_healthy key c s : represents c s -> is_Some (s !! key) ->
  exists rm g, scan_round key c = (Ret rm, g) /\ get_ops g = responded true key (cl_env c) <$> placed nconn key m /\
    redundancy (get_stripe g) = cl_redundancy c /\ same (nconn:=nconn) (cl_env c) (op_env (so_op (get_stripe g))).
Proof using geometry_ok.
  intros Hr Hkey. pose proof Hr as [Hw Hrp Hn _ _ Hs]. destruct geometry_ok as (Hkm & _ & Hwide & Hfew & _).
  destruct (provider_geometry (geometry_ok:=geometry_ok) _ Hrp) as (Hsz & _ & _).
  assert (0 < nconn)%nat as Hpos by lia.
  set (d := cl_env c) in *. set (w0 := mkStripe (mkOperation (unanswered true key <$> placed nconn key m) (0 + Z.of_nat m) d) false (cl_redundancy c)).
  assert (new_get (connections c) key true true (fresh_stripe c) = (Ret tt, w0)) as Enew.
  { rewrite Hn. rewrite (new_get_spec nconn key Hpos Hfew true true (fresh_stripe c) eq_refl).
    cbn [fresh_stripe redundancy so_op fresh_operation new_operation op_sync op_env need_indicator]. fold d. rewrite Hsz. unfold w0. do 4 f_equal.
    unfold batch. rewrite <- (length_placed nconn key m) at 1. by rewrite zip_with_replicate_l. }
  destruct (vector_of_reads true key [] (placed nconn key m) (0 + Z.of_nat m) d d) as (t' & d' & Eexec & Hsame).
  { split_and!; [apply Hw|done..]. }
  { by apply placed_connections. }
  cbn [fmap list_fmap app] in Eexec.
  eexists _, (mkGet (mkStripe (mkOperation (responded true key d <$> placed nconn key m) t' d') false (cl_redundancy c)) _ _).
  split_and!; [|done..].
  unfold scan_round, on_stripe, zoom. cbn [get_stripe fresh_get].
  rewrite (bind_ret _ _ _ _ _ Enew). unfold on_op, zoom, w0. cbn [so_op]. rewrite Eexec. done.
Qed.

Lemma scanKey_healthy key c s kc q : represents c s -> is_Some (s !! key) ->
  exists c', scanKey key (mkCounting c kc q) = (Ret false, mkCounting c' kc q) /\ represents c' s.
Proof using SIL H2 geometry_ok.
  intros Hr Hkey. destruct (scan_round_healthy key c s Hr Hkey) as (rm & g & Eg & Eops & Erp & Hsame).
  pose proof Hr as [Hw Hrp Hn _ _ Hs]. destruct geometry_ok as (Hkm & _ & Hwide & Hfew & _).
  destruct (provider_geometry (geometry_ok:=geometry_ok) _ Hrp) as (Hsz & Hnd & _).
  set (d := cl_env c) in *. set (conns := placed nconn key m) in *.
  assert (Forall (fun conn => answer_ok true (s !! key) d conn (response true key d conn)) conns) as Hans
    by (apply (placed_answers capacity limit geometry_ok); [by apply (stored_held d d)|done]).
  assert (lost d conns = 0%nat) as Hlost.
  { assert (Forall (fun i => i < nconn)%nat conns) as Hf by (apply placed_connections; lia). destruct Hw as [_ Hup].
    unfold lost. clear -Hf Hup. induction Hf as [|i conns Hi _ IH]; [done|]. cbn. by rewrite (Hup i Hi). }
  destruct (answers_version capacity limit geometry_ok true key d (s !! key) conns Hans) as (mf & Emf & Hfreq & _). rewrite <- Eops in Emf.
  pose proof (count_answers capacity limit geometry_ok true key d (s !! key) conns Hans) as Hcount. cbv zeta in Hcount.
  assert (op_callback <$> get_ops g = Some <$> (response true key d <$> conns)) as Hcbs by (rewrite Eops; by rewrite <- !list_fmap_compose).
  destruct (scanKey_round key (mkCounting c kc q) rm g _ mf Eg Emf Hcbs) as (s' & Ek & Ewt & Ew & E).
  assert (getResult <$> (response true key d <$> conns) = results (responded true key d <$> conns)) as Eres
    by (rewrite Eops in Hcbs; by rewrite (results_of_callbacks _ _ Hcbs)).
  rewrite Eres, !Hcount in Ek, E. rewrite Hlost in *. assert (slen conns = Z.of_nat m) as Hlen by (unfold slen, conns; by rewrite length_placed).
  assert (found (s !! key) = OK) as Hfound by (by destruct Hkey as [? ->]). rewrite Hfound in *. rewrite Hcount, Hlen in *.
  rewrite !decide_True in * by done. rewrite !(decide_False (P := REMOTE_NOT_FOUND = _)) in * by done.
  cbn [world] in *. rewrite Hsz in Ek. rewrite Hnd in E.
  assert ((Z.of_nat m - Z.of_nat 0 + 0 <? Z.of_nat m) = false) as El by (apply Z.ltb_ge; lia). rewrite El in Ek.
  assert ((frequency mf =? Z.of_nat m - Z.of_nat 0 + 0) && (Z.of_nat k <=? Z.of_nat m - Z.of_nat 0 + 0) = true) as Et by (apply andb_true_iff; split; [apply Z.eqb_eq|apply Z.leb_le]; lia). rewrite Et in E.
  exists (world s'). split; [rewrite E; by destruct s'; cbn in *; subst|].
  rewrite Ew. cbn [world]. destruct (same_working _ _ Hw Hsame) as [Hw' Hd]. rewrite Erp. by apply represents_same.
Qed.

(** Removing a key that is stored. *)
Lemma remove_any_healthy key c s : represents c s -> is_Some (s !! key) ->
  exists c', remove_any (Some key) c = (Ret OK, c') /\ represents c' (delete key s).
Proof using SIL H2 geometry_ok.
  intros Hr [e He]. destruct (do_remove_store capacity limit geometry_ok c s key [] IGNORE_VERSION Hr) as (c' & E & Hr').
  unfold removal in *. rewrite He in *. cbn [accepts] in *. rewrite bool_decide_eq_true_2 in Hr' by done. by exists c'.
Qed.

(** What an operation does to a key that is stored. *)
Lemma apply_key_healthy o t key c s kc q : o <> COUNT -> t <> INDICATOR -> represents c s -> is_Some (s !! key) ->
  exists c', apply_key o t key (mkCounting c kc q) = (Ret tt, mkCounting c' (if bool_decide (o = RESET) then add_removed kc else kc) q) /\
    represents c' (if bool_decide (o = RESET) then delete key s else s).
Proof using SIL H2 geometry_ok.
  intros Ho Ht Hr Hkey. destruct o; cbn [apply_key]; [done|..].
  - destruct (scanKey_healthy key c s kc q Hr Hkey) as (c' & E & Hr'). exists c'. by rewrite (bind_ret _ _ _ _ _ E).
  - destruct (scanKey_healthy key c s kc q Hr Hkey) as (c' & E & Hr'). exists c'. rewrite (bind_ret _ _ _ _ _ E).
    by rewrite bool_decide_eq_false_2 by done.
  - destruct (remove_any_healthy key c s Hr Hkey) as (c' & E & Hr'). exists c'. rewrite bool_decide_eq_false_2 by done.
    assert (on_world (remove_any (Some key)) (mkCounting c kc q) = (Ret OK, mkCounting c' kc q)) as E'
      by (unfold on_world, zoom; cbn [world]; by rewrite E).
    rewrite bind_assoc, (bind_ret _ _ _ _ _ E'). by rewrite bool_decide_eq_true_2.
Qed.

(** The counts after the tasks of [n] keys of which nothing was missing. *)
Definition counts_after (o : Operation) (n : nat) (total : Z) : KeyCounts :=
  mkKeyCounts total 0 0 0 (if bool_decide (o = RESET) then i32 (Z.of_nat n) else 0) 0.

(** The cluster and the counts after the tasks of the keys [done]. *)
Definition recorded (o : Operation) (s0 : gmap bytes (bytes * bytes)) c (kc : KeyCounts) s (done : list bytes) : Prop :=
  represents c s /\ kc = counts_after o (length done) (total kc) /\
  forall key, s !! key = if bool_decide (o = RESET) && bool_decide (key ∈ done) then None else s0 !! key.

Lemma counts_after_next o n t : (if bool_decide (o = RESET) then add_removed (counts_after o n t) else counts_after o n t) = counts_after o (S n) t.
Proof.
  unfold counts_after. case_bool_decide; [|done]. unfold add_removed. cbn [total incomplete need_action repaired removed unrepairable].
  rewrite i32_add. do 2 f_equal. lia.
Qed.

(** One task: its keys one after the other. *)
Lemma tasks_recorded o t s0 all : o <> COUNT -> t <> INDICATOR -> NoDup all -> (forall key, key ∈ all -> is_Some (s0 !! key)) ->
  forall keys c kc q s done, recorded o s0 c kc s done -> (done ++ keys) `prefix_of` all ->
  exists c' kc' s', applyOperation o t keys (mkCounting c kc q) = (Ret tt, mkCounting c' kc' q) /\ total kc' = total kc /\
    recorded o s0 c' kc' s' (done ++ keys) /\
    forall key, key ∉ keys -> s' !! key = s !! key.
Proof using SIL H2 geometry_ok.
  intros Ho Ht Hall Hstored. unfold applyOperation. set (f := fun key : bytes => _).
  assert (forall keys c kc q s done, recorded o s0 c kc s done -> (done ++ keys) `prefix_of` all ->
    exists l c' kc' s', mapM f keys (mkCounting c kc q) = (Ret l, mkCounting c' kc' q) /\ total kc' = total kc /\
      recorded o s0 c' kc' s' (done ++ keys) /\ forall key, key ∉ keys -> s' !! key = s !! key) as Hloop.
  { induction keys as [|key keys IH]; intros c kc q s done Hrec Hpre; cbn [mapM].
    { exists [], c, kc, s. by rewrite app_nil_r. }
    destruct Hrec as (Hr & Hkc & Hs). assert (key ∉ done /\ is_Some (s0 !! key)) as [Hnew Hkey].
    { destruct Hpre as [rest ->]. split.
      - apply NoDup_app in Hall as (Hall & _). apply NoDup_app in Hall as (_ & Hcross & _). intros Hin. apply (Hcross key Hin). by left.
      - apply Hstored, elem_of_app. left. apply elem_of_app. right. by left. }
    assert (s !! key = s0 !! key) as Es by (by rewrite Hs, (bool_decide_eq_false_2 _ Hnew), andb_false_r).
    destruct (apply_key_healthy o t key c s kc q Ho Ht Hr ltac:(by rewrite Es)) as (c1 & E & Hr1).
    set (kc1 := if bool_decide (o = RESET) then add_removed kc else kc) in *. set (s1 := if bool_decide (o = RESET) then delete key s else s) in *.
    assert (f key (mkCounting c kc q) = (Ret tt, mkCounting c1 kc1 q)) as Ef.
    { unfold f. rewrite bool_decide_eq_false_2 by done. unfold try_catch. mstep. by rewrite E. }
    rewrite (bind_ret _ _ _ _ _ Ef). assert (total kc1 = total kc) as Et by (unfold kc1; by case_bool_decide).
    destruct (IH c1 kc1 q s1 (done ++ [key])) as (l & c2 & kc2 & s2 & E2 & Et2 & Hrec2 & Hk2).
    - split_and!; [done| |].
      + rewrite length_app, Nat.add_1_r, Et, <- counts_after_next, <- Hkc. done.
      + intros x. unfold s1. case_bool_decide as Hreset; cbn [andb].
        * destruct (decide (x = key)) as [->|Hne].
          { rewrite lookup_delete_eq, bool_decide_eq_true_2; [done|]. apply elem_of_app. right. by left. }
          rewrite lookup_delete_ne, Hs by done. cbn [andb].
          rewrite (bool_decide_ext (x ∈ done ++ [key]) (x ∈ done)); [done|]. rewrite elem_of_app, list_elem_of_singleton. naive_solver.
        * by rewrite Hs.
    - by rewrite <- app_assoc.
    - rewrite (bind_ret _ _ _ _ _ E2). exists (tt :: l), c2, kc2, s2. rewrite <- app_assoc in Hrec2.
      split_and!; [done|by rewrite Et2|done|]. intros x [Hx1 Hx2]%not_elem_of_cons. rewrite Hk2 by done. unfold s1.
      case_bool_decide; [by rewrite lookup_delete_ne|done]. }
  intros keys c kc q s done Hrec Hpre. destruct (Hloop keys c kc q s done Hrec Hpre) as (l & c' & kc' & s' & E & Hrest).
  exists c', kc', s'. split; [by rewrite (bind_ret _ _ _ _ _ E)|done].
Qed.

(** The ranges of the targets are not empty. *)
Lemma initRangeKeys_forward id t lo hi : initRangeKeys id t = Ret (lo, hi) -> str_leb lo hi = true.
Proof.
  destruct t; intros [= <- <-]; unfold makeDataKey, makeMetadataKey, makeAttributeKey, makeIndicatorKey;
    rewrite ?str_leb_app; try by vm_compute.
  rewrite <- (app_nil_r id) at 1. by rewrite str_leb_app.
Qed.

Lemma cluster_listing_laws o t s lo hi : o = COUNT \/ t <> INDICATOR ->
  listing_laws (fun a b => range (Some a) (Some b) 0) (applyOperation o t) o (recorded o s) (range_of lo hi s) (Z.to_nat limit).
Proof using SIL H2 geometry_ok.
  intros Hot. destruct geometry_ok as (_ & _ & _ & _ & _ & Hlimit). split.
  - lia.
  - intros n c kc s1 done (Hr & Hkc & Hs). split_and!; [done| |done]. rewrite Hkc. done.
  - intros a b c kc s1 done (Hr & Hrest) Hle.
    destruct (do_range_store capacity limit geometry_ok c s1 a b 0 Hr Hle ltac:(unfold INT_MAX; lia)) as (c' & E & Hr'). exists c'. by split_and!.
  - intros Ho keys c kc q s1 done Hrec Hpre. destruct Hot as [|Ht]; [done|].
    destruct (tasks_recorded o t s (range_of lo hi s) Ho Ht (NoDup_range lo hi s)) with (keys := keys) (c := c) (kc := kc) (q := q) (s := s1) (done := done)
      as (c' & kc' & s' & E & Et & Hrec' & Hk); [|done..|].
    { intros key Hkey. by apply elem_of_range in Hkey as [? _]. }
    exists c', kc', s'. split_and!; [done..|]. intros key Hlt. rewrite Hk; [done|]. intros Hin. rewrite Forall_forall in Hlt.
    specialize (Hlt key Hin). simpl in Hlt. by rewrite str_ltb_irrefl in Hlt.
Qed.

(** C23: An operation on a healthy cluster visits every key of its target once and ends.  The cluster's working drives
    hold the map [s]; the operation counts, or works on data, metadata or attribute keys; the callback never asks
    to stop, and no key equals the end of the target's range.  Then the loop of the tool, over the cluster's own range requests
    and with its own scans and removals, ends after at most one request more than there are keys, whatever the number of threads and the
    moments at which they complete their tasks.  The total is the number of stored keys of the range; a scan or a repair
    finds nothing to do and leaves the map as it is; a reset removes each of the keys, once, and no other. *)
Theorem admin_listing c s fuel schedule o t callback numthreads start_key end_key :
  represents c s -> initRangeKeys (id c) t = Ret (start_key, end_key) -> s !! end_key = None ->
  o = COUNT \/ t <> INDICATOR -> (forall i n, callback i n = true) ->
  let keys := range_of start_key end_key s in
  (length keys < fuel)%nat ->
  exists c' s', doOperation fuel schedule o t callback numthreads c =
      (Ret (mkKeyCounts (i32 (slen keys)) 0 0 0 (if bool_decide (o = RESET) then i32 (slen keys) else 0) 0), c') /\
    represents c' s' /\
    forall key, s' !! key = if bool_decide (o = RESET) && bool_decide (key ∈ keys) then None else s !! key.
Proof using SIL H2 geometry_ok.
  intros Hr Hkeys Hend Hot Hgo keys Hf.
  destruct (operate_spec _ _ o _ keys _ (cluster_listing_laws o t s start_key end_key Hot) numthreads schedule end_key callback fuel
    start_key c s) as (s' & st & E & (Hr' & Hkc & Hs') & Ht); [|done..|by eapply initRangeKeys_forward|done|].
  { split_and!; [done| |].
    - unfold counts_after. by case_bool_decide.
    - intros key. by rewrite andb_false_r. }
  exists (world st), s'. unfold doOperation. rewrite Hkeys, E. split_and!; [|done|].
  - f_equal. rewrite Hkc, Ht. unfold counts_after. do 2 f_equal. case_bool_decide as Ho; [|done].
    rewrite bool_decide_eq_false_2 by (by rewrite Ho). done.
  - intros key. rewrite Hs'. destruct (decide (o = COUNT)) as [->|Ho]; [done|]. by rewrite (bool_decide_eq_false_2 (o = COUNT)).
Qed.
End Healthy.

Module Listing_example.
(** The drives of the example cluster hold the map [s]. *)
Definition holds (c : KineticCluster Simulator.sim) (s : gmap bytes (bytes * bytes)) : Prop :=
  @represents _ 3 Simulator.sim_env (Refinement_example.sim_answering 3) Example_.crc IsaSim.isa 2 3 4 100 c s.

Lemma small_geometry : geometry 2 3 3 4 100.
Proof. unfold geometry, INT_MAX. split_and!; lia. Qed.

(** A file that is created. *)
Lemma file_holds path c s : holds c s -> exists v, holds (Admin_example.file path c) (<[makeMetadataKey (str "C1") path := (v, str "x")]> s).
Proof.
  intros Hr.
  destruct (@call_refines _ 3 _ (Refinement_example.sim_answering 3) Simulator.sim_status_int Simulator.sim_status_int_laws Example_.crc
    IsaSim.isa 2 3 IsaSim.isa_laws 4 100 c s (CPutAny (makeMetadataKey (str "C1") path) (str "x")) 1 small_geometry Hr) as (v & c' & E & Hr');
    [by vm_compute|].
  exists v. cbn [store_call] in *. unfold Admin_example.file. cbn [run_call] in E. apply bind_inv_ret in E as (a & c1 & E1 & E).
  injection E as _ ->. cbn [ci_put_any kinetic_cluster] in E1. by rewrite E1.
Qed.

Lemma empty_holds : holds Admin_example.cluster ∅.
Proof.
  apply empty_represents; try done.
  - split; [done|]. intros [|[|[|i]]] Hi; (reflexivity || lia).
  - by eexists.
  - intros [|[|[|i]]] Hi; (done || lia).
Qed.
End Listing_example.

(** Two files, and a third one whose name lies behind the range of the tool. *)
Lemma admin_listing_witness :
  exists c' s', Admin_example.operation RESET 1 (Admin_example.file (str "~c") Admin_example.files) = (Ret (mkKeyCounts 2 0 0 0 2 0), c') /\
    Listing_example.holds c' s' /\ s' !! makeMetadataKey (str "C1") (str "a") = None /\
    is_Some (s' !! makeMetadataKey (str "C1") (str "~c")).
Proof.
  destruct (Listing_example.file_holds (str "a") _ _ Listing_example.empty_holds) as (v1 & H1).
  destruct (Listing_example.file_holds (str "b") _ _ H1) as (v2 & H2).
  destruct (Listing_example.file_holds (str "~c") _ _ H2) as (v3 & H3).
  change (Admin_example.file (str "b") _) with Admin_example.files in H3. set (s := <[_ := _]> (<[_ := _]> _)) in H3.
  set (lo := makeMetadataKey (str "C1") (str " ")). set (hi := makeMetadataKey (str "C1") (str "~")).
  assert (range_of lo hi s = [makeMetadataKey (str "C1") (str "a"); makeMetadataKey (str "C1") (str "b")]) as El by (vm_compute; reflexivity).
  destruct (@admin_listing _ 3 _ (Refinement_example.sim_answering 3) Simulator.sim_status_int Simulator.sim_status_int_laws Example_.crc
    IsaSim.isa 2 3 IsaSim.isa_laws 4 100 Listing_example.small_geometry (Admin_example.file (str "~c") Admin_example.files) s 5
    (fun _ => 0%nat) RESET METADATA (fun _ _ => true) 1 lo hi H3) as (c' & s' & E & Hr & Hs).
  - vm_compute. reflexivity.
  - vm_compute. reflexivity.
  - by right.
  - done.
  - rewrite El. cbn. lia.
  - exists c', s'. rewrite El in E. split; [exact E|]. split; [exact Hr|]. split.
    + rewrite Hs, El. vm_compute. reflexivity.
    + rewrite Hs, El. exists (v3, str "x"). vm_compute. reflexivity.
Defined.
