(* ===== verification/Connection.v ===== *)
(** * Connections to drives (src/KineticAutoConnection.cc, src/SocketListener.cc)

    A connection object hands out the connection of the client library while it is healthy and
    schedules reconnection attempts, limited in rate, while it is not.  Its socket is registered with a
    listener that all connections share.  [get], [setError] and the last part of [connect] are critical sections;
    attempts run in threads of a pool of their own, which is the relation [step].  What the client
    library and the system calls do during an attempt is the parameter [attempt]. *)

From S2P Require Import Prelude CppString Kinetic BackgroundOperationHandler.

Module Connection.

(** [kinetic::ConnectionOptions] *)
Record ConnectionOptions := mkOptions {
  host : bytes;
  port : Z;
  use_ssl : bool;
  user_id : Z;
  hmac_key : bytes;
}.

(** ** The socket listener *)

(** The descriptors the listener waits for, each with the connection object it was registered by. *)
Abbreviation interest_list := (gmap Z nat) (only parsing).

(** [SocketListener::subscribe]; [failure] is an error of the system call other than that the descriptor
    is there already. *)
Definition subscribe (fd : Z) (connection : nat) (failure : option errc) : M interest_list unit :=
  l ← get;
  match failure, l !! fd with
  | Some e, _ => throw (system_error e)
  | None, Some _ => throw (system_error file_exists)
  | None, None => modify (insert fd connection)
  end.

(** [SocketListener::unsubscribe] *)
Definition unsubscribe (fd : Z) : M interest_list unit := modify (delete fd).

(** ** Connection objects *)

Section AutoConnection.
(** Connections of the client library, by address. *)
Context {C : Type} `{!EqDecision C}.

Record KineticAutoConnection := mkConnection {
  options : ConnectionOptions * ConnectionOptions;
  ratelimit : Z;
  connection : option C;
  healthy : bool;
  fd : Z;
  timestamp : Z;
  initial_connect : bool;
  bg : BackgroundOperationHandler.BackgroundOperationHandler (T:=unit);
}.

(** The constructor, at time [now]. *)
Definition new_connection (o : ConnectionOptions * ConnectionOptions) (r now : Z) : outcome KineticAutoConnection :=
  p ← BackgroundOperationHandler.new_handler 1 0; Ret (mkConnection o r None false 0 now false (fst p)).

Definition getName (o : ConnectionOptions * ConnectionOptions) : bytes :=
  str "(" ++ host (fst o) ++ str ":" ++ to_string (port (fst o)) ++ str " / " ++ host (snd o) ++ str ":" ++ to_string (port (snd o)) ++ str ")".

(** The object and the listener it is registered with. *)
Record state := mkState {
  self : KineticAutoConnection;
  interest : interest_list;
}.

Definition set_self (f : KineticAutoConnection -> KineticAutoConnection) (s : state) : state := mkState (f (self s)) (interest s).
Definition on_listener {A} (m : M interest_list A) : M state A := zoom interest (fun l s => mkState (self s) l) m.

Definition set_broken (a : KineticAutoConnection) : KineticAutoConnection :=
  mkConnection (options a) (ratelimit a) (connection a) false 0 (timestamp a) (initial_connect a) (bg a).
Definition set_working (c : C) (fd now : Z) (a : KineticAutoConnection) : KineticAutoConnection :=
  mkConnection (options a) (ratelimit a) (Some c) true fd now (initial_connect a) (bg a).
Definition set_scheduled (now : Z) (a : KineticAutoConnection) : KineticAutoConnection :=
  mkConnection (options a) (ratelimit a) (connection a) (healthy a) (fd a) now (initial_connect a) (bg a).
Definition set_initial (a : KineticAutoConnection) : KineticAutoConnection :=
  mkConnection (options a) (ratelimit a) (connection a) (healthy a) (fd a) (timestamp a) true (bg a).
Definition set_bg b (a : KineticAutoConnection) : KineticAutoConnection :=
  mkConnection (options a) (ratelimit a) (connection a) (healthy a) (fd a) (timestamp a) (initial_connect a) b.

(** The destructor. *)
Definition destroy : M state unit :=
  a ← gets self; when (negb (fd a =? 0)) (on_listener (unsubscribe (fd a))).

Definition setError (errorConnection : option C) : M state unit :=
  a ← gets self;
  if negb (healthy a) then mret tt else
  if negb (bool_decide (connection a = errorConnection)) then mret tt else
  when (negb (fd a =? 0)) (on_listener (unsubscribe (fd a)));;
  modify (set_self set_broken).

(** ** Connecting *)

(** What an attempt meets: the choice of the interface that is tried first, the connection made to it
    or to the other one, what the calls of [Run] return until one sets a descriptor, then the calls of [Run],
    [done] and [select] while waiting for the reply, whether the reply was a success, the error of
    registering the descriptor, and the time at the end. *)
Record attempt := mkAttempt {
  prefer_first : bool;
  make : ConnectionOptions -> option C;
  run_fd : nat -> bool * Z;
  run_done_select : nat -> bool * bool * bool;
  noop_ok : bool;
  subscribe_error : option errc;
  attempt_time : Z;
}.

(** [do ... while (tmpcon->Run(&x, &x, &tmpfd) && tmpfd == 0)]; [tmpfd] keeps its value if [Run] fails. *)
Fixpoint obtain_fd (fuel i : nat) (a : attempt) : outcome Z :=
  match fuel with
  | O => OutOfFuel
  | S fuel' => let '(ok, tmpfd) := run_fd a i in
               if (ok : bool) && (tmpfd =? 0) then obtain_fd fuel' (S i) a else Ret tmpfd
  end.

(** [while (tmpcon->Run(&x, &x, &y) && !cb->done())] *)
Fixpoint await_noop (fuel i : nat) (a : attempt) : outcome unit :=
  match fuel with
  | O => OutOfFuel
  | S fuel' => let '(ok, done_, ready) := run_done_select a i in
               if (ok : bool) && negb done_ then (if (ready : bool) then await_noop fuel' (S i) a else Ret tt) else Ret tt
  end.

(** The part of [connect] before it locks the mutex: the connection and its descriptor plus one, zero if there is none. *)
Definition try_connect (fuel : nat) (o : ConnectionOptions * ConnectionOptions) (a : attempt) : outcome (option C * Z) :=
  let primary := if prefer_first a then fst o else snd o in
  let secondary := if prefer_first a then snd o else fst o in
  match make a primary, make a secondary with
  | Some c, _ | None, Some c =>
      tmpfd ← obtain_fd fuel 0 a;
      await_noop fuel 0 a;;
      Ret (Some c, if noop_ok a then tmpfd else 0)
  | None, None => Ret (None, 0)
  end.

(** The part that holds the mutex. *)
Definition finish_connect (me : nat) (a : attempt) (tmpcon : option C) (tmpfd : Z) : M state unit :=
  if negb (tmpfd =? 0) then
    on_listener (subscribe (tmpfd - 1) me (subscribe_error a));;
    c ← lift (deref tmpcon);
    modify (set_self (set_working c (tmpfd - 1) (attempt_time a)))
  else mret tt.

Definition connect (fuel me : nat) (a : attempt) : M state unit :=
  o ← gets (fun s => options (self s));
  '(tmpcon, tmpfd) ← lift (try_connect fuel o a);
  finish_connect me a tmpcon tmpfd.

(** ** Handing out the connection *)

(** [std::call_once] of the first attempt: an exception leaves the flag unset. *)
Definition first_connect (fuel me : nat) (a : attempt) : M state unit :=
  s ← get;
  if initial_connect (self s) then mret tt else connect fuel me a;; modify (set_self set_initial).

(** The critical section of [get] at time [now]: the connection, or whether an attempt was scheduled. *)
Definition get_connection (now : Z) : M state (option C + bool) :=
  a ← gets self;
  if healthy a then mret (inl (connection a)) else
  if ratelimit a <? to_seconds (now - timestamp a) then
    match BackgroundOperationHandler.try_run tt (bg a) with
    | (BackgroundOperationHandler.Refused, _) => mret (inr false)
    | (_, b) => modify (set_self (fun a => set_scheduled now (set_bg b a)));; mret (inr true)
    end
  else mret (inr false).

(** [get] *)
Definition get_ (fuel me : nat) (a : attempt) (now : Z) : M state (option C) :=
  first_connect fuel me a;;
  r ← get_connection now;
  match r with
  | inl c => mret c
  | inr _ => throw (system_error not_connected)
  end.

(** The body of the loop of [listener_thread] for one event; [run] is the result of [Run]. *)
Definition listener_event (fuel me : nat) (a : attempt) (now : Z) (run : bool) : M state unit :=
  try_catch (c ← get_ fuel me a now; lift (deref c);; if run then mret tt else throw std_runtime_error) (fun _ => mret tt).

(** ** Threads *)

(** A thread that was handed an attempt: created, counted by the pool and trying, and done. *)
Inductive phase := Created | Trying (tmpcon : option C) (tmpfd : Z) | Done.

Record system := mkSystem {
  now : Z;
  st : state;
  threads : list phase;
  (* the times at which reconnections were scheduled, latest first *)
  scheduled : list Z;
}.

Definition count_thread (f : BackgroundOperationHandler.BackgroundOperationHandler (T:=unit) ->
    BackgroundOperationHandler.BackgroundOperationHandler (T:=unit)) (s : state) : state :=
  set_self (fun a => set_bg (f (bg a)) a) s.

Inductive step (me : nat) : system -> system -> Prop :=
  | step_time s t : now s <= t -> step me s (mkSystem t (st s) (threads s) (scheduled s))
  (* the first attempt, by the first caller of [get] *)
  | step_first fuel a s s' : initial_connect (self (st s)) = false -> attempt_time a = now s ->
      first_connect fuel me a (st s) = (Ret tt, s') -> step me s (mkSystem (now s) s' (threads s) (scheduled s))
  | step_first_throws fuel a e s s' : initial_connect (self (st s)) = false -> attempt_time a = now s ->
      first_connect fuel me a (st s) = (Throw e, s') -> step me s (mkSystem (now s) s' (threads s) (scheduled s))
  | step_get s s' c : initial_connect (self (st s)) = true -> get_connection (now s) (st s) = (Ret (inl c), s') ->
      step me s (mkSystem (now s) s' (threads s) (scheduled s))
  | step_get_refused s s' : initial_connect (self (st s)) = true -> get_connection (now s) (st s) = (Ret (inr false), s') ->
      step me s (mkSystem (now s) s' (threads s) (scheduled s))
  | step_get_scheduled s s' : initial_connect (self (st s)) = true -> get_connection (now s) (st s) = (Ret (inr true), s') ->
      step me s (mkSystem (now s) s' (threads s ++ [Created]) (now s :: scheduled s))
  | step_error s s' c : setError c (st s) = (Ret tt, s') -> step me s (mkSystem (now s) s' (threads s) (scheduled s))
  (* a thread starts and is counted, meets its attempt, and ends *)
  | step_try fuel a i r s : threads s !! i = Some Created -> try_connect fuel (options (self (st s))) a = Ret r ->
      step me s (mkSystem (now s) (count_thread BackgroundOperationHandler.thread_starts (st s))
        (<[i := Trying (fst r) (snd r)]> (threads s)) (scheduled s))
  | step_finish a i c tmpfd r s s' : threads s !! i = Some (Trying c tmpfd) -> attempt_time a = now s ->
      finish_connect me a c tmpfd (st s) = (r, s') ->
      step me s (mkSystem (now s) (count_thread BackgroundOperationHandler.thread_ends s') (<[i := Done]> (threads s)) (scheduled s))
  (* other connections, and descriptors that the system closes *)
  | step_others s l : (forall fd, (interest (st s) !! fd = Some me -> l !! fd = Some me)) ->
      step me s (mkSystem (now s) (mkState (self (st s)) l) (threads s) (scheduled s)).

Definition initial (a : KineticAutoConnection) (l : interest_list) (t : Z) : system := mkSystem t (mkState a l) [] [].

Definition reachable (me : nat) (o : ConnectionOptions * ConnectionOptions) (r : Z) (s : system) : Prop :=
  exists a l t, new_connection o r t = Ret a /\ rtc (step me) (initial a l t) s.

End AutoConnection.
Arguments KineticAutoConnection : clear implicits.
Arguments state : clear implicits.
Arguments system : clear implicits.
Arguments attempt : clear implicits.
End Connection.
Import Connection.

(** ** Invariants *)

Section Invariants.
Context {C : Type} `{!EqDecision C} (me : nat).
Implicit Types (s : system C) (a : attempt C).

(** Attempts are scheduled more than [r] whole seconds apart. *)
Definition spaced (r later earlier : Z) : Prop := (r + 1) * ns_per_s <= later - earlier.

Record connection_ok (o : ConnectionOptions * ConnectionOptions) (r : Z) (x : state C) : Prop := {
  co_options : options (self x) = o;
  co_ratelimit : ratelimit (self x) = r;
  co_healthy : healthy (self x) = true -> is_Some (connection (self x));
  co_interest : healthy (self x) = true -> fd (self x) <> 0 -> interest x !! fd (self x) = Some me;
  co_broken : healthy (self x) = false -> fd (self x) = 0;
}.

Record system_ok (o : ConnectionOptions * ConnectionOptions) (r : Z) (s : system C) : Prop := {
  so_connection : connection_ok o r (st s);
  so_threads : Forall (fun p => match p with Trying c tmpfd => tmpfd <> 0 -> is_Some c | _ => True end) (threads s);
  so_timestamp : timestamp (self (st s)) <= now s;
  so_scheduled : Forall (fun t => t <= timestamp (self (st s))) (scheduled s);
  so_spaced : StronglySorted (spaced r) (scheduled s);
}.

Lemma try_connect_ok fuel o a c tmpfd : try_connect fuel o a = Ret (c, tmpfd) -> tmpfd <> 0 -> is_Some c.
Proof.
  unfold try_connect. intros E Hne. destruct (make a _); [|destruct (make a _); [|by simplify_eq]].
  all: destruct (obtain_fd fuel 0 a); try done; cbn in E; destruct (await_noop fuel 0 a); try done; cbn in E; simplify_eq; by eexists.
Qed.

(** What an attempt changes: nothing, or it installs a connection of its own. *)
Lemma finish_connect_cases a c tmpfd (x x' : state C) o : (tmpfd <> 0 -> is_Some c) -> finish_connect me a c tmpfd x = (o, x') ->
  (x' = x /\ (o = Ret tt \/ exists e, o = Throw e)) \/
  exists c', o = Ret tt /\ x' = mkState (set_working c' (tmpfd - 1) (attempt_time a) (self x)) (<[tmpfd - 1 := me]> (interest x)).
Proof.
  intros Hc. unfold finish_connect. destruct (Z.eqb_spec tmpfd 0) as [_|Hne]; cbn [negb].
  { intros [= <- <-]. left. split; [done|]. by left. }
  destruct (Hc Hne) as [c' ->]. unfold on_listener, zoom, subscribe. rewrite bind_unfold, bind_get.
  destruct (subscribe_error a) as [e|].
  { intros [= <- <-]. left. split; [by destruct x|]. right. by eexists. }
  destruct (interest x !! (tmpfd - 1)) eqn:El.
  { intros [= <- <-]. left. split; [by destruct x|]. right. by eexists. }
  cbn. intros [= <- <-]. right. by eexists.
Qed.

Lemma working_ok o r x c fd' t : connection_ok o r x ->
  connection_ok o r (mkState (set_working c fd' t (self x)) (<[fd' := me]> (interest x))).
Proof. intros [Ho Hr Hh Hi Hb]. split; cbn; try done. intros _ _. apply lookup_insert_eq. Qed.

Lemma finish_connect_ok o r a c tmpfd x y x' : connection_ok o r x -> (tmpfd <> 0 -> is_Some c) ->
  finish_connect me a c tmpfd x = (y, x') ->
  connection_ok o r x' /\ (timestamp (self x') = timestamp (self x) \/ timestamp (self x') = attempt_time a).
Proof.
  intros Hx Hc E. destruct (finish_connect_cases _ _ _ _ _ _ Hc E) as [[-> _]|(c' & _ & ->)]; [by auto|].
  split; [by apply working_ok|]. by right.
Qed.

Lemma first_connect_ok fuel o r a x y x' : connection_ok o r x -> first_connect fuel me a x = (y, x') ->
  connection_ok o r x' /\ (timestamp (self x') = timestamp (self x) \/ timestamp (self x') = attempt_time a).
Proof.
  intros Hx. unfold first_connect. mstep. destruct (initial_connect (self x)); [intros [= <- <-]; by auto|].
  unfold connect. mstep. destruct (try_connect fuel _ a) as [[c tmpfd]|e| |] eqn:Et;
    [|unfold lift; rewrite bind_unfold; intros [= <- <-]; by auto..].
  mstep. rewrite bind_unfold. destruct (finish_connect me a c tmpfd x) as [y1 x1] eqn:Ef.
  destruct (finish_connect_ok o r a c tmpfd x y1 x1 Hx (try_connect_ok _ _ _ _ _ Et) Ef) as [Hx1 Ht].
  destruct y1; intros [= <- <-]; try done. split; [|done]. destruct Hx1. by split.
Qed.

Lemma get_connection_cases t (x : state C) :
  (healthy (self x) = true /\ get_connection t x = (Ret (inl (connection (self x))), x)) \/
  (healthy (self x) = false /\ get_connection t x = (Ret (inr false), x)) \/
  (healthy (self x) = false /\ ratelimit (self x) < to_seconds (t - timestamp (self x)) /\
    exists b, get_connection t x = (Ret (inr true), set_self (fun z => set_scheduled t (set_bg b z)) x)).
Proof.
  unfold get_connection. mstep. destruct (healthy (self x)); [by left|]. right. case_bool; [|by left].
  destruct (BackgroundOperationHandler.try_run tt (bg (self x))) as [[] b]; [right..|by left]; (split_and!; [done..|]); by exists b.
Qed.

Lemma setError_cases c (x : state C) :
  (setError c x = (Ret tt, x) /\ (healthy (self x) = false \/ connection (self x) <> c)) \/
  (healthy (self x) = true /\ connection (self x) = c /\
    setError c x = (Ret tt, mkState (set_broken (self x)) (if fd (self x) =? 0 then interest x else delete (fd (self x)) (interest x)))).
Proof.
  unfold setError. mstep. destruct (healthy (self x)); cbn [negb]; [|by auto]. case_bool_decide as Ec; cbn [negb]; [|by auto].
  right. split_and!; [done..|]. destruct (fd (self x) =? 0); cbn [negb]; mstep; [done|]. done.
Qed.

Lemma spaced_seconds r t t' : 0 <= r -> r < to_seconds (t - t') -> spaced r t t'.
Proof.
  unfold to_seconds, spaced, ns_per_s. intros Hr Hlt. pose proof (Z.quot_rem' (t - t') 1000000000).
  assert (0 <= t - t') as Hn.
  { destruct (Z.le_gt_cases 0 (t - t')); [done|]. pose proof (Z.quot_opp_l (-(t - t')) 1000000000 ltac:(lia)).
    rewrite Z.opp_involutive in *. pose proof (Z.quot_pos (- (t - t')) 1000000000 ltac:(lia) ltac:(lia)). lia. }
  pose proof (Z.rem_bound_pos (t - t') 1000000000 ltac:(lia) ltac:(lia)). lia.
Qed.

Lemma connection_step_ok o r s s' : 0 <= r -> system_ok o r s -> step me s s' -> system_ok o r s'.
Proof.
  intros Hr [Hc Ht Hts Hsch Hsp] Hs.
  assert (forall x', connection_ok o r x' -> timestamp (self x') = timestamp (self (st s)) \/ timestamp (self x') = now s ->
    forall ts, Forall (fun p => match p with Trying c tmpfd => tmpfd <> 0 -> is_Some c | _ => True end) ts ->
    system_ok o r (mkSystem (now s) x' ts (scheduled s))) as Hkeep.
  { intros x' Hx' Htime ts Hts'. split; cbn; try done; [lia|]. eapply Forall_impl; [exact Hsch|]. intros t. simpl. lia. }
  destruct Hs as [s t Hle|fuel a s x' _ Ha E|fuel a e s x' _ Ha E|s x' c _ E|s x' _ E|s x' _ E|s x' c E|fuel a i y s Hi E|a i c tmpfd y s x' Hi Ha E|s l Hl].
  - split; cbn; try done. lia.
  - destruct (first_connect_ok _ _ _ _ _ _ _ Hc E) as [? ?]. rewrite Ha in *. by apply Hkeep.
  - destruct (first_connect_ok _ _ _ _ _ _ _ Hc E) as [? ?]. rewrite Ha in *. by apply Hkeep.
  - destruct (get_connection_cases (now s) (st s)) as [[_ E']|[[_ E']|(_ & _ & b & E')]]; rewrite E' in E; simplify_eq. apply Hkeep; auto.
  - destruct (get_connection_cases (now s) (st s)) as [[_ E']|[[_ E']|(_ & _ & b & E')]]; rewrite E' in E; simplify_eq. apply Hkeep; auto.
  - destruct (get_connection_cases (now s) (st s)) as [[_ E']|[[_ E']|(_ & Hlim & b & E')]]; rewrite E' in E; simplify_eq.
    rewrite (co_ratelimit _ _ _ Hc) in Hlim. pose proof (spaced_seconds _ _ _ Hr Hlim) as Hgap. split; cbn.
    + destruct Hc. by split.
    + apply Forall_app. split; [done|]. by repeat constructor.
    + lia.
    + constructor; [lia|]. eapply Forall_impl; [exact Hsch|]. intros t. simpl. lia.
    + constructor; [done|]. eapply Forall_impl; [exact Hsch|]. intros t. simpl. unfold spaced in *. lia.
  - destruct (setError_cases c (st s)) as [[E' _]|(Hh & _ & E')]; rewrite E' in E; injection E as <-; [by apply Hkeep; auto|].
    apply Hkeep; [|by left|done]. destruct Hc. by split.
  - apply Hkeep; [|by left|]; [destruct Hc; by split|]. apply Forall_insert; [done|]. destruct y as [c tmpfd]. simpl. by eapply try_connect_ok.
  - assert (tmpfd <> 0 -> is_Some c) as Hcon. { rewrite Forall_lookup in Ht. exact (Ht i _ Hi). }
    destruct (finish_connect_ok _ _ _ _ _ _ _ _ Hc Hcon E) as [[] Htime]. rewrite Ha in *. apply Hkeep; [by split|done|by apply Forall_insert].
  - apply Hkeep; [|by left|done]. destruct Hc as [? ? ? Hi ?]. split; cbn; try done. intros Hh Hf. by apply Hl, Hi.
Qed.

Lemma connection_reachable_ok o r s : 0 <= r -> reachable me o r s -> system_ok o r s.
Proof.
  intros Hr (z & l & t & E & Hsteps). assert (system_ok o r (initial z l t)) as Hi.
  { cbn in E. injection E as <-. split; cbn; first [done|by split|constructor]. }
  clear E. induction Hsteps; eauto using connection_step_ok.
Qed.
End Invariants.

(** ** Properties *)

(** C27: A connection object never hands out what it does not have, stays registered with the listener
    while it works, and limits its reconnections.  In every state that callers, reported errors, threads
    that attempt to connect and other connections can reach: [get] returns the connection exactly when
    the object is healthy, and then there is one, and its descriptor is registered under this object;
    an object in error has no descriptor; an error reported for a connection that was replaced in the
    meantime changes nothing, one reported for the current connection withdraws it and its descriptor;
    and any two scheduled attempts are at least one second more than the rate limit apart. *)
Theorem connection_safe {C} `{!EqDecision C} me o r (s : system C) : 0 <= r -> reachable me o r s ->
  (forall t c, fst (get_connection t (st s)) = Ret (inl c) <-> healthy (self (st s)) = true /\ connection (self (st s)) = c) /\
  (healthy (self (st s)) = true -> is_Some (connection (self (st s))) /\
    (fd (self (st s)) <> 0 -> interest (st s) !! fd (self (st s)) = Some me)) /\
  (healthy (self (st s)) = false -> fd (self (st s)) = 0) /\
  (forall c, connection (self (st s)) <> c -> setError c (st s) = (Ret tt, st s)) /\
  (forall c, healthy (self (st s)) = true -> connection (self (st s)) = c -> exists x, setError c (st s) = (Ret tt, x) /\
    healthy (self x) = false /\ (fd (self (st s)) <> 0 -> interest x !! fd (self (st s)) = None) /\
    forall t, (get_connection t x).1 <> Ret (inl c)) /\
  StronglySorted (spaced r) (scheduled s).
Proof.
  intros Hr Hs. destruct (connection_reachable_ok me o r s Hr Hs) as [[Ho Hlim Hh Hi Hb] _ _ _ Hsp]. split_and!; [|by auto|done| | |done].
  - intros t c. destruct (get_connection_cases t (st s)) as [[Hok ->]|[[Hok ->]|(Hok & _ & b & ->)]]; rewrite Hok; simpl; naive_solver.
  - intros c Hc. destruct (setError_cases c (st s)) as [[-> _]|(_ & Hc' & _)]; [done|]. done.
  - intros c Hok Hc. destruct (setError_cases c (st s)) as [[_ [Hn|Hn]]|(_ & _ & ->)]; [congruence..|]. eexists. split; [done|]. cbn. split_and!; [done| |].
    + intros Hf. rewrite (proj2 (Z.eqb_neq _ _) Hf). apply lookup_delete_eq.
    + intros t. destruct (get_connection_cases t (mkState (set_broken (self (st s))) (if fd (self (st s)) =? 0 then interest (st s)
        else delete (fd (self (st s))) (interest (st s))))) as [[Hok' _]|[[_ ->]|(_ & _ & b & ->)]]; done.
Qed.

(** An attempt that succeeds with connection [c] and descriptor 7. *)
Definition good_attempt (c : nat) (t : Z) : attempt nat :=
  mkAttempt true (fun _ => Some c) (fun i => (true, if (i =? 0)%nat then 0 else 8)) (fun _ => (true, true, true)) true None t.

Definition some_options : ConnectionOptions * ConnectionOptions :=
  (mkOptions (str "a") 8123 false 1 (str "key"), mkOptions (str "b") 8123 false 1 (str "key")).

(** The object after the first caller connected and an error was reported. *)
Definition after_error : system nat :=
  mkSystem 0 (mkState (mkConnection some_options 3 (Some 5%nat) false 0 0 true
    (BackgroundOperationHandler.mkHandler [] 0 1 0 false)) ∅) [] [].

Lemma connection_safe_witness :
  reachable 1 some_options 3 after_error /\ setError (Some 4%nat) (st after_error) = (Ret tt, st after_error) /\
  fst (get_connection 10 (st after_error)) <> Ret (inl (Some 5%nat)).
Proof.
  assert (reachable 1 some_options 3 after_error) as Hr.
  { eexists _, ∅, 0. split; [reflexivity|].
    eapply rtc_l; [eapply (step_first 1 3 (good_attempt 5 0)); reflexivity|].
    eapply rtc_l; [eapply (step_error 1 _ _ (Some 5%nat)); vm_compute; reflexivity|]. apply rtc_refl. }
  split; [exact Hr|]. destruct (connection_safe 1 some_options 3 after_error ltac:(lia) Hr) as (Hget & _ & _ & Hstale & _).
  split; [by apply Hstale|]. intros E. apply Hget in E as [Hh _]. discriminate Hh.
Defined.
