(* ===== verification/Listener.v ===== *)
(** * The socket listener (src/SocketListener.cc)

    One thread waits for events on the sockets of all connections and lets the connection of each
    event process it.  The destructor wakes the thread through a pipe and joins it.  The thread, the
    destructor and the objects that register sockets are the relation [step]; a system call is one step. *)

From S2P Require Import Prelude CppString Kinetic BackgroundOperationHandler Connection.

Module Listener.

(** [con->get()->Run(&a, &a, &fd)] of a connection object, by its address: what [Run] returns, or an exception. *)
Class Runs (W : Type) := get_run : nat -> M W bool.

Section Listener.
Context `{Runs W}.

(** The body of the loop over the events; [None] is the pipe, which carries no connection. *)
Definition handle_event (con : option nat) : M W unit :=
  match con with
  | Some con => try_catch (ok ← get_run con; if (ok : bool) then mret tt else throw std_runtime_error) (fun _ => mret tt)
  | None => mret tt
  end.

(** Where the thread is: in [epoll_wait], behind it, or at one of the events it was given. *)
Inductive thread_phase := Waiting | Woken (events : list (option nat)) | Handling (events : list (option nat)) | Exited.

#[export] Instance thread_phase_eq_dec : EqDecision thread_phase.
Proof. solve_decision. Defined.

(** Where the owner is: using the object, or behind a statement of the destructor. *)
Inductive owner_phase := Alive | PipeAdded | ShutdownSet | PipeWritten | Joined.

Record SocketListener := mkListener {
  world : W;
  interest : gmap Z nat;
  (* the pipe is registered, and holds a byte *)
  pipe_watched : bool;
  pipe_written : bool;
  shutdown : bool;
  thread : thread_phase;
  owner : owner_phase;
  (* events handled since [shutdown] was set *)
  late : nat;
}.

(** The constructor. *)
Definition new_listener (w : W) : SocketListener := mkListener w ∅ false false false Waiting Alive 0.

Definition max_events : nat := 10.

Definition set_thread (t : thread_phase) (s : SocketListener) : SocketListener :=
  mkListener (world s) (interest s) (pipe_watched s) (pipe_written s) (shutdown s) t (owner s) (late s).
Definition set_interest (l : gmap Z nat) (s : SocketListener) : SocketListener :=
  mkListener (world s) l (pipe_watched s) (pipe_written s) (shutdown s) (thread s) (owner s) (late s).
Definition set_world (w : W) (s : SocketListener) : SocketListener :=
  mkListener w (interest s) (pipe_watched s) (pipe_written s) (shutdown s) (thread s) (owner s) (late s).

(** An event is reported for what is registered: sockets that have become ready, and the pipe while it holds a byte. *)
Definition reported (s : SocketListener) (e : option nat) : Prop :=
  match e with
  | Some con => exists fd, interest s !! fd = Some con
  | None => pipe_watched s = true /\ pipe_written s = true
  end.

(** [listener_thread] *)
Inductive thread_step : SocketListener -> SocketListener -> Prop :=
  | step_events s es : thread s = Waiting -> es <> [] -> (length es <= max_events)%nat -> Forall (reported s) es ->
      thread_step s (set_thread (Woken es) s)
  | step_interrupted s : thread s = Waiting -> thread_step s (set_thread (Woken []) s)
  | step_break s es : thread s = Woken es -> shutdown s = true -> thread_step s (set_thread Exited s)
  | step_enter s es : thread s = Woken es -> shutdown s = false -> thread_step s (set_thread (Handling es) s)
  | step_handle s e es w : thread s = Handling (e :: es) -> handle_event e (world s) = (Ret tt, w) ->
      thread_step s (mkListener w (interest s) (pipe_watched s) (pipe_written s) (shutdown s) (Handling es) (owner s)
        (if shutdown s then S (late s) else late s))
  | step_again s : thread s = Handling [] -> thread_step s (set_thread Waiting s).

(** [~SocketListener], where [pipe], [epoll_ctl] and [write] may fail without notice, and its user before. *)
Inductive owner_step : SocketListener -> SocketListener -> Prop :=
  | step_subscribe s fd con failure r l : owner s = Alive -> Connection.subscribe fd con failure (interest s) = (r, l) ->
      owner_step s (set_interest l s)
  | step_unsubscribe s fd r l : owner s = Alive -> Connection.unsubscribe fd (interest s) = (r, l) -> owner_step s (set_interest l s)
  | step_world s w : owner_step s (set_world w s)
  | step_pipe s ok : owner s = Alive ->
      owner_step s (mkListener (world s) (interest s) ok false (shutdown s) (thread s) PipeAdded (late s))
  | step_shutdown s : owner s = PipeAdded ->
      owner_step s (mkListener (world s) (interest s) (pipe_watched s) false true (thread s) ShutdownSet (late s))
  | step_write s ok : owner s = ShutdownSet ->
      owner_step s (mkListener (world s) (interest s) (pipe_watched s) ok (shutdown s) (thread s) PipeWritten (late s))
  | step_join s : owner s = PipeWritten -> thread s = Exited ->
      owner_step s (mkListener (world s) (interest s) false false (shutdown s) Exited Joined (late s)).

Definition step (s s' : SocketListener) : Prop := thread_step s s' \/ owner_step s s'.

Definition reachable (s : SocketListener) : Prop := exists w, rtc step (new_listener w) s.

End Listener.
Arguments SocketListener : clear implicits.
End Listener.
Import Listener.

(** ** The connection objects *)

(** What the thread does with one connection is the [listener_event] of Connection. *)
Lemma handle_event_connection {C} `{!EqDecision C} fuel me (a : Connection.attempt C) now run (x : Connection.state C) :
  let runs : Runs (Connection.state C) := fun me => c ← Connection.get_ fuel me a now; lift (deref c);; mret run in
  @handle_event _ runs (Some me) x = Connection.listener_event fuel me a now run x.
Proof.
  cbv zeta. unfold handle_event, Connection.listener_event, get_run, try_catch.
  rewrite bind_assoc, !(bind_unfold (Connection.get_ fuel me a now)). destruct (Connection.get_ fuel me a now x) as [[[c|]|e| |] y]; try done.
Qed.

(** ** Invariant *)

Section Invariant.
Context `{Runs W}.
Implicit Types s : SocketListener W.

(** Events that the thread has in hand. *)
Definition in_hand s : nat := match thread s with Handling es => length es | _ => 0 end.

Definition shutting (o : owner_phase) : bool := match o with ShutdownSet | PipeWritten | Joined => true | _ => false end.

Record listener_ok s : Prop := {
  lo_shutdown : shutdown s = shutting (owner s);
  lo_written : pipe_written s = true -> owner s = PipeWritten;
  lo_batch : match thread s with Woken es | Handling es => (length es <= max_events)%nat | _ => True end;
  lo_exited : thread s = Exited -> shutdown s = true;
  lo_joined : owner s = Joined -> thread s = Exited;
  lo_late : (late s + in_hand s <= max_events)%nat;
  lo_early : shutdown s = false -> late s = 0%nat;
}.

Lemma new_listener_ok w : listener_ok (new_listener w).
Proof. split; cbn; try done. unfold max_events. lia. Qed.

Ltac listener_cases := split; cbn in *; unfold in_hand in *; cbn in *; try done; try (intros; intuition congruence); try lia.

Lemma thread_step_ok s s' : listener_ok s -> thread_step s s' -> listener_ok s'.
Proof.
  intros [H1 H2 H3 H4 H5 H6 H7] E. destruct E as [s es Ht Hne Hl Hr|s Ht|s es Ht Hs|s es Ht Hs|s e es w Ht Hw|s Ht];
    destruct s as [w0 l pw pr sh t o n]; cbn in Ht; subst; cbn in *; try subst sh.
  - listener_cases.
  - listener_cases.
  - listener_cases.
  - rewrite (H7 Hs) in *. listener_cases.
  - unfold in_hand in H6. cbn in *. destruct (shutting o) eqn:Eo; listener_cases.
  - listener_cases.
Qed.

Lemma owner_step_ok s s' : listener_ok s -> owner_step s s' -> listener_ok s'.
Proof.
  intros [H1 H2 H3 H4 H5 H6 H7] E. destruct E as [s fd con f r l Ho _|s fd r l Ho _|s w|s ok Ho|s Ho|s ok Ho|s Ho Ht];
    destruct s as [w0 l0 pw pr sh t o n]; cbn in *; subst; listener_cases.
Qed.

Lemma listener_reachable s : reachable s -> listener_ok s.
Proof.
  intros [w Hr]. pose proof (new_listener_ok w) as Hw. induction Hr as [s|s1 s2 s3 [E|E] _ IH]; [done|apply IH..].
  - by eapply thread_step_ok.
  - by eapply owner_step_ok.
Qed.
End Invariant.

(** ** Shutting down *)

Section Shutdown.
Context `{Runs W}.
Implicit Types s : SocketListener W.

(** How far the thread is from its end once it is shut down. *)
Definition distance s : nat :=
  match thread s with Exited => 0 | Woken _ => 1 | Waiting => 2 | Handling es => 3 + length es end.

Lemma thread_step_distance s s' : shutdown s = true -> thread_step s s' -> shutdown s' = true /\ (distance s' < distance s)%nat.
Proof.
  unfold distance. intros Hs E. destruct E as [s es Ht|s Ht|s es Ht|s es Ht Hf|s e es w Ht|s Ht]; rewrite ?Ht; cbn; try (split; [done|lia]). congruence.
Qed.

Lemma owner_step_distance s s' : owner_step s s' -> (shutdown s = true -> shutdown s' = true) /\ (distance s' <= distance s)%nat.
Proof. unfold distance. intros E. by destruct E as [| | | | | |s Ho Ht]; rewrite ?Ht; cbn. Qed.

(** Every event can be handled: what the connection throws is caught. *)
Definition runs_end : Prop := forall con w, exists r w', get_run con w = (r, w') /\ ((exists ok, r = Ret ok) \/ exists e, r = Throw e).

Lemma handle_event_ends e w : runs_end -> exists w', handle_event e w = (Ret tt, w').
Proof.
  intros He. destruct e as [con|]; [|by exists w]. unfold handle_event, try_catch. rewrite bind_unfold.
  destruct (He con w) as (r & w' & -> & [[ok ->]|[e ->]]); [destruct ok|]; by exists w'.
Qed.

(** A thread that is shut down and can be woken is not stuck. *)
Lemma thread_progress s : runs_end -> pipe_watched s = true -> pipe_written s = true -> thread s <> Exited -> exists s', thread_step s s'.
Proof.
  intros He Hw Hp Hx. destruct (thread s) as [|es|[|e es]|] eqn:Ht; try done.
  - eexists. eapply (step_events s [None]); [done|done|unfold max_events; cbn; lia|]. by repeat constructor.
  - destruct (shutdown s) eqn:Hs; eexists; [by eapply step_break|by eapply step_enter].
  - eexists. by apply step_again.
  - destruct (handle_event_ends e (world s) He) as [w' Ew]. eexists. by eapply step_handle.
Qed.

(** Without a pipe, and with no socket left, only a signal wakes the thread. *)
Lemma unwatched_pipe_sleeps s s' : thread s = Waiting -> interest s = ∅ -> pipe_watched s = false -> thread_step s s' -> s' = set_thread (Woken []) s.
Proof.
  intros Ht Hi Hp E. destruct E as [s es _ Hne _ Hr|s _|s es Ht'|s es Ht'|s e es w Ht'|s Ht']; try done; try congruence.
  destruct Hr as [|e es He _]; [done|]. destruct e as [con|]; cbn in He; [|by destruct He; congruence].
  destruct He as [fd Hfd]. by rewrite Hi, lookup_empty in Hfd.
Qed.

(** The pipe stays as the destructor made it. *)
Lemma thread_step_keeps s s' : thread_step s s' ->
  owner s' = owner s /\ pipe_watched s' = pipe_watched s /\ pipe_written s' = pipe_written s.
Proof. by destruct 1. Qed.

(** Running the thread alone from a written pipe ends it. *)
Lemma thread_runs_out s : runs_end -> shutdown s = true -> pipe_watched s = true -> pipe_written s = true ->
  exists s', rtc thread_step s s' /\ thread s' = Exited /\ owner s' = owner s.
Proof.
  intros He. remember (distance s) as n eqn:Hn. revert s Hn. induction (lt_wf n) as [n _ IH]. intros s -> Hs Hw Hp.
  destruct (decide (thread s = Exited)) as [Hx|Hx]; [by exists s|].
  destruct (thread_progress s He Hw Hp Hx) as [s1 E]. destruct (thread_step_distance s s1 Hs E) as [Hs1 Hd].
  destruct (thread_step_keeps s s1 E) as (Ho & Hw1 & Hp1).
  destruct (IH _ Hd s1 eq_refl Hs1) as (s' & Hr & Hx' & Ho'); [congruence..|]. exists s'. split_and!; [by eapply rtc_l|done|congruence].
Qed.

(** An execution in which the thread makes [n] steps, others as many as they like. *)
Inductive execution : nat -> SocketListener W -> SocketListener W -> Prop :=
  | execution_nil s : execution 0 s s
  | execution_thread n s s1 s' : thread_step s s1 -> execution n s1 s' -> execution (S n) s s'
  | execution_owner n s s1 s' : owner_step s s1 -> execution n s1 s' -> execution n s s'.

Lemma execution_bounded n s s' : execution n s s' -> shutdown s = true -> (n <= distance s)%nat.
Proof.
  induction 1 as [s|n s s1 s' E _ IH|n s s1 s' E _ IH]; intros Hs; [lia|..].
  - destruct (thread_step_distance s s1 Hs E) as [Hs1 Hd]. specialize (IH Hs1). lia.
  - destruct (owner_step_distance s s1 E) as [Hs1 Hd]. specialize (IH (Hs1 Hs)). lia.
Qed.

Lemma distance_bounded s : listener_ok s -> (distance s <= 3 + max_events)%nat.
Proof. intros [_ _ Hb _ _ _ _]. unfold distance. destruct (thread s); cbn in *; lia. Qed.
End Shutdown.

(** ** Properties *)

(** C28: The listener thread stops when it is told to.  In every reachable state, whatever sockets are registered and removed and
    whatever the connections do: once the destructor has set [shutdown], at most one batch of ten events is still handled, and the thread
    makes at most thirteen more steps, waiting included, however long the execution and whatever the others do.  When the
    destructor has written to its pipe, the thread runs to its end unless it is held up from outside, and then the destructor can join it.  The
    descriptor of the listener is closed only behind the end of the thread, and the thread ends only on demand. *)
Theorem listener_shutdown `{Runs W} (s : SocketListener W) :
  reachable s ->
  (late s <= max_events)%nat /\
  (shutdown s = true -> forall n s', execution n s s' -> (n <= 13)%nat) /\
  (runs_end -> owner s = PipeWritten -> pipe_watched s = true -> pipe_written s = true ->
    exists s' s'', rtc thread_step s s' /\ thread s' = Exited /\ owner_step s' s'' /\ owner s'' = Joined) /\
  (owner s = Joined -> thread s = Exited) /\ (thread s = Exited -> shutdown s = true).
Proof.
  intros Hs%listener_reachable. pose proof (distance_bounded s Hs) as Hd. destruct Hs as [H1 H2 H3 H4 H5 H6 H7]. split_and!; [lia| | |done..].
  - intros Hs n s' E. pose proof (execution_bounded n s s' E Hs). unfold max_events in Hd. lia.
  - intros He Ho Hw Hp. destruct (thread_runs_out s He) as (s' & Hr & Hx & Ho'); [by rewrite H1, Ho|done..|].
    exists s'. eexists. split_and!; [done|done|by apply step_join; [congruence|]|done].
Qed.

(** A connection is registered and handled, the destructor shuts the thread down while it waits. *)
Module Listener_example.
Definition runs : Runs nat := fun con n => if Nat.even n then (Ret true, S n) else (Throw std_runtime_error, S n).
Definition state t o sh wr n : SocketListener nat := mkListener n {[5 := 0%nat]} (shutting o) wr sh t o 0.
End Listener_example.

Lemma listener_shutdown_witness :
  let s := Listener_example.state Waiting PipeWritten true true 1%nat in
  (exists s' s'', rtc (@thread_step _ Listener_example.runs) s s' /\ thread s' = Exited /\ owner_step s' s'' /\ owner s'' = Joined) /\
  forall n s', @execution _ Listener_example.runs n s s' -> (n <= 13)%nat.
Proof.
  intros s. destruct (@listener_shutdown _ Listener_example.runs s) as (_ & Hstop & Hjoin & _).
  - exists 0%nat. eapply rtc_l; [right; by eapply (step_subscribe _ 5 0%nat None)|].
    eapply rtc_l; [left; apply (step_events _ [Some 0%nat]); [done|done|cbn; unfold max_events; lia|]; repeat constructor; by exists 5|].
    eapply rtc_l; [left; by eapply step_enter|]. eapply rtc_l; [left; by eapply step_handle|]. eapply rtc_l; [left; by apply step_again|].
    eapply rtc_l; [right; by apply (step_pipe _ true)|]. eapply rtc_l; [right; by apply step_shutdown|].
    eapply rtc_l; [right; by apply (step_write _ true)|]. apply rtc_refl.
  - split; [|by apply Hstop]. apply Hjoin; try done. intros con n. unfold get_run, Listener_example.runs.
    destruct (Nat.even n); do 2 eexists; (split; [done|]); eauto.
Defined.
