(* ===== verification/AdminStatus.v ===== *)
(** * The status of a cluster (src/KineticAdminCluster.cc)

    [KineticAdminCluster::status] looks at every connection, times requests of its own on those that
    work when it is asked to, and waits for the first snapshot of the statistics. *)

From S2P Require Import Prelude CppString Utility Kinetic Simulator Callbacks ClusterOperation Isa Redundancy StripeOperation.
From S2P Require Import Cluster ClusterInterface Double Connection.

(** [KineticAutoConnection::get] of a connection of the cluster, which Connection models: it returns a
    connection to its drive or throws. *)
Class Connections (D : Type) := con_get : nat -> D -> outcome unit * D.

Module AdminStatus.

(** ** Timed requests *)

Section Benchmark.
Context `{Env D}.

Definition system_clock_now : M D Z := fun d => let '(t, d) := env_now d in (Ret t, d).
Definition submit (con : nat) (req : request) : M D submission := fun d => let '(s, d) := env_submit con req d in (Ret s, d).

(** Whether [Run] succeeds is not looked at; [wait_until] returns when the reply is there or ten seconds have passed. *)
Definition finish_timed_operation (run_start : Z) (sync : Z) (cb : callback) (s : submission) : M D Z :=
  let cb := match s with
            | Answered r | RunFalse (Some r) => fst (deliver r cb sync)
            | NotConnected | RunFalse None | Unanswered => cb
            end in
  run_end ← system_clock_now;
  if negb (bool_decide (getResult cb = OK)) then throw std_runtime_error
  else mret (i32 (to_millis (run_end - run_start))).

Definition timed (c : callback_class) (con : nat) (req : request) : M D Z :=
  let '(cb, sync) := new_callback c 0 in
  run_start ← system_clock_now;
  s ← submit con req;
  finish_timed_operation run_start sync cb s.

(** [std::string value(1024*1024, 'x')] *)
Definition benchmark_value : bytes := replicate (Z.to_nat (1024 * 1024)) "x"%char.
Definition benchmark_record : KineticRecord := mkRecord (Some benchmark_value) [] [] INVALID_ALGORITHM.

Definition timed_put (con : nat) (key : bytes) : M D Z :=
  timed PutCallback con (Put key [] IGNORE_VERSION benchmark_record UNSPECIFIED).
Definition timed_remove (con : nat) (key : bytes) : M D Z :=
  timed BasicCallback con (Delete key [] IGNORE_VERSION UNSPECIFIED).
Definition timed_get (con : nat) (key : bytes) : M D Z := timed GetCallback con (Get key).

(** The loop of [benchmark_function]. *)
Fixpoint add_timings (keys : list bytes) (con : nat) (fun_ : nat -> bytes -> M D Z) (timing : Z) : M D Z :=
  match keys with
  | [] => mret timing
  | key :: keys' =>
      t ← fun_ con key;
      timing ← lift (add_int timing t);
      add_timings keys' con fun_ timing
  end.

(** Keys per second, a [float]. *)
Definition benchmark_function (keys : list bytes) (con : nat) (fun_ : nat -> bytes -> M D Z) : M D double :=
  timing ← add_timings keys con fun_ 1;
  mret (to_float (ddiv (of_int (slen keys)) (ddiv (of_int timing) (of_int 1000)))).

Definition benchmark_key (i : Z) : bytes := str "benchmark_key_" ++ pad0 10 (dec i).
Definition benchmark_keys (num_bench_keys : Z) : list bytes := benchmark_key <$> seqZ 0 num_bench_keys.

(** [shuffle con k] is the [k]-th call of [std::random_shuffle] for a connection. *)
Variable shuffle : nat -> nat -> list bytes -> list bytes.

Definition benchmark (con : nat) (num_bench_keys : Z) : M D bytes :=
  let keys := benchmark_keys num_bench_keys in
  seq_put ← benchmark_function keys con timed_put;
  seq_get ← benchmark_function keys con timed_get;
  benchmark_function keys con timed_remove;;
  let keys := shuffle con 0%nat keys in
  rnd_put ← benchmark_function keys con timed_put;
  let keys := shuffle con 1%nat keys in
  rnd_get ← benchmark_function keys con timed_get;
  let keys := shuffle con 2%nat keys in
  benchmark_function keys con timed_remove;;
  mret (str " :: MB/s seq_put=" ++ show_fixed1 seq_put ++ str " seq_get=" ++ show_fixed1 seq_get ++
        str " rnd_put=" ++ show_fixed1 rnd_put ++ str " rnd_get=" ++ show_fixed1 rnd_get).

(** ** Connections *)

Context `{!Connections D}.

(** The interfaces of the drives, for their names. *)
Variable options : nat -> Connection.ConnectionOptions * Connection.ConnectionOptions.

(** The body of the loop over the connections: whether this one is connected, and its location. *)
Definition check_connection (num_bench_keys : Z) (con : nat) : M D (bool * bytes) :=
  let name := Connection.getName (options con) in
  try_catch (con_get con;;
    location ← (if num_bench_keys =? 0 then mret name else results ← benchmark con num_bench_keys; mret (name ++ results));
    mret (true, location)) (fun _ => mret (false, name)).

Definition on_drives {A} (m : M D A) : M (KineticCluster D) A :=
  zoom cl_env (fun d c => with_env d (cl_redundancy c) c) m.

(** [updates i]: a scheduled update of the snapshot completes between look [i - 1] at it and look [i]. *)
Context `{StatusInt}.
Variable updates : nat -> bool.

Definition background (i : nat) : M (KineticCluster D) unit :=
  when (updates i) (try_catch updateSnapshot (fun _ => mret tt)).

Definition look (i : nat) : M (KineticCluster D) ClusterStats := background i;; '(s, _) ← stats; mret s.

(** [while (stats().bytes_total == 1) usleep(100)]: the number of the next look. *)
Fixpoint await_snapshot (fuel i : nat) : M (KineticCluster D) nat :=
  match fuel with
  | O => out_of_fuel
  | S fuel' =>
      s ← look i;
      if bytes_total s =? 1 then usleep 100;; await_snapshot fuel' (S i) else mret (S i)
  end.

Definition set_connections (con : list bool) (loc : list bytes) (h : ClusterStatus) : ClusterStatus :=
  mkClusterStatus (indicator_exist h) (drives_total h) (drives_failed h) (redundancy_factor h) con loc.

Definition status (fuel : nat) (num_bench_keys : Z) : M (KineticCluster D) ClusterStatus :=
  c ← get;
  l ← on_drives (mapM (check_connection num_bench_keys) (seq 0 (connections c)));
  i ← await_snapshot fuel 0;
  s ← look i;
  mret (set_connections (fst <$> l) (snd <$> l) (health s)).

End Benchmark.
End AdminStatus.
Import AdminStatus.

(** ** What drives do *)

(** The keys of a drive after a request was performed. *)
Definition perform (req : request) (m : gmap bytes KineticRecord) : gmap bytes KineticRecord :=
  match req with
  | Put key _ _ record _ => <[key := record]> m
  | Delete key _ _ _ => delete key m
  | _ => m
  end.

Definition reports_success (s : submission) : bool :=
  match s with
  | Answered r | RunFalse (Some r) => bool_decide (reply_status r = OK)
  | _ => false
  end.

(** The drives while no other client writes: a request reaches its own drive only, a request that is reported as
    successful has been performed, any other one has been performed or not. *)
Class DriveStore (D : Type) `{Env D, Connections D} := {
  drive : D -> nat -> gmap bytes KineticRecord;
  drive_get : forall i d j, drive (con_get i d).2 j = drive d j;
  drive_now : forall d j, drive (env_now d).2 j = drive d j;
  drive_usleep : forall us d j, drive (env_usleep us d) j = drive d j;
  drive_others : forall i req d j, i <> j -> drive (env_submit i req d).2 j = drive d j;
  drive_submit : forall i req d, drive (env_submit i req d).2 i = perform req (drive d i) \/
    (drive (env_submit i req d).2 i = drive d i /\ reports_success (env_submit i req d).1 = false);
  get_ends : forall i d, (con_get i d).1 = Ret tt \/ exists e, (con_get i d).1 = Throw e;
}.

Section Drives.
Context `{DriveStore D}.

(** Only these keys of this drive have changed. *)
Definition changed (con : nat) (keys : list bytes) (d d' : D) : Prop :=
  (forall j, j <> con -> drive d' j = drive d j) /\ (forall key, key ∉ keys -> drive d' con !! key = drive d con !! key).

#[export] Instance changed_preorder con keys : PreOrder (changed con keys).
Proof.
  split; [by split|]. intros d1 d2 d3 [Ho1 Hk1] [Ho2 Hk2]. split.
  - intros j Hj. by rewrite Ho2, Ho1.
  - intros key Hkey. by rewrite Hk2, Hk1.
Qed.

Lemma changed_none con keys d d' : (forall j, drive d' j = drive d j) -> changed con keys d d'.
Proof. intros E. split; intros; by rewrite E. Qed.

Lemma changed_mono con keys keys' d d' : keys ⊆ keys' -> changed con keys d d' -> changed con keys' d d'.
Proof. intros Hsub [Ho Hk]. split; [done|]. intros key Hkey. apply Hk. set_solver. Qed.

Definition request_keys (req : request) : list bytes :=
  match req with Put key _ _ _ _ | Delete key _ _ _ => [key] | _ => [] end.

Lemma submit_changed con req d : changed con (request_keys req) d (env_submit con req d).2.
Proof.
  split.
  - intros j Hj. by apply drive_others.
  - intros key Hkey. destruct (drive_submit con req d) as [->|[-> _]]; [|done].
    destruct req; cbn in *; try done; [apply lookup_insert_ne|apply lookup_delete_ne]; set_solver.
Qed.

(** ** Timed requests *)

Lemma system_clock_tame con keys : tame (changed con keys) system_clock_now.
Proof.
  intros d. unfold system_clock_now. pose proof (drive_now d) as E. destruct (env_now d) as [t d']. cbn in *.
  split; [|done]. by apply changed_none.
Qed.

Lemma timed_tame c con req : tame (changed con (request_keys req)) (timed c con req).
Proof.
  unfold timed, new_callback, finish_timed_operation. apply tame_bind; [apply _|apply system_clock_tame|]. intros start.
  apply tame_bind; [apply _| |].
  - intros d. unfold submit. pose proof (submit_changed con req d). destruct (env_submit con req d). by split.
  - intros s. apply tame_bind; [apply _|apply system_clock_tame|]. intros t. repeat tame_step.
Qed.

(** A request that was timed has been performed. *)
Lemma timed_performs c con req d t d' : timed c con req d = (Ret t, d') -> drive d' con = perform req (drive d con).
Proof.
  assert (forall d t d', system_clock_now d = (Ret t, d') -> drive d' con = drive d con) as Hnow.
  { intros ???. unfold system_clock_now. pose proof (drive_now d0 con) as E. destruct (env_now d0). by intros [= <- <-]. }
  unfold timed, new_callback, finish_timed_operation. intros E. apply bind_inv_ret in E as (t1 & d1 & E1%Hnow & E).
  apply bind_inv_ret in E as (s & d2 & E2 & E).
  unfold submit in E2. pose proof (drive_submit con req d1) as Hs. destruct (env_submit con req d1) as [s' d2']. injection E2 as -> ->.
  apply bind_inv_ret in E as (t3 & d3 & E3%Hnow & E). cbn in Hs.
  case_bool_decide as Hok; [|done]. injection E as _ ->. destruct Hs as [E2|[_ Hno]]; [by rewrite E3, E2, E1|]. exfalso.
  destruct s as [|[r|]|r|]; cbn in *; try done; unfold deliver, OnResult in Hok; cbn in Hok;
    destruct r; cbn in *; try done; subst; done.
Qed.

(** A benchmark made of one request per key. *)
Definition timed_by (f : nat -> bytes -> M D Z) (req : bytes -> request) : Prop :=
  forall con key, request_keys (req key) ⊆ [key] /\ exists c, f con key = timed c con (req key).

Lemma add_timings_tame f req con keys timing : timed_by f req -> tame (changed con keys) (add_timings keys con f timing).
Proof.
  intros Hf. revert timing. assert (forall l, l ⊆ keys -> forall timing, tame (changed con keys) (add_timings l con f timing)) as Hl.
  { induction l as [|key l IH]; intros Hsub timing; cbn [add_timings]; [repeat tame_step|].
    destruct (Hf con key) as [Hk [c ->]]. apply tame_bind; [apply _| |].
    - intros d. destruct (timed_tame c con (req key) d) as [Hc Hn]. split; [|done]. eapply changed_mono; [|exact Hc]. set_solver.
    - intros t. apply tame_bind; [apply _|apply tame_lift; [apply _|unfold add_int; by destruct (_ && _)]|].
      intros t'. apply IH. set_solver. }
  intros timing. by apply Hl.
Qed.

Lemma add_timings_performs f req con keys timing d r d' : timed_by f req -> add_timings keys con f timing d = (Ret r, d') ->
  drive d' con = foldl (fun m key => perform (req key) m) (drive d con) keys.
Proof.
  intros Hf. revert timing d. induction keys as [|key keys IH]; intros timing d E; cbn [add_timings foldl] in *; [by injection E as _ ->|].
  destruct (Hf con key) as [_ [c Ec]]. rewrite Ec in E. apply bind_inv_ret in E as (t & d1 & E1 & E).
  apply timed_performs in E1. rewrite <- E1. unfold lift in E. rewrite bind_unfold in E. destruct (add_int timing t); try done. by eapply IH.
Qed.

Lemma timed_put_by : timed_by timed_put (fun key => Put key [] IGNORE_VERSION benchmark_record UNSPECIFIED).
Proof. intros con key. split; [done|]. by eexists. Qed.
Lemma timed_get_by : timed_by timed_get Get.
Proof. intros con key. split; [set_solver|]. by eexists. Qed.
Lemma timed_remove_by : timed_by timed_remove (fun key => Delete key [] IGNORE_VERSION UNSPECIFIED).
Proof. intros con key. split; [done|]. by eexists. Qed.

Lemma lookup_removed (keys : list bytes) (m : gmap bytes KineticRecord) key : key ∈ keys -> foldl (fun m k => delete k m) m keys !! key = None.
Proof.
  assert (forall (keys : list bytes) (m : gmap bytes KineticRecord), m !! key = None -> foldl (fun m k => delete k m) m keys !! key = None) as Hnone.
  { clear. induction keys as [|k keys IH]; intros m Hm; [done|]. apply IH. by rewrite lookup_delete_None; right. }
  revert m. induction keys as [|k keys IH]; intros m; [by intros ?%not_elem_of_nil|].
  intros [->|Hk]%elem_of_cons; cbn [foldl]; [apply Hnone, lookup_delete_eq|by apply IH].
Qed.
End Drives.

(** ** Connections *)

Section Checks.
Context `{DriveStore D}.
Variable shuffle : nat -> nat -> list bytes -> list bytes.
Hypothesis shuffle_permutes : forall con k l, shuffle con k l ≡ₚ l.
Variable options : nat -> Connection.ConnectionOptions * Connection.ConnectionOptions.
Variable n : Z.

Lemma benchmark_function_tame f req con l : timed_by f req -> l ≡ₚ benchmark_keys n ->
  tame (changed con (benchmark_keys n)) (benchmark_function l con f).
Proof.
  intros Hf Hl. unfold benchmark_function. apply tame_bind; [apply _| |intros; repeat tame_step].
  intros d. destruct (add_timings_tame f req con l 1 Hf d) as [Hc Hn]. split; [|done].
  eapply changed_mono; [|exact Hc]. intros key. by rewrite Hl.
Qed.

Lemma benchmark_tame con : tame (changed con (benchmark_keys n)) (benchmark shuffle con n).
Proof.
  assert (forall {B} f req l (k : double -> M D B), timed_by f req -> l ≡ₚ benchmark_keys n -> (forall r, tame (changed con (benchmark_keys n)) (k r)) ->
    tame (changed con (benchmark_keys n)) (benchmark_function l con f ≫= k)) as Hbind.
  { intros B f req l k Hf Hl Hk. apply tame_bind; [apply _|by eapply benchmark_function_tame|done]. }
  pose proof timed_put_by. pose proof timed_get_by. pose proof timed_remove_by.
  unfold benchmark. cbv zeta. do 6 (eapply Hbind; [done|by rewrite ?shuffle_permutes|intros ?]). repeat tame_step.
Qed.

(** The report of a benchmark. *)
Definition rates (text : bytes) : Prop := exists seq_put seq_get rnd_put rnd_get : double,
  text = str " :: MB/s seq_put=" ++ show_fixed1 seq_put ++ str " seq_get=" ++ show_fixed1 seq_get ++
         str " rnd_put=" ++ show_fixed1 rnd_put ++ str " rnd_get=" ++ show_fixed1 rnd_get.

(** A benchmark that is reported has removed its keys. *)
Lemma benchmark_cleans con d text d' : benchmark shuffle con n d = (Ret text, d') ->
  rates text /\ forall key, key ∈ benchmark_keys n -> drive d' con !! key = None.
Proof.
  unfold benchmark. cbv zeta. intros E.
  do 6 (apply bind_inv_ret in E as (? & ? & ? & E)). injection E as <- <-. split; [by do 4 eexists|].
  unfold benchmark_function in *. repeat match goal with Ebf : mbind _ _ _ = (Ret _, _) |- _ => apply bind_inv_ret in Ebf as (? & ? & ? & ?) end.
  match goal with E1 : add_timings _ _ timed_remove _ _ = (Ret _, ?d1), E2 : mret _ ?d1 = (_, ?d2) |- context [drive ?d2] =>
    injection E2 as _ <-; pose proof (add_timings_performs _ _ _ _ _ _ _ _ timed_remove_by E1) as Ed end.
  intros key Hkey. rewrite Ed. cbn [perform]. apply lookup_removed. by rewrite !shuffle_permutes.
Qed.

(** What [status] may say of a connection when the drives are in a state. *)
Definition check_report (con : nat) (d' : D) (b : bool) (loc : bytes) : Prop :=
  let name := Connection.getName (options con) in
  (b = true -> (exists d0, (con_get con d0).1 = Ret tt) /\ (forall key, key ∈ benchmark_keys n -> drive d' con !! key = None)) /\
  (b = false -> loc = name) /\ (b = true -> n = 0 -> loc = name) /\ (b = true -> n <> 0 -> exists text, loc = name ++ text /\ rates text) /\
  (b = false -> n = 0 -> exists d0 e, (con_get con d0).1 = Throw e).

Lemma check_connection_spec con d : let '(o, d') := check_connection shuffle options n con d in
  changed con (benchmark_keys n) d d' /\ (o = UB \/ exists b loc, o = Ret (b, loc) /\ check_report con d' b loc).
Proof.
  unfold check_connection, try_catch. rewrite bind_unfold. pose proof (drive_get con d) as Eg. pose proof (get_ends con d) as Hends.
  destruct (con_get con d) as [og d1] eqn:Ec. cbn in Eg, Hends.
  destruct Hends as [->|[e ->]].
  2: { split; [by apply changed_none|]. right. do 2 eexists. split; [done|]. split_and!; try done. intros _ _. exists d, e. by rewrite Ec. }
  rewrite bind_unfold. destruct (Z.eqb_spec n 0) as [Hn|Hn].
  { cbn. split; [by apply changed_none|]. right. do 2 eexists. split; [done|]. split_and!; try done.
    intros _. split; [exists d; by rewrite Ec|]. rewrite Hn. by intros ? ?%not_elem_of_nil. }
  rewrite bind_unfold. pose proof (benchmark_tame con d1) as [Hc Hf].
  destruct (benchmark shuffle con n d1) as [[text|e| |] d2] eqn:Eb; cbn in Hc, Hf |- *; try done.
  all: assert (changed con (benchmark_keys n) d d2) by (etrans; [by apply changed_none|exact Hc]).
  - split; [done|]. right. do 2 eexists. split; [done|]. destruct (benchmark_cleans _ _ _ _ Eb) as [Hr Hclean].
    split_and!; try done; [|by eauto]. intros _. split; [exists d; by rewrite Ec|done].
  - split; [done|]. right. do 2 eexists. split; [done|]. by split_and!.
  - split; [done|]. by left.
Qed.

Lemma check_report_drive con d1 d2 b loc : drive d2 con = drive d1 con -> check_report con d1 b loc -> check_report con d2 b loc.
Proof. intros E. unfold check_report. by rewrite E. Qed.

(** Every connection is checked, and leaves the others alone. *)
Lemma checks_spec cons d : NoDup cons -> let '(o, d') := mapM (check_connection shuffle options n) cons d in
  (forall j, j ∉ cons -> drive d' j = drive d j) /\
  (forall j key, key ∉ benchmark_keys n -> drive d' j !! key = drive d j !! key) /\
  (o = UB \/ exists l, o = Ret l /\ Forall2 (fun con r => check_report con d' r.1 r.2) cons l).
Proof.
  intros Hnd. revert d. induction Hnd as [|con cons Hin Hnd IH]; intros d.
  { cbn. split_and!; try done. right. by eexists. }
  cbn [mapM]. rewrite bind_unfold. pose proof (check_connection_spec con d) as Hc.
  destruct (check_connection shuffle options n con d) as [o d1]. destruct Hc as [[Ho Hk] Hr].
  assert ((forall j, j ∉ con :: cons -> drive d1 j = drive d j) /\
          (forall j key, key ∉ benchmark_keys n -> drive d1 j !! key = drive d j !! key)) as [Hout Hkeys].
  { split; [intros j Hj; apply Ho; set_solver|]. intros j key Hkey. destruct (decide (j = con)) as [->|Hj]; [by apply Hk|by rewrite Ho]. }
  destruct Hr as [->|(b & loc & -> & Hr)]; [by auto|].
  rewrite bind_unfold. specialize (IH d1). destruct (mapM (check_connection shuffle options n) cons d1) as [o2 d2]. destruct IH as (Hout2 & Hkeys2 & Hr2).
  assert ((forall j, j ∉ con :: cons -> drive d2 j = drive d j) /\
          (forall j key, key ∉ benchmark_keys n -> drive d2 j !! key = drive d j !! key)) as [Ho3 Hk3].
  { split; [intros j Hj; rewrite Hout2, Hout by set_solver; done|]. intros j key Hkey. by rewrite Hkeys2, Hkeys. }
  destruct Hr2 as [->|(l & -> & Hl)]; [by auto|]. cbn. split_and!; try done. right. eexists. split; [done|]. constructor; [|done].
  cbn. eapply check_report_drive; [|exact Hr]. by apply Hout2.
Qed.
End Checks.

(** ** Looking at the snapshot *)

Section Looking.
Context `{DriveStore D} `{StatusInt}.

Definition reads (req : request) : Prop := match req with Put _ _ _ _ _ | Delete _ _ _ _ => False | _ => True end.

Lemma submit_reads con req d j : reads req -> drive (env_submit con req d).2 j = drive d j.
Proof.
  intros Hr. destruct (decide (con = j)) as [->|Hj]; [|by apply drive_others].
  destruct (drive_submit j req d) as [->|[-> _]]; [by destruct req|done].
Qed.

Definition op_reads (op : KineticAsyncOperation) : Prop := match op_function op with Some req => reads req | None => True end.

Lemma call_functions_read ops s d j : Forall op_reads ops -> drive (mapM call_function ops (s, d)).2.2 j = drive d j.
Proof.
  intros Hops. revert s d. induction Hops as [|op ops Hop _ IH]; intros s d; [done|]. cbn [mapM]. rewrite bind_unfold.
  assert (drive (call_function op (s, d)).2.2 j = drive d j) as E.
  { unfold call_function, op_reads in *. destruct (op_callback op); [|done]. destruct (finished _); [done|].
    destruct (op_function op) as [req|]; [|done]. pose proof (submit_reads (op_connection op) req d j Hop) as E.
    destruct (env_submit (op_connection op) req d) as [s' d']. cbn in E. by destruct s' as [|[r|]|r|]; repeat case_match. }
  destruct (call_function op (s, d)) as [[op'|e| |] [s1 d1]]; cbn in *; try done.
  rewrite bind_unfold. rewrite <- E, <- (IH s1 d1). by destruct (mapM call_function ops (s1, d1)) as [[] [s2 d2]].
Qed.

Lemma execute_reads (w : KineticClusterOperation D) j : Forall op_reads (operations w) ->
  drive (op_env (executeOperationVector w).2) j = drive (op_env w) j.
Proof.
  intros Hops. unfold executeOperationVector. pose proof (call_functions_read (operations w) (op_sync w) (op_env w) j Hops) as E.
  destruct (mapM call_function _ _) as [[ops|e| |] [s d]]; cbn in E; try done. by destruct (mapM time_out ops s) as [[] s'].
Qed.

Lemma filled_reads c req (w : KineticClusterOperation D) : reads req ->
  op_env (fill_all c req w).2 = op_env w /\ Forall op_reads (operations (fill_all c req w).2).
Proof. intros Hr. destruct (fill_all_spec c req w) as (ops & -> & ->). split; [done|]. apply Forall_fmap, Forall_true. by intros op. Qed.

(** A vector of reading requests that is filled and executed. *)
Definition filled (nconn size offset : nat) (c : callback_class) (req : request) : M (KineticClusterOperation D) unit :=
  expandOperationVector nconn size offset;; fill_all c req.

Lemma filled_execute_reads {A} nconn size offset c req (k : list (StatusCode * Z) -> M (KineticClusterOperation D) A) d j :
  reads req -> (forall rm w, (k rm w).2 = w) ->
  drive (op_env ((filled nconn size offset c req;; (executeOperationVector ≫= k)) (new_operation d)).2) j = drive d j.
Proof.
  intros Hr Hk. unfold filled. rewrite bind_assoc, bind_unfold. unfold expandOperationVector. destruct (_ && _); [done|].
  set (w0 := mkOperation _ _ _). pose proof (filled_reads c req w0 Hr) as [Ee Ho]. rewrite bind_unfold.
  destruct (fill_all_spec c req w0) as (ops & Ef & _). rewrite Ef in *. rewrite bind_unfold.
  pose proof (execute_reads _ j Ho) as Ex. cbn in Ex.
  destruct (executeOperationVector _) as [[rm|e| |] w] eqn:Ew; cbn in Ex |- *; try done. by rewrite Hk.
Qed.

Definition same_drives (c c' : KineticCluster D) : Prop := forall j, drive (cl_env c') j = drive (cl_env c) j.
#[export] Instance same_drives_preorder : PreOrder same_drives.
Proof. split; [by intros ?|]. intros c1 c2 c3 E12 E23 j. by rewrite E23, E12. Qed.

Lemma run_filled_same {A} c0 nconn size offset c req (k : list (StatusCode * Z) -> M (KineticClusterOperation D) A) :
  reads req -> (forall rm w, (k rm w).2 = w) ->
  keeps same_drives (run_operation (fresh_operation c0) (filled nconn size offset c req;; (executeOperationVector ≫= k))).
Proof.
  intros Hr Hk c1 j. unfold run_operation. cbn [fresh_operation new_operation operations op_sync].
  pose proof (filled_execute_reads nconn size offset c req k (cl_env c1) j Hr Hk) as E. unfold new_operation in E.
  by destruct ((filled nconn size offset c req;; (executeOperationVector ≫= k)) _) as [r o].
Qed.

Lemma now_same : keeps same_drives now.
Proof. intros c j. unfold now. pose proof (drive_now (cl_env c) j) as E. by destruct (env_now (cl_env c)). Qed.

Lemma modify_same (f : KineticCluster D -> KineticCluster D) : (forall c, cl_env (f c) = cl_env c) -> keeps same_drives (modify f).
Proof. intros Hf. apply keeps_modify. intros c j. by rewrite Hf. Qed.

Lemma updateSnapshot_same : keeps same_drives updateSnapshot.
Proof.
  unfold updateSnapshot. repeat (keeps_step || apply now_same || (apply modify_same; done)).
  - by apply run_filled_same.
  - by apply run_filled_same.
Qed.

Lemma stats_same : keeps same_drives stats.
Proof. unfold stats. repeat (keeps_step || apply now_same || (apply modify_same; done)). Qed.

Lemma usleep_same us : keeps same_drives (usleep us).
Proof. apply keeps_modify. intros c j. apply drive_usleep. Qed.

Variable updates : nat -> bool.

Lemma look_same i : keeps same_drives (look updates i).
Proof. unfold look, background. repeat (keeps_step || apply updateSnapshot_same || apply stats_same). Qed.

Lemma await_snapshot_same fuel i : keeps same_drives (await_snapshot updates fuel i).
Proof. revert i. induction fuel as [|fuel IH]; intros i; cbn [await_snapshot]; repeat (keeps_step || apply look_same || apply usleep_same || apply IH). Qed.

(** After [k] looks at a snapshot that is still unknown comes one at a snapshot that is not. *)
Fixpoint settles (k i : nat) (c : KineticCluster D) : Prop :=
  exists (s : ClusterStats) (c' : KineticCluster D), look updates i c = (Ret s, c') /\
    match k with
    | O => bytes_total s <> 1 /\ exists (s' : ClusterStats) (c'' : KineticCluster D), look updates (S i) c' = (Ret s', c'')
    | S k' => bytes_total s = 1 /\ settles k' (S i) (with_env (env_usleep 100 (cl_env c')) (cl_redundancy c') c')
    end.

Lemma await_snapshot_returns fuel k i c : settles k i c -> (k < fuel)%nat ->
  exists i' c', await_snapshot updates fuel i c = (Ret i', c') /\ exists s c'', look updates i' c' = (Ret s, c'').
Proof.
  revert i fuel c. induction k as [|k IH]; intros i [|fuel] c (s & c' & E & Hs) Hf; try lia; cbn [await_snapshot].
  all: rewrite (bind_ret _ _ _ _ _ E).
  - destruct Hs as [Hs Hl]. rewrite (proj2 (Z.eqb_neq _ _) Hs). by exists (S i), c'.
  - destruct Hs as [-> Hs]. cbn [Z.eqb Pos.eqb]. unfold usleep at 1. rewrite bind_modify. apply (IH (S i) fuel _ Hs). lia.
Qed.
End Looking.

(** ** Exceptions *)

Definition quiet {W A} (m : M W A) : Prop := forall w e, (m w).1 <> Throw e.

Lemma quiet_bind {W A B} (m : M W A) (f : A -> M W B) : quiet m -> (forall a, quiet (f a)) -> quiet (m ≫= f).
Proof. intros Hm Hf w e. rewrite bind_unfold. specialize (Hm w). destruct (m w) as [[a|e'| |] w']; cbn in *; try done; [apply Hf|]. intros _. by apply (Hm e'). Qed.

Lemma quiet_mret {W A} (a : A) : quiet (mret a : M W A).
Proof. done. Qed.

Section Quiet.
Context `{DriveStore D} `{StatusInt} (updates : nat -> bool).

Lemma look_quiet i : quiet (look updates i).
Proof.
  unfold look, background. apply quiet_bind.
  - intros c e. destruct (updates i); [|done]. unfold when, try_catch. by destruct (updateSnapshot c) as [[] c'].
  - intros _. apply quiet_bind; [|by intros []]. unfold stats. assert (quiet (now (D:=D))) as Hnow.
    { intros c e. unfold now. by destruct (env_now _). }
    apply quiet_bind; [done|]. intros t. apply quiet_bind; [done|]. intros c. destruct (_ <? _); [|done]. apply quiet_bind; [done|]. by intros ?.
Qed.

Lemma await_snapshot_quiet fuel i : quiet (await_snapshot updates fuel i).
Proof.
  revert i. induction fuel as [|fuel IH]; intros i; [done|]. cbn [await_snapshot]. apply quiet_bind; [apply look_quiet|].
  intros s. destruct (_ =? _); [|done]. by apply quiet_bind.
Qed.
End Quiet.

(** ** Properties *)

(** C25: The status tells how every connection is, and looking leaves no trace.  [status] never throws.  It reports one flag and
    one name per connection, in their order: a connection is flagged only if its object handed out a connection to the drive and, when
    benchmarks are asked for, every request of them succeeded, and only then its name carries the four measured rates.
    On no drive any key changes but the benchmark keys, none at all without benchmarks, and a drive whose connection is flagged
    holds no benchmark key when [status] returns.  It returns as soon as a look finds a snapshot of the statistics. *)
Theorem cluster_status `{DriveStore D} `{StatusInt} shuffle options updates fuel n (c : KineticCluster D) :
  (forall con k l, shuffle con k l ≡ₚ l) ->
  let checks := on_drives (mapM (check_connection shuffle options n) (seq 0 (connections c))) in
  let '(o, c') := status shuffle options updates fuel n c in
  (forall e, o <> Throw e) /\
  (forall j key, key ∉ benchmark_keys n \/ (connections c <= j)%nat -> drive (cl_env c') j !! key = drive (cl_env c) j !! key) /\
  (forall s, o = Ret s -> length (connected s) = connections c /\ length (location s) = connections c /\
    forall i b loc, connected s !! i = Some b -> location s !! i = Some loc -> check_report options n i (cl_env c') b loc) /\
  (forall l c1 k, checks c = (Ret l, c1) -> settles updates k 0 c1 -> (k < fuel)%nat -> exists s, o = Ret s).
Proof.
  intros Hs checks. unfold status. rewrite bind_get. fold checks. rewrite bind_unfold.
  pose proof (checks_spec shuffle Hs options n (seq 0 (connections c)) (cl_env c) (NoDup_seq _ _)) as Hc.
  destruct (checks c) as [ol c1] eqn:Ec. unfold checks, on_drives, zoom in Ec.
  destruct (mapM (check_connection shuffle options n) (seq 0 (connections c)) (cl_env c)) as [o1 d1]. injection Ec as -> <-.
  destruct Hc as (Hout & Hkeys & Hl). set (c1 := with_env _ _ _) in *.
  assert (forall c' j key, same_drives c1 c' -> key ∉ benchmark_keys n \/ (connections c <= j)%nat ->
    drive (cl_env c') j !! key = drive (cl_env c) j !! key) as Hdrives.
  { intros c' j key Hsame [Hkey|Hj]; rewrite Hsame; unfold c1; cbn [with_env cl_env]; [by apply Hkeys|].
    rewrite Hout; [done|]. rewrite elem_of_seq. lia. }
  destruct Hl as [->|(l & -> & Hl)]; [by split_and!; try done; intros; apply Hdrives|].
  rewrite bind_unfold. pose proof (await_snapshot_same updates fuel 0 c1) as Ha. pose proof (await_snapshot_quiet updates fuel 0 c1) as Hq.
  pose proof (fun k => await_snapshot_returns updates fuel k 0 c1) as Hret.
  destruct (await_snapshot updates fuel 0 c1) as [oi c2] eqn:Ea. cbn in Ha, Hq.
  destruct oi as [i|e| |].
  2: by destruct (Hq e).
  2-3: split_and!; [done|by intros; apply Hdrives|done|]; intros ? ? k [= <- <-] Hk Hf; by destruct (Hret k Hk Hf) as (? & ? & ? & _).
  rewrite bind_unfold. pose proof (look_same updates i c2) as Hk. pose proof (look_quiet updates i c2) as Hq2.
  destruct (look updates i c2) as [os c3] eqn:El. cbn in Hk, Hq2.
  assert (same_drives c1 c3) as Hsame by (by etrans).
  destruct os as [s|e| |].
  2: by destruct (Hq2 e).
  2-3: split_and!; [done|by intros; apply Hdrives|done|]; intros ? ? k [= <- <-] Hset Hf;
    destruct (Hret k Hset Hf) as (? & ? & [= <- <-] & ? & ? & ?); congruence.
  cbn. split_and!; [done|by intros; apply Hdrives| |by eauto].
  intros ? [= <-]. cbn. rewrite !length_fmap. pose proof (Forall2_length _ _ _ Hl) as Hlen. rewrite length_seq in Hlen.
  split_and!; [done..|]. intros i' b loc Hb Hloc. rewrite list_lookup_fmap in Hb. rewrite list_lookup_fmap in Hloc.
  destruct (l !! i') as [[b' loc']|] eqn:Eli; [|done]. injection Hb as <-. injection Hloc as <-.
  destruct (Forall2_lookup_r _ _ _ _ _ Hl Eli) as (con & Econ & Hr). apply lookup_seq in Econ as [-> _].
  eapply check_report_drive; [|exact Hr]. apply Hsame.
Qed.

(** Simulated drives: the second of three cannot be reached. *)
Module Status_example.
Import Simulator.

#[export] Instance sim_connections : Connections sim := fun i d =>
  (match sim_drives d !! i with Some (Some _) => Ret tt | _ => Throw (system_error not_connected) end, d).

Definition sim_drive (d : sim) (i : nat) : gmap bytes KineticRecord :=
  match sim_drives d !! i with Some (Some m) => m | _ => ∅ end.

Lemma sim_reply_performs req m : (sim_reply req m).2 = perform req m \/
  ((sim_reply req m).2 = m /\ bool_decide (reply_status (sim_reply req m).1 = OK) = false).
Proof. destruct req; cbn; repeat case_match; cbn; auto. Qed.

#[export] Program Instance sim_drive_store : DriveStore sim := { drive := sim_drive }.
Next Obligation. done. Qed.
Next Obligation. done. Qed.
Next Obligation. done. Qed.
Next Obligation.
  intros i req d j Hij. cbn. unfold sim_submit. destruct (sim_drives d !! i) as [[m|]|]; [|done..].
  destruct (sim_reply req m) as [r m']. unfold sim_drive. cbn. by rewrite list_lookup_insert_ne.
Qed.
Next Obligation.
  intros i req d. cbn. unfold sim_submit, sim_drive. destruct (sim_drives d !! i) as [[m|]|] eqn:E; [|by right; cbn; rewrite E..].
  pose proof (sim_reply_performs req m) as Hr. destruct (sim_reply req m) as [r m']. cbn in *.
  by rewrite list_lookup_insert_eq by (by eapply lookup_lt_Some).
Qed.
Next Obligation. intros i d. cbn. repeat case_match; eauto. Qed.

Definition options (i : nat) : Connection.ConnectionOptions * Connection.ConnectionOptions :=
  let o := Connection.mkOptions (str "drive" ++ dec (Z.of_nat i)) 8123 false 1 [] in (o, o).
Definition unknown : ClusterStats := mkClusterStats 1 0 0 0 0 0 0 0 0 0 0 0 (mkClusterStatus false 3 0 1 [] []).
Definition cluster : KineticCluster sim :=
  mkCluster (str "C1") (str "instance") 4 10 3 Example_.provider None 0 unknown (mkSim [Some ∅; None; Some ∅] 0 1).
Definition updates (i : nat) : bool := bool_decide (i = 1%nat).
Definition status_ : M (KineticCluster sim) ClusterStatus := status (fun _ _ l => l) options updates 3 2.
End Status_example.

Lemma cluster_status_witness :
  exists s c', Status_example.status_ Status_example.cluster = (Ret s, c') /\ connected s = [true; false; true] /\
    drives_failed s = 1 /\ Status_example.sim_drive (cl_env c') 0 !! benchmark_key 0 = None.
Proof.
  pose proof (@cluster_status _ _ _ Status_example.sim_drive_store Simulator.sim_status_int (fun _ _ l => l) Status_example.options
    Status_example.updates 3 2 Status_example.cluster (fun _ _ _ => reflexivity _)) as Hs.
  fold Status_example.status_ in Hs. cbv zeta in Hs.
  destruct (Status_example.status_ Status_example.cluster) as [o c'] eqn:E. destruct Hs as (_ & _ & Hreport & _).
  assert ((s ← o; Ret (connected s, drives_failed s)) = Ret ([true; false; true], 1)) as Ho.
  { change o with (fst (o, c')). rewrite <- E. vm_compute. reflexivity. }
  destruct o as [s|e| |]; try discriminate Ho. injection Ho as Hc Hf. exists s, c'. split_and!; [reflexivity|exact Hc|exact Hf|].
  destruct (Hreport s eq_refl) as (_ & Hl & Hr). rewrite Hc in Hr.
  destruct (lookup_lt_is_Some_2 (location s) 0) as [loc Hloc]; [rewrite Hl; vm_compute; lia|].
  destruct (Hr 0%nat true loc eq_refl Hloc) as ((_ & Hclean) & _); [reflexivity|].
  apply Hclean. vm_compute. by left.
Defined.

(** ** What a benchmark does not guarantee *)

(** A drive that stops answering after some requests. *)
Module Flaky.
Import Simulator.
Definition flaky : Type := sim * nat.

#[export] Instance flaky_env : Env flaky := {
  env_submit := fun i req '(d, n) => match n with
    | O => (Unanswered, (d, O))
    | S n' => let '(s, d') := env_submit i req d in (s, (d', n'))
    end;
  env_now := fun '(d, n) => let '(t, d') := env_now d in (t, (d', n));
  env_usleep := fun us '(d, n) => (env_usleep us d, n);
  env_uuid := fun '(d, n) => let '(u, d') := env_uuid d in (u, (d', n));
}.
#[export] Instance flaky_connections : Connections flaky := fun i '(d, n) => let '(o, d') := Status_example.sim_connections i d in (o, (d', n)).
End Flaky.

(** A benchmark that fails half way leaves its keys, of a megabyte each, on the drive, and nothing removes them later. *)
Lemma failed_benchmark_leaves_keys :
  let '(o, d) := @check_connection _ Flaky.flaky_env (fun _ _ l => l) Flaky.flaky_connections Status_example.options 3 0 (Simulator.fresh 1, 2%nat) in
  (r ← o; Ret (fst r)) = Ret false /\ forall key, key ∈ [benchmark_key 0; benchmark_key 1] ->
    is_Some (Status_example.sim_drive (fst d) 0 !! key).
Proof.
  destruct (check_connection _ _ _ _ _) as [o d] eqn:E.
  assert ((r ← o; Ret (fst r)) = Ret false) as Ho by (change o with (fst (o, d)); rewrite <- E; vm_compute; reflexivity).
  split; [done|]. intros key Hk.
  assert (forallb (fun key => bool_decide (is_Some (Status_example.sim_drive (fst d) 0 !! key))) [benchmark_key 0; benchmark_key 1] = true) as Hb
    by (change d with (snd (o, d)); rewrite <- E; vm_compute; reflexivity).
  rewrite forallb_forall in Hb. apply list_elem_of_In in Hk. by apply Hb, bool_decide_eq_true in Hk.
Qed.
