(* ===== verification/ClusterMap.v ===== *)
(** * The map of clusters (src/ClusterMap.cc)

    Cluster objects are created when they are first asked for, from the configuration of clusters and
    drives, and are shared from then on; clusters with the same redundancy share a provider.  Objects
    and providers have addresses, so that sharing is visible.  What the connections of a new cluster
    lead to is the parameter [connect]; everything else is the constructor of [Cluster]. *)

From S2P Require Import Prelude CppString Utility Kinetic Callbacks ClusterOperation Isa Redundancy StripeOperation Cluster.
From S2P Require Import Simulator BackgroundOperationHandler Connection.
Import Connection.

Module ClusterMap.

(** [ClusterInformation]; the sizes are of type [size_t]. *)
Record ClusterInformation := mkClusterInformation {
  ci_numData : Z;
  ci_numParity : Z;
  ci_blockSize : Z;
  ci_min_reconnect_interval : Z;
  ci_operation_timeout : Z;
  ci_drives : list bytes;
}.

Abbreviation drive_options := (ConnectionOptions * ConnectionOptions)%type (only parsing).
Abbreviation cluster_ptr := nat (only parsing).
Abbreviation provider_ptr := nat (only parsing).

(** A cluster object: what it was made from, the provider it shares, and its state. *)
Record ClusterObject {D : Type} := mkClusterObject {
  co_info : ClusterInformation;
  co_connections : list (drive_options * Z);
  co_provider : provider_ptr;
  co_cluster : KineticCluster D;
}.
Arguments ClusterObject : clear implicits.
Arguments mkClusterObject {D} _ _ _ _.

Record ClusterMap {D : Type} := mkClusterMap {
  clusterInfoMap : gmap bytes ClusterInformation;
  driveInfoMap : gmap bytes drive_options;
  clusterCache : gmap bytes cluster_ptr;
  rpCache : gmap bytes provider_ptr;
  (* the objects by address; they live on in the hands of others when the map forgets them *)
  clusters : list (ClusterObject D);
  providers : list RedundancyProvider;
}.
Arguments ClusterMap : clear implicits.
Arguments mkClusterMap {D} _ _ _ _ _ _.

Section Operations.
Context `{Env D} `{StatusInt} `{Checksum} `{IsaL}.

(** The environment that connections with these options lead to, and what the uninitialised members of a
    cluster hold. *)
Variable connect : list (drive_options * Z) -> D.
Variable memory : ClusterStats.

Abbreviation Map := (ClusterMap D).

Definition new_map : Map := mkClusterMap ∅ ∅ ∅ ∅ [] [].

Definition reset (clusterInfo : gmap bytes ClusterInformation) (driveInfo : gmap bytes drive_options) : M Map unit :=
  modify (fun m => mkClusterMap clusterInfo driveInfo ∅ (rpCache m) (clusters m) (providers m)).

(** The loop that builds the connection vector. *)
Fixpoint build_connections (drives : list bytes) (interval : Z) (m : Map) : outcome (list (drive_options * Z)) :=
  match drives with
  | [] => Ret []
  | wwn :: drives' =>
      match driveInfoMap m !! wwn with
      | None => Throw (system_error no_such_device)
      | Some o => connections ← build_connections drives' interval m; Ret ((o, interval) :: connections)
      end
  end.

Definition rpName (numData numParity : Z) : bytes := to_string numData ++ str "-" ++ to_string numParity.

(** [rpCache.insert], if there is none of that name. *)
Definition get_provider (numData numParity : Z) : M Map provider_ptr :=
  m ← get;
  match rpCache m !! rpName numData numParity with
  | Some p => mret p
  | None =>
      let p := length (providers m) in
      modify (fun m => mkClusterMap (clusterInfoMap m) (driveInfoMap m) (clusterCache m) (<[rpName numData numParity := p]> (rpCache m))
        (clusters m) (providers m ++ [new_provider (Z.to_nat numData) (Z.to_nat numParity)]));;
      mret p
  end.

Definition getCluster (id : bytes) : M Map cluster_ptr :=
  m ← get;
  match clusterCache m !! id with
  | Some c => mret c
  | None =>
      match clusterInfoMap m !! id with
      | None => throw (system_error no_such_device)
      | Some ki =>
          connections ← lift (build_connections (ci_drives ki) (ci_min_reconnect_interval ki) m);
          if ci_numData ki <=? ci_numParity ki then throw (system_error invalid_argument) else
          p ← get_provider (ci_numData ki) (ci_numParity ki);
          m ← get;
          rp ← lift (deref (providers m !! p));
          cluster ← lift (fst (new_cluster memory id (ci_blockSize ki) (ci_operation_timeout ki) (length connections) rp (connect connections)));
          let c := length (clusters m) in
          modify (fun m => mkClusterMap (clusterInfoMap m) (driveInfoMap m) (<[id := c]> (clusterCache m)) (rpCache m)
            (clusters m ++ [mkClusterObject ki connections p cluster]) (providers m));;
          mret c
      end
  end.

(** [getAdminCluster] reads the cache again without the lock; [between] is what other threads do in between. *)
Definition getAdminCluster (between : M Map unit) (id : bytes) : M Map cluster_ptr :=
  getCluster id;;
  between;;
  m ← get;
  match clusterCache m !! id with
  | Some c => mret c
  | None => throw std_out_of_range
  end.

End Operations.
End ClusterMap.
Import ClusterMap.

(** ** Lemmas: names of providers *)

Lemma digits_break s s' t t' : all_digits s -> all_digits s' -> s ++ str "-" ++ t = s' ++ str "-" ++ t' -> s = s' /\ t = t'.
Proof.
  assert (forall c, is_Some (char_digit c) -> c <> "-"%char) as Hc by (intros c [d Hd] ->; vm_compute in Hd; discriminate Hd).
  intros Hs. revert s'. induction Hs as [|c s Hd _ IH]; intros [|c' s'] Hs' E; cbn in E.
  - by injection E.
  - injection E as E _. apply Forall_cons in Hs' as [Hd' _]. by destruct (Hc _ Hd').
  - injection E as E _. by destruct (Hc _ Hd).
  - injection E as -> E. apply Forall_cons in Hs' as [_ Hs']. by destruct (IH s' Hs' E) as [-> ->].
Qed.

Lemma dec_inj n m : 0 <= n -> 0 <= m -> dec n = dec m -> n = m.
Proof. intros Hn Hm E. destruct (dec_spec n Hn) as (_ & <- & _), (dec_spec m Hm) as (_ & <- & _). by rewrite E. Qed.

Lemma rpName_inj n m n' m' : 0 <= n -> 0 <= m -> 0 <= n' -> 0 <= m' -> rpName n m = rpName n' m' -> n = n' /\ m = m'.
Proof.
  intros Hn Hm Hn' Hm'. unfold rpName, to_string. rewrite !(proj2 (Z.ltb_ge _ 0)) by lia. intros E.
  destruct (digits_break (dec n) (dec n') (dec m) (dec m')) as [En Em]; [by apply dec_spec|by apply dec_spec|done|].
  split; by apply dec_inj.
Qed.

(** ** Lemmas: the constructor of clusters *)

Section Constructor.
Context `{Env D} `{StatusInt} `{Checksum} `{IsaL}.

(** What the constructor never changes once it is set. *)
Definition same_cluster (c c' : KineticCluster D) : Prop :=
  identity c' = identity c /\ chunkCapacity c' = chunkCapacity c /\ operation_timeout c' = operation_timeout c /\
  connections c' = connections c /\ cl_redundancy c' = cl_redundancy c.

#[local] Instance same_cluster_preorder : PreOrder same_cluster.
Proof.
  split; [by intros ?|]. intros x y z (? & ? & ? & ? & ?) (? & ? & ? & ? & ?). split_and!; by etrans.
Qed.

Lemma run_operation_same {A} o (m : M (KineticClusterOperation D) A) : keeps same_cluster (run_operation o m).
Proof. intros c. unfold run_operation. destruct (m _) as [r o']. by split_and!. Qed.

Lemma obtain_limits_same block_size offs : keeps same_cluster (obtain_limits (D:=D) block_size offs).
Proof.
  induction offs as [|off offs IH]; cbn [obtain_limits]; repeat keeps_step; try apply run_operation_same; try done.
  all: apply keeps_modify; by split_and!.
Qed.

Lemma new_cluster_spec memory id block_size timeout cons rp (d : D) c d' :
  new_cluster memory id block_size timeout cons rp d = (Ret c, d') ->
  identity c = id /\ chunkCapacity c = block_size /\ operation_timeout c = timeout /\ connections c = cons /\ cl_redundancy c = rp.
Proof.
  unfold new_cluster. destruct (env_uuid d) as [u d1].
  match goal with |- context [obtain_limits ?b ?l ?c0] => pose proof (obtain_limits_same b l c0) as Hs;
    destruct (obtain_limits b l c0) as [r c1] end.
  destruct Hs as (? & ? & ? & ? & ?). destruct r; intros E; cbn in E; simplify_eq. by split_and!.
Qed.
End Constructor.

(** ** The invariant *)

Section Invariant.
Context `{Env D} `{StatusInt} `{Checksum} `{IsaL} (connect : list (drive_options * Z) -> D) (memory : ClusterStats).
Implicit Types m : ClusterMap D.

(** Sizes are unsigned. *)
Definition info_ok (ki : ClusterInformation) : Prop := 0 <= ci_numData ki /\ 0 <= ci_numParity ki.

(** The object of a configuration: its cluster, and the provider registered for its redundancy. *)
Record object_ok (m : ClusterMap D) (o : ClusterObject D) : Prop := {
  ob_info : info_ok (co_info o);
  ob_more_data : ci_numParity (co_info o) < ci_numData (co_info o);
  ob_capacity : chunkCapacity (co_cluster o) = ci_blockSize (co_info o);
  ob_timeout : operation_timeout (co_cluster o) = ci_operation_timeout (co_info o);
  ob_connections : connections (co_cluster o) = length (ci_drives (co_info o));
  ob_provider : rpCache m !! rpName (ci_numData (co_info o)) (ci_numParity (co_info o)) = Some (co_provider o);
  ob_redundancy : providers m !! co_provider o = Some (cl_redundancy (co_cluster o));
}.

Definition provider_named (name : bytes) (rp : RedundancyProvider) : Prop :=
  name = rpName (Z.of_nat (numData rp)) (Z.of_nat (numParity rp)).

Record map_ok (m : ClusterMap D) : Prop := {
  mo_info : map_Forall (fun _ => info_ok) (clusterInfoMap m);
  mo_cache : forall id c, clusterCache m !! id = Some c -> exists o, clusters m !! c = Some o /\ identity (co_cluster o) = id;
  mo_providers : forall name p, rpCache m !! name = Some p -> exists rp, providers m !! p = Some rp /\ provider_named name rp;
  mo_objects : Forall (object_ok m) (clusters m);
}.

Inductive reachable : ClusterMap D -> Prop :=
  | reachable_new : reachable new_map
  | reachable_reset m clusterInfo driveInfo : reachable m -> map_Forall (fun _ => info_ok) clusterInfo ->
      reachable (snd (reset clusterInfo driveInfo m))
  | reachable_get m id : reachable m -> reachable (snd (getCluster connect memory id m)).

Lemma object_ok_mono m m' o : rpCache m ⊆ rpCache m' -> providers m `prefix_of` providers m' -> object_ok m o -> object_ok m' o.
Proof. intros Hc Hp []. split; try done; [by eapply lookup_weaken|by eapply prefix_lookup_Some]. Qed.

Lemma build_connections_spec drives interval m l : build_connections drives interval m = Ret l ->
  Forall2 (fun wwn p => driveInfoMap m !! wwn = Some p.1 /\ p.2 = interval) drives l.
Proof.
  revert l. induction drives as [|wwn drives IH]; intros l E; cbn in E; [by simplify_eq|].
  destruct (driveInfoMap m !! wwn) as [o|] eqn:Ed; [|done]. destruct (build_connections drives interval m); try done.
  cbn in E. simplify_eq. constructor; [done|]. by apply IH.
Qed.

Lemma build_connections_throws drives interval m e : build_connections drives interval m = Throw e ->
  e = system_error no_such_device /\ exists wwn, wwn ∈ drives /\ driveInfoMap m !! wwn = None.
Proof.
  induction drives as [|wwn drives IH]; intros E; cbn in E; [done|].
  destruct (driveInfoMap m !! wwn) as [o|] eqn:Ed; [|simplify_eq; split; [done|]; exists wwn; split; [by left|done]].
  destruct (build_connections drives interval m); try done. cbn in E. simplify_eq.
  destruct (IH eq_refl) as (-> & w & Hw & Hn). split; [done|]. exists w. split; [by right|done].
Qed.

Lemma get_provider_spec n k m : map_ok m -> 0 <= n -> 0 <= k -> exists p m', get_provider n k m = (Ret p, m') /\ map_ok m' /\
  rpCache m' !! rpName n k = Some p /\ rpCache m ⊆ rpCache m' /\ providers m `prefix_of` providers m' /\
  clusterInfoMap m' = clusterInfoMap m /\ driveInfoMap m' = driveInfoMap m /\ clusterCache m' = clusterCache m /\ clusters m' = clusters m.
Proof.
  intros Hm Hn Hk. unfold get_provider. mstep. destruct (rpCache m !! rpName n k) as [p|] eqn:Ep.
  { exists p, m. split_and!; done. }
  eexists _, _. split; [by mstep|]. set (rp := new_provider (Z.to_nat n) (Z.to_nat k)). cbn.
  assert (rpCache m ⊆ <[rpName n k:=length (providers m)]> (rpCache m)) as Hsub by by apply insert_subseteq.
  split_and!; try done; [|apply lookup_insert_eq|by apply prefix_app_r].
  destruct Hm as [Hi Hc Hp Ho]. split; cbn; [done|done| |].
  - intros name p Hname. destruct (decide (name = rpName n k)) as [->|Hne].
    + rewrite lookup_insert_eq in Hname. injection Hname as <-. exists rp. split; [by apply list_lookup_middle|].
      unfold provider_named, rp, new_provider. cbn. by rewrite !Z2Nat.id by done.
    + rewrite lookup_insert_ne in Hname by done. destruct (Hp _ _ Hname) as (rp' & Hl & Hrp). exists rp'. split; [by apply lookup_app_l_Some|done].
  - eapply Forall_impl; [exact Ho|]. intros o. apply object_ok_mono; [done|]. by apply prefix_app_r.
Qed.

(** The outcome of [getCluster]: the object that is there, no object, or a new one. *)
Definition found_cluster (id : bytes) (m : ClusterMap D) (r : outcome nat) (m' : ClusterMap D) : Prop :=
  (exists c, clusterCache m !! id = Some c /\ r = Ret c /\ m' = m) \/
  (clusterCache m !! id = None /\ (forall c, r <> Ret c) /\ clusterCache m' = clusterCache m /\ clusters m' = clusters m) \/
  (clusterCache m !! id = None /\ exists ki o, clusterInfoMap m !! id = Some ki /\ r = Ret (length (clusters m)) /\
    clusterCache m' = <[id := length (clusters m)]> (clusterCache m) /\ clusters m' = clusters m ++ [o] /\
    co_info o = ki /\ identity (co_cluster o) = id /\
    Forall2 (fun wwn p => driveInfoMap m !! wwn = Some p.1 /\ p.2 = ci_min_reconnect_interval ki) (ci_drives ki) (co_connections o)).

Lemma getCluster_spec id m r m' : map_ok m -> getCluster connect memory id m = (r, m') ->
  map_ok m' /\ clusterInfoMap m' = clusterInfoMap m /\ driveInfoMap m' = driveInfoMap m /\ found_cluster id m r m'.
Proof.
  intros Hm. unfold getCluster. mstep. destruct (clusterCache m !! id) as [c|] eqn:Ec.
  { intros [= <- <-]. split_and!; [done..|]. left. by exists c. }
  assert (forall r' m2, map_ok m2 -> clusterInfoMap m2 = clusterInfoMap m -> driveInfoMap m2 = driveInfoMap m ->
    clusterCache m2 = clusterCache m -> clusters m2 = clusters m -> (forall c, r' <> Ret c) ->
    map_ok m2 /\ clusterInfoMap m2 = clusterInfoMap m /\ driveInfoMap m2 = driveInfoMap m /\ found_cluster id m r' m2) as Hnone.
  { intros r' m2 ? ? ? ? ? ?. split_and!; [done..|]. right; left. done. }
  destruct (clusterInfoMap m !! id) as [ki|] eqn:Eki; [|intros [= <- <-]; by apply Hnone].
  destruct (build_connections _ _ m) as [l|e| |] eqn:El; [mstep|unfold lift; rewrite bind_unfold; intros [= <- <-]; by apply Hnone..].
  case_bool; [intros [= <- <-]; by apply Hnone|]. destruct (mo_info _ Hm _ _ Eki) as [Hn Hk].
  destruct (get_provider_spec (ci_numData ki) (ci_numParity ki) m Hm Hn Hk) as (p & m1 & E1 & Hm1 & Hp & Hsub & Hpre & Hi & Hd & Hc & Hcl).
  rewrite (bind_ret _ _ _ _ _ E1). mstep. destruct (mo_providers _ Hm1 _ _ Hp) as (rp & Hrp & _). rewrite Hrp. cbn [deref]. mstep.
  destruct (new_cluster memory id (ci_blockSize ki) (ci_operation_timeout ki) (length l) rp (connect l)) as [[cluster|e| |] d] eqn:En; cbn [fst];
    [mstep|unfold lift; rewrite bind_unfold; intros [= <- <-]; by apply Hnone..].
  destruct (new_cluster_spec _ _ _ _ _ _ _ _ _ En) as (Hid & Hcap & Htime & Hcon & Hred). pose proof (build_connections_spec _ _ _ _ El) as Hl.
  intros [= <- <-]. set (o := mkClusterObject ki l p cluster). cbn. split_and!; [|done..|].
  - destruct Hm1 as [Hinfo Hcache Hprov Hobj]. split; cbn; [done| |done|].
    + intros id' c. rewrite lookup_insert_Some. intros [[<- <-]|[_ Hold]].
      * exists o. split; [|done]. by apply list_lookup_middle.
      * destruct (Hcache _ _ Hold) as (o' & Ho' & Hido'). exists o'. split; [by apply lookup_app_l_Some|done].
    + apply Forall_app. split; [eapply Forall_impl; [exact Hobj|]; intros o' []; by split|]. apply Forall_singleton.
      split; cbn; try done; [rewrite Hcon; symmetry; by eapply Forall2_length|by rewrite Hred].
  - right; right. split; [done|]. exists ki, o. rewrite Hc, Hcl. by split_and!.
Qed.

Lemma map_reachable_ok m : reachable m -> map_ok m.
Proof.
  induction 1 as [|m ci di _ [Hi Hc Hp Ho] Hci|m id _ IH].
  - split; [by apply map_Forall_empty|done|done|constructor].
  - split; cbn; [done|done|done|]. eapply Forall_impl; [exact Ho|]. intros o []. by split.
  - destruct (getCluster connect memory id m) as [r m'] eqn:E. by apply (getCluster_spec id m r).
Qed.

(** Providers are shared by exactly the clusters of equal redundancy. *)
Lemma providers_shared m o1 o2 : map_ok m -> o1 ∈ clusters m -> o2 ∈ clusters m ->
  co_provider o1 = co_provider o2 <-> ci_numData (co_info o1) = ci_numData (co_info o2) /\ ci_numParity (co_info o1) = ci_numParity (co_info o2).
Proof.
  intros [_ _ Hp Ho] Hin1 Hin2. rewrite Forall_forall in Ho. destruct (Ho _ Hin1) as [[? ?] _ _ _ _ Hp1 _], (Ho _ Hin2) as [[? ?] _ _ _ _ Hp2 _]. split.
  - intros E. rewrite <- E in Hp2. destruct (Hp _ _ Hp1) as (rp & Hrp & Hn1), (Hp _ _ Hp2) as (rp' & Hrp' & Hn2). simplify_eq.
    unfold provider_named in *. rewrite <- Hn2 in Hn1. by apply rpName_inj.
  - intros [En Ek]. rewrite En, Ek in Hp1. by simplify_eq.
Qed.

(** The errors of [getCluster] that are its own. *)
Lemma getCluster_errors id m : clusterCache m !! id = None ->
  (clusterInfoMap m !! id = None -> getCluster connect memory id m = (Throw (system_error no_such_device), m)) /\
  (forall ki, clusterInfoMap m !! id = Some ki ->
    ((exists wwn, wwn ∈ ci_drives ki /\ driveInfoMap m !! wwn = None) -> getCluster connect memory id m = (Throw (system_error no_such_device), m)) /\
    (Forall (fun wwn => is_Some (driveInfoMap m !! wwn)) (ci_drives ki) -> ci_numData ki <= ci_numParity ki ->
      getCluster connect memory id m = (Throw (system_error invalid_argument), m))).
Proof.
  intros Ec. unfold getCluster. mstep. rewrite Ec. split; [by intros ->|]. intros ki ->. split.
  - intros (wwn & Hin & Hnone). assert (build_connections (ci_drives ki) (ci_min_reconnect_interval ki) m = Throw (system_error no_such_device)) as ->; [|done].
    induction (ci_drives ki) as [|w l IH]; [by apply not_elem_of_nil in Hin|]. cbn. destruct (driveInfoMap m !! w) eqn:Ew; [|done].
    apply elem_of_cons in Hin as [->|Hin]; [congruence|]. by rewrite (IH Hin).
  - intros Hall Hle. assert (exists l, build_connections (ci_drives ki) (ci_min_reconnect_interval ki) m = Ret l) as [l ->].
    { induction Hall as [|w l [o Ho] _ [l' IH]]; [by exists []|]. cbn. rewrite Ho, IH. by eexists. }
    mstep. by rewrite (proj2 (Z.leb_le _ _) Hle).
Qed.
End Invariant.

(** ** Properties *)

(** C30: The map of clusters gives out one object per cluster.  Starting from an empty map, after any
    resets and requests: asking for a cluster that is there returns the same object and changes
    nothing; asking for an unknown cluster, one with an unknown drive, or one without more data than parity
    chunks fails with its error and enters no object; an object that is entered has the
    identity, chunk size, timeout and drives of the configuration, in their order, and asking again
    returns it.  Objects already given out stay as they are, distinct clusters have distinct objects,
    and two objects share their redundancy provider exactly when they have the same numbers of chunks. *)
Theorem cluster_map `{Env D} `{StatusInt} `{IsaL} connect memory (m : ClusterMap D) id r m' :
  reachable connect memory m -> getCluster connect memory id m = (r, m') ->
  found_cluster id m r m' /\ (forall c, r = Ret c -> getCluster connect memory id m' = (Ret c, m')) /\
  (clusterCache m !! id = None ->
    (clusterInfoMap m !! id = None -> r = Throw (system_error no_such_device)) /\
    (forall ki, clusterInfoMap m !! id = Some ki ->
      ((exists wwn, wwn ∈ ci_drives ki /\ driveInfoMap m !! wwn = None) -> r = Throw (system_error no_such_device)) /\
      (Forall (fun wwn => is_Some (driveInfoMap m !! wwn)) (ci_drives ki) -> ci_numData ki <= ci_numParity ki ->
        r = Throw (system_error invalid_argument)))) /\
  clusters m `prefix_of` clusters m' /\ Forall (object_ok m') (clusters m') /\
  (forall id1 id2 c, clusterCache m' !! id1 = Some c -> clusterCache m' !! id2 = Some c -> id1 = id2) /\
  (forall o1 o2, o1 ∈ clusters m' -> o2 ∈ clusters m' -> co_provider o1 = co_provider o2 <->
    ci_numData (co_info o1) = ci_numData (co_info o2) /\ ci_numParity (co_info o1) = ci_numParity (co_info o2)).
Proof.
  intros Hr E. pose proof (map_reachable_ok _ _ _ Hr) as Hm. destruct (getCluster_spec _ _ _ _ _ _ Hm E) as (Hm' & _ & _ & Hf).
  split_and!; [done| | | |by destruct Hm'| |intros o1 o2 Hin1 Hin2; by apply (providers_shared m')].
  - intros c ->. unfold getCluster. mstep. enough (clusterCache m' !! id = Some c) as -> by done.
    destruct Hf as [(c' & Ec & [= ->] & ->)|[(_ & Hno & _)|(_ & ki & o & _ & [= ->] & -> & _)]]; [done|by destruct (Hno c)|apply lookup_insert_eq].
  - intros Ec. destruct (getCluster_errors connect memory id m Ec) as [Hunknown Hki]. rewrite E in *. split; [intros Hn; by injection (Hunknown Hn)|].
    intros ki Eki. destruct (Hki ki Eki) as [Hd Hp]. split; [intros Hw; by injection (Hd Hw)|intros Ha Hle; by injection (Hp Ha Hle)].
  - destruct Hf as [(c & _ & _ & ->)|[(_ & _ & _ & ->)|(_ & ki & o & _ & _ & _ & -> & _)]]; [done|done|by apply prefix_app_r].
  - intros id1 id2 c E1 E2. destruct (mo_cache _ Hm' _ _ E1) as (o1 & Ho1 & <-), (mo_cache _ Hm' _ _ E2) as (o2 & Ho2 & <-). by simplify_eq.
Qed.

(** Two clusters of three simulated drives each, with the same redundancy, one with too much parity. *)
Module Map_example.
Definition info (drives : list string) (parity : Z) : ClusterInformation := mkClusterInformation 2 parity 4 1 10 (str <$> drives).
Definition drive (name : string) : bytes * (ConnectionOptions * ConnectionOptions) :=
  (str name, (mkOptions (str name) 8123 false 1 (str "key"), mkOptions (str name) 8123 false 1 (str "key"))).
Definition connect_ (l : list (drive_options * Z)) : Simulator.sim := Simulator.fresh (length l).
Definition infos : gmap bytes ClusterInformation := list_to_map
  [(str "C1", info ["a"; "b"; "c"] 1); (str "C2", info ["d"; "e"; "f"] 1); (str "bad", info ["a"; "b"; "c"] 2)].
Definition drives : gmap bytes (ConnectionOptions * ConnectionOptions) := list_to_map (drive <$> ["a"; "b"; "c"; "d"; "e"; "f"]).
Definition get_ (id : bytes) : M (ClusterMap Simulator.sim) nat :=
  @getCluster _ Simulator.sim_env Simulator.sim_status_int IsaSim.isa connect_ Example_.memory id.
Definition loaded : ClusterMap Simulator.sim := snd (reset infos drives new_map).
Definition one : ClusterMap Simulator.sim := snd (get_ (str "C1") loaded).
End Map_example.

Lemma cluster_map_witness :
  exists m', Map_example.get_ (str "C2") Map_example.one = (Ret 1%nat, m') /\ Map_example.get_ (str "C2") m' = (Ret 1%nat, m') /\
    co_provider <$> clusters m' = [0; 0]%nat /\ (Map_example.get_ (str "bad") m').1 = Throw (system_error invalid_argument).
Proof.
  assert (@reachable _ Simulator.sim_env Simulator.sim_status_int IsaSim.isa Map_example.connect_ Example_.memory Map_example.one) as Hr.
  { apply reachable_get. apply (reachable_reset _ _ new_map); [apply reachable_new|].
    apply (bool_decide_unpack _). vm_compute. exact I. }
  destruct (Map_example.get_ (str "C2") Map_example.one) as [r m'] eqn:E. assert (r = Ret 1%nat) as ->.
  { change r with (fst (r, m')). rewrite <- E. vm_compute. reflexivity. }
  destruct (@cluster_map _ Simulator.sim_env Simulator.sim_status_int IsaSim.isa _ _ _ _ _ _ Hr E) as (_ & Hagain & _).
  exists m'. split; [reflexivity|]. split; [by apply Hagain|].
  replace m' with (snd (Map_example.get_ (str "C2") Map_example.one)) by by rewrite E.
  split; vm_compute; reflexivity.
Defined.

(** ** What is not locked *)

(** A reset between the two halves of [getAdminCluster] makes it fail although the cluster is configured. *)
Lemma admin_cluster_lost :
  (@getAdminCluster _ Simulator.sim_env Simulator.sim_status_int IsaSim.isa Map_example.connect_ Example_.memory
    (reset Map_example.infos Map_example.drives) (str "C1") Map_example.loaded).1 = Throw std_out_of_range.
Proof. vm_compute. reflexivity. Qed.
