(* ===== verification/Configuration.v ===== *)
(** * Loading the configuration (src/KineticIoSingleton.cc)

    Drives, clusters and library parameters are read from three json documents that environment variables
    hold or name.  The json library is the parameter [Json]; pointers to its objects may be null.  The
    environment variables and the files are parameters as well. *)

From S2P Require Import Prelude CppString Utility Kinetic Callbacks ClusterOperation Isa Redundancy StripeOperation Cluster.
From S2P Require Import Simulator ClusterInterface DataBlock BackgroundOperationHandler KineticIo DataCache Connection ClusterMap.
Import Connection ClusterMap.

(** ** The json library *)

Class Json (J : Type) := {
  json_tokener_parse : bytes -> option J;
  (** false if there is no such key, or the value *)
  json_object_object_get_ex : option J -> bytes -> option (option J);
  json_object_array_length : option J -> outcome Z;
  json_object_array_get_idx : option J -> nat -> option J;
  json_object_get_string : option J -> option bytes;
  json_object_get_int : option J -> Z;
}.

Fixpoint member {J} (key : bytes) (l : list (bytes * J)) : option J :=
  match l with
  | [] => None
  | (k, v) :: l' => if bool_decide (k = key) then Some v else member key l'
  end.

(** What the documentation says of objects, arrays, strings and numbers. *)
Class JsonLaws (J : Type) `{Json J} := {
  jobject : list (bytes * J) -> J;
  jarray : list J -> J;
  jstring : bytes -> J;
  jint : Z -> J;
  get_ex_object : forall l key, NoDup l.*1 -> json_object_object_get_ex (Some (jobject l)) key = Some <$> member key l;
  array_length_array : forall l, json_object_array_length (Some (jarray l)) = Ret (slen l);
  array_get_idx_array : forall l i, json_object_array_get_idx (Some (jarray l)) i = l !! i;
  get_string_string : forall s, json_object_get_string (Some (jstring s)) = Some s;
  get_int_int : forall n, INT_MIN <= n <= INT_MAX -> json_object_get_int (Some (jint n)) = n;
}.

Module Singleton.

(** [KineticIoSingleton::Configuration] *)
Record Configuration := mkConfiguration {
  stripecache_capacity : Z;
  readahead_window_size : Z;
  background_io_threads : Z;
  background_io_queue_capacity : Z;
}.

Record KineticIoSingleton {D : Type} := mkSingleton {
  configuration : Configuration;
  clusterMap : ClusterMap D;
  dataCache : Cache.DataCache;
  threadPool : BackgroundOperationHandler.BackgroundOperationHandler (T:=task);
}.
Arguments KineticIoSingleton : clear implicits.
Arguments mkSingleton {D} _ _ _ _.

Definition readaheadWindowSize {D} (s : KineticIoSingleton D) : Z := readahead_window_size (configuration s).

(** ** Parsing *)

Section Parsing.
Context `{Json J}.

Definition loadJsonStringEntry (obj : option J) (key : bytes) : outcome bytes :=
  match json_object_object_get_ex obj key with
  | None => Throw (system_error invalid_argument)
  | Some tmp => deref (json_object_get_string tmp)
  end.

Definition loadJsonIntEntry (obj : option J) (key : bytes) : outcome Z :=
  match json_object_object_get_ex obj key with
  | None => Throw (system_error invalid_argument)
  | Some tmp => Ret (json_object_get_int tmp)
  end.

(** [for (int i = 0; i < length; i++) json_object_array_get_idx(list, i)] *)
Definition elements (list_ : option J) : outcome (list (option J)) :=
  length ← json_object_array_length list_;
  Ret ((fun i => json_object_array_get_idx list_ i) <$> seq 0 (Z.to_nat length)).

(** The options of a drive before its security is known. *)
Definition blank_options (h : bytes) (p : Z) : ConnectionOptions := mkOptions h p false 0 [].

(** The first loop of [parseDrives]; [insert] keeps an entry that is there. *)
Fixpoint parse_locations (locations : list (option J)) (driveInfo : gmap bytes drive_options) : outcome (gmap bytes drive_options) :=
  match locations with
  | [] => Ret driveInfo
  | drive :: locations' =>
      id ← loadJsonStringEntry drive (str "wwn");
      match json_object_object_get_ex drive (str "inet4") with
      | None => Throw (system_error invalid_argument)
      | Some tmp =>
          match json_object_array_get_idx tmp 0 with
          | None => Throw (system_error invalid_argument)
          | Some h =>
              first_host ← deref (json_object_get_string (Some h));
              second_host ← match json_object_array_get_idx tmp 1 with
                            | Some h => deref (json_object_get_string (Some h))
                            | None => Ret first_host
                            end;
              port ← loadJsonIntEntry drive (str "port");
              parse_locations locations'
                (match driveInfo !! id with
                 | Some _ => driveInfo
                 | None => <[id := (blank_options first_host port, blank_options second_host port)]> driveInfo
                 end)
          end
      end
  end.

Definition set_security (user : Z) (key : bytes) (o : ConnectionOptions) : ConnectionOptions :=
  mkOptions (host o) (port o) (use_ssl o) user key.

(** The second loop of [parseDrives]. *)
Fixpoint parse_security (security : list (option J)) (driveInfo : gmap bytes drive_options) : outcome (gmap bytes drive_options) :=
  match security with
  | [] => Ret driveInfo
  | drive :: security' =>
      id ← loadJsonStringEntry drive (str "wwn");
      match driveInfo !! id with
      | None => Throw (system_error invalid_argument)
      | Some kops =>
          user ← loadJsonIntEntry drive (str "userId");
          key ← loadJsonStringEntry drive (str "key");
          parse_security security' (<[id := (set_security user key (fst kops), set_security user key (snd kops))]> driveInfo)
      end
  end.

Definition parseDrives (locations security : option J) : outcome (gmap bytes drive_options) :=
  l ← elements locations;
  driveInfo ← parse_locations l ∅;
  s ← elements security;
  parse_security s driveInfo.

(** One cluster of [parseClusters]. *)
Definition parse_cluster (cluster : option J) : outcome (bytes * ClusterInformation) :=
  id ← loadJsonStringEntry cluster (str "clusterID");
  numData ← loadJsonIntEntry cluster (str "numData");
  numParity ← loadJsonIntEntry cluster (str "numParity");
  chunkSizeKB ← loadJsonIntEntry cluster (str "chunkSizeKB");
  minReconnectInterval ← loadJsonIntEntry cluster (str "minReconnectInterval");
  timeout ← loadJsonIntEntry cluster (str "timeout");
  match json_object_object_get_ex cluster (str "drives") with
  | None => Throw (system_error invalid_argument)
  | Some list_ =>
      l ← elements list_;
      drives ← mapM (fun drive => loadJsonStringEntry drive (str "wwn")) l;
      Ret (id, mkClusterInformation (u64 numData) (u64 numParity) (u64 (u64 chunkSizeKB * 1024)) minReconnectInterval timeout drives)
  end.

Fixpoint parse_clusters (clusters : list (option J)) (clusterInfo : gmap bytes ClusterInformation) : outcome (gmap bytes ClusterInformation) :=
  match clusters with
  | [] => Ret clusterInfo
  | cluster :: clusters' =>
      p ← parse_cluster cluster;
      parse_clusters clusters' (match clusterInfo !! fst p with Some _ => clusterInfo | None => <[fst p := snd p]> clusterInfo end)
  end.

Definition parseClusters (clusters : option J) : outcome (gmap bytes ClusterInformation) :=
  l ← elements clusters; parse_clusters l ∅.

(** [parseConfiguration] sets one member after the other. *)
Definition parseConfiguration (config : option J) : M Configuration unit :=
  n ← lift (loadJsonIntEntry config (str "cacheCapacityMB"));
  modify (fun c => mkConfiguration (u64 (u64 n * (1024 * 1024))) (readahead_window_size c) (background_io_threads c) (background_io_queue_capacity c));;
  n ← lift (loadJsonIntEntry config (str "maxReadaheadWindow"));
  modify (fun c => mkConfiguration (stripecache_capacity c) (u64 n) (background_io_threads c) (background_io_queue_capacity c));;
  n ← lift (loadJsonIntEntry config (str "maxBackgroundIoThreads"));
  modify (fun c => mkConfiguration (stripecache_capacity c) (readahead_window_size c) n (background_io_queue_capacity c));;
  n ← lift (loadJsonIntEntry config (str "maxBackgroundIoQueue"));
  modify (fun c => mkConfiguration (stripecache_capacity c) (readahead_window_size c) (background_io_threads c) n).

End Parsing.

(** ** Loading *)

Section Loading.
Context `{Json J} {D : Type}.

(** Environment variables, and the content of files, empty for those that cannot be read. *)
Variable getenv : bytes -> option bytes.
Variable file_content : bytes -> bytes.

Definition readfile (path : bytes) : outcome bytes :=
  if bool_decide (file_content path = []) then Throw (system_error io_error) else Ret (file_content path).

(** The content of a variable, or of the file it names. *)
Definition json_data (value : bytes) : outcome bytes :=
  match value with
  | ("/" | ".")%char :: _ => readfile value
  | _ => Ret value
  end.

(** A string up to its first zero. *)
Fixpoint c_str (s : bytes) : bytes :=
  match s with
  | [] => []
  | c :: s' => if bool_decide (c = NUL) then [] else c :: c_str s'
  end.

Definition required {A} (e : errc) (o : option A) : outcome A :=
  match o with Some a => Ret a | None => Throw (system_error e) end.

Definition parse_document (data : bytes) : outcome J := required executable_format_error (json_tokener_parse (c_str data)).

(** The documents of locations, security and clusters. *)
Definition read_documents : outcome (J * J * J) :=
  location ← required invalid_argument (getenv (str "KINETIC_DRIVE_LOCATION"));
  security ← required invalid_argument (getenv (str "KINETIC_DRIVE_SECURITY"));
  cluster ← required invalid_argument (getenv (str "KINETIC_CLUSTER_DEFINITION"));
  location_data ← json_data location;
  security_data ← json_data security;
  cluster_data ← json_data cluster;
  location_root ← parse_document location_data;
  security_root ← parse_document security_data;
  cluster_root ← parse_document cluster_data;
  Ret (location_root, security_root, cluster_root).

Definition entry (root : J) (key : bytes) : outcome (option J) := required invalid_argument (json_object_object_get_ex (Some root) key).

(** [BackgroundOperationHandler::changeConfiguration]: if it stops the workers, they have left when it goes on. *)
Definition changeThreads (worker_threads queue_depth : nat) (h : BackgroundOperationHandler.BackgroundOperationHandler (T:=task)) :
    BackgroundOperationHandler.BackgroundOperationHandler (T:=task) :=
  let h := if BackgroundOperationHandler.must_stop worker_threads h
           then BackgroundOperationHandler.mkHandler (BackgroundOperationHandler.q h) (BackgroundOperationHandler.queue_capacity h)
                  (BackgroundOperationHandler.thread_capacity h) 0 false
           else h in
  fst (BackgroundOperationHandler.configure worker_threads queue_depth h).

Definition on_configuration {A} (m : M Configuration A) : M (KineticIoSingleton D) A :=
  zoom configuration (fun c s => mkSingleton c (clusterMap s) (dataCache s) (threadPool s)) m.

Definition loadConfiguration : M (KineticIoSingleton D) unit :=
  '(location_root, security_root, cluster_root) ← lift read_documents;
  o1 ← lift (entry location_root (str "location"));
  o2 ← lift (entry security_root (str "security"));
  driveInfo ← lift (parseDrives o1 o2);
  o1 ← lift (entry cluster_root (str "cluster"));
  clusterInfo ← lift (parseClusters o1);
  o1 ← lift (entry cluster_root (str "configuration"));
  on_configuration (parseConfiguration o1);;
  modify (fun s => mkSingleton (configuration s) (snd (reset clusterInfo driveInfo (clusterMap s)))
    (DataCache.changeConfiguration (stripecache_capacity (configuration s)) (dataCache s))
    (changeThreads (Z.to_nat (u64 (background_io_threads (configuration s)))) (Z.to_nat (u64 (background_io_queue_capacity (configuration s))))
      (threadPool s))).

(** The constructor; [memory] is what the other members of the configuration hold. *)
Definition new_singleton (memory : Configuration) : KineticIoSingleton D :=
  let s := mkSingleton (mkConfiguration (stripecache_capacity memory) 0 (background_io_threads memory) (background_io_queue_capacity memory))
    new_map (DataCache.new_cache 0) (BackgroundOperationHandler.mkHandler [] 0 0 0 false) in
  snd (try_catch loadConfiguration (fun _ => mret tt) s).

End Loading.
End Singleton.
Import Singleton.

(** ** Documents *)

(** A drive with its security, and a cluster, as an administrator describes them. *)
Record drive_entry := mkDrive {
  de_wwn : bytes;
  de_host : bytes;
  de_second_host : option bytes;
  de_port : Z;
  de_user : Z;
  de_key : bytes;
}.

Record cluster_entry := mkClusterEntry {
  ce_id : bytes;
  ce_numData : Z;
  ce_numParity : Z;
  ce_chunkSizeKB : Z;
  ce_reconnect : Z;
  ce_timeout : Z;
  ce_drives : list bytes;
}.

Section Documents.
Context `{JsonLaws J}.

Definition location_json (d : drive_entry) : J :=
  jobject [(str "wwn", jstring (de_wwn d));
           (str "inet4", jarray (jstring (de_host d) :: (jstring <$> option_list (de_second_host d))));
           (str "port", jint (de_port d))].
Definition security_json (d : drive_entry) : J :=
  jobject [(str "wwn", jstring (de_wwn d)); (str "userId", jint (de_user d)); (str "key", jstring (de_key d))].
Definition cluster_json (c : cluster_entry) : J :=
  jobject [(str "clusterID", jstring (ce_id c)); (str "numData", jint (ce_numData c)); (str "numParity", jint (ce_numParity c));
           (str "chunkSizeKB", jint (ce_chunkSizeKB c)); (str "timeout", jint (ce_timeout c));
           (str "minReconnectInterval", jint (ce_reconnect c));
           (str "drives", jarray ((fun w => jobject [(str "wwn", jstring w)]) <$> ce_drives c))].
Definition configuration_json (c : Configuration) (capacity_mb : Z) : J :=
  jobject [(str "cacheCapacityMB", jint capacity_mb); (str "maxBackgroundIoThreads", jint (background_io_threads c));
           (str "maxBackgroundIoQueue", jint (background_io_queue_capacity c)); (str "maxReadaheadWindow", jint (readahead_window_size c))].

Definition location_document (ds : list drive_entry) : J := jobject [(str "location", jarray (location_json <$> ds))].
Definition security_document (ds : list drive_entry) : J := jobject [(str "security", jarray (security_json <$> ds))].
Definition cluster_document (cs : list cluster_entry) (c : Configuration) (capacity_mb : Z) : J :=
  jobject [(str "cluster", jarray (cluster_json <$> cs)); (str "configuration", configuration_json c capacity_mb)].
End Documents.

(** What the descriptions stand for. *)
Definition drive_value (d : drive_entry) : drive_options :=
  (mkOptions (de_host d) (de_port d) false (de_user d) (de_key d),
   mkOptions (default (de_host d) (de_second_host d)) (de_port d) false (de_user d) (de_key d)).
Definition cluster_value (c : cluster_entry) : ClusterInformation :=
  mkClusterInformation (ce_numData c) (ce_numParity c) (ce_chunkSizeKB c * 1024) (ce_reconnect c) (ce_timeout c) (ce_drives c).
Definition drives_map (ds : list drive_entry) : gmap bytes drive_options := list_to_map ((fun d => (de_wwn d, drive_value d)) <$> ds).
Definition clusters_map (cs : list cluster_entry) : gmap bytes ClusterInformation := list_to_map ((fun c => (ce_id c, cluster_value c)) <$> cs).

Definition is_int (n : Z) : Prop := 0 <= n <= INT_MAX.

Record drive_ok (d : drive_entry) : Prop := { do_port : is_int (de_port d); do_user : is_int (de_user d) }.
Record cluster_ok (c : cluster_entry) : Prop := {
  co_data : is_int (ce_numData c);
  co_parity : is_int (ce_numParity c);
  co_chunk : is_int (ce_chunkSizeKB c);
  co_reconnect : is_int (ce_reconnect c);
  co_time : is_int (ce_timeout c);
}.

(** ** Lemmas *)

Lemma member_hit {J} key (v : J) l : member key ((key, v) :: l) = Some v.
Proof. cbn. by rewrite bool_decide_eq_true_2. Qed.

Lemma member_skip {J} key key' (v : J) l : key' <> key -> member key ((key', v) :: l) = member key l.
Proof. intros. cbn. by rewrite bool_decide_eq_false_2. Qed.

(** Decides facts about key names. *)
Ltac names := apply (bool_decide_unpack _); vm_compute; exact I.
Ltac members := repeat first [rewrite member_hit | rewrite member_skip by names].

Lemma union_insert {V} (w : bytes) (x : V) (m1 m : gmap bytes V) : m1 !! w = None -> m1 ∪ <[w := x]> m = <[w := x]> m1 ∪ m.
Proof. intros. by rewrite <- insert_union_r, insert_union_l. Qed.

Lemma entries_none {A V} (f : A -> bytes) (g : A -> V) (l : list A) key :
  (list_to_map ((fun a => (f a, g a)) <$> l) : gmap bytes V) !! key = None <-> key ∉ f <$> l.
Proof.
  rewrite <- not_elem_of_list_to_map. rewrite <- list_fmap_compose. done.
Qed.

Section Parse.
Context `{JsonLaws J}.

Lemma elements_array l : elements (Some (jarray l)) = Ret (Some <$> l).
Proof.
  unfold elements. rewrite array_length_array. cbn [mbind outcome_bind]. f_equal. rewrite to_nat_slen.
  apply list_eq. intros i. rewrite !list_lookup_fmap. destruct (decide (i < length l)%nat) as [Hi|Hi].
  - rewrite lookup_seq_lt by done. cbn. rewrite array_get_idx_array. by destruct (lookup_lt_is_Some_2 l i Hi) as [x ->].
  - rewrite lookup_seq_ge, (lookup_ge_None_2 l) by lia. done.
Qed.

Lemma string_entry l key s : NoDup l.*1 -> member key l = Some (jstring s) -> loadJsonStringEntry (Some (jobject l)) key = Ret s.
Proof. intros Hn E. unfold loadJsonStringEntry. by rewrite get_ex_object, E by done; cbn; rewrite get_string_string. Qed.

Lemma int_entry l key n : NoDup l.*1 -> member key l = Some (jint n) -> is_int n -> loadJsonIntEntry (Some (jobject l)) key = Ret n.
Proof.
  intros Hn E Hi. unfold loadJsonIntEntry. rewrite get_ex_object, E by done. cbn. rewrite get_int_int; [done|].
  unfold is_int, INT_MIN, INT_MAX in *. lia.
Qed.

Definition blank (d : drive_entry) : drive_options :=
  (blank_options (de_host d) (de_port d), blank_options (default (de_host d) (de_second_host d)) (de_port d)).

Lemma parse_locations_spec ds m : NoDup (de_wwn <$> ds) -> Forall drive_ok ds -> (forall d, d ∈ ds -> m !! de_wwn d = None) ->
  parse_locations (Some <$> (location_json <$> ds)) m = Ret (list_to_map ((fun d => (de_wwn d, blank d)) <$> ds) ∪ m).
Proof.
  revert m. induction ds as [|d ds IH]; intros m Hn Hok Hm; [by cbn; rewrite (left_id_L ∅ (∪))|].
  rewrite !fmap_cons in *. cbn [parse_locations parse_security]. apply NoDup_cons in Hn as [Hd Hn]. apply Forall_cons in Hok as [[Hp _] Hok].
  assert (loadJsonStringEntry (Some (location_json d)) (str "wwn") = Ret (de_wwn d)) as -> by by apply string_entry; [names|members].
  assert (loadJsonIntEntry (Some (location_json d)) (str "port") = Ret (de_port d)) as Eport by by apply int_entry; [names|members|].
  assert (json_object_object_get_ex (Some (location_json d)) (str "inet4") =
    Some (Some (jarray (jstring (de_host d) :: (jstring <$> option_list (de_second_host d)))))) as ->
    by (unfold location_json; rewrite get_ex_object by names; by members).
  set (hosts := jarray _).
  assert (json_object_array_get_idx (Some hosts) 0 = Some (jstring (de_host d))) as -> by (unfold hosts; by rewrite array_get_idx_array).
  assert (match json_object_array_get_idx (Some hosts) 1 with
          | Some h => deref (json_object_get_string (Some h)) | None => Ret (de_host d) end = Ret (default (de_host d) (de_second_host d))) as E.
  { unfold hosts. rewrite array_get_idx_array. destruct (de_second_host d) as [h|]; cbn; [by rewrite get_string_string|done]. }
  cbn [mbind outcome_bind]. rewrite get_string_string. cbn [deref mbind outcome_bind].
  rewrite E. cbn [mbind outcome_bind]. rewrite Eport. cbn [mbind outcome_bind].
  rewrite (Hm d) by by left. rewrite IH; [f_equal; apply union_insert|done|done|].
  - by apply entries_none.
  - intros d' Hd'. rewrite lookup_insert_ne; [by apply Hm; right|]. intros Heq. apply Hd. rewrite Heq. by apply list_elem_of_fmap_2.
Qed.

Lemma parse_security_spec ds m : NoDup (de_wwn <$> ds) -> Forall drive_ok ds -> (forall d, d ∈ ds -> m !! de_wwn d = Some (blank d)) ->
  parse_security (Some <$> (security_json <$> ds)) m = Ret (drives_map ds ∪ m).
Proof.
  unfold drives_map. revert m. induction ds as [|d ds IH]; intros m Hn Hok Hm; [by cbn; rewrite (left_id_L ∅ (∪))|].
  rewrite !fmap_cons in *. cbn [parse_locations parse_security]. apply NoDup_cons in Hn as [Hd Hn]. apply Forall_cons in Hok as [[_ Hu] Hok].
  assert (loadJsonStringEntry (Some (security_json d)) (str "wwn") = Ret (de_wwn d)) as -> by by apply string_entry; [names|members].
  assert (loadJsonIntEntry (Some (security_json d)) (str "userId") = Ret (de_user d)) as Euser by by apply int_entry; [names|members|].
  assert (loadJsonStringEntry (Some (security_json d)) (str "key") = Ret (de_key d)) as Ekey by by apply string_entry; [names|members].
  cbn [mbind outcome_bind]. rewrite (Hm d) by by left. rewrite Euser. cbn [mbind outcome_bind]. rewrite Ekey. cbn [mbind outcome_bind].
  change (set_security _ _ (blank d).1, set_security _ _ (blank d).2) with (drive_value d). rewrite IH; [f_equal; apply union_insert|done|done|].
  - by apply entries_none.
  - intros d' Hd'. rewrite lookup_insert_ne; [by apply Hm; right|]. intros Heq. apply Hd. rewrite Heq. by apply list_elem_of_fmap_2.
Qed.

Lemma parseDrives_spec ds : NoDup (de_wwn <$> ds) -> Forall drive_ok ds ->
  parseDrives (Some (jarray (location_json <$> ds))) (Some (jarray (security_json <$> ds))) = Ret (drives_map ds).
Proof.
  intros Hn Hok. unfold parseDrives. rewrite !elements_array. cbn [mbind outcome_bind].
  rewrite parse_locations_spec by (done || (intros; apply lookup_empty)). cbn [mbind outcome_bind].
  assert (forall d, d ∈ ds -> (list_to_map ((fun d => (de_wwn d, blank d)) <$> ds) : gmap bytes drive_options) !! de_wwn d = Some (blank d)) as Hd.
  { intros d Hin. apply elem_of_list_to_map; [by rewrite <- list_fmap_compose|].
    by apply (list_elem_of_fmap_2 (fun d => (de_wwn d, blank d))). }
  rewrite parse_security_spec; [f_equal|done|done|intros d Hin; rewrite (right_id_L ∅ (∪)); by apply Hd].
  apply map_eq. intros key. rewrite (right_id_L ∅ (∪)). destruct (drives_map ds !! key) eqn:E; [by apply lookup_union_Some_l|].
  rewrite lookup_union_r by done. apply entries_none. by apply entries_none in E.
Qed.

Lemma u64_int n : is_int n -> u64 n = n.
Proof. intros [? ?]. apply u64_small. unfold INT_MAX in *. lia. Qed.

Lemma parse_cluster_spec c : cluster_ok c -> parse_cluster (Some (cluster_json c)) = Ret (ce_id c, cluster_value c).
Proof.
  intros [Hd Hp Hc Hr Ht]. unfold parse_cluster.
  assert (loadJsonStringEntry (Some (cluster_json c)) (str "clusterID") = Ret (ce_id c)) as -> by by apply string_entry; [names|members].
  assert (loadJsonIntEntry (Some (cluster_json c)) (str "numData") = Ret (ce_numData c)) as -> by by apply int_entry; [names|members|].
  assert (loadJsonIntEntry (Some (cluster_json c)) (str "numParity") = Ret (ce_numParity c)) as -> by by apply int_entry; [names|members|].
  assert (loadJsonIntEntry (Some (cluster_json c)) (str "chunkSizeKB") = Ret (ce_chunkSizeKB c)) as -> by by apply int_entry; [names|members|].
  assert (loadJsonIntEntry (Some (cluster_json c)) (str "minReconnectInterval") = Ret (ce_reconnect c)) as -> by by apply int_entry; [names|members|].
  assert (loadJsonIntEntry (Some (cluster_json c)) (str "timeout") = Ret (ce_timeout c)) as -> by by apply int_entry; [names|members|].
  set (l := (fun w => jobject [(str "wwn", jstring w)]) <$> ce_drives c).
  assert (json_object_object_get_ex (Some (cluster_json c)) (str "drives") = Some (Some (jarray l))) as ->
    by (unfold cluster_json; rewrite get_ex_object by names; by members).
  cbn [mbind outcome_bind]. rewrite elements_array. cbn [mbind outcome_bind].
  assert (mapM (fun drive => loadJsonStringEntry drive (str "wwn")) (Some <$> l) = Ret (ce_drives c)) as ->.
  { unfold l. induction (ce_drives c) as [|w ws IH]; [done|]. rewrite !fmap_cons. cbn [mapM].
    rewrite (string_entry _ (str "wwn") w) by first [names | by members]. cbn [mbind outcome_bind]. by rewrite IH. }
  cbn [mbind outcome_bind]. unfold cluster_value. rewrite (u64_int (ce_numData c)), (u64_int (ce_numParity c)), (u64_int (ce_chunkSizeKB c)) by done. rewrite u64_small; [done|].
  unfold is_int, INT_MAX in *. lia.
Qed.

Lemma parseClusters_spec cs : NoDup (ce_id <$> cs) -> Forall cluster_ok cs -> parseClusters (Some (jarray (cluster_json <$> cs))) = Ret (clusters_map cs).
Proof.
  intros Hn Hok. unfold parseClusters. rewrite elements_array. cbn [mbind outcome_bind].
  enough (forall m, (forall c, c ∈ cs -> m !! ce_id c = None) ->
    parse_clusters (Some <$> (cluster_json <$> cs)) m = Ret (clusters_map cs ∪ m)) as Hm.
  { rewrite Hm by (intros; apply lookup_empty). by rewrite (right_id_L ∅ (∪)). }
  unfold clusters_map. induction cs as [|c cs IH]; intros m Hm; [by cbn; rewrite (left_id_L ∅ (∪))|].
  rewrite !fmap_cons in *. apply NoDup_cons in Hn as [Hc Hn]. apply Forall_cons in Hok as [Hcok Hok]. cbn [parse_clusters].
  rewrite parse_cluster_spec by done. cbn [mbind outcome_bind fst snd]. rewrite (Hm c) by by left.
  rewrite IH; [f_equal; apply union_insert|done|done|].
  - by apply entries_none.
  - intros c' Hc'. rewrite lookup_insert_ne; [by apply Hm; right|]. intros Heq. apply Hc. rewrite Heq. by apply list_elem_of_fmap_2.
Qed.

Record configuration_ok (c : Configuration) (capacity_mb : Z) : Prop := {
  cf_capacity : stripecache_capacity c = capacity_mb * (1024 * 1024);
  cf_mb : is_int capacity_mb;
  cf_readahead : is_int (readahead_window_size c);
  cf_threads : is_int (background_io_threads c);
  cf_queue : is_int (background_io_queue_capacity c);
}.

Lemma parseConfiguration_spec c mb c0 : configuration_ok c mb -> parseConfiguration (Some (configuration_json c mb)) c0 = (Ret tt, c).
Proof.
  intros [Hc Hmb Hr Ht Hq]. unfold parseConfiguration.
  assert (loadJsonIntEntry (Some (configuration_json c mb)) (str "cacheCapacityMB") = Ret mb) as -> by by apply int_entry; [names|members|].
  assert (loadJsonIntEntry (Some (configuration_json c mb)) (str "maxReadaheadWindow") = Ret (readahead_window_size c)) as ->
    by by apply int_entry; [names|members|].
  assert (loadJsonIntEntry (Some (configuration_json c mb)) (str "maxBackgroundIoThreads") = Ret (background_io_threads c)) as ->
    by by apply int_entry; [names|members|].
  assert (loadJsonIntEntry (Some (configuration_json c mb)) (str "maxBackgroundIoQueue") = Ret (background_io_queue_capacity c)) as ->
    by by apply int_entry; [names|members|].
  mstep. cbn [stripecache_capacity readahead_window_size background_io_threads background_io_queue_capacity].
  rewrite (u64_int mb), (u64_int (readahead_window_size c)), u64_small, <- Hc by (done || (unfold is_int, INT_MAX in *; lia)).
  by destruct c.
Qed.
End Parse.

(** ** Properties *)

(** C31: Loading a configuration installs what the documents say, or nothing of what is shared.  If it
    does not return, the clusters, the cache and the thread pool are as before, whatever the documents
    and files hold.  If the documents describe drives and clusters with distinct names and integers in
    range, it returns: the map of clusters is reset to exactly these clusters and drives, with both
    hosts and the security of every drive, sizes in bytes, and the cache, the pool and the read-ahead
    window have the configured bounds. *)
Theorem configuration_loading `{JsonLaws J} {D} getenv file_content (s : KineticIoSingleton D) :
  (forall r s', loadConfiguration (J:=J) getenv file_content s = (r, s') -> r <> Ret tt ->
    clusterMap s' = clusterMap s /\ dataCache s' = dataCache s /\ threadPool s' = threadPool s) /\
  (forall ds cs c mb,
    read_documents (J:=J) getenv file_content = Ret (location_document ds, security_document ds, cluster_document cs c mb) ->
    NoDup (de_wwn <$> ds) -> Forall drive_ok ds -> NoDup (ce_id <$> cs) -> Forall cluster_ok cs -> configuration_ok c mb ->
    exists s', loadConfiguration (J:=J) getenv file_content s = (Ret tt, s') /\ configuration s' = c /\
      clusterMap s' = snd (reset (clusters_map cs) (drives_map ds) (clusterMap s)) /\
      Cache.capacity (dataCache s') = mb * (1024 * 1024) /\
      BackgroundOperationHandler.thread_capacity (threadPool s') = Z.to_nat (background_io_threads c) /\
      BackgroundOperationHandler.queue_capacity (threadPool s') = Z.to_nat (background_io_queue_capacity c) /\
      BackgroundOperationHandler.q (threadPool s') = BackgroundOperationHandler.q (threadPool s)).
Proof.
  split.
  - intros r s' E Hr. unfold loadConfiguration in E. rewrite bind_unfold in E. unfold lift at 1 in E.
    destruct (read_documents _ _) as [[[lr sr] cr]|e| |]; [|by simplify_eq..].
    repeat (rewrite bind_unfold in E; unfold lift at 1 in E;
      match type of E with context [match ?o with _ => _ end] => destruct o; [|by simplify_eq..] end).
    rewrite bind_unfold in E. unfold on_configuration, zoom in E. destruct (parseConfiguration _ _) as [[[]|e| |] c'];
      [injection E as <- _; by destruct Hr|by simplify_eq..].
  - intros ds cs c mb Hdocs Hnd Hd Hnc Hc Hconf. unfold loadConfiguration. rewrite Hdocs. mstep.
    assert (forall l key v, NoDup l.*1 -> member key l = Some v -> entry (J:=J) (jobject l) key = Ret (Some v)) as Hentry.
    { intros l key v Hn E. unfold entry. by rewrite get_ex_object, E. }
    unfold location_document, security_document, cluster_document.
    rewrite (Hentry _ (str "location") (jarray (location_json <$> ds))) by first [names | by members]. mstep.
    rewrite (Hentry _ (str "security") (jarray (security_json <$> ds))) by first [names | by members]. mstep.
    rewrite parseDrives_spec by done. mstep.
    rewrite (Hentry _ (str "cluster") (jarray (cluster_json <$> cs))) by first [names | by members]. mstep.
    rewrite parseClusters_spec by done. mstep.
    rewrite (Hentry _ (str "configuration") (configuration_json c mb)) by first [names | by members]. mstep.
    rewrite bind_unfold. unfold on_configuration, zoom. rewrite (parseConfiguration_spec c mb _ Hconf).
    eexists. split; [done|]. destruct Hconf as [Hcap Hmb Hra Hth Hq]. cbn. rewrite !u64_int by done. rewrite Hcap.
    split_and!; try done. unfold changeThreads. by destruct (BackgroundOperationHandler.must_stop _ _).
Qed.

(** A json library on trees, whose documents are named. *)
Module Json_example.
Inductive json :=
  | JObject (l : list (bytes * json))
  | JArray (l : list json)
  | JString (s : bytes)
  | JInt (n : Z).

Definition drives : list drive_entry :=
  [mkDrive (str "w1") (str "10.0.0.1") (Some (str "10.0.0.2")) 8123 1 (str "k1"); mkDrive (str "w2") (str "10.0.0.3") None 8123 1 (str "k2")].
Definition clusters : list cluster_entry := [mkClusterEntry (str "C1") 2 1 1024 5 10 [str "w1"; str "w2"; str "w1"]].
Definition settings : Configuration := mkConfiguration (500 * (1024 * 1024)) 10 4 20.

Section Documents.
Variable parse : bytes -> option json.
Local Instance json_ops : Json json := {
  json_tokener_parse := parse;
  json_object_object_get_ex := fun o key => match o with Some (JObject l) => Some <$> member key l | _ => None end;
  json_object_array_length := fun o => match o with Some (JArray l) => Ret (slen l) | _ => UB end;
  json_object_array_get_idx := fun o i => match o with Some (JArray l) => l !! i | _ => None end;
  json_object_get_string := fun o => match o with Some (JString s) => Some s | _ => None end;
  json_object_get_int := fun o => match o with Some (JInt n) => n | _ => 0 end;
}.
#[local] Program Instance json_laws : JsonLaws json := { jobject := JObject; jarray := JArray; jstring := JString; jint := JInt }.
Solve All Obligations with done.
Definition documents (s : bytes) : option json :=
  if bool_decide (s = str "locations") then Some (location_document drives)
  else if bool_decide (s = str "security") then Some (security_document drives)
  else if bool_decide (s = str "clusters") then Some (cluster_document clusters settings 500)
  else None.
End Documents.

Definition ops : Json json := json_ops (documents (fun _ => None)).
Definition laws : @JsonLaws json ops := json_laws (documents (fun _ => None)).

(** The security is in a file. *)
Definition getenv (name : bytes) : option bytes :=
  if bool_decide (name = str "KINETIC_DRIVE_LOCATION") then Some (str "locations")
  else if bool_decide (name = str "KINETIC_DRIVE_SECURITY") then Some (str "/etc/security")
  else if bool_decide (name = str "KINETIC_CLUSTER_DEFINITION") then Some (str "clusters") else None.
Definition files (path : bytes) : bytes := if bool_decide (path = str "/etc/security") then str "security" else [].
Definition before : KineticIoSingleton Simulator.sim :=
  mkSingleton (mkConfiguration 0 0 0 0) new_map (DataCache.new_cache 0) (BackgroundOperationHandler.mkHandler [] 0 0 0 false).
End Json_example.

Lemma configuration_loading_witness :
  exists s', @loadConfiguration _ Json_example.ops _ Json_example.getenv Json_example.files Json_example.before = (Ret tt, s') /\
    readaheadWindowSize s' = 10 /\ clusterInfoMap (clusterMap s') = clusters_map Json_example.clusters.
Proof.
  destruct (@configuration_loading _ Json_example.ops Json_example.laws _ Json_example.getenv Json_example.files Json_example.before) as [_ Hload].
  destruct (Hload Json_example.drives Json_example.clusters Json_example.settings 500) as (s' & E & Hc & Hm & _).
  - vm_compute. reflexivity.
  - apply (bool_decide_unpack _). vm_compute. exact I.
  - repeat constructor; vm_compute; discriminate.
  - apply (bool_decide_unpack _). vm_compute. exact I.
  - repeat constructor; vm_compute; discriminate.
  - split; [vm_compute; reflexivity|..]; split; vm_compute; discriminate.
  - exists s'. split; [exact E|]. unfold readaheadWindowSize. rewrite Hc, Hm. split; reflexivity.
Defined.

(** ** What is not checked *)

(** A configuration that fails to load has already changed the read-ahead window. *)
Lemma failed_load_changes_readahead :
  let config := Json_example.JObject [(str "cacheCapacityMB", Json_example.JInt 1); (str "maxReadaheadWindow", Json_example.JInt 7)] in
  exists c, @parseConfiguration _ Json_example.ops (Some config) (mkConfiguration 0 0 0 0) = (Throw (system_error invalid_argument), c) /\
    readahead_window_size c = 7.
Proof. eexists. split; vm_compute; reflexivity. Qed.

(** The constructor of a pool refuses a queue without threads; a configuration does not.  What is queued
    there is never run. *)
Lemma queue_without_workers (t : task) :
  BackgroundOperationHandler.new_handler (T:=task) 0 1 = Throw (system_error invalid_argument) /\
  let h := changeThreads 0 1 (BackgroundOperationHandler.mkHandler [] 0 0 0 false) in
  fst (BackgroundOperationHandler.run t h) = BackgroundOperationHandler.Queued /\
  snd (BackgroundOperationHandler.configure 0 1 (BackgroundOperationHandler.mkHandler (T:=task) [] 0 0 0 false)) = 0%nat.
Proof. done. Qed.
