(* ===== verification/Factory.v ===== *)
(** * Logging and the factory (include/Logging.hh, src/KineticIoFactory.cc)

    The logger that all parts of the library share, and the functions through which a program gets at
    the library: file objects, administered clusters, the log function and the configuration. *)

From S2P Require Import Prelude CppString Utility Kinetic Callbacks ClusterOperation Isa Redundancy StripeOperation Cluster ClusterInterface.
From S2P Require Import PrefetchOracle KineticIo FileIo ClusterMap Configuration.
Import PrefetchOracle FileIo ClusterMap Configuration.Singleton.

Module Logging.

(** The functions of a program: where a message comes from (function, file and line), its level, its text. *)
Definition logfunc_t (W : Type) : Type := bytes -> bytes -> Z -> Z -> bytes -> M W unit.
Definition shouldlogfunc_t : Type := bytes -> Z -> bool.

(** [Logger]; empty functions are none. *)
Record Logger {W : Type} := mkLogger {
  logFunction : option (logfunc_t W);
  shouldLog : option shouldlogfunc_t;
}.
Arguments Logger : clear implicits.
Arguments mkLogger {W} _ _.

Definition new_logger {W} : Logger W := mkLogger None None.

Definition registerLogFunction {W} (lfunc : option (logfunc_t W)) (shouldfunc : option shouldlogfunc_t) (l : Logger W) : Logger W :=
  mkLogger lfunc shouldfunc.

(** [log]; [text] stands for the arguments, which are converted when the message is wanted. *)
Definition log {W} (l : Logger W) (func file : bytes) (line level : Z) (text : unit -> bytes) : M W unit :=
  match logFunction l, shouldLog l with
  | Some logFunction, Some shouldLog =>
      if shouldLog func level then logFunction func file line level (text tt) else mret tt
  | _, _ => mret tt
  end.

End Logging.
Import Logging.

Module Factory.
Section Factory.
Context `{Env D} `{StatusInt} `{Checksum} `{IsaL} `{Json J}.

(** What the functions of the singleton depend on, as in ClusterMap and Configuration. *)
Variable connect : list (drive_options * Z) -> D.
Variable memory : ClusterStats.
Variable getenv : bytes -> option bytes.
Variable file_content : bytes -> bytes.
Variable between : M (ClusterMap D) unit.

(** The state behind the factory: the singleton and the logger of the library, and the program it is linked to. *)
Record library {W : Type} : Type := mkLibrary {
  singleton : KineticIoSingleton D;
  logger : Logger W;
  program : W;
}.
Arguments library : clear implicits.
Arguments mkLibrary {W} _ _ _.

Definition on_singleton {W A} (m : M (KineticIoSingleton D) A) : M (library W) A :=
  zoom singleton (fun s l => mkLibrary s (logger l) (program l)) m.
Definition on_map {A} (m : M (ClusterMap D) A) : M (KineticIoSingleton D) A :=
  zoom clusterMap (fun c s => mkSingleton (configuration s) c (dataCache s) (threadPool s)) m.
Definition kio_log {W} (func file : bytes) (line level : Z) (text : unit -> bytes) : M (library W) unit := fun l =>
  let '(o, w) := log (logger l) func file line level text (program l) in (o, mkLibrary (singleton l) (logger l) w).

(** [new FileIo(path)]: the members the constructor sets. *)
Definition makeFileIo {W} (eof : Z) (url : bytes) : M (library W) (File.FileIo cluster_ptr) :=
  window ← on_singleton (gets readaheadWindowSize);
  if negb (bool_decide (take (length scheme) url = scheme)) then throw (system_error invalid_argument) else
  path ← lift (urlToPath url);
  id ← lift (urlToClusterId url);
  c ← on_singleton (on_map (getCluster connect memory id));
  mret (File.mkFile c (new_oracle (Z.to_nat (u64 window))) eof 0 [] false path).

Definition makeAdminCluster {W} (cluster_id : bytes) : M (library W) cluster_ptr :=
  on_singleton (on_map (getAdminCluster connect memory between cluster_id)).

(** [kio_notice("Registered log function. Library Version = ", KIO_VERSION)] *)
Definition registerLogFunction {W} (version : bytes) (line : Z) (lfunc : option (logfunc_t W)) (shouldfunc : option shouldlogfunc_t) :
    M (library W) unit :=
  modify (fun l => mkLibrary (singleton l) (Logging.registerLogFunction lfunc shouldfunc (logger l)) (program l));;
  kio_log (str "registerLogFunction") (str "KineticIoFactory.cc") line 5 (fun _ => str "Registered log function. Library Version = " ++ version).

Definition reloadConfiguration {W} : M (library W) unit := on_singleton (loadConfiguration getenv file_content).

End Factory.
Arguments library : clear implicits.
Arguments mkLibrary {D W} _ _ _.
End Factory.
Import Factory.

(** ** What the factory promises *)

(** A new log function is told of its registration, if it wants notices, and of nothing else. *)
Lemma register_announces {D W} version line (f : logfunc_t W) (s : shouldlogfunc_t) (l : library D W) :
  Factory.registerLogFunction version line (Some f) (Some s) l =
    (let l' := mkLibrary (singleton l) (mkLogger (Some f) (Some s)) (program l) in
     if s (str "registerLogFunction") 5
     then let '(o, w) := f (str "registerLogFunction") (str "KineticIoFactory.cc") line 5
                           (str "Registered log function. Library Version = " ++ version) (program l) in
          (o, mkLibrary (singleton l') (logger l') w)
     else (Ret tt, l')).
Proof.
  unfold Factory.registerLogFunction, kio_log. mstep. unfold log. cbn.
  by destruct (s (str "registerLogFunction") 5).
Qed.

Section Sharing.
Context `{Env D} `{StatusInt} `{Checksum} `{IsaL}.
Variable connect : list (drive_options * Z) -> D.
Variable memory : ClusterStats.

Lemma getCluster_known id c (m : ClusterMap D) : clusterCache m !! id = Some c -> getCluster connect memory id m = (Ret c, m).
Proof. intros E. unfold getCluster. mstep. by rewrite E. Qed.

(** Files of a cluster that is known get the object that is there, and creating them changes nothing. *)
Lemma makeFileIo_shares {W} eof url path id c (l : library D W) :
  take (length scheme) url = scheme -> urlToPath url = Ret path -> urlToClusterId url = Ret id ->
  clusterCache (clusterMap (singleton l)) !! id = Some c ->
  exists f, makeFileIo connect memory eof url l = (Ret f, l) /\ File.cluster f = c /\ File.path f = path /\ File.opened f = false.
Proof.
  intros Hs Ep Ei Ec. destruct l as [[cf m dc tp] lg w]. cbn in Ec. eexists. split.
  - unfold makeFileIo. rewrite bind_unfold. cbn. rewrite bool_decide_eq_true_2 by done. cbn. rewrite Ep. mstep. rewrite Ei. mstep.
    rewrite bind_unfold. unfold on_singleton, on_map, zoom. cbn. by rewrite (getCluster_known id c m Ec).
  - done.
Qed.
End Sharing.
