(* ===== verification/AdminTool.v ===== *)
(** * The arguments of the administration tool (tools/admin.cc)

    The command line program: its configuration and the arguments it is read from.  What it does
    with them is in AdminMain. *)

From S2P Require Import Prelude CppString Utility Kinetic Simulator Callbacks ClusterOperation Isa Redundancy StripeOperation.
From S2P Require Import Cluster ClusterInterface BackgroundOperationHandler AdminCluster.
Import AdminCluster.

Module AdminTool.

(** [Operation] of the tool. *)
Inductive Operation := STATUS | COUNT | SCAN | REPAIR | RESET | INVALID | CONFIG_SHOW | CONFIG_PUBLISH | CONFIG_UPLOAD.

#[export] Instance Operation_eq_dec : EqDecision Operation.
Proof. solve_decision. Defined.

Record Configuration := mkConfiguration {
  op : Operation;
  targets : list OperationTarget;
  id : bytes;
  space : bytes;
  file : bytes;
  tag : bytes;
  numthreads : Z;
  verbosity : Z;
  numbench : Z;
  monitoring : bool;
}.

(** The levels of syslog.h. *)
Definition LOG_ERR : Z := 3.
Definition LOG_WARNING : Z := 4.
Definition LOG_NOTICE : Z := 5.
Definition LOG_DEBUG : Z := 7.

Definition set_op x c := mkConfiguration x (targets c) (id c) (space c) (file c) (tag c) (numthreads c) (verbosity c) (numbench c) (monitoring c).
Definition add_target x c :=
  mkConfiguration (op c) (targets c ++ [x]) (id c) (space c) (file c) (tag c) (numthreads c) (verbosity c) (numbench c) (monitoring c).
Definition set_id x c := mkConfiguration (op c) (targets c) x (space c) (file c) (tag c) (numthreads c) (verbosity c) (numbench c) (monitoring c).
Definition set_space x c := mkConfiguration (op c) (targets c) (id c) x (file c) (tag c) (numthreads c) (verbosity c) (numbench c) (monitoring c).
Definition set_file x c := mkConfiguration (op c) (targets c) (id c) (space c) x (tag c) (numthreads c) (verbosity c) (numbench c) (monitoring c).
Definition set_tag x c := mkConfiguration (op c) (targets c) (id c) (space c) (file c) x (numthreads c) (verbosity c) (numbench c) (monitoring c).
Definition set_numthreads x c := mkConfiguration (op c) (targets c) (id c) (space c) (file c) (tag c) x (verbosity c) (numbench c) (monitoring c).
Definition set_verbosity x c := mkConfiguration (op c) (targets c) (id c) (space c) (file c) (tag c) (numthreads c) x (numbench c) (monitoring c).
Definition set_numbench x c := mkConfiguration (op c) (targets c) (id c) (space c) (file c) (tag c) (numthreads c) (verbosity c) x (monitoring c).
Definition set_monitoring x c := mkConfiguration (op c) (targets c) (id c) (space c) (file c) (tag c) (numthreads c) (verbosity c) (numbench c) x.

Definition to_str (target : OperationTarget) : bytes :=
  match target with
  | ATTRIBUTE => str "ATTRIBUTE"
  | AdminCluster.INVALID => str "INVALID"
  | INDICATOR => str "INDICATOR"
  | METADATA => str "METADATA"
  | DATA => str "DATA"
  end.

(** ** Arguments *)

(** The C library's [atoi]; a number that does not fit is cut as glibc does. *)
Definition atoi (s : bytes) : Z :=
  let '(neg, ds) := signed_digits s in
  let v := dval ds 0 in
  i32 (Z.max (- 2 ^ 63) (Z.min (2 ^ 63 - 1) (if neg then - v else v))).

(** The words [parseArguments] compares an argument with: those that stand alone ... *)
Inductive keyword := W_operation (x : Operation) | W_config | W_tag (x : bytes) | W_monitoring
(* ... and those that take the next argument *)
  | W_target | W_verbosity | W_id | W_space | W_file | W_threads | W_bench | W_other.

Definition keywords : list (bytes * keyword) :=
  [(str "scan", W_operation SCAN); (str "count", W_operation COUNT); (str "repair", W_operation REPAIR);
   (str "status", W_operation STATUS); (str "reset", W_operation RESET); (str "config", W_config);
   (str "--security", W_tag (str "security")); (str "--location", W_tag (str "location")); (str "--cluster", W_tag (str "cluster"));
   (str "-m", W_monitoring);
   (str "--target", W_target); (str "--verbosity", W_verbosity); (str "--id", W_id); (str "--space", W_space); (str "--file", W_file);
   (str "--threads", W_threads); (str "--bench", W_bench)].

Fixpoint find_word {A} (a : bytes) (l : list (bytes * A)) : option A :=
  match l with
  | [] => None
  | (w, x) :: l' => if bool_decide (a = w) then Some x else find_word a l'
  end.

Definition keyword_of (a : bytes) : keyword := default W_other (find_word a keywords).

Definition target_words : list (bytes * OperationTarget) :=
  [(str "indicator", INDICATOR); (str "data", DATA); (str "metadata", METADATA); (str "attribute", ATTRIBUTE)].
Definition verbosity_words : list (bytes * Z) :=
  [(str "debug", LOG_DEBUG); (str "notice", LOG_NOTICE); (str "warning", LOG_WARNING); (str "error", LOG_ERR)].

(** The loop of [parseArguments]; none if it returns false. *)
Fixpoint parse_loop (arguments : list bytes) (config : Configuration) : option Configuration :=
  match arguments with
  | [] => Some config
  | a :: rest =>
      match keyword_of a with
      | W_operation x => parse_loop rest (set_op x config)
      | W_config =>
          let config := set_op CONFIG_SHOW config in
          match rest with
          | b :: rest1 =>
              if bool_decide (b = str "--publish") then
                match rest1 with
                | b' :: rest2 => if bool_decide (b' = str "--upload") then parse_loop rest2 (set_op CONFIG_UPLOAD config)
                                 else parse_loop rest1 (set_op CONFIG_PUBLISH config)
                | [] => parse_loop rest1 (set_op CONFIG_PUBLISH config)
                end
              else if bool_decide (b = str "--upload") then parse_loop rest1 (set_op CONFIG_UPLOAD config)
              else parse_loop rest config
          | [] => parse_loop rest config
          end
      | W_tag x => parse_loop rest (set_tag x config)
      | W_monitoring => parse_loop rest (set_monitoring true config)
      | k =>
          match rest with
          | [] => None
          | b :: rest' =>
              match k with
              | W_target => match find_word b target_words with Some x => parse_loop rest' (add_target x config) | None => None end
              | W_verbosity => match find_word b verbosity_words with Some x => parse_loop rest' (set_verbosity x config) | None => None end
              | W_id => parse_loop rest' (set_id b config)
              | W_space => parse_loop rest' (set_space b config)
              | W_file => parse_loop rest' (set_file b config)
              | W_threads => parse_loop rest' (set_numthreads (atoi b) config)
              | W_bench => parse_loop rest' (set_numbench (atoi b) config)
              | _ => parse_loop rest config
              end
          end
      end
  end.

Definition is_config (x : Operation) : bool := bool_decide (x = CONFIG_PUBLISH) || bool_decide (x = CONFIG_SHOW) || bool_decide (x = CONFIG_UPLOAD).

Definition default_targets (c : Configuration) : Configuration :=
  match targets c with
  | [] => foldl (fun c t => add_target t c) c [METADATA; ATTRIBUTE; DATA]
  | _ => c
  end.

Definition parseArguments (arguments : list bytes) : option Configuration :=
  match parse_loop arguments (mkConfiguration INVALID [] [] (str "default") [] [] 1 LOG_WARNING 0 false) with
  | None => None
  | Some config =>
      let config := default_targets config in
      if bool_decide (op config = INVALID) then None else
      if bool_decide (id config = []) && negb (is_config (op config)) then None else
      if bool_decide (op config = CONFIG_UPLOAD) && (bool_decide (file config = []) || bool_decide (tag config = [])) then None else
      Some config
  end.

End AdminTool.
Import AdminTool.

(** ** Lemmas: arguments for a configuration *)

Definition op_words (x : Operation) : list bytes :=
  match x with
  | STATUS => [str "status"] | COUNT => [str "count"] | SCAN => [str "scan"] | REPAIR => [str "repair"] | RESET => [str "reset"]
  | INVALID => []
  | CONFIG_SHOW => [str "config"]
  | CONFIG_PUBLISH => [str "config"; str "--publish"]
  | CONFIG_UPLOAD => [str "config"; str "--upload"]
  end.

Definition target_word (t : OperationTarget) : bytes :=
  match t with
  | INDICATOR => str "indicator" | DATA => str "data" | METADATA => str "metadata" | ATTRIBUTE => str "attribute"
  | AdminCluster.INVALID => []
  end.

Definition verbosity_word (v : Z) : bytes :=
  if v =? LOG_ERR then str "error" else if v =? LOG_WARNING then str "warning" else if v =? LOG_NOTICE then str "notice" else str "debug".

(** A command line that asks for the configuration. *)
Definition render (c : Configuration) : list bytes :=
  op_words (op c) ++ concat ((fun t => [str "--target"; target_word t]) <$> targets c) ++
  [str "--id"; id c; str "--space"; space c; str "--file"; file c; str "--threads"; to_string (numthreads c);
   str "--bench"; to_string (numbench c); str "--verbosity"; verbosity_word (verbosity c)] ++
  (if bool_decide (tag c = []) then [] else [str "--" ++ tag c]) ++ (if monitoring c then [str "-m"] else []).

(** What an accepted command line asks for. *)
Record accepted (c : Configuration) : Prop := {
  ac_op : op c <> INVALID;
  ac_targets : targets c <> [];
  ac_id : id c = [] -> is_config (op c) = true;
  ac_upload : op c = CONFIG_UPLOAD -> file c <> [] /\ tag c <> [];
}.

(** What can be asked for. *)
Record expressible (c : Configuration) : Prop := {
  ex_targets : Forall (fun t => t <> AdminCluster.INVALID) (targets c);
  ex_tag : tag c ∈ [[]; str "security"; str "location"; str "cluster"];
  ex_numthreads : 0 <= numthreads c <= INT_MAX;
  ex_numbench : 0 <= numbench c <= INT_MAX;
  ex_verbosity : verbosity c ∈ [LOG_ERR; LOG_WARNING; LOG_NOTICE; LOG_DEBUG];
}.

Lemma atoi_to_string n : 0 <= n <= INT_MAX -> atoi (to_string n) = n.
Proof.
  intros Hn. unfold atoi, to_string. rewrite (proj2 (Z.ltb_ge n 0)) by lia.
  pose proof (signed_digits_pad0 0 n ltac:(lia)) as E. unfold pad0 in E. change (0 - length (dec n))%nat with 0%nat in E.
  cbn [replicate app] in E. rewrite E.
  destruct (dec_spec n ltac:(lia)) as (_ & -> & _). unfold INT_MAX in *. rewrite Z.max_r, Z.min_r by lia.
  apply i32_small. unfold INT_MIN, INT_MAX. lia.
Qed.

Lemma parse_op x rest c : x <> INVALID -> (forall b rest', rest = b :: rest' -> b <> str "--publish" /\ b <> str "--upload") ->
  parse_loop (op_words x ++ rest) c = parse_loop rest (set_op x c).
Proof.
  intros Hx Hrest. destruct x; try done; destruct rest as [|b rest]; try reflexivity.
  all: destruct (Hrest b rest eq_refl) as [H1 H2]; cbn [op_words app parse_loop].
  all: change (keyword_of (str "config")) with W_config; cbv iota.
  - by rewrite !bool_decide_eq_false_2.
  - change (bool_decide (str "--publish" = str "--publish")) with true. cbv iota. by rewrite (bool_decide_eq_false_2 (b = str "--upload")).
Qed.

Lemma parse_targets ts rest c : Forall (fun t => t <> AdminCluster.INVALID) ts ->
  parse_loop (concat ((fun t => [str "--target"; target_word t]) <$> ts) ++ rest) c = parse_loop rest (foldl (fun c t => add_target t c) c ts).
Proof.
  intros Hts. revert c. induction Hts as [|t ts Ht _ IH]; intros c; [done|]. rewrite fmap_cons. cbn [concat foldl]. rewrite <- app_assoc, <- IH.
  destruct t; try done; reflexivity.
Qed.

Lemma foldl_targets ts c : foldl (fun c t => add_target t c) c ts =
  mkConfiguration (op c) (targets c ++ ts) (id c) (space c) (file c) (tag c) (numthreads c) (verbosity c) (numbench c) (monitoring c).
Proof.
  revert c. induction ts as [|t ts IH]; intros c; cbn [foldl]; [rewrite app_nil_r; by destruct c|]. rewrite IH. cbn. by rewrite <- app_assoc.
Qed.

Lemma parse_pairs i s f n b v rest c : v ∈ [LOG_ERR; LOG_WARNING; LOG_NOTICE; LOG_DEBUG] ->
  parse_loop ([str "--id"; i; str "--space"; s; str "--file"; f; str "--threads"; n; str "--bench"; b; str "--verbosity"; verbosity_word v] ++ rest) c =
  parse_loop rest (set_verbosity v (set_numbench (atoi b) (set_numthreads (atoi n) (set_file f (set_space s (set_id i c)))))).
Proof.
  intros Hv. repeat (apply elem_of_cons in Hv as [->|Hv]; [reflexivity|]). by apply not_elem_of_nil in Hv.
Qed.

Lemma parse_flags t m c : t ∈ [[]; str "security"; str "location"; str "cluster"] -> tag c = [] -> monitoring c = false ->
  parse_loop ((if bool_decide (t = []) then [] else [str "--" ++ t]) ++ (if m : bool then [str "-m"] else [])) c = Some (set_monitoring m (set_tag t c)).
Proof.
  intros Ht Hc Hm. destruct c. cbn in Hc, Hm. subst.
  repeat (apply elem_of_cons in Ht as [->|Ht]; [by destruct m|]). by apply not_elem_of_nil in Ht.
Qed.

(** ** Properties *)

(** The command line says what is done.  Every configuration that makes sense has a command line, [render],
    that [parseArguments] reads back exactly: the operation, the targets in their order, names that may
    coincide with options, numbers, verbosity and flags.  Whatever else is accepted makes sense, too: it
    names an operation, has targets, names a cluster unless it is about the deployed configuration, and an
    upload has a file and a tag. *)
Theorem tool_arguments c :
  (accepted c -> expressible c -> parseArguments (render c) = Some c) /\
  (forall arguments, parseArguments arguments = Some c -> accepted c).
Proof.
  split.
  - intros [Hop Hts Hid Hup] [Ht Htag Hn Hb Hv]. unfold parseArguments, render.
    rewrite parse_op; [|done|].
    2: { intros b rest E. destruct (targets c); cbn in E; injection E as <- _; done. }
    rewrite parse_targets, foldl_targets, parse_pairs, parse_flags, !atoi_to_string by done.
    match goal with |- context [set_monitoring ?m ?x] => replace (set_monitoring m x) with c by (by destruct c) end.
    unfold default_targets. destruct (targets c) as [|t ts] eqn:Et; [done|].
    rewrite bool_decide_eq_false_2 by done.
    assert (bool_decide (id c = []) && negb (is_config (op c)) = false) as ->.
    { case_bool_decide as Hi; [|done]. by rewrite (Hid Hi). }
    case_bool_decide as Hu; [|done]. destruct (Hup Hu). by rewrite !bool_decide_eq_false_2.
  - intros arguments. unfold parseArguments. destruct (parse_loop _ _) as [c0|]; [|done].
    assert (targets (default_targets c0) <> []) as Hts.
    { unfold default_targets. destruct (targets c0) eqn:E; [rewrite foldl_targets; cbn; by rewrite E|by rewrite E]. }
    case_bool_decide as Hop; [done|]. destruct (bool_decide (id _ = []) && _) eqn:Hid; [done|].
    destruct (bool_decide (op _ = CONFIG_UPLOAD) && _) eqn:Hup; [done|]. intros [= <-]. split; try done.
    + intros Hi. rewrite bool_decide_eq_true_2 in Hid by done. cbn in Hid. by apply negb_false_iff in Hid.
    + intros Hu. rewrite bool_decide_eq_true_2 in Hup by done. cbn in Hup. by apply orb_false_iff in Hup as [?%bool_decide_eq_false ?%bool_decide_eq_false].
Qed.

Lemma tool_arguments_witness :
  let c := mkConfiguration REPAIR [INDICATOR; DATA] (str "scan") (str "default") [] [] 8 LOG_DEBUG 0 true in
  parseArguments (render c) = Some c /\ accepted c.
Proof.
  intros c. destruct (tool_arguments c) as [Hread Hacc].
  assert (parseArguments (render c) = Some c) as E.
  { apply Hread.
    - split; done.
    - split; [by repeat constructor|by left|done..|]. by apply (bool_decide_unpack _); vm_compute. }
  split; [exact E|exact (Hacc _ E)].
Defined.
