(* ===== verification/AdminMain.v ===== *)
(** * The administration tool (tools/admin.cc)

    What the command line program does and prints: the help, the operation on every target with its
    sums, the status of a cluster, exit codes; and the command of the EOS console that is built from
    the same file.  The state of the program is the world behind the administration interface and
    what has been written to standard output.  The running counts that an operation shows while it
    is busy are left out. *)

From S2P Require Import Prelude CppString Utility Kinetic Simulator Callbacks ClusterOperation Isa Redundancy StripeOperation.
From S2P Require Import Cluster ClusterInterface BackgroundOperationHandler AdminCluster Connection AdminStatus AdminTool.
Import AdminCluster AdminTool.

Module AdminMain.

(** ** The library as the tool sees it *)

(** [AdminClusterInterface], with the callback as in [AdminCluster]. *)
Class AdminClusterInterface (W : Type) := {
  ac_status : Z -> M W ClusterStatus;
  ac_count : OperationTarget -> (nat -> Z -> bool) -> M W Z;
  ac_scan : OperationTarget -> (nat -> Z -> bool) -> Z -> M W KeyCounts;
  ac_repair : OperationTarget -> (nat -> Z -> bool) -> Z -> M W KeyCounts;
  ac_reset : OperationTarget -> (nat -> Z -> bool) -> Z -> M W KeyCounts;
}.

(** The world and standard output. *)
Record console {W : Type} := mkConsole {
  world : W;
  stdout : bytes;
}.
Arguments console : clear implicits.
Arguments mkConsole {W} _ _.

Definition on_world {W A} (m : M W A) : M (console W) A := zoom world (fun w s => mkConsole w (stdout s)) m.

(** [fprintf(stdout, ...)] *)
Definition print {W} (text : bytes) : M (console W) unit := modify (fun s => mkConsole (world s) (stdout s ++ text)).

Definition newline : bytes := [ascii_of_nat 10].
Definition tab : bytes := [ascii_of_nat 9].
Definition line (text : bytes) : bytes := text ++ newline.

(** [%2u] *)
Definition pad_space (w : nat) (s : bytes) : bytes := replicate (w - length s) " "%char ++ s.

(** ** Help *)

Definition help_lines (eos : bool) : list bytes :=
  [str "------------------------------------------------------------------------------------------------"] ++
  (if eos then
  [str "usage: kinetic config [--publish|--upload] ...";
   [];
   str "       kinetic config [--space <name> ] [--security|--cluster|--location] ";
   str "             shows the currently deployed kinetic configuration - by default 'default' space";
   str "             setting --security, --cluster, or --location shows only the selected subconfiguration";
   [];
   str "       kinetic config --publish [--space <name>]";
   str "             publishes the configuration files under <mgm>:/var/eos/kinetic/ to all currently";
   str "             existing FSTs in default or referenced space";
   [];
   str "       kinetic config --upload {--cluster|--security|--location} --file <local-json-file> [--space <name>] ";
   str "             uploads the supplied local-json-file as current version for the selected";
   str "             subconfiguration to <mgm>:/var/eos/kinetic/ ";
   []]
   else []) ++
  [str "usage: kinetic --id <name> <operation> [OPTIONS] ";
   [];
   str "       --id <name> ";
   str "           the name of target cluster (see kinetic config)";
   [];
   str "       <operation> ";
   str "           count  : count number of keys existing in the cluster";
   str "           scan   : check keys and display their status information";
   str "           repair : check keys, repair as required, display key status information";
   str "           reset  : force remove keys (Warning: Data will be lost!)";
   str "           status : show health status of cluster. ";
   [];
   str "    OPTIONS";
   str "       --target data|metadata|attribute|indicator  ";
   str "           Operations can be limited to a specific key-type. Setting the 'indicator' type will ";
   str "           perform the operation on keys of any type that have been marked as problematic. In ";
   str "           most cases this is sufficient and much faster. Use full scan / repair operations ";
   str "           after a drive replacement or cluster-wide power loss event. ";
   [];
   str "       --threads <number> ";
   str "           Specify the number of background io threads used for a scan/repair/reset operation. ";
   []] ++
  (if eos then
  [str "       --space <name> ";
   str "           Use the kinetic configuration for the referenced space - by default 'default' space ";
   str "           is used (see kinetic config). ";
   []]
   else
  [str "       --verbosity debug|notice|warning|error ";
   str "           Specify verbosity level. Messages are printed to stdout (warning set as default). ";
   []]) ++
  [str "       --bench <number>";
   str "           Only for status operation. Benchmark put/get/delete performance for each  connection ";
   str "           using <number> 1MB keys to get rough per-connection throughput. ";
   [];
   str "       -m : monitoring key=value output format";
   str "------------------------------------------------------------------------------------------------"].

Definition kinetic_help {W} (eos : bool) : M (console W) unit := print (concat (line <$> help_lines eos)).

(** ** Sums *)

(** [operator+] *)
Definition add_counts (lhs rhs : KeyCounts) : outcome KeyCounts :=
  i ← add_int (incomplete lhs) (incomplete rhs);
  n ← add_int (need_action lhs) (need_action rhs);
  r ← add_int (removed lhs) (removed rhs);
  p ← add_int (repaired lhs) (repaired rhs);
  t ← add_int (total lhs) (total rhs);
  u ← add_int (unrepairable lhs) (unrepairable rhs);
  Ret (mkKeyCounts t i n p r u).

(** ** Reports *)

Definition rule : bytes := line (str "# ------------------------------------------------------------------------").

(** [printResults] in monitoring format. *)
Definition monitoring_results (kc : KeyCounts) : bytes :=
  line (str "kinetic.stat.keys.n=" ++ to_string (total kc) ++
        str " kinetic.stat.drives.inaccessible.n=" ++ to_string (incomplete kc) ++
        str " kinetic.stat.require.action.n=" ++ to_string (need_action kc) ++
        str " kinetic.stat.repaired.n=" ++ to_string (repaired kc) ++
        str " kinetic.stat.removed.n=" ++ to_string (removed kc) ++
        str " Kinetic.stat.notrepairable.n=" ++ to_string (unrepairable kc)).

Definition printResults {W} (config : Configuration) (kc : KeyCounts) : M (console W) unit :=
  if monitoring config then print (monitoring_results kc) else
  print newline;;
  print rule;;
  print (line (str "# Total keys processed:                      " ++ to_string (total kc) ++ str " "));;
  match op config with
  | SCAN =>
      print (line (str "# Keys where an action may be taken:         " ++ to_string (need_action kc)));;
      print (line (str "# Keys that are currently not readable:      " ++ to_string (unrepairable kc)))
  | REPAIR =>
      print (line (str "# Keys Repaired:                             " ++ to_string (repaired kc)));;
      print (line (str "# Orphaned chunks removed for:               " ++ to_string (removed kc)));;
      print (line (str "# Failed to repair:                          " ++ to_string (unrepairable kc)))
  | RESET =>
      print (line (str "# Keys removed:                              " ++ to_string (removed kc)));;
      print (line (str "# Failed to remove:                          " ++ to_string (unrepairable kc)))
  | _ => mret tt
  end;;
  print (line (str "# Keys with chunks on inaccessible drives:   " ++ to_string (incomplete kc)));;
  print rule.

(** The lines about the drives of a cluster; [v.location[i]] is not checked. *)
Fixpoint print_drives {W} (monitoring : bool) (i : nat) (connected : list bool) (location : list bytes) : M (console W) unit :=
  match connected with
  | [] => mret tt
  | c :: connected' =>
      let state := if (c : bool) then str "OK" else str "FAILED" in
      (if monitoring
       then print (line (str "kinetic.drive.index=" ++ to_string (Z.of_nat i) ++ str " kinetic.drive.status=" ++ state))
       else l ← lift (deref (head location));
            print (line (str "# drive " ++ pad_space 2 (to_string (Z.of_nat i)) ++ str " : " ++ state ++ str " " ++ l)));;
      print_drives monitoring (S i) connected' (tail location)
  end.

Definition print_status {W} (monitoring : bool) (v : ClusterStatus) : M (console W) unit :=
  (if monitoring then
    print (line (str "kinetic.connections.total=" ++ to_string (drives_total v) ++
                 str " kinetic.connections.failed=" ++ to_string (drives_failed v)));;
    print (line (str "kinetic.redundancy_factor=" ++ to_string (redundancy_factor v)));;
    print (line (str "kinetic.indicator_exist=" ++ if indicator_exist v then str "YES" else str "NO"))
  else
    print rule;;
    print (line (str "# Cluster Status"));;
    print (line (str "# " ++ tab ++ str "Connections Failed: " ++ to_string (drives_failed v) ++ str " of " ++
                 to_string (drives_total v) ++ str " "));;
    print (line (str "# " ++ tab ++ str "Redundancy Factor: " ++ to_string (redundancy_factor v)));;
    print (line (str "# " ++ tab ++ str "Indicator keys: " ++ (if indicator_exist v then str "EXIST" else str "NONE") ++ str " "));;
    print rule);;
  print_drives monitoring 0 (connected v) (location v).

(** ** Operations *)

Section DoOperation.
Context `{AdminClusterInterface W}.

(** The value of [continue_execution] when the callback is called for the [i]-th time during the
    operation on a target: an interrupt clears it. *)
Variable continue_execution : OperationTarget -> nat -> bool.

Definition callbackfunction (t : OperationTarget) : nat -> Z -> bool := fun i _ => continue_execution t i.

(** The loop over the targets. *)
Fixpoint do_targets (config : Configuration) (ts : list OperationTarget) (tcount : Z) (tstats : KeyCounts) : M (console W) (Z * KeyCounts) :=
  match ts with
  | [] => mret (tcount, tstats)
  | target :: ts' =>
      when (negb (monitoring config)) (print (line (str "Performing operation on all " ++ to_str target ++ str " keys of the cluster... ")));;
      let cb := callbackfunction target in
      let sum (m : M W KeyCounts) := k ← on_world m; tstats ← lift (add_counts tstats k); mret (tcount, tstats) in
      '(tcount, tstats) ← match op config with
        | COUNT => n ← on_world (ac_count target cb); tcount ← lift (add_int tcount n); mret (tcount, tstats)
        | SCAN => sum (ac_scan target cb (numthreads config))
        | REPAIR => sum (ac_repair target cb (numthreads config))
        | RESET => sum (ac_reset target cb (numthreads config))
        | _ => throw std_runtime_error
        end;
      when (negb (monitoring config)) (print newline);;
      do_targets config ts' tcount tstats
  end.

Definition print_count (monitoring : bool) (tcount : Z) : M (console W) unit :=
  if monitoring then print (line (str "kinetic.stat.keys.n=" ++ to_string tcount))
  else print newline;; print rule;;
       print (line (str "# Completed Operation - Counted a total of " ++ to_string tcount ++ str " keys"));; print rule.

Definition do_operation (config : Configuration) : M (console W) unit :=
  if bool_decide (op config = STATUS) then v ← on_world (ac_status (numbench config)); print_status (monitoring config) v else
  '(tcount, tstats) ← do_targets config (targets config) 0 no_keys;
  if bool_decide (op config = COUNT) then print_count (monitoring config) tcount else printResults config tstats.

(** ** The program *)

(** The text of an exception, and the version of the library. *)
Variable what : exn -> bytes.
Variable version : bytes.
Variable makeAdminCluster : bytes -> M W unit.

Definition mshouldLog (level target_level : Z) : bool := level <=? target_level.

Definition mlog (level : Z) (msg : bytes) : M (console W) unit :=
  print ((if level =? LOG_DEBUG then str "DEBUG:" else if level =? LOG_NOTICE then str "NOTICE:" else
          if level =? LOG_WARNING then str "WARNING:" else if level =? LOG_ERR then str "ERROR:" else []) ++ line (str " " ++ msg)).

(** [registerLogFunction] tells the new function of its registration. *)
Definition register_log (verbosity : Z) : M (console W) unit :=
  when (mshouldLog LOG_NOTICE verbosity) (mlog LOG_NOTICE (str "Registered log function. Library Version = " ++ version)).

(** The [try] block of [main] and [com_kinetic]: the exit code. *)
Definition guarded_operation (config : Configuration) : M (console W) Z :=
  try_catch (on_world (makeAdminCluster (id config));; do_operation config;; mret 0)
    (fun e => print (line (str "Encountered Exception: " ++ what e));; mret 1).

Definition main (arguments : list bytes) : M (console W) Z :=
  match parseArguments arguments with
  | None => kinetic_help false;; mret 1
  | Some config => register_log (verbosity config);; guarded_operation config
  end.

(** ** The command of the EOS console *)

(** What it uses of EOS: a command of the console, and the answer to an administration command, decoded. *)
Variable com_space : bytes -> M W unit.
Variable client_admin_command : bytes -> M W bytes.
Variable setenv : bytes -> bytes -> M W unit.

Definition setEnvironmentVariables (config : Configuration) : M W unit :=
  let spacename := space config in
  let base := str "mgm.cmd=space&mgm.subcmd=node-get&mgm.space=" ++ spacename ++ str "&mgm.space.node-get.key=" in
  location_result ← client_admin_command (base ++ str "kinetic.location." ++ spacename);
  security_result ← client_admin_command (base ++ str "kinetic.security." ++ spacename);
  cluster_result ← client_admin_command (base ++ str "kinetic.cluster." ++ spacename);
  setenv (str "KINETIC_DRIVE_LOCATION") location_result;;
  setenv (str "KINETIC_DRIVE_SECURITY") security_result;;
  setenv (str "KINETIC_CLUSTER_DEFINITION") cluster_result.

Definition show_command (config : Configuration) (part : bytes) : bytes :=
  str "node-get " ++ space config ++ str " kinetic." ++ part ++ str "." ++ space config.
Definition publish_command (config : Configuration) (part : bytes) : bytes :=
  str "node-set " ++ space config ++ str " kinetic." ++ part ++ str "." ++ space config ++
  str " file:/var/eos/kinetic/kinetic-" ++ part ++ str "-" ++ space config ++ str ".json".

(** The commands [doConfig] runs, in order. *)
Definition config_commands (config : Configuration) : list bytes :=
  match op config with
  | CONFIG_SHOW =>
      if bool_decide (tag config = []) then show_command config <$> [str "cluster"; str "location"; str "security"]
      else (if bool_decide (tag config = str "cluster") then [show_command config (str "cluster")] else []) ++
           (if bool_decide (tag config = str "location") then [show_command config (str "location")] else []) ++
           (if bool_decide (tag config = str "security") then [show_command config (str "security")] else [])
  | CONFIG_PUBLISH =>
      (publish_command config <$> [str "cluster"; str "location"; str "security"]) ++
      [str "node-set " ++ space config ++ str " kinetic.reload " ++ space config]
  | CONFIG_UPLOAD => [str "kinetic-json-store " ++ space config ++ str " " ++ tag config ++ str " " ++ file config]
  | _ => []
  end.

Definition doConfig (config : Configuration) : M W unit := mapM com_space (config_commands config);; mret tt.

(** [arguments] are the tokens of the command. *)
Definition com_kinetic (arguments : list bytes) : M (console W) Z :=
  match parseArguments arguments with
  | None => kinetic_help true;; mret 1
  | Some config =>
      if is_config (op config) then on_world (doConfig config);; mret 0
      else on_world (setEnvironmentVariables config);; guarded_operation config
  end.

End DoOperation.

(** The operations of an administrated cluster. *)
Definition kinetic_admin `{Env D} `{Connections D} `{StatusInt} `{Checksum} `{IsaL} (fuel : nat) (schedule : nat -> nat)
    (shuffle : nat -> nat -> list bytes -> list bytes) (options : nat -> Connection.ConnectionOptions * Connection.ConnectionOptions) (updates : nat -> bool) :
    AdminClusterInterface (KineticCluster D) := {|
  ac_status := AdminStatus.status shuffle options updates fuel;
  ac_count := count fuel schedule;
  ac_scan := fun t cb n => scan fuel schedule t cb (Z.to_nat (u64 n));
  ac_repair := fun t cb n => repair fuel schedule t cb (Z.to_nat (u64 n));
  ac_reset := fun t cb n => reset fuel schedule t cb (Z.to_nat (u64 n));
|}.

End AdminMain.
Import AdminMain.

(** ** Reading reports *)

(** A reader of monitoring lines, as a script would be: words between white space, each a name, an equals sign
    and a number. *)
Fixpoint words (s cur : bytes) : list bytes :=
  let finished := match cur with [] => [] | _ => [cur] end in
  match s with
  | [] => finished
  | c :: s' => if is_space c then finished ++ words s' [] else words s' (cur ++ [c])
  end.

Fixpoint split_at (c : ascii) (s : bytes) : bytes * bytes :=
  match s with
  | [] => ([], [])
  | x :: s' => if bool_decide (x = c) then ([], s') else let '(a, b) := split_at c s' in (x :: a, b)
  end.

Definition read_pairs (s : bytes) : list (bytes * Z) :=
  (fun w => let '(name, value) := split_at "=" w in (name, stream_to_int value)) <$> words s [].

Definition no_space (s : bytes) : Prop := Forall (fun c => is_space c = false) s.

Lemma words_word w c s cur : no_space w -> is_space c = true -> cur ++ w <> [] -> words (w ++ c :: s) cur = (cur ++ w) :: words s [].
Proof.
  intros Hw Hc. revert cur. induction Hw as [|x w Hx _ IH]; intros cur Hne; cbn [app words].
  - rewrite Hc, app_nil_r in *. by destruct cur.
  - rewrite Hx, IH; rewrite <- app_assoc; [done|]. by destruct cur.
Qed.

Lemma split_at_hit c k t : c ∉ k -> split_at c (k ++ c :: t) = (k, t).
Proof.
  induction k as [|x k IH]; intros Hk; cbn; [by rewrite bool_decide_eq_true_2|].
  apply not_elem_of_cons in Hk as [Hx Hk]. by rewrite bool_decide_eq_false_2, IH.
Qed.

Lemma to_string_no_space n : 0 <= n -> no_space (to_string n).
Proof.
  intros Hn. unfold to_string. rewrite (proj2 (Z.ltb_ge _ _) Hn). destruct (dec_spec n Hn) as (Hd & _).
  eapply Forall_impl; [exact Hd|]. intros c [d Hc]. unfold is_space. pose proof (char_digit_range _ _ Hc). rewrite (char_digit_code _ _ Hc).
  apply orb_false_iff. split; [lia|]. apply andb_false_iff. right. lia.
Qed.

(** A pair at the front of a line. *)
Lemma read_pair k n c s : no_space k -> "="%char ∉ k -> 0 <= n <= INT_MAX -> is_space c = true ->
  read_pairs ((k ++ str "=") ++ to_string n ++ c :: s) = (k, n) :: read_pairs s.
Proof.
  intros Hk He Hn Hc. unfold read_pairs. rewrite app_assoc, words_word; [|apply Forall_app; split; [apply Forall_app; split; [done|by repeat constructor]|]|done|by destruct k].
  - cbn [app]. rewrite fmap_cons. f_equal. rewrite <- app_assoc. change (str "=" ++ to_string n) with ("="%char :: to_string n).
    rewrite split_at_hit by done. f_equal. unfold to_string. rewrite (proj2 (Z.ltb_ge n 0)) by lia. by apply (stream_to_int_pad0 0).
  - apply to_string_no_space. lia.
Qed.

Lemma read_space s : read_pairs (" "%char :: s) = read_pairs s.
Proof. done. Qed.

Definition monitoring_names : list bytes :=
  [str "kinetic.stat.keys.n"; str "kinetic.stat.drives.inaccessible.n"; str "kinetic.stat.require.action.n";
   str "kinetic.stat.repaired.n"; str "kinetic.stat.removed.n"; str "Kinetic.stat.notrepairable.n"].

(** ** Lemmas: sums *)

Definition fields (k : KeyCounts) : list Z := [total k; incomplete k; need_action k; repaired k; removed k; unrepairable k].

Definition plus_counts (a b : KeyCounts) : KeyCounts :=
  mkKeyCounts (total a + total b) (incomplete a + incomplete b) (need_action a + need_action b) (repaired a + repaired b)
    (removed a + removed b) (unrepairable a + unrepairable b).
Definition sum_counts : list KeyCounts -> KeyCounts := foldr plus_counts no_keys.

Definition counts_ok (k : KeyCounts) : Prop := Forall (fun n => 0 <= n <= INT_MAX) (fields k).
Definition not_negative_counts (k : KeyCounts) : Prop := Forall (fun n => 0 <= n) (fields k).

Ltac count_fields := unfold counts_ok, not_negative_counts, fields in *; repeat rewrite Forall_cons in *; cbn in *.

(** The line gives the counts back. *)
Lemma read_monitoring_results k : counts_ok k -> read_pairs (monitoring_results k) = zip monitoring_names (fields k).
Proof.
  destruct k as [t i n p r u]. count_fields. intros (? & ? & ? & ? & ? & ? & _).
  assert (forall k, forallb (fun c => negb (is_space c) && negb (bool_decide (c = "="%char))) k = true -> no_space k /\ "="%char ∉ k) as Hname.
  { intros k Hk. rewrite forallb_forall in Hk. split.
    - apply Forall_forall. intros c Hc. apply list_elem_of_In, Hk, andb_true_iff in Hc as [Hc _]. by apply negb_true_iff in Hc.
    - intros Hc. apply list_elem_of_In, Hk, andb_true_iff in Hc as [_ Hc]. by rewrite bool_decide_eq_true_2 in Hc. }
  assert (Forall (fun name => no_space name /\ "="%char ∉ name) monitoring_names) as Hnames.
  { apply Forall_forall. intros name Hin. apply Hname. revert name Hin. apply Forall_forall. by repeat constructor. }
  unfold monitoring_results, line, newline. cbn [total incomplete need_action repaired removed unrepairable]. rewrite <- !app_assoc.
  unfold monitoring_names in Hnames. rewrite !Forall_cons in Hnames. destruct Hnames as ([] & [] & [] & [] & [] & [] & _). cbn [fields total incomplete need_action repaired removed unrepairable].
  change (read_pairs ((str "kinetic.stat.keys.n" ++ str "=") ++ to_string t ++ " "%char ::
    (str "kinetic.stat.drives.inaccessible.n" ++ str "=") ++ to_string i ++ " "%char :: (str "kinetic.stat.require.action.n" ++ str "=") ++ to_string n ++
    " "%char :: (str "kinetic.stat.repaired.n" ++ str "=") ++ to_string p ++ " "%char :: (str "kinetic.stat.removed.n" ++ str "=") ++ to_string r ++
    " "%char :: (str "Kinetic.stat.notrepairable.n" ++ str "=") ++ to_string u ++ ascii_of_nat 10 :: []) =
    zip monitoring_names [t; i; n; p; r; u]).
  unfold monitoring_names. cbn [zip zip_with]. by rewrite !read_pair by done.
Qed.

Lemma add_counts_plus a b : not_negative_counts a -> not_negative_counts b -> counts_ok (plus_counts a b) -> add_counts a b = Ret (plus_counts a b).
Proof.
  destruct a, b. count_fields. intros (? & ? & ? & ? & ? & ? & _) (? & ? & ? & ? & ? & ? & _) (? & ? & ? & ? & ? & ? & _).
  assert (forall x y, 0 <= x -> 0 <= y -> 0 <= x + y <= INT_MAX -> add_int x y = Ret (x + y)) as Hadd.
  { intros x y ???. unfold add_int. unfold INT_MIN, INT_MAX in *. case_bool; [done|].
    match goal with E : _ && _ = false |- _ => apply andb_false_iff in E as [?%Z.leb_gt|?%Z.leb_gt] end; lia. }
  unfold add_counts, plus_counts. cbn. by rewrite !Hadd by done.
Qed.

Lemma plus_counts_assoc a b c : plus_counts (plus_counts a b) c = plus_counts a (plus_counts b c).
Proof. unfold plus_counts. cbn. by rewrite !Z.add_assoc. Qed.

Lemma plus_counts_0_r a : plus_counts a no_keys = a.
Proof. destruct a. unfold plus_counts. cbn. by rewrite !Z.add_0_r. Qed.

Lemma not_negative_plus a b : not_negative_counts a -> not_negative_counts b -> not_negative_counts (plus_counts a b).
Proof. destruct a, b. count_fields. naive_solver lia. Qed.

Lemma not_negative_sum ks : Forall not_negative_counts ks -> not_negative_counts (sum_counts ks).
Proof. induction 1; [by repeat constructor|]. by apply not_negative_plus. Qed.

Lemma counts_ok_part a b : not_negative_counts a -> not_negative_counts b -> counts_ok (plus_counts a b) -> counts_ok a.
Proof. destruct a, b. count_fields. naive_solver lia. Qed.

(** ** Lemmas: the loop over the targets *)

Section Loop.
Context `{AdminClusterInterface W} (continue_execution : OperationTarget -> nat -> bool).

(** The call of the interface for one target. *)
Definition counts_call (config : Configuration) (t : OperationTarget) : M W KeyCounts :=
  let cb := callbackfunction continue_execution t in
  match op config with
  | SCAN => ac_scan t cb (numthreads config)
  | REPAIR => ac_repair t cb (numthreads config)
  | RESET => ac_reset t cb (numthreads config)
  | _ => throw std_runtime_error
  end.

(** The calls for all targets, with what each of them counts. *)
Inductive calls (config : Configuration) : list OperationTarget -> W -> list KeyCounts -> W -> Prop :=
  | calls_nil w : calls config [] w [] w
  | calls_cons t ts w k w1 ks w2 : counts_call config t w = (Ret k, w1) -> calls config ts w1 ks w2 -> calls config (t :: ts) w (k :: ks) w2.

Definition counts_operation (o : Operation) : bool := match o with SCAN | REPAIR | RESET => true | _ => false end.

Lemma do_targets_sum config ts w ks w' tc t0 out : calls config ts w ks w' -> counts_operation (op config) = true -> monitoring config = true ->
  not_negative_counts t0 -> Forall not_negative_counts ks -> counts_ok (plus_counts t0 (sum_counts ks)) ->
  do_targets continue_execution config ts tc t0 (mkConsole w out) = (Ret (tc, plus_counts t0 (sum_counts ks)), mkConsole w' out).
Proof.
  intros Hc Ho Hm. revert t0. induction Hc as [w|t ts w k w1 ks w2 E _ IH]; intros t0 Ht Hks Hok.
  { cbn. by rewrite plus_counts_0_r. }
  apply Forall_cons in Hks as [Hk Hks]. cbn [do_targets sum_counts foldr] in *. change (foldr plus_counts no_keys ks) with (sum_counts ks) in *.
  rewrite <- plus_counts_assoc in *.
  assert (add_counts t0 k = Ret (plus_counts t0 k)) as Ea.
  { apply add_counts_plus; [done..|]. eapply counts_ok_part; [| |exact Hok]; [by apply not_negative_plus|by apply not_negative_sum]. }
  rewrite Hm. cbn [negb when]. mstep.
  assert (forall m, m w = (Ret k, w1) -> (k0 ← on_world m; tstats ← lift (add_counts t0 k0); mret (tc, tstats)) (mkConsole w out) =
    (Ret (tc, plus_counts t0 k), mkConsole w1 out)) as Hcall.
  { intros m Em. rewrite bind_unfold. unfold on_world, zoom. cbn [world]. rewrite Em. rewrite Ea. done. }
  specialize (IH (plus_counts t0 k) (not_negative_plus _ _ Ht Hk) Hks Hok). unfold counts_call in E.
  destruct (op config); try done; cbv zeta; rewrite (bind_ret _ _ _ _ _ (Hcall _ E)); cbv beta iota zeta; mstep; exact IH.
Qed.
End Loop.

(** ** Properties *)

(** C32: What the tool does and reports.  Every configuration that makes sense has a command line, [render], that asks for
    it, and whatever is accepted makes sense.  A command line that is not accepted is answered with the help and exit code 1, and touches nothing.  A
    scan, repair or reset in monitoring format that succeeds on all targets exits with 0 and prints one line; read as
    [name=value] pairs it gives the six sums over the targets, in order.  Whatever makes the operation fail, the exit code
    is 1 and the last line names the exception. *)
Theorem tool_report `{AdminClusterInterface W} continue_execution what version makeAdminCluster arguments (s : console W) :
  let run := main continue_execution what version makeAdminCluster arguments s in
  (parseArguments arguments = None -> run = (Ret 1, mkConsole (world s) (stdout s ++ concat (line <$> help_lines false)))) /\
  (forall config, parseArguments arguments = Some config \/ (arguments = render config /\ accepted config /\ expressible config) ->
    accepted config /\ (verbosity config < LOG_NOTICE ->
    (forall w1 ks w2, counts_operation (op config) = true -> monitoring config = true -> makeAdminCluster (id config) (world s) = (Ret tt, w1) ->
      calls continue_execution config (targets config) w1 ks w2 -> Forall not_negative_counts ks -> counts_ok (sum_counts ks) ->
      exists text, run = (Ret 0, mkConsole w2 (stdout s ++ text)) /\
        read_pairs text = zip monitoring_names (fields (sum_counts ks))) /\
    (forall e s', (on_world (makeAdminCluster (id config));; do_operation continue_execution config) s = (Throw e, s') ->
      run = (Ret 1, mkConsole (world s') (stdout s' ++ line (str "Encountered Exception: " ++ what e)))))).
Proof.
  intros run. split.
  - intros E. unfold run, main. rewrite E. done.
  - intros config Eor. destruct (tool_arguments config) as [Hread Hacc].
    assert (parseArguments arguments = Some config) as E by (destruct Eor as [?|(-> & ? & ?)]; [done|by apply Hread]).
    split; [exact (Hacc _ E)|]. intros Hv.
    assert (run = guarded_operation continue_execution what makeAdminCluster config s) as Erun.
    { unfold run, main. rewrite E. unfold register_log, mshouldLog. rewrite (proj2 (Z.leb_gt _ _) Hv). done. }
    split.
    + intros w1 ks w2 Ho Hm Emk Hcalls Hks Hok. exists (monitoring_results (sum_counts ks)). split_and!.
      * rewrite Erun. unfold guarded_operation, try_catch. destruct s as [w out]. cbn [world stdout] in *.
        assert (on_world (makeAdminCluster (id config)) (mkConsole w out) = (Ret tt, mkConsole w1 out)) as Eon
          by (unfold on_world, zoom; cbn; by rewrite Emk).
        rewrite (bind_ret _ _ _ _ _ Eon). unfold do_operation.
        rewrite bool_decide_eq_false_2 by (intros Hop; by rewrite Hop in Ho).
        assert (not_negative_counts no_keys) as Hno by by repeat constructor.
        assert (counts_ok (plus_counts no_keys (sum_counts ks))) as Hok' by by destruct (sum_counts ks).
        rewrite bind_assoc, (bind_ret _ _ _ _ _ (do_targets_sum continue_execution config _ _ _ _ 0 no_keys out Hcalls Ho Hm Hno Hks Hok')).
        cbv beta iota. rewrite bool_decide_eq_false_2 by (intros Hop; by rewrite Hop in Ho). unfold printResults. rewrite Hm.
        by destruct (sum_counts ks).
      * by apply read_monitoring_results.
    + intros e s' Et. rewrite Erun. unfold guarded_operation, try_catch.
      assert ((on_world (makeAdminCluster (id config));; do_operation continue_execution config;; mret 0) s = (Throw e, s')) as ->; [|done].
      revert Et. rewrite !bind_unfold. destruct (on_world _ s) as [[[]|e'| |] s1]; try (by intros; simplify_eq).
      rewrite bind_unfold. destruct (do_operation continue_execution config s1) as [[[]|e'| |] s2]; intros; by simplify_eq.
Qed.

(** A scan of the metadata keys of two files on simulated drives. *)
Module Tool_example.
Definition admin : AdminClusterInterface (KineticCluster Simulator.sim) :=
  @kinetic_admin _ Simulator.sim_env Status_example.sim_connections Simulator.sim_status_int Example_.crc IsaSim.isa 5 (fun _ => 0%nat)
    (fun _ _ l => l) Status_example.options (fun _ => true).
Definition arguments : list bytes := [str "scan"; str "--id"; str "C1"; str "--target"; str "metadata"; str "-m"].
Definition main_ : M (console (KineticCluster Simulator.sim)) Z :=
  @main _ admin (fun _ _ => true) (fun _ => str "error") (str "1.0") (fun _ => mret tt) arguments.
Definition counts : KeyCounts := mkKeyCounts 2 0 0 0 0 0.
End Tool_example.

Lemma tool_report_witness :
  exists w text, Tool_example.main_ (mkConsole Admin_example.files []) = (Ret 0, mkConsole w text) /\
    read_pairs text = zip monitoring_names [2; 0; 0; 0; 0; 0].
Proof.
  destruct (parseArguments Tool_example.arguments) as [config|] eqn:E; [|vm_compute in E; discriminate E].
  destruct (@tool_report _ Tool_example.admin (fun _ _ => true) (fun _ => str "error") (str "1.0") (fun _ => mret tt) Tool_example.arguments
    (mkConsole Admin_example.files [])) as [_ Hrun].
  assert (config = mkConfiguration SCAN [METADATA] (str "C1") (str "default") [] [] 1 LOG_WARNING 0 true) as ->
    by (vm_compute in E; injection E as <-; vm_compute; reflexivity).
  destruct (Hrun _ (or_introl E)) as [_ Hrun']. destruct Hrun' as [Hgood _]; [vm_compute; reflexivity|].
  destruct (@counts_call _ Tool_example.admin (fun _ _ => true) (mkConfiguration SCAN [METADATA] (str "C1") (str "default") [] [] 1 LOG_WARNING 0 true)
    METADATA Admin_example.files) as [o w] eqn:Ec.
  assert (o = Ret Tool_example.counts) as -> by (change o with (fst (o, w)); rewrite <- Ec; vm_compute; reflexivity).
  destruct (Hgood Admin_example.files [Tool_example.counts] w) as (text & Em & Er); [reflexivity..| | | |].
  - eapply calls_cons; [exact Ec|apply calls_nil].
  - apply Forall_singleton. unfold not_negative_counts, fields. cbn. repeat (apply Forall_cons_2; [lia|]). apply Forall_nil_2.
  - unfold counts_ok, fields, INT_MAX. cbn. repeat (apply Forall_cons_2; [lia|]). apply Forall_nil_2.
  - exists w, text. split; [exact Em|exact Er].
Defined.
